(* ===== verification/_CoqProject ===== *)
-Q . S2P
Prelude.v
Strconv.v
GoStd.v
MockClock.v
ZTest.v
Level.v
Flag.v
AtomicLevel.v
WriteSyncer.v
Bufio.v
BufferedWriteSyncer.v
Buffer.v
Sampler.v
JsonString.v
Encode.v
Field.v
FieldTyping.v
Entry.v
EncoderConfig.v
JsonEncoder.v
JsonPool.v
JsonTree.v
JsonRefinement.v
JsonLines.v
MemoryEncoder.v
ConsoleEncoder.v
Core.v
CoreSpec.v
CoreDelivery.v
EntryPool.v
Observer.v
Stacktrace.v
Logger.v
LoggerSpec.v
LogCall.v
LogFile.v
LogWith.v
LogSample.v
LogThreads.v
Exit.v
Sugar.v
SugarSpec.v
Grpc.v
ZapIO.v
Sink.v
Config.v
LogConfig.v
Zaptest.v
Global.v
Zapslog.v
Readme.v
