(* ===== verification/Prelude.v ===== *)
(** A verification development for zap, the structured logging library in Go under src/.

    * The program

    A logging call goes through these parts, each modelled by the files named with it:

    - the front ends: [Logger] (logger.go, options.go), [SugaredLogger] (sugar.go), the
      line writer (zapio/writer.go), the handler for log/slog (exp/zapslog), the logger
      for gRPC (zapgrpc) and the global and standard-library loggers (global.go).  They
      decide whether an entry is logged, annotate it with caller and stack
      (internal/stacktrace) and end the call: return, panic or exit;
    - cores (zapcore/core.go, tee.go, hook.go, lazy_with.go, increase_level.go, sampler.go,
      zaptest/observer): [Check] collects the cores that want the entry in a
      [CheckedEntry] (zapcore/entry.go), whose [Write] runs them;
    - encoders (zapcore/json_encoder.go, console_encoder.go, memory_encoder.go, configured
      by zapcore/encoder.go) turn the entry and its fields (field.go, array.go, error.go,
      zapcore/field.go, zapcore/error.go) into bytes in pooled buffers (buffer,
      internal/pool, internal/bufferpool) or maps;
    - write syncers (zapcore/write_syncer.go, writer.go, zapcore/buffered_write_syncer.go)
      take the bytes to their destination, with locks, fan-out and buffering;
    - levels (zapcore/level.go, level.go, http_handler.go) say what is enabled;
    - the configuration (config.go) and the registries of sinks and encoders (sink.go,
      encoder.go) put all of this together;
    - test support: loggers and observers for tests (zaptest), the mock clock and the
      spies behind them (internal/ztest), and the exit of the process (internal/exit);
    - tools: the generator of the README (internal/readme), flags (flag.go).

    * The files

    Each file but this one and GoStd.v has one Module of its name.  Definitions keep the
    names of the source; a method of a type with several implementations has the type as a prefix
    ([ioCore_Write]), and an underscore is appended where a name is taken ([Level_]).

    - Prelude.v (this file): bytes, integers at their width ([wrapU], [wrapS]), errors,
      the interface [Multierr] of go.uber.org/multierr with its laws [MultierrSpec],
      outcomes of calls ([Ret], [Panic], [Diverge]), and lemmas shared by all files.
    - Strconv.v, GoStd.v, Bufio.v: the standard library that the code uses.  What depends
      on tables or on shortest float printing is the class [GoStd].
    - MockClock.v, ZTest.v: internal/ztest, a clock whose time the test advances, with its
      tickers, and the spies for writers.
    - Level.v, Flag.v, AtomicLevel.v: levels and their text; levels as flags; atomic levels
      as cells of a heap and the HTTP endpoint.
    - WriteSyncer.v: the wrappers of write syncers.
    - BufferedWriteSyncer.v: the buffered syncer as a record of state, one function per
      critical section, and a step relation for the interleaving of clients, ticker,
      flush loop and [Stop].
    - Buffer.v: buffers and pools over a heap, as a transition system of clients.
    - Sampler.v: counters, windows and the decision, both as a sequential function and as
      its atomic operations.
    - JsonString.v, JsonEncoder.v: escaping, and every method of the JSON encoder over
      one byte buffer.  JsonTree.v is the abstract specification (the grammar of RFC 8259
      on one line, and an encoder that builds trees); JsonRefinement.v proves the refinement, and
      JsonLines.v composes it with the buffered syncer.  JsonPool.v: the same encoder with
      its pool and the members that survive in it, refined to JsonEncoder.v.
    - Encode.v: the interface between values and encoders, as the class [Encoders];
      marshalers are programs over it.  Field.v: fields and all their constructors;
      FieldTyping.v: what the constructors promise to [AddTo] and [Equals].
    - Entry.v, EncoderConfig.v: entries and callers; the configurable encoders of levels,
      times, durations, callers and names.
    - MemoryEncoder.v, ConsoleEncoder.v: the other two encoders.
    - Core.v: all cores, checked entries and the observer, in a monad over the store that
      they share.  CoreSpec.v and CoreDelivery.v: their properties.  Observer.v: the
      queries on observed logs.  EntryPool.v: checked entries as objects of a heap that
      their pool hands out again, refined to the values of Core.v.
    - Stacktrace.v: capturing and printing stacks.
    - Logger.v, LoggerSpec.v, Sugar.v, SugarSpec.v: the two loggers and their properties.
    - LogCall.v, LogFile.v, LogWith.v, LogSample.v, LogConfig.v: the parts together, each
      file with a specification of whole calls or programs and the proof that the code
      does it: one call ([callSpec]), the contents of a log file ([history]), contexts
      eager and lazy, programs with samplers and changing levels ([programSpec]), and
      loggers built from a configuration ([configuredSpec]).
    - LogThreads.v: a call as the sequence of its accesses to what goroutines share
      ([advance]), and programs of many goroutines as interleavings of such steps with the
      flush loop and with changes of levels ([running]).
    - Exit.v: the exit function and its stubs.
    - Grpc.v, ZapIO.v, Zapslog.v, Global.v: the other front ends.
    - Sink.v, Config.v: the registries, [Open], and building a logger from a
      configuration.
    - Zaptest.v: loggers that write to a test.  Readme.v: the tables of the README.

    * What the theorems show

    - Encoding: each line of the JSON encoder is the rendering of the tree of members
      that the same calls build, hence one valid JSON object, for every marshaler
      ([EncodeEntry_renders]); strings read back as they were ([escape_roundtrip],
      [safeAppendStringLike_escape]); the console line is metadata, JSON context, stack
      ([console_line]); namespaces of the map encoder do not leak
      ([namespaces_isolated]); values logged through [Any] arrive as they are
      ([any_scalar_roundtrip]); the constructors keep the contract between the tag of a
      field and its contents, so that logging a field panics only in the program's own
      methods ([constructed_fields_sound], [error_fields_never_panic]).
    - Buffered writes, in every reachable state of the concurrent system: no byte is
      lost, doubled or reordered ([bytes_conserved]), messages are not split
      ([messages_never_split], [write_flushes_at_most_once]), errors are not forgotten
      ([flush_error_is_sticky], [sync_nil_delivers_all]), and shutting down neither
      deadlocks nor runs twice, and flushes at the end ([stop_never_deadlocks],
      [stop_runs_once]).
    - The parts together: a call writes one line to every output that its level reaches,
      whatever fails on the way, and reports the failures ([log_call_effect]); a context is
      as good as fields, eager or lazy ([with_transparent]); sampled programs log what the
      windows of their times let through ([sampled_logging]); a log file is always whole
      lines of valid JSON, those of the enabled calls in order, and all of them after a
      [Sync] ([log_file_is_the_log], from [json_log_whole_lines]), also when goroutines log
      at the same time and at any grain of interleaving, each with its own lines in its own
      order ([goroutines_log_to_one_file], with [call_in_steps]: the steps are the code); and
      a logger built from a configuration does what one reads off the configuration
      ([configured_logging]).
    - Buffers from pools are private and empty ([pool_buffers_private]); encoders and
      checked entries from their pools are as good as new ([encoder_reuse_invisible],
      [entry_reuse_invisible]), and the use of an entry after its [Write] is detected.
    - Sampling is by windows ([sampler_refines_windows], [window_sampled_count]: the first N
      of a window and every Mth after them, [kept]) and its atomic code always finishes
      ([IncCheckReset_wait_free]).
    - Cores: every method finishes or panics in a marshaler ([core_methods_total]);
      entries reach exactly the right observers with the right fields ([log_delivery]);
      lazy fields are evaluated once, when the level does not decide, and as eager ones
      ([lazy_fields_once], [lazy_write_is_eager]); levels
      are never lowered ([increase_level_never_lowers]); an entry is used once
      ([checked_entry_single_use]).
    - Loggers: every call ends as its level demands ([log_call_ending]), costs nothing
      when disabled ([disabled_log_is_free]), names its call site
      ([caller_is_call_site], [Take_prints_all], [TrimmedPath_last_two]); the sugared
      logger, the line writer, the slog handler and the gRPC logger log what they should
      ([sugar_logs_as_logger], [writer_logs_lines], [slog_groups_nest],
      [grpc_logs_as_zap]).
    - Tests: a test's logger writes each entry to the test's log once and fails the test
      only for zap's own errors ([zaptest_logs_line]); the context of an observed entry
      is a map in which the last value wins ([context_map_last_wins]); a stubbed exit is
      contained and restored ([with_stub_contains_exit]); a mock ticker is on time
      ([mock_ticker_on_time]).
    - Set-up: a configuration builds the logger it describes, or fails with everything
      closed ([build_obeys_config], [open_all_or_nothing], [register_sink_adds],
      [combine_write_all]); the HTTP endpoint does what its documentation says
      ([ServeHTTP_level]), and levels parse as they print ([level_text_roundtrip]); the
      README's tables do not depend on map order or the sort ([readme_table_deterministic]).
    - Some theorems record where the code departs from its documentation:
      [hook_runs_although_declined], [diagnostic_caller_is_sugar],
      [multi_write_not_smallest], [mock_clock_one_tick_each], and the exception for
      [Fatalln] in [grpc_logs_as_zap].

    * Bounds and fuel

    Loops that are not structural take fuel that their callers fix from the input: the
    escaping loop the length of the string, as it moves at least a byte each time
    ([safeAppendStringLike_escape] shows that it always ends); the loop of
    [bufio.Writer.Write] and that of [zapio.Writer.Write] likewise, by the length of the
    data; the growing storage of a stack capture one more than the number of frames, as
    it doubles ([Take_prints_all]); decimal digits one more than the binary logarithm.
    The loop of [MockClock.Add] takes its fuel as an argument, because with a period of
    zero it does not end; the number of ticks that are due is enough
    ([mock_ticker_on_time]).  The methods of cores take a depth, 1, for entering a lazily
    built core: what it builds has no lazy core in it, so one level is enough
    ([core_methods_total]).  Running out of fuel is [Diverge], and the theorems on
    totality exclude it.

    * Assumptions

    Code that is not under src/ enters as arguments: [Multierr] with [MultierrSpec], the
    reflection-based JSON encoder ([ReflectedEncoder]), [url.Parse], [os.OpenFile], the
    clocks, [fmt.Sprint] on arbitrary values, [reflect.DeepEqual] and Go's [==] on structs,
    the methods of a test ([TestingT]), [sort.Sort] with its documented contract, and
    [runtime.Callers] as a prefix of the goroutine's frames.  What the JSON encoder relies on
    is the record [Documented] of JsonRefinement.v: finite floats are printed as numbers,
    time layouts in use print what can stand between quotes in JSON, the reflected
    encoder writes a JSON value on one line, as encoding/json does, and the functions of an
    [EncoderConfig] make at most one call.  A call under a mutex is one step, and so is an
    atomic load; between them a call touches only what is its own.

    * Not modelled

    A panic ends a run of the model: what a program finds that recovers from one and goes on
    with the same objects is left out, so a lazy core whose fields panicked in particular.
    (Where the code itself recovers, in zapcore/field.go and zapcore/error.go, that is
    modelled.)  Waiting for a mutex is left out too, and marshalers are values: a marshaler
    that gives something else the second time is two marshalers.
    The function main of internal/readme, which parses flags and calls [do]; running the
    benchmarks and text/template, which are arguments.  zaptest/writer.go and
    zaptest/timeout.go only re-export what ZTest.v models.  The capacity of buffers, the
    reuse of stacks, slice encoders and error elements (each is cleared before it is used again),
    what other goroutines schedule on a mock clock while it is advanced, and data races outside
    the locks and atomics of the code are left out. *)

From Stdlib Require Import ZArith Lia String Strings.Byte.
From Corelib Require Export Init.Byte.
From stdpp Require Export base option numbers list.
From stdpp Require Import countable gmap.

Export String.StringSyntax.

#[export] Set Default Goal Selector "!".

Declare Scope zap_scope.
Delimit Scope zap_scope with zap.

(** * Bytes and Go strings

    A Go [string] and a Go byte slice are both a list of bytes; the model
    only uses their contents. *)

Abbreviation bytes := (list byte).

Definition str (s : String.string) : bytes := String.list_byte_of_string s.
Arguments str s%_string.

#[global] Instance byte_eq_decision : EqDecision byte := Byte.byte_eq_dec.

#[global] Program Instance byte_countable : Countable byte :=
  inj_countable Byte.to_N Byte.of_N _.
Next Obligation. intros b. apply Byte.of_to_N. Qed.

Local Open Scope Z_scope.

(** The numeric value of a byte, and the byte of a number (truncated to 8 bits,
    as Go's conversion [byte(x)]). *)
Definition bval (b : byte) : Z := Z.of_N (Byte.to_N b).

Definition byteZ (z : Z) : byte :=
  default x00 (Byte.of_N (Z.to_N (z mod 256))).

(** [len(s)] as a Go [int]. *)
Definition lenZ {A} (l : list A) : Z := Z.of_nat (length l).

(** * Machine integers: conversions to a width, with their wrap-around *)

Definition wrapU (w z : Z) : Z := z mod 2 ^ w.

Definition wrapS (w z : Z) : Z := (z + 2 ^ (w - 1)) mod 2 ^ w - 2 ^ (w - 1).

Definition int8 := wrapS 8.
Definition int16 := wrapS 16.
Definition int32 := wrapS 32.
Definition int64 := wrapS 64.
Definition uint8 := wrapU 8.
Definition uint16 := wrapU 16.
Definition uint32 := wrapU 32.
Definition uint64 := wrapU 64.

Definition inU (w z : Z) : Prop := 0 <= z < 2 ^ w.
Definition inS (w z : Z) : Prop := - 2 ^ (w - 1) <= z < 2 ^ (w - 1).

(** * Errors

    A Go [error] is [None] for nil and [Some e] otherwise.  An error value is
    what the program can observe of it: what [Error()] does (return a message, or
    panic on a nil or on a live receiver) and which of the interfaces that the
    encoders probe for it implements: the error group of go.uber.org/multierr
    ([Errors()], which may panic, on a receiver that is a nil pointer or on another
    with a value), or [fmt.Formatter] (with the text that [fmt.Sprintf("%+v")] gives,
    which recovers from a panic of [Format] itself). *)

Inductive call_result : Type :=
| Returns (text : bytes)
| PanicsNil
| Panics (value : bytes).

Inductive err : Type :=
| Err (call : call_result) (impl : err_impl)
with err_impl : Type :=
| Plain
| Formatter (verbose : bytes)
| Group (errors : list (option err))
| GroupPanicsNil
| GroupPanics (value : bytes).

Abbreviation error := (option err).

(** [errors.New] and the errors [fmt.Errorf] makes. *)
Definition New_error (msg : bytes) : err := Err (Returns msg) Plain.

(** The message of an error whose [Error()] returns. *)
Definition Error_text (e : err) : bytes :=
  match e with
  | Err (Returns t) _ => t
  | Err _ _ => []
  end.

(** go.uber.org/multierr is a dependency outside the repository.  The program
    relies on [Append] and on the fact that the errors of a combined error are
    those of its parts, in order. *)
Class Multierr := {
  multierr_Append : error -> error -> error;
  multierr_Errors : error -> list err
}.

Class MultierrSpec (M : Multierr) : Prop := {
  Append_nil_l : forall r, multierr_Append None r = r;
  Append_nil_r : forall l, multierr_Append l None = l;
  Errors_nil : multierr_Errors None = [];
  Errors_some : forall e, multierr_Errors (Some e) <> [];
  Errors_Append : forall l r, multierr_Errors (multierr_Append l r) = multierr_Errors l ++ multierr_Errors r
}.

(** * Outcomes

    What a call can do besides returning: panic with a value, or not return.
    [Diverge] is also what a loop bounded by fuel yields when the fuel runs out;
    the theorems show where it cannot happen. *)

Inductive outcome (A : Type) : Type :=
| Ret (a : A)
| Panic (value : bytes)
| Diverge.
Arguments Ret {A} a.
Arguments Panic {A} value.
Arguments Diverge {A}.

Definition obind {A B} (m : outcome A) (f : A -> outcome B) : outcome B :=
  match m with
  | Ret a => f a
  | Panic v => Panic v
  | Diverge => Diverge
  end.

Definition omap_ret {A B} (f : A -> B) (m : outcome A) : outcome B :=
  obind m (fun a => Ret (f a)).

Notation "'let!' x := m 'in' k" := (obind m (fun x => k))
  (at level 200, x pattern, m at level 100, k at level 200, right associativity) : zap_scope.

Lemma obind_Ret_inv {A B} (m : outcome A) (f : A -> outcome B) b :
  obind m f = Ret b -> exists a, m = Ret a /\ f a = Ret b.
Proof. destruct m; simpl; [eauto|done..]. Qed.

(** * Generic lemmas *)

Lemma wrapU_id w z : inU w z -> wrapU w z = z.
Proof. intros H. apply Z.mod_small, H. Qed.

Lemma wrapU_range w z : 0 <= w -> inU w (wrapU w z).
Proof. intros H. apply Z.mod_pos_bound, Z.pow_pos_nonneg; lia. Qed.

Lemma wrapS_id w z : 0 < w -> inS w z -> wrapS w z = z.
Proof.
  unfold wrapS, inS. intros Hw H.
  assert (2 ^ w = 2 * 2 ^ (w - 1)) as E.
  { rewrite <- Z.pow_succ_r by lia. f_equal. lia. }
  rewrite Z.mod_small; lia.
Qed.

Lemma wrapS_range w z : 0 < w -> inS w (wrapS w z).
Proof.
  unfold wrapS, inS. intros Hw.
  assert (2 ^ w = 2 * 2 ^ (w - 1)) as E.
  { rewrite <- Z.pow_succ_r by lia. f_equal. lia. }
  pose proof (Z.mod_pos_bound (z + 2 ^ (w - 1)) (2 ^ w)).
  assert (0 < 2 ^ (w - 1)) by (apply Z.pow_pos_nonneg; lia). lia.
Qed.

(** Reading the bits of a signed integer as an unsigned one of the same width
    and back is the identity, in both directions: the [Field] union stores
    unsigned values and float bits in its [int64] member. *)
Lemma wrapU_wrapS w z : 0 < w -> inU w z -> wrapU w (wrapS w z) = z.
Proof.
  unfold wrapU, wrapS, inU. intros Hw H.
  rewrite Zminus_mod_idemp_l.
  replace (z + 2 ^ (w - 1) - 2 ^ (w - 1)) with z by lia.
  apply Z.mod_small. lia.
Qed.

Lemma wrapS_wrapU w z : 0 < w -> inS w z -> wrapS w (wrapU w z) = z.
Proof.
  intros Hw H. unfold wrapS at 1, wrapU.
  rewrite Zplus_mod_idemp_l. apply (wrapS_id w z Hw H).
Qed.

Lemma bval_range b : 0 <= bval b < 256.
Proof. unfold bval. pose proof (Byte.to_N_bounded b). lia. Qed.

Lemma byteZ_bval b : byteZ (bval b) = b.
Proof.
  unfold byteZ. pose proof (bval_range b). rewrite Z.mod_small by lia.
  unfold bval. rewrite N2Z.id, Byte.of_to_N. reflexivity.
Qed.

Lemma bval_byteZ z : 0 <= z < 256 -> bval (byteZ z) = z.
Proof.
  intros H. unfold byteZ. rewrite Z.mod_small by lia.
  destruct (Byte.of_N (Z.to_N z)) eqn:E.
  - apply Byte.to_of_N in E. simpl. unfold bval. lia.
  - apply Byte.of_N_None_iff in E. lia.
Qed.

Lemma bval_inj a b : bval a = bval b -> a = b.
Proof. intros H. rewrite <- (byteZ_bval a), <- (byteZ_bval b). congruence. Qed.

Lemma lenZ_app {A} (l k : list A) : lenZ (l ++ k) = lenZ l + lenZ k.
Proof. unfold lenZ. rewrite length_app. lia. Qed.

Lemma lenZ_nonneg {A} (l : list A) : 0 <= lenZ l.
Proof. unfold lenZ. lia. Qed.

Lemma lenZ_nil_inv {A} (l : list A) : lenZ l = 0 -> l = [].
Proof. destruct l; [done|]. unfold lenZ. simpl. lia. Qed.

Lemma concat_snoc {A} (l : list (list A)) x : concat (l ++ [x]) = concat l ++ x.
Proof. rewrite concat_app. simpl. rewrite app_nil_r. reflexivity. Qed.

Section multierr.
Context {M : Multierr} {S : MultierrSpec M}.

(** A combined error is nil exactly when both parts are. *)
Lemma Append_None l r : multierr_Append l r = None <-> l = None /\ r = None.
Proof.
  split.
  - intros H. pose proof (Errors_Append l r) as E. rewrite H, Errors_nil in E.
    symmetry in E. apply app_eq_nil in E as [El Er].
    destruct l; [by apply Errors_some in El|].
    destruct r; [by apply Errors_some in Er|]. done.
  - intros [-> ->]. apply Append_nil_l.
Qed.
End multierr.

(** A concrete combiner with the documented behaviour, used where a theorem
    about every combiner is applied to one. *)
Definition flat_errors (e : err) : list err :=
  match e with
  | Err _ (Group es) =>
      match omap (M := list) id es with
      | [] => [e]
      | es' => es'
      end
  | _ => [e]
  end.

Definition joined_text (es : list err) : bytes :=
  concat (map (fun e => Error_text e ++ str "; ") es).

Definition flat_multierr : Multierr := {|
  multierr_Append l r :=
    match l, r with
    | None, _ => r
    | _, None => l
    | Some a, Some b =>
        let es := flat_errors a ++ flat_errors b in
        Some (Err (Returns (joined_text es)) (Group (map Some es)))
    end;
  multierr_Errors e :=
    match e with
    | None => []
    | Some a => flat_errors a
    end
|}.

Lemma omap_id_map_Some {A} (l : list A) : omap (M := list) id (map Some l) = l.
Proof. induction l as [|x l IH]; [done|]. simpl. f_equal. apply IH. Qed.

Lemma flat_errors_not_nil e : flat_errors e <> [].
Proof. destruct e as [c [|v|es| |v]]; simpl; try done. by case_match. Qed.

Lemma flat_multierr_spec : MultierrSpec flat_multierr.
Proof.
  split.
  - done.
  - by intros [?|].
  - done.
  - intros e. apply flat_errors_not_nil.
  - intros [a|] [b|]; simpl; rewrite ?app_nil_r; try done.
    rewrite omap_id_map_Some. case_match eqn:E; [|done].
    apply app_eq_nil in E as [E _]. by apply flat_errors_not_nil in E.
Qed.

(** * Automation shared by the components *)

Create HintDb zap discriminated.

#[export] Hint Resolve lenZ_nonneg wrapU_range wrapS_range bval_range : zap.

Create Rewrite HintDb zap_len.
#[export] Hint Rewrite @length_app @length_take @length_drop @length_nil @length_cons : zap_len.

(** Length goals: push [length] through the list operations, then arithmetic. *)
Ltac len := unfold lenZ in *; autorewrite with zap_len in *; try lia.

(** Split every [if] and every [match] in the goal on a boolean comparison,
    turning the comparison into arithmetic. *)
Ltac split_ifs :=
  repeat match goal with
  | |- context [if ?b then _ else _] => destruct b eqn:?
  | H : context [if ?b then _ else _] |- _ => destruct b eqn:?
  end.
