(* ===== verification/Strconv.v ===== *)
(** The standard library's number formatting that buffer/buffer.go, zapcore/level.go
    and zapcore/entry.go use: [strconv.AppendInt] and [AppendUint] in base 10 and
    [AppendBool].

    The text functions of the standard library that depend on large tables or on
    floating-point printing are the methods of the class [GoStd] (GoStd.v): every
    definition that calls one is a function of it. *)

From Stdlib Require Import ZArith Lia.
From S2P Require Import Prelude.
From stdpp Require Import base list.

Local Open Scope Z_scope.

Module Strconv.

(** The digit [d] in base 10, [0 <= d < 10]. *)
Definition digit (d : Z) : byte := byteZ (48 + d).

Fixpoint formatBits (fuel : nat) (u : Z) (acc : bytes) : bytes :=
  match fuel with
  | O => acc
  | S fuel =>
      let acc := digit (u mod 10) :: acc in
      if u <? 10 then acc else formatBits fuel (u / 10) acc
  end.

(** One iteration per decimal digit: at most one more than the binary logarithm. *)
Definition uitoa (u : Z) : bytes := formatBits (S (Z.to_nat (Z.log2 u))) u [].

(** [strconv.FormatInt(i, 10)], the text that [AppendInt] appends and that the
    verb [%d] prints. *)
Definition itoa (i : Z) : bytes := if i <? 0 then x2d :: uitoa (- i) else uitoa i.

Definition AppendBool_text (b : bool) : bytes := if b then str "true" else str "false".

(** Reading a decimal number back: the specification of [itoa]. *)
Definition digit_value (b : byte) : option Z :=
  let d := bval b - 48 in if (0 <=? d) && (d <? 10) then Some d else None.

Fixpoint parse_digits (s : bytes) (acc : Z) : option Z :=
  match s with
  | [] => Some acc
  | b :: s' =>
      match digit_value b with
      | Some d => parse_digits s' (10 * acc + d)
      | None => None
      end
  end.

Definition atoi (s : bytes) : option Z :=
  match s with
  | [] => None
  | b :: s' =>
      if decide (b = x2d) then match s' with [] => None | _ => Z.opp <$> parse_digits s' 0 end
      else parse_digits s 0
  end.

Lemma digit_value_digit d : 0 <= d < 10 -> digit_value (digit d) = Some d.
Proof.
  intros H. unfold digit_value, digit. rewrite bval_byteZ by lia.
  replace (48 + d - 48) with d by lia.
  rewrite (proj2 (Z.leb_le 0 d)), (proj2 (Z.ltb_lt d 10)) by lia. done.
Qed.

Definition is_digit (b : byte) : Prop := is_Some (digit_value b).

Lemma digit_is_digit d : 0 <= d < 10 -> is_digit (digit d).
Proof. intros H. exists d. by apply digit_value_digit. Qed.

Lemma log2_div10 u : 10 <= u -> Z.log2 (u / 10) < Z.log2 u.
Proof.
  intros H.
  assert (u / 10 <= u / 2 ^ 3) as Hd by (apply Z.div_le_compat_l; lia).
  apply Z.log2_le_mono in Hd.
  assert (Z.log2 (u / 2 ^ 3) = Z.max 0 (Z.log2 u - 3)) as E.
  { rewrite <- Z.shiftr_div_pow2 by lia. apply Z.log2_shiftr. lia. }
  assert (3 <= Z.log2 u) by (apply (Z.log2_le_mono 8); lia). lia.
Qed.

(** [formatBits] prepends the digits of [u], which parse to [u]. *)
Lemma formatBits_spec fuel u acc :
  0 <= u -> Z.log2 u < Z.of_nat fuel ->
  exists ds, formatBits fuel u acc = ds ++ acc /\ ds <> [] /\ Forall is_digit ds /\
    forall a s, parse_digits (ds ++ s) a = parse_digits s (10 ^ lenZ ds * a + u).
Proof.
  revert u acc. induction fuel as [|fuel IH]; intros u acc Hu Hf.
  { pose proof (Z.log2_nonneg u). lia. }
  simpl. pose proof (Z.mod_pos_bound u 10 ltac:(lia)) as Hm.
  destruct (Z.ltb_spec u 10) as [Hlt|Hge].
  - exists [digit (u mod 10)]. repeat split; [done|by repeat constructor; apply digit_is_digit|].
    intros a s. simpl. rewrite digit_value_digit by lia. f_equal.
    rewrite Z.mod_small by lia. unfold lenZ. simpl. lia.
  - destruct (IH (u / 10) (digit (u mod 10) :: acc)) as (ds & Heq & Hne & Hdig & Hp).
    { apply Z.div_pos; lia. }
    { pose proof (log2_div10 u). lia. }
    exists (ds ++ [digit (u mod 10)]). split; [by rewrite Heq, <- app_assoc|].
    split; [by destruct ds|]. split.
    { apply Forall_app. split; [done|]. by repeat constructor; apply digit_is_digit. }
    intros a s. rewrite <- app_assoc, Hp. simpl. rewrite digit_value_digit by lia. f_equal.
    rewrite lenZ_app, Z.pow_add_r by apply lenZ_nonneg.
    change (10 ^ lenZ [digit (u mod 10)]) with 10. pose proof (Z.div_mod u 10).
    replace (10 ^ lenZ ds * 10 * a) with (10 * (10 ^ lenZ ds * a)) by ring. lia.
Qed.

Lemma uitoa_spec u :
  0 <= u -> uitoa u <> [] /\ Forall is_digit (uitoa u) /\ parse_digits (uitoa u) 0 = Some u.
Proof.
  intros Hu. unfold uitoa.
  destruct (formatBits_spec (S (Z.to_nat (Z.log2 u))) u []) as (ds & -> & Hne & Hdig & Hp).
  - done.
  - pose proof (Z.log2_nonneg u). lia.
  - rewrite app_nil_r. split; [done|]. split; [done|].
    specialize (Hp 0 []). rewrite app_nil_r in Hp. rewrite Hp. simpl. f_equal. lia.
Qed.

(** The text of a number is a JSON number: an optional minus sign and digits. *)
Lemma itoa_shape i :
  exists ds, (itoa i = ds \/ itoa i = x2d :: ds) /\ ds <> [] /\ Forall is_digit ds.
Proof.
  unfold itoa. destruct (Z.ltb_spec i 0) as [H|H].
  - destruct (uitoa_spec (- i)) as (? & ? & ?); [lia|]. eauto.
  - destruct (uitoa_spec i) as (? & ? & ?); [lia|]. eauto.
Qed.

Lemma atoi_itoa_eq i : atoi (itoa i) = Some i.
Proof.
  unfold itoa. destruct (Z.ltb_spec i 0) as [H|H].
  - destruct (uitoa_spec (- i)) as (Hne & _ & Hp); [lia|].
    unfold atoi. rewrite decide_True by done.
    destruct (uitoa (- i)) as [|b ds]; [done|]. rewrite Hp. simpl. f_equal. lia.
  - destruct (uitoa_spec i) as (Hne & Hdig & Hp); [lia|].
    destruct (uitoa i) as [|b ds]; [done|]. apply Forall_cons in Hdig as [[d Hd] _].
    unfold atoi. rewrite decide_False; [done|]. by intros ->.
Qed.
End Strconv.
