(* ===== verification/GoStd.v ===== *)
(** Values of the standard library that the program passes around: times,
    durations and floating-point numbers, and the text functions over them.

    A [time.Time] is the exact number of nanoseconds since the Unix epoch with
    the name of its location; [UnixNano] reduces it to an [int64] as Go does.  A
    [float64] or [float32] is its IEEE 754 bit pattern, an unsigned integer of 64
    or 32 bits.

    The functions of the standard library that depend on large tables (Unicode,
    time zones) or on shortest float printing are the methods of the class
    [GoStd]: every definition that calls one is a function of it. *)

From Stdlib Require Import ZArith Lia.
From S2P Require Import Prelude.
From stdpp Require Import base list.

Local Open Scope Z_scope.

(** * Time *)

Record Time := mkTime { nanos : Z; location : bytes }.

#[global] Instance Time_eq_decision : EqDecision Time.
Proof. solve_decision. Defined.

Definition UTC : bytes := str "UTC".
Definition Local_location : bytes := str "Local".

(** January 1, year 1, 00:00:00 UTC, the zero [time.Time]. *)
Definition zeroTime : Time := mkTime (-62135596800 * 1000000000) UTC.

(** [t.IsZero()] compares instants, not locations. *)
Definition IsZero (t : Time) : bool := nanos t =? nanos zeroTime.

Definition UnixNano (t : Time) : Z := int64 (nanos t).

(** [time.Unix(0, ns)] is in the local time zone. *)
Definition Unix0 (ns : Z) : Time := mkTime ns Local_location.

(** [t.In(loc)]. *)
Definition In_location (t : Time) (loc : bytes) : Time := mkTime (nanos t) loc.

Definition Before (t u : Time) : bool := nanos t <? nanos u.
Definition After (t u : Time) : bool := nanos u <? nanos t.

Definition Second : Z := 1000000000.
Definition Millisecond : Z := 1000000.

(** * Floats as bit patterns *)

(** The exponent field of a [float64] is 11 bits wide, its fraction 52. *)
Definition f64_exp (f : Z) : Z := (f / 2 ^ 52) mod 2 ^ 11.
Definition f64_frac (f : Z) : Z := f mod 2 ^ 52.
Definition f64_sign (f : Z) : bool := Z.testbit f 63.

Definition IsNaN (f : Z) : bool := (f64_exp f =? 2047) && negb (f64_frac f =? 0).

(** [math.IsInf(f, sign)] for [sign] 1 and -1. *)
Definition IsInf (f : Z) (sign : Z) : bool :=
  (f64_exp f =? 2047) && (f64_frac f =? 0) &&
  (if 0 <? sign then negb (f64_sign f) else f64_sign f).

(** [f >= 0]: false for NaN, true for both zeros. *)
Definition f64_ge0 (f : Z) : bool :=
  negb (IsNaN f) && (negb (f64_sign f) || ((f64_exp f =? 0) && (f64_frac f =? 0))).

(** * Table-driven functions *)

Class GoStd := {
  (** [strconv.Quote], the verb [%q] on a string. *)
  Quote : bytes -> bytes;
  (** [strconv.QuoteRune], the verb [%q] on a byte or a rune. *)
  QuoteRune : Z -> bytes;
  (** [bytes.ToLower] on text with a byte outside ASCII. *)
  lowerUnicode : bytes -> bytes;
  (** [strconv.AppendFloat(nil, f, 'f', -1, bitSize)]. *)
  formatFloat : Z -> Z -> bytes;
  (** The conversion of a [float32] to a [float64]. *)
  float32to64 : Z -> Z;
  (** The conversion of an integer to a [float64], and [float64] division. *)
  intToFloat64 : Z -> Z;
  float64Div : Z -> Z -> Z;
  (** [float64] multiplication, and the conversion of a [float64] to an [int64]. *)
  float64Mul : Z -> Z -> Z;
  float64ToInt64 : Z -> Z;
  (** [strconv.ParseFloat(s, 64)]. *)
  ParseFloat64 : bytes -> Z + err;
  (** [t.Format(layout)]. *)
  formatTime : Time -> bytes -> bytes;
  (** [t.String()], which the verb [%v] prints. *)
  timeString : Time -> bytes;
  (** [d.String()] of a [time.Duration]. *)
  durationString : Z -> bytes;
  (** [fmt.Sprint] of a float and of a complex number with parts of this size. *)
  sprintFloat : Z -> Z -> bytes;
  sprintComplex : Z * Z -> Z -> bytes
}.

(** * ASCII case *)

Definition isASCII (s : bytes) : bool := forallb (fun b => bval b <? 128) s.

Definition lowerByte (b : byte) : byte :=
  if (65 <=? bval b) && (bval b <=? 90) then byteZ (bval b + 32) else b.

Definition upperByte (b : byte) : byte :=
  if (97 <=? bval b) && (bval b <=? 122) then byteZ (bval b - 32) else b.

(** [bytes.ToLower] and [strings.ToLower]. *)
Definition ToLower `{GoStd} (s : bytes) : bytes :=
  if isASCII s then map lowerByte s else lowerUnicode s.

(** * Substrings *)

Module Strings.

(** [strings.Contains]. *)
Fixpoint Contains (s sub : bytes) : bool :=
  bool_decide (take (length sub) s = sub) ||
  match s with
  | [] => false
  | _ :: s' => Contains s' sub
  end.

(** [strings.Split] at a separator of one byte. *)
Fixpoint Split (sep : byte) (s : bytes) : list bytes :=
  match s with
  | [] => [[]]
  | b :: s' =>
      if decide (b = sep) then [] :: Split sep s'
      else
        match Split sep s' with
        | [] => [[b]]
        | l :: ls => (b :: l) :: ls
        end
  end.

(** [strings.Join]. *)
Definition Join (elems : list bytes) (sep : bytes) : bytes :=
  match elems with
  | [] => []
  | x :: elems' => x ++ concat (map (app sep) elems')
  end.

(** [strings.TrimSuffix]. *)
Definition TrimSuffix (s suffix : bytes) : bytes :=
  let n := (length s - length suffix)%nat in
  if decide (take n s ++ suffix = s) then take n s else s.

(** [bytes.TrimSpace] and [strings.TrimSpace] on ASCII white space; [trimUnicode] is the
    function on other text. *)
Definition isSpace (b : byte) : bool :=
  bool_decide (b ∈ [x20; x09; x0a; x0b; x0c; x0d]).

Fixpoint trimLeft (s : bytes) : bytes :=
  match s with
  | b :: s' => if isSpace b then trimLeft s' else s
  | [] => []
  end.

Definition TrimSpace (trimUnicode : bytes -> bytes) (s : bytes) : bytes :=
  if isASCII s then rev (trimLeft (rev (trimLeft s))) else trimUnicode s.

Lemma Split_nonempty sep s : Split sep s <> [].
Proof. destruct s as [|b s]; simpl; [done|]. case_decide; [done|]. by destruct (Split sep s). Qed.

Lemma Split_app sep l s : sep ∉ l -> Split sep (l ++ sep :: s) = l :: Split sep s.
Proof.
  induction l as [|b l IH]; simpl; intros Hl; [by rewrite decide_True|].
  apply not_elem_of_cons in Hl as [Hb Hl]. rewrite decide_False by done. by rewrite IH.
Qed.
End Strings.
