(* ===== verification/MockClock.v ===== *)
(** The controllable source of time of the tests, internal/ztest/clock.go.

    The only functions that the clock schedules are those of its tickers, so a scheduled
    function is the channel, the period and the time of the tick it stands for.  A
    channel holds at most one time.  While [Add] sleeps, other goroutines receive from
    the channels; what they do is the function [sleep].  [Add] also returns the ticks in
    the order in which it resolved them.  [sort.Slice] leaves the order of equal times
    open; here they keep theirs. *)

From Stdlib Require Import ZArith Lia.
From S2P Require Import Prelude GoStd.
From stdpp Require Import base list sorting.

Local Open Scope Z_scope.
Local Open Scope zap_scope.

Module MockClock.

(** * The clock *)

Record ticker := mkTicker { ch : nat; period : Z }.

(** [until] and [fn]. *)
Record waiter := mkWaiter { until : Time; fn : ticker }.

Record MockClock := mkClock { now : Time; waiters : list waiter }.

(** The channels of the tickers. *)
Abbreviation channels := (list (option Time)).

(** [t.Add(d)] of a [time.Time]. *)
Definition addTime (t : Time) (d : Z) : Time := mkTime (nanos t + d) (location t).

Definition NewMockClock (systemNow : Time) : MockClock := mkClock systemNow [].

Definition Now (c : MockClock) : Time := now c.

Definition runAt (c : MockClock) (t : Time) (f : ticker) : MockClock :=
  mkClock (now c) (waiters c ++ [mkWaiter t f]).

(** [tick]: schedule the tick after [t]. *)
Definition tick (c : MockClock) (f : ticker) (t : Time) : MockClock := runAt c (addTime t (period f)) f.

Definition NewTicker (c : MockClock) (chans : channels) (d : Z) : ticker * MockClock * channels :=
  let f := mkTicker (length chans) d in
  (f, tick c f (Now c), chans ++ [None]).

(** The scheduled function: send without blocking, then schedule the next tick. *)
Definition send (chans : channels) (i : nat) (t : Time) : channels :=
  match chans !! i with
  | Some None => <[i := Some t]> chans
  | _ => chans
  end.

Definition resolve (c : MockClock) (chans : channels) (w : waiter) : MockClock * channels :=
  (tick c (fn w) (until w), send chans (ch (fn w)) (until w)).

Definition notAfter (w1 w2 : waiter) : Prop := nanos (until w1) <= nanos (until w2).

#[global] Instance notAfter_decision w1 w2 : Decision (notAfter w1 w2).
Proof. unfold notAfter. apply _. Defined.

#[global] Instance notAfter_trans : Transitive notAfter.
Proof. unfold notAfter. intros ? ? ?. lia. Qed.

#[global] Instance notAfter_total : Total notAfter.
Proof. unfold notAfter. intros ? ?. lia. Qed.

Section add.
Context (sleep : channels -> channels).

(** The loop of [Add], with the ticks resolved so far. *)
Fixpoint addLoop (fuel : nat) (newTime : Time) (c : MockClock) (chans : channels) (ticks : list waiter)
    : outcome (MockClock * channels * list waiter) :=
  match waiters c with
  | [] => Ret (c, chans, ticks)
  | w :: ws =>
      if After (until w) newTime then Ret (c, chans, ticks)
      else
        match fuel with
        | O => Diverge
        | S fuel =>
            let c := mkClock (until w) ws in
            let '(c, chans) := resolve c chans w in
            addLoop fuel newTime c (sleep chans) (ticks ++ [w])
        end
  end.

Definition Add (fuel : nat) (c : MockClock) (chans : channels) (d : Z)
    : outcome (MockClock * channels * list waiter) :=
  if d <? 0 then Panic (str "cannot add negative duration")
  else
    let c := mkClock (now c) (merge_sort notAfter (waiters c)) in
    let newTime := addTime (now c) d in
    let! (c, chans, ticks) := addLoop fuel newTime c chans [] in
    Ret (mkClock newTime (waiters c), chans, ticks).

(** * Lemmas *)

(** The same ticker's next tick. *)
Definition reschedule (w : waiter) : waiter := mkWaiter (addTime (until w) (period (fn w))) (fn w).

(** What resolving the ticks does to the channels. *)
Definition sendAll (chans : channels) (ticks : list waiter) : channels :=
  foldl (fun chans w => sleep (send chans (ch (fn w)) (until w))) chans ticks.

Lemma sendAll_app chans ts1 ts2 : sendAll chans (ts1 ++ ts2) = sendAll (sendAll chans ts1) ts2.
Proof. apply foldl_app. Qed.

Definition due (newTime : Time) (w : waiter) : Prop := nanos (until w) <= nanos newTime.

Lemma After_due newTime w : due newTime w -> After (until w) newTime = false.
Proof. unfold due, After. intros H. apply Z.ltb_ge. lia. Qed.

Lemma After_undue newTime w : ~ due newTime w -> After (until w) newTime = true.
Proof. unfold due, After. intros H. apply Z.ltb_lt. lia. Qed.

(** The waiters that are due at the front are resolved in order, and their next ticks
    are put behind all others. *)
Lemma addLoop_due ds fuel newTime c chans ticks rest :
  waiters c = ds ++ rest -> Forall (due newTime) ds -> (length ds <= fuel)%nat ->
  exists c', waiters c' = rest ++ map reschedule ds /\
    addLoop fuel newTime c chans ticks =
    addLoop (fuel - length ds) newTime c' (sendAll chans ds) (ticks ++ ds).
Proof.
  revert fuel c chans ticks rest. induction ds as [|w ds IH]; intros fuel c chans ticks rest Hw Hd Hfuel.
  - exists c. rewrite Hw. simpl. by rewrite !app_nil_r, Nat.sub_0_r.
  - apply Forall_cons in Hd as [Hw0 Hd]. destruct fuel as [|fuel]; [simpl in Hfuel; lia|].
    edestruct (IH fuel (resolve (mkClock (until w) (ds ++ rest)) chans w).1
      (sleep (resolve (mkClock (until w) (ds ++ rest)) chans w).2) (ticks ++ [w]) (rest ++ [reschedule w]))
      as (c' & Hc' & E); [simpl; by rewrite <- app_assoc|done|simpl in Hfuel; lia|].
    exists c'. split; [by rewrite Hc', <- app_assoc|].
    cbn [addLoop]. rewrite Hw. cbn [app]. rewrite After_due by done. cbn [resolve fst snd] in *. rewrite E. simpl.
    by rewrite <- app_assoc.
Qed.

Lemma addLoop_stops fuel newTime c chans ticks :
  match waiters c with [] => True | w :: _ => ~ due newTime w end ->
  addLoop fuel newTime c chans ticks = Ret (c, chans, ticks).
Proof.
  intros H. destruct fuel; cbn [addLoop]; destruct (waiters c) as [|w ws]; try done; by rewrite After_undue.
Qed.

(** * One ticker *)

(** The ticks of a ticker after its first one at [next]: [n] of them. *)
Definition ticksFrom (f : ticker) (next : Time) (n : nat) : list waiter :=
  map (fun k => mkWaiter (addTime next (Z.of_nat k * period f)) f) (seq 0 n).

Lemma addTime_addTime t a b : addTime (addTime t a) b = addTime t (a + b).
Proof. unfold addTime. simpl. by rewrite Z.add_assoc. Qed.

Lemma addTime_0 t : addTime t 0 = t.
Proof. destruct t. unfold addTime. simpl. by rewrite Z.add_0_r. Qed.

Lemma ticksFrom_S f next n :
  ticksFrom f next (S n) = mkWaiter next f :: ticksFrom f (addTime next (period f)) n.
Proof.
  unfold ticksFrom. cbn [seq map]. rewrite Z.mul_0_l, addTime_0. f_equal. rewrite <- seq_shift, map_map.
  apply map_ext. intros k. rewrite addTime_addTime. do 2 f_equal. lia.
Qed.

Lemma ticksFrom_app f next n m :
  ticksFrom f next (n + m) = ticksFrom f next n ++ ticksFrom f (addTime next (Z.of_nat n * period f)) m.
Proof.
  revert next. induction n as [|n IH]; intros next; [by rewrite Z.mul_0_l, addTime_0|].
  cbn [Nat.add]. rewrite !ticksFrom_S, IH. simpl. rewrite addTime_addTime. do 3 f_equal. f_equal. lia.
Qed.

(** The loop with one ticker resolves its ticks up to the new time. *)
Lemma addLoop_ticker n f fuel newTime t next chans ticks :
  nanos next + (Z.of_nat n - 1) * period f <= nanos newTime < nanos next + Z.of_nat n * period f ->
  0 < period f -> (n <= fuel)%nat ->
  exists t', addLoop fuel newTime (mkClock t [mkWaiter next f]) chans ticks =
    Ret (mkClock t' [mkWaiter (addTime next (Z.of_nat n * period f)) f],
         sendAll chans (ticksFrom f next n), ticks ++ ticksFrom f next n).
Proof.
  intros Hn Hp. revert fuel t next chans ticks Hn. induction n as [|n IH]; intros fuel t next chans ticks Hn Hfuel.
  - exists t. rewrite addLoop_stops by (simpl; unfold due; simpl; lia).
    by rewrite Z.mul_0_l, addTime_0, app_nil_r.
  - destruct fuel as [|fuel]; [lia|].
    destruct (IH fuel next (addTime next (period f)) (sleep (send chans (ch f) next)) (ticks ++ [mkWaiter next f]))
      as (t' & E); [simpl; lia|lia|]. exists t'.
    cbn [addLoop waiters]. rewrite After_due by (unfold due; simpl; nia). cbn [resolve]. unfold tick, runAt.
    cbn [waiters app now until fn]. rewrite E, ticksFrom_S, addTime_addTime, <- app_assoc. simpl. do 4 f_equal.
    f_equal. f_equal. f_equal. lia.
Qed.

(** A sequence of calls of [Add], with all the ticks that they resolve. *)
Fixpoint Adds (fuel : nat) (c : MockClock) (chans : channels) (ds : list Z)
    : outcome (MockClock * channels * list waiter) :=
  match ds with
  | [] => Ret (c, chans, [])
  | d :: ds' =>
      let! (c, chans, ticks) := Add fuel c chans d in
      let! (c, chans, ticks') := Adds fuel c chans ds' in
      Ret (c, chans, ticks ++ ticks')
  end.

Definition total (ds : list Z) : Z := foldr Z.add 0 ds.

Lemma total_nonneg ds : Forall (Z.le 0) ds -> 0 <= total ds.
Proof. induction 1; simpl; lia. Qed.

(** How many ticks fit: the number [n] with the [n]th tick at most at the time and the
    next one after it. *)
Lemma fits x p : 0 < p -> 0 <= x -> exists n : nat, (Z.of_nat n - 1) * p <= x - p < Z.of_nat n * p.
Proof.
  intros Hp Hx. exists (Z.to_nat (x / p)). rewrite Z2Nat.id by (apply Z.div_pos; lia).
  pose proof (Z.div_mod x p). pose proof (Z.mod_pos_bound x p). nia.
Qed.

Lemma Add_ticker n f fuel t next chans d :
  0 < period f -> 0 <= d -> (n <= fuel)%nat ->
  nanos next + (Z.of_nat n - 1) * period f <= nanos t + d < nanos next + Z.of_nat n * period f ->
  Add fuel (mkClock t [mkWaiter next f]) chans d =
    Ret (mkClock (addTime t d) [mkWaiter (addTime next (Z.of_nat n * period f)) f],
         sendAll chans (ticksFrom f next n), ticksFrom f next n).
Proof.
  intros Hp Hd Hfuel Hn. unfold Add. rewrite (proj2 (Z.ltb_ge _ _)) by done. cbn [now waiters].
  change (merge_sort notAfter [mkWaiter next f]) with [mkWaiter next f]. cbv zeta.
  destruct (addLoop_ticker n f fuel (addTime t d) t next chans [] Hn Hp Hfuel) as (t' & ->). done.
Qed.

Lemma Adds_ticker f fuel ds : 0 < period f -> Forall (Z.le 0) ds -> forall n t next chans,
  nanos next - period f <= nanos t < nanos next -> (n <= fuel)%nat ->
  nanos next + (Z.of_nat n - 1) * period f <= nanos t + total ds < nanos next + Z.of_nat n * period f ->
  Adds fuel (mkClock t [mkWaiter next f]) chans ds =
    Ret (mkClock (addTime t (total ds)) [mkWaiter (addTime next (Z.of_nat n * period f)) f],
         sendAll chans (ticksFrom f next n), ticksFrom f next n).
Proof.
  intros Hp Hds. induction Hds as [|d ds Hd Hds IH]; intros n t next chans Ht Hfuel Hn; simpl in *.
  - assert (n = 0)%nat as -> by nia. by rewrite Z.mul_0_l, !addTime_0.
  - pose proof (total_nonneg ds Hds).
    destruct (fits (nanos t + d - nanos next + period f) (period f)) as [m Hm]; [done|lia|].
    assert (m <= n)%nat by nia.
    rewrite (Add_ticker m) by (done || lia). cbn [obind].
    rewrite (IH (n - m)%nat) by (simpl; rewrite ?Nat2Z.inj_sub; nia || lia). cbn [obind].
    rewrite !addTime_addTime, <- sendAll_app, <- ticksFrom_app, Nat.add_sub_assoc, Nat.add_comm, Nat.add_sub by done.
    do 5 f_equal. f_equal. f_equal. nia.
Qed.
End add.

(** A ticker of the mock clock is on time: on a clock with one ticker, however the
    time is advanced in steps, [Add] ends and the ticker ticks exactly at each multiple
    of its period since it was made, up to the new time, in order; each tick is sent
    unless the last one is still in the channel, and the clock shows the sum of the
    steps. *)
Theorem mock_ticker_on_time sleep fuel t0 chans p ds :
  0 < p -> Forall (Z.le 0) ds -> (Z.to_nat (total ds / p) <= fuel)%nat ->
  let '(f, c, chans) := NewTicker (NewMockClock t0) chans p in
  let ticks := map (fun k => mkWaiter (addTime t0 (Z.of_nat k * p)) f) (seq 1 (Z.to_nat (total ds / p))) in
  exists c', Adds sleep fuel c chans ds = Ret (c', sendAll sleep chans ticks, ticks) /\
    Now c' = addTime t0 (total ds).
Proof.
  intros Hp Hds Hfuel. cbn [NewTicker]. set (f := mkTicker _ p).
  pose proof (total_nonneg ds Hds) as Ht. pose proof (Z.div_mod (total ds) p).
  pose proof (Z.mod_pos_bound (total ds) p). pose proof (Z.div_pos (total ds) p Ht Hp).
  assert (map (fun k => mkWaiter (addTime t0 (Z.of_nat k * p)) f) (seq 1 (Z.to_nat (total ds / p))) =
    ticksFrom f (addTime t0 p) (Z.to_nat (total ds / p))) as ->.
  { unfold ticksFrom. rewrite <- seq_shift, map_map. apply map_ext. intros k. rewrite addTime_addTime.
    do 2 f_equal. cbn [period f]. lia. }
  eexists. split; [apply (Adds_ticker sleep f fuel ds Hp Hds)|]; simpl; try done; rewrite ?Z2Nat.id by done; nia.
Qed.

(** With several tickers [Add] resolves the waiters that are due when it is called,
    in chronological order, each once; but when another waiter is not due yet, the ticks
    that the resolved tickers have next are left behind it, also those within the range:
    they stay in the list although the clock shows a later time. *)
Theorem mock_clock_one_tick_each sleep fuel c chans d ds u us :
  0 <= d -> merge_sort notAfter (waiters c) = ds ++ u :: us ->
  Forall (due (addTime (now c) d)) ds -> ~ due (addTime (now c) d) u -> (length ds <= fuel)%nat ->
  Add sleep fuel c chans d =
    Ret (mkClock (addTime (now c) d) (u :: us ++ map reschedule ds), sendAll sleep chans ds, ds).
Proof.
  intros Hd Hs Hds Hu Hfuel. unfold Add. rewrite (proj2 (Z.ltb_ge _ _)) by done. cbv zeta. rewrite Hs. cbn [now].
  destruct (addLoop_due sleep ds fuel (addTime (now c) d) (mkClock (now c) (ds ++ u :: us)) chans [] (u :: us))
    as (c' & Hc' & ->); [done..|].
  rewrite addLoop_stops by (by rewrite Hc'). cbn [obind]. by rewrite Hc'.
Qed.

(** A ticker with period 0 keeps [Add] busy for ever. *)
Lemma zero_period_diverges sleep fuel t i chans ticks d :
  0 <= d ->
  addLoop sleep fuel (addTime t d) (mkClock t [mkWaiter t (mkTicker i 0)]) chans ticks = Diverge.
Proof.
  intros Hd. revert chans ticks. induction fuel as [|fuel IH]; intros chans ticks; cbn [addLoop waiters];
    rewrite After_due by (unfold due; simpl; lia); [done|].
  cbn [resolve]. unfold tick, runAt. cbn [until fn now waiters app period]. rewrite addTime_0. apply IH.
Qed.

(** * Witnesses *)

Lemma mock_ticker_on_time_witness :
  exists c', Adds id 3 (mkClock zeroTime [mkWaiter (addTime zeroTime 4) (mkTicker 0 4)]) [None] [3; 0; 6] =
      Ret (c', [Some (addTime zeroTime 4)],
           [mkWaiter (addTime zeroTime 4) (mkTicker 0 4); mkWaiter (addTime zeroTime 8) (mkTicker 0 4)]) /\
    Now c' = addTime zeroTime 9.
Proof.
  exact (mock_ticker_on_time id 3 zeroTime [] 4 [3; 0; 6] ltac:(lia) ltac:(repeat constructor; lia)
    ltac:(vm_compute; lia)).
Defined.

(** Tickers with the periods 1 and 10: of the five ticks that are due within 5, one is
    resolved, and the second is overdue. *)
Lemma mock_clock_one_tick_each_witness :
  let a := mkTicker 0 1 in let b := mkTicker 1 10 in
  exists chans, Add id 9 (mkClock zeroTime [mkWaiter (addTime zeroTime 10) b; mkWaiter (addTime zeroTime 1) a])
      [None; None] 5 =
    Ret (mkClock (addTime zeroTime 5) [mkWaiter (addTime zeroTime 10) b; mkWaiter (addTime zeroTime 2) a],
         chans, [mkWaiter (addTime zeroTime 1) a]) /\
    due (addTime zeroTime 5) (mkWaiter (addTime zeroTime 2) a).
Proof.
  intros a b. eexists. split.
  - exact (mock_clock_one_tick_each id 9
      (mkClock zeroTime [mkWaiter (addTime zeroTime 10) b; mkWaiter (addTime zeroTime 1) a]) [None; None] 5
      [mkWaiter (addTime zeroTime 1) a] (mkWaiter (addTime zeroTime 10) b) []
      ltac:(lia) eq_refl ltac:(repeat constructor; vm_compute; discriminate)
      ltac:(intros H; vm_compute in H; by apply H) ltac:(simpl; lia)).
  - unfold due. simpl. lia.
Defined.
End MockClock.
