(* ===== verification/ZTest.v ===== *)
(** The spies and helpers that tests use, internal/ztest/writer.go and
    internal/ztest/timeout.go, which zaptest re-exports (zaptest/writer.go,
    zaptest/timeout.go).

    A spy's state is a record; a method with a pointer receiver returns it changed. *)

From Stdlib Require Import ZArith Lia.
From S2P Require Import Prelude GoStd.
From stdpp Require Import base list.

Local Open Scope Z_scope.
Local Open Scope zap_scope.

Module ZTest.

(** * Spies *)

Record Syncer := mkSyncer { err_ : error; called : bool }.

Definition SetError (s : Syncer) (e : error) : Syncer := mkSyncer e (called s).
Definition Sync (s : Syncer) : error * Syncer := (err_ s, mkSyncer (err_ s) true).
Definition Called (s : Syncer) : bool := called s.

Definition Discarder_Write (b : bytes) : Z * error := (lenZ b, None).
Definition FailWriter_Write (b : bytes) : Z * error := (lenZ b, Some (New_error (str "failed"))).
Definition ShortWriter_Write (b : bytes) : Z * error := (lenZ b - 1, None).

(** [strings.TrimRight] and [bytes.TrimRight] with a newline. *)
Fixpoint TrimRight (s : bytes) : bytes :=
  match s with
  | [] => []
  | b :: s' =>
      match TrimRight s' with
      | [] => if decide (b = x0a) then [] else [b]
      | t => b :: t
      end
  end.

(** [Buffer] over its contents. *)
Definition Buffer_Write (contents p : bytes) : (Z * error) * bytes := ((lenZ p, None), contents ++ p).

Definition Lines (contents : bytes) : list bytes :=
  let output := Strings.Split x0a contents in take (length output - 1) output.

Definition Stripped (contents : bytes) : bytes := TrimRight contents.

(** * Timeouts *)

Section timeout.
Context {std : GoStd}.

(** The bits of 1.0. *)
Definition _timeoutScale : Z := 4607182418800017408.

Definition Timeout (scale base : Z) : Z := float64ToInt64 (float64Mul (intToFloat64 base) scale).

(** [Sleep]: what it passes to [time.Sleep]. *)
Definition Sleep (scale base : Z) : Z := Timeout scale base.

(** The new scale, and the one that the returned function restores. *)
Definition Initialize (scale : Z) (factor : bytes) : outcome (Z * Z) :=
  match ParseFloat64 factor with
  | inr e => Panic (Error_text e)
  | inl fv => Ret (fv, scale)
  end.

(** [init], with the variable of the environment. *)
Definition init (TEST_TIMEOUT_SCALE : bytes) : outcome Z :=
  if decide (TEST_TIMEOUT_SCALE = []) then Ret _timeoutScale
  else let! (scale, _) := Initialize _timeoutScale TEST_TIMEOUT_SCALE in Ret scale.
End timeout.

(** * Lemmas *)

Lemma Lines_line l s : x0a ∉ l -> Lines (l ++ x0a :: s) = l :: Lines s.
Proof.
  intros Hl. unfold Lines. rewrite Strings.Split_app by done. pose proof (Strings.Split_nonempty x0a s). cbn [length].
  destruct (Strings.Split x0a s) as [|x xs]; [done|]. simpl. by rewrite Nat.sub_0_r.
Qed.

(** Lines that are written are the lines that are read. *)
Lemma Lines_lines ls : Forall (fun l => x0a ∉ l) ls -> Lines (concat (map (fun l => l ++ [x0a]) ls)) = ls.
Proof.
  induction 1 as [|l ls Hl _ IH]; [done|]. simpl. rewrite <- app_assoc. simpl. by rewrite Lines_line, IH.
Qed.

(** What was changed for a test is restored. *)
Lemma Initialize_restores {std : GoStd} scale factor fv original :
  Initialize scale factor = Ret (fv, original) -> original = scale.
Proof. unfold Initialize. destruct (ParseFloat64 factor); [|done]. by intros [= _ <-]. Qed.
End ZTest.
