(* ===== verification/Level.v ===== *)
(** zapcore/level.go, zapcore/level_strings.go and internal/color/color.go.

    A [Level] is an [int8], kept as a [Z]; the seven named levels are -1 to 5. *)

From Stdlib Require Import ZArith Lia.
From S2P Require Import Prelude Strconv GoStd.
From stdpp Require Import base list gmap sorting.

Local Open Scope Z_scope.
Local Open Scope zap_scope.

Module Level.
Import Strconv.

Definition Level : Type := Z.

Definition DebugLevel : Level := -1.
Definition InfoLevel : Level := 0.
Definition WarnLevel : Level := 1.
Definition ErrorLevel : Level := 2.
Definition DPanicLevel : Level := 3.
Definition PanicLevel : Level := 4.
Definition FatalLevel : Level := 5.
Definition _minLevel : Level := DebugLevel.
Definition _maxLevel : Level := FatalLevel.
Definition InvalidLevel : Level := _maxLevel + 1.

(** [for lvl := _minLevel; lvl <= _maxLevel; lvl++]. *)
Definition levels : list Level :=
  [DebugLevel; InfoLevel; WarnLevel; ErrorLevel; DPanicLevel; PanicLevel; FatalLevel].

(** A [LevelEnabler] value: its [Enabled] method and, when its dynamic type is a
    [leveledEnabler], its [Level] method. *)
Record LevelEnabler := mkEnabler {
  Enabled : Level -> bool;
  leveled : option Level
}.

(** The methods [Enabled] and, on AtomicLevel, [Level] of a plain [Level]; a
    [Level] has no [Level] method. *)
Definition Level_Enabled (l lvl : Level) : bool := l <=? lvl.

Definition levelEnabler (l : Level) : LevelEnabler := mkEnabler (Level_Enabled l) None.

(** The loop of [LevelOf] over the levels from the lowest up. *)
Fixpoint firstEnabled (enabled : Level -> bool) (ls : list Level) : Level :=
  match ls with
  | [] => InvalidLevel
  | lvl :: ls' => if enabled lvl then lvl else firstEnabled enabled ls'
  end.

Definition LevelOf (enab : LevelEnabler) : Level :=
  match leveled enab with
  | Some l => l
  | None => firstEnabled (Enabled enab) levels
  end.

Definition String (l : Level) : bytes :=
  if l =? DebugLevel then str "debug"
  else if l =? InfoLevel then str "info"
  else if l =? WarnLevel then str "warn"
  else if l =? ErrorLevel then str "error"
  else if l =? DPanicLevel then str "dpanic"
  else if l =? PanicLevel then str "panic"
  else if l =? FatalLevel then str "fatal"
  else str "Level(" ++ itoa l ++ str ")".

Definition CapitalString (l : Level) : bytes :=
  if l =? DebugLevel then str "DEBUG"
  else if l =? InfoLevel then str "INFO"
  else if l =? WarnLevel then str "WARN"
  else if l =? ErrorLevel then str "ERROR"
  else if l =? DPanicLevel then str "DPANIC"
  else if l =? PanicLevel then str "PANIC"
  else if l =? FatalLevel then str "FATAL"
  else str "LEVEL(" ++ itoa l ++ str ")".

Definition MarshalText (l : Level) : bytes * error := (String l, None).

(** The switch of [unmarshalText]; [None] is its [false]. *)
Definition unmarshalText (text : bytes) : option Level :=
  if decide (text = str "debug") then Some DebugLevel
  else if decide (text = str "info" \/ text = str "") then Some InfoLevel
  else if decide (text = str "warn" \/ text = str "warning") then Some WarnLevel
  else if decide (text = str "error") then Some ErrorLevel
  else if decide (text = str "dpanic") then Some DPanicLevel
  else if decide (text = str "panic") then Some PanicLevel
  else if decide (text = str "fatal") then Some FatalLevel
  else None.

Definition errUnmarshalNilLevel : err := New_error (str "can't unmarshal a nil *Level").

Section text.
Context `{GoStd}.

Definition unrecognized (text : bytes) : err :=
  New_error (str "unrecognized level: " ++ Quote text).

(** [(l *Level) UnmarshalText]: [None] is the nil pointer; otherwise the pointed
    to level, and the level it is left at. *)
Definition UnmarshalText (l : option Level) (text : bytes) : option Level * error :=
  match l with
  | None => (None, Some errUnmarshalNilLevel)
  | Some l0 =>
      match unmarshalText text with
      | Some l' => (Some l', None)
      | None =>
          match unmarshalText (ToLower text) with
          | Some l' => (Some l', None)
          | None => (Some l0, Some (unrecognized text))
          end
      end
  end.

Definition Set_ (l : option Level) (s : bytes) : option Level * error := UnmarshalText l s.

Definition Get (l : Level) : Level := l.

Definition ParseLevel (text : bytes) : Level * error :=
  let '(l, e) := UnmarshalText (Some 0) text in (default 0 l, e).
End text.

(** * Colors *)

(** [Color] is a [uint8]. *)
Definition Color : Type := Z.
Definition Black : Color := 30.
Definition Red : Color := 31.
Definition Green : Color := 32.
Definition Yellow : Color := 33.
Definition Blue : Color := 34.
Definition Magenta : Color := 35.
Definition Cyan : Color := 36.
Definition White : Color := 37.

Definition Color_Add (c : Color) (s : bytes) : bytes :=
  [x1b] ++ str "[" ++ itoa (uint8 c) ++ str "m" ++ s ++ [x1b] ++ str "[0m".

Definition _levelToColor : gmap Z Color :=
  list_to_map [(DebugLevel, Magenta); (InfoLevel, Blue); (WarnLevel, Yellow); (ErrorLevel, Red);
               (DPanicLevel, Red); (PanicLevel, Red); (FatalLevel, Red)].

Definition _unknownLevelColor : Color := Red.

(** The maps that [init] fills. *)
Definition _levelToLowercaseColorString : gmap Z bytes :=
  map_imap (fun level color => Some (Color_Add color (String level))) _levelToColor.

Definition _levelToCapitalColorString : gmap Z bytes :=
  map_imap (fun level color => Some (Color_Add color (CapitalString level))) _levelToColor.

(** * Lemmas *)

Lemma levels_spec l : l ∈ levels <-> _minLevel <= l <= _maxLevel.
Proof.
  unfold levels, _minLevel, _maxLevel, DebugLevel, InfoLevel, WarnLevel, ErrorLevel,
    DPanicLevel, PanicLevel, FatalLevel. split.
  - rewrite !elem_of_cons. intros Hl. destruct_or!; try lia. by apply elem_of_nil in Hl.
  - intros Hl. assert (l = -1 \/ l = 0 \/ l = 1 \/ l = 2 \/ l = 3 \/ l = 4 \/ l = 5) as Hc by lia.
    destruct_or!; subst; set_solver.
Qed.

(** Case analysis on the names that [unmarshalText] knows. *)
Ltac level_cases := unfold unmarshalText; repeat case_decide; destruct_or?; subst.

Lemma unmarshalText_lower text l :
  unmarshalText text = Some l -> map lowerByte text = text /\ isASCII text = true.
Proof. level_cases; try done; intros _; by vm_compute. Qed.

Lemma unmarshalText_range text l : unmarshalText text = Some l -> l ∈ levels.
Proof. level_cases; try done; intros [= <-]; by apply levels_spec; vm_compute. Qed.

Lemma level_named l :
  l ∈ levels ->
  unmarshalText (String l) = Some l /\
  map lowerByte (CapitalString l) = String l /\ isASCII (CapitalString l) = true.
Proof.
  unfold levels. rewrite !elem_of_cons, elem_of_nil.
  intros Hl. destruct_or!; subst; by vm_compute.
Qed.

Lemma firstEnabled_spec f ls :
  (firstEnabled f ls = InvalidLevel /\ forall k, k ∈ ls -> f k = false) \/
  (exists pre post, ls = pre ++ firstEnabled f ls :: post /\ f (firstEnabled f ls) = true /\
     forall k, k ∈ pre -> f k = false).
Proof.
  induction ls as [|l ls IH]; simpl.
  - left. split; [done|]. intros k Hk. by apply elem_of_nil in Hk.
  - destruct (f l) eqn:E.
    { right. exists [], ls. split; [done|]. split; [done|]. intros k Hk. by apply elem_of_nil in Hk. }
    destruct IH as [[-> Hno]|(pre & post & Hls & Hf & Hpre)].
    + left. split; [done|]. intros k [->|Hk]%elem_of_cons; auto.
    + right. exists (l :: pre), post. split; [by rewrite Hls at 1|]. split; [done|].
      intros k [->|Hk]%elem_of_cons; auto.
Qed.

Section parse.
Context `{GoStd}.

(** On ASCII text, [ParseLevel] is case-insensitive lookup in the table of level
    names: it returns the level of the lower-cased text, or an error and the zero
    level when the lower-cased text is not a name. *)
Theorem ParseLevel_case_insensitive text (Hascii : isASCII text = true) :
  ParseLevel text =
  match unmarshalText (map lowerByte text) with
  | Some l => (l, None)
  | None => (InfoLevel, Some (unrecognized text))
  end.
Proof.
  unfold ParseLevel, UnmarshalText, ToLower. rewrite Hascii.
  destruct (unmarshalText text) as [l|] eqn:E.
  - destruct (unmarshalText_lower _ _ E) as [-> _]. by rewrite E.
  - by destruct (unmarshalText (map lowerByte text)).
Qed.

(** Both printed forms of each of the seven levels parse back to it. *)
Theorem level_text_roundtrip l (Hl : l ∈ levels) :
  ParseLevel (MarshalText l).1 = (l, None) /\ ParseLevel (CapitalString l) = (l, None).
Proof.
  destruct (level_named l Hl) as (H1 & H2 & H3).
  unfold ParseLevel, UnmarshalText, ToLower, MarshalText. simpl. rewrite H1, H3, H2, H1. split; [done|].
  by destruct (unmarshalText (CapitalString l)) as [l'|] eqn:E;
    [destruct (unmarshalText_lower _ _ E) as [Hlow _];
     rewrite <- Hlow, H2, H1 in E; injection E as <-|].
Qed.
End parse.

(** The number in the name of a level that has none. *)
Lemma itoa_inj i j : itoa i = itoa j -> i = j.
Proof. intros E. pose proof (atoi_itoa_eq i) as Hi. rewrite E, atoi_itoa_eq in Hi. congruence. Qed.

(** Levels are printed without collisions: two levels with the same text, among
    all the values of the type, are the same level. *)
Theorem String_injective l l' (Heq : String l = String l') : l = l'.
Proof.
  unfold String in Heq.
  repeat match type of Heq with
  | context [if ?a =? ?b then _ else _] => destruct (Z.eqb_spec a b); [subst|]
  end; simpl in Heq; simplify_eq; try done.
  apply app_inv_tail in Heq. by apply itoa_inj.
Qed.

(** For an enabler without a level of its own, [LevelOf] is the lowest of the
    seven levels that it enables, and [InvalidLevel] exactly when it enables none. *)
Theorem LevelOf_lowest f :
  let l := LevelOf (mkEnabler f None) in
  (l = InvalidLevel /\ forall k, k ∈ levels -> f k = false) \/
  (l ∈ levels /\ f l = true /\ forall k, _minLevel <= k < l -> f k = false).
Proof.
  unfold LevelOf. cbn [leveled Enabled]. cbv zeta.
  destruct (firstEnabled_spec f levels) as [[-> Hno]|(pre & post & Hls & Hf & Hpre)].
  { auto. }
  set (l := firstEnabled f levels) in *. right.
  assert (l ∈ levels) as Hin by (rewrite Hls; set_solver).
  split; [done|]. split; [done|]. intros k Hk. apply Hpre.
  assert (k ∈ pre ++ l :: post) as Hk'.
  { rewrite <- Hls. apply levels_spec. apply levels_spec in Hin. lia. }
  apply elem_of_app in Hk' as [Hk'|Hk']; [done|]. exfalso.
  assert (StronglySorted Z.lt levels) as Hs by (repeat constructor).
  rewrite Hls in Hs. apply StronglySorted_app_1_r in Hs.
  apply StronglySorted_inv in Hs as [_ Hs]. rewrite Forall_forall in Hs.
  apply elem_of_cons in Hk' as [->|Hk']; [lia|]. apply Hs in Hk'. lia.
Qed.

(** Every level enables itself and everything above, nothing below. *)
Lemma Level_Enabled_iff l lvl : Level_Enabled l lvl = true <-> l <= lvl.
Proof. apply Z.leb_le. Qed.

(** A text function for the witnesses: no Unicode tables. *)
Definition asciiStd : GoStd := {|
  Quote s := [x22] ++ s ++ [x22];
  QuoteRune r := [x27; byteZ r; x27];
  lowerUnicode s := map lowerByte s;
  formatFloat f _ := itoa f;
  float32to64 f := f;
  intToFloat64 z := z;
  float64Div a b := a / b;
  float64Mul a b := a * b;
  float64ToInt64 f := f;
  ParseFloat64 s := inr (New_error s);
  formatTime t _ := itoa (nanos t);
  timeString t := itoa (nanos t);
  durationString d := itoa d;
  sprintFloat f _ := itoa f;
  sprintComplex c _ := itoa c.1 ++ str "+" ++ itoa c.2
|}.

#[local] Existing Instance asciiStd.

Lemma ParseLevel_case_insensitive_witness :
  ParseLevel (str "WaRning") = (WarnLevel, None) /\
  ParseLevel (str "loud") = (InfoLevel, Some (unrecognized (str "loud"))).
Proof.
  split.
  - exact (ParseLevel_case_insensitive (str "WaRning") eq_refl).
  - exact (ParseLevel_case_insensitive (str "loud") eq_refl).
Defined.

Lemma level_text_roundtrip_witness :
  ParseLevel (str "dpanic") = (DPanicLevel, None) /\ ParseLevel (str "DPANIC") = (DPanicLevel, None).
Proof.
  apply (level_text_roundtrip DPanicLevel). apply levels_spec. vm_compute. split; discriminate.
Defined.

Lemma String_injective_witness : exists l, String l = str "Level(9)" /\ l = 9.
Proof. exists 9. split; [reflexivity|]. exact (String_injective 9 9 eq_refl). Defined.
End Level.
