(* ===== verification/Flag.v ===== *)
(** flag.go and time.go: a level as a command-line flag, and times in milliseconds.

    The set of flags of the package flag is its names, each with the cell that its value
    points to; the cells are a heap of levels. *)

From Stdlib Require Import ZArith Lia.
From S2P Require Import Prelude GoStd Level.
From stdpp Require Import base list gmap.

Local Open Scope Z_scope.
Local Open Scope zap_scope.

Module Flag.

Record FlagSet := mkFlagSet {
  formal : gmap bytes (nat * bytes);
  cells : list Level.Level
}.

Section flag.
Context {std : GoStd}.

(** [flag.Var] panics on a name that is in use. *)
Definition Var (cell : nat) (name usage : bytes) (fs : FlagSet) : outcome FlagSet :=
  match formal fs !! name with
  | Some _ => Panic (str "flag redefined: " ++ name)
  | None => Ret (mkFlagSet (<[name := (cell, usage)]> (formal fs)) (cells fs))
  end.

Definition LevelFlag (name : bytes) (defaultLevel : Level.Level) (usage : bytes) (fs : FlagSet)
    : outcome (nat * FlagSet) :=
  let lvl := length (cells fs) in
  let fs := mkFlagSet (formal fs) (cells fs ++ [defaultLevel]) in
  let! fs := Var lvl name usage fs in
  Ret (lvl, fs).

(** What parsing [-name=value] does: the [Set] method of the flag's value. *)
Definition parseFlag (name value : bytes) (fs : FlagSet) : option error * FlagSet :=
  match formal fs !! name with
  | None => (None, fs)
  | Some (cell, _) =>
      let '(l, err) := Level.Set_ (cells fs !! cell) value in
      (Some err, mkFlagSet (formal fs) (match l with Some l => <[cell := l]> (cells fs) | None => cells fs end))
  end.

(** Flags are independent: the value of a flag is seen through the pointer that declared
    it, and through no other that was there. *)
Lemma level_flags_independent name d usage fs cell fs1 value l :
  LevelFlag name d usage fs = Ret (cell, fs1) -> Level.unmarshalText value = Some l ->
  cells fs1 !! cell = Some d /\
  (parseFlag name value fs1).1 = Some None /\
  cells (parseFlag name value fs1).2 !! cell = Some l /\
  forall other, (other < length (cells fs))%nat -> cells (parseFlag name value fs1).2 !! other = cells fs !! other.
Proof.
  unfold LevelFlag, Var. cbn [formal cells]. destruct (formal fs !! name) eqn:E; [done|]. intros [= <- <-] Hu.
  unfold parseFlag. cbn [formal cells]. rewrite lookup_insert_eq. rewrite list_lookup_middle by done.
  unfold Level.Set_, Level.UnmarshalText. rewrite Hu. cbn [fst snd cells].
  split; [done|]. split; [done|]. rewrite insert_app_r_alt, Nat.sub_diag by done. simpl.
  split; [by apply list_lookup_middle|]. intros other Ho. by apply lookup_app_l.
Qed.
End flag.

(** Go's division truncates. *)
Definition timeToMillis (t : Time) : Z := Z.quot (UnixNano t) Millisecond.

(** Millisecond precision: never more than one millisecond from the time, towards the
    epoch. *)
Lemma timeToMillis_near t : Z.abs (UnixNano t - timeToMillis t * Millisecond) < Millisecond.
Proof.
  unfold timeToMillis. pose proof (Z.quot_rem (UnixNano t) Millisecond ltac:(done)) as H.
  pose proof (Z.rem_bound_abs (UnixNano t) Millisecond ltac:(done)). change (Z.abs Millisecond) with Millisecond in *.
  replace (UnixNano t - _) with (Z.rem (UnixNano t) Millisecond) by lia. done.
Qed.
End Flag.
