(* ===== verification/AtomicLevel.v ===== *)
(** [AtomicLevel] of level.go and its HTTP endpoint, http_handler.go.

    An [AtomicLevel] is a pointer to an [atomic.Int32]; [None] is the nil pointer.
    The cells live in a heap, so that two [AtomicLevel]s with the same pointer share
    the level and the change of one is seen by the other. *)

From Stdlib Require Import ZArith Lia.
From S2P Require Import Prelude Strconv GoStd Level.
From stdpp Require Import base list.

Local Open Scope Z_scope.
Local Open Scope zap_scope.

Module AtomicLevel.
Import Level.

(** The cells allocated so far; cell [i] is the [i]th of the list. *)
Abbreviation Heap := (list Z).

Definition AtomicLevel : Type := option nat.

Definition nilDereference {A} : outcome A :=
  Panic (str "invalid memory address or nil pointer dereference").

Definition Load (lvl : AtomicLevel) (h : Heap) : outcome Z :=
  match lvl with
  | Some i => match h !! i with Some v => Ret v | None => nilDereference end
  | None => nilDereference
  end.

Definition Store (lvl : AtomicLevel) (v : Z) (h : Heap) : outcome Heap :=
  match lvl with
  | Some i => if decide (i < length h)%nat then Ret (<[i := v]> h) else nilDereference
  | None => nilDereference
  end.

(** [new(atomic.Int32)]. *)
Definition alloc (h : Heap) : AtomicLevel * Heap := (Some (length h), h ++ [0]).

Definition SetLevel (lvl : AtomicLevel) (l : Level) (h : Heap) : outcome Heap :=
  Store lvl (int32 l) h.

Definition NewAtomicLevel (h : Heap) : outcome (AtomicLevel * Heap) :=
  let '(lvl, h) := alloc h in
  let! h := Store lvl (int32 InfoLevel) h in
  Ret (lvl, h).

Definition NewAtomicLevelAt (l : Level) (h : Heap) : outcome (AtomicLevel * Heap) :=
  let! (a, h) := NewAtomicLevel h in
  let! h := SetLevel a l h in
  Ret (a, h).

(** [zapcore.Level(int8(lvl.l.Load()))]. *)
Definition Level_ (lvl : AtomicLevel) (h : Heap) : outcome Level :=
  let! v := Load lvl h in Ret (int8 v).

Definition Enabled_ (lvl : AtomicLevel) (l : Level) (h : Heap) : outcome bool :=
  let! v := Level_ lvl h in Ret (Level_Enabled v l).

Definition String_ (lvl : AtomicLevel) (h : Heap) : outcome bytes :=
  let! v := Level_ lvl h in Ret (String v).

Definition MarshalText_ (lvl : AtomicLevel) (h : Heap) : outcome (bytes * error) :=
  let! v := Level_ lvl h in Ret (MarshalText v).

Section text.
Context {std : GoStd}.

Definition ParseAtomicLevel (text : bytes) (h : Heap) : outcome (AtomicLevel * error * Heap) :=
  let! (a, h) := NewAtomicLevel h in
  let '(l, err) := ParseLevel text in
  match err with
  | Some _ => Ret (a, err, h)
  | None => let! h := SetLevel a l h in Ret (a, None, h)
  end.

(** [if lvl.l == nil { lvl.l = &atomic.Int32{} }]. *)
Definition ensureAllocated (lvl : AtomicLevel) (h : Heap) : AtomicLevel * Heap :=
  match lvl with
  | None => alloc h
  | Some _ => (lvl, h)
  end.

Definition UnmarshalText_ (lvl : AtomicLevel) (text : bytes) (h : Heap)
    : outcome (AtomicLevel * error * Heap) :=
  let '(lvl, h) := ensureAllocated lvl h in
  let '(l, err) := UnmarshalText (Some 0) text in
  match err with
  | Some _ => Ret (lvl, err, h)
  | None => let! h := SetLevel lvl (default 0 l) h in Ret (lvl, None, h)
  end.

(** * The HTTP endpoint *)

(** What the handler reads of a request: the method, the media type that
    [mime.ParseMediaType] finds in the Content-Type header ([None] on its error),
    the form value of "level", and what [json.Decoder] makes of the body for a
    struct with one optional level: a decoding error, no level, or the text that it
    passes to [UnmarshalText]. *)
Inductive Body := BodyError (e : bytes) | BodyWithoutLevel | BodyLevel (text : bytes).

Record Request := mkRequest {
  Method : bytes;
  mediaType : option bytes;
  FormValue_level : bytes;
  body : Body
}.

(** What has been written to the [http.ResponseWriter]: the Content-Type header,
    the status codes passed to [WriteHeader] and the bodies. *)
Inductive Payload :=
| levelPayload (l : Level)
| errorResponse (msg : bytes)
| plainText (msg : bytes).

Record Response := mkResponse {
  contentType : bytes;
  statuses : list Z;
  bodies : list Payload
}.

Definition StatusBadRequest : Z := 400.
Definition StatusMethodNotAllowed : Z := 405.
Definition StatusInternalServerError : Z := 500.

Definition mustSpecify : err := New_error (str "must specify logging level").

Definition decodePutURL (r : Request) : Level * error :=
  let lvl := FormValue_level r in
  if decide (lvl = []) then (0, Some mustSpecify)
  else
    let '(l, err) := UnmarshalText (Some 0) lvl in
    match err with
    | Some _ => (0, err)
    | None => (default 0 l, None)
    end.

Definition malformed (msg : bytes) : err := New_error (str "malformed request body: " ++ msg).

Definition decodePutJSON (b : Body) : Level * error :=
  match b with
  | BodyError e => (0, Some (malformed e))
  | BodyWithoutLevel => (0, Some mustSpecify)
  | BodyLevel text =>
      let '(l, err) := UnmarshalText (Some 0) text in
      match err with
      | Some e => (0, Some (malformed (Error_text e)))
      | None => (default 0 l, None)
      end
  end.

Definition decodePutRequest (r : Request) : Level * error :=
  match mediaType r with
  | Some m =>
      if decide (m = str "application/x-www-form-urlencoded") then decodePutURL r
      else decodePutJSON (body r)
  | None => decodePutJSON (body r)
  end.

(** [encode] is what writing a body to the connection returns. *)
Context (encode : Payload -> error).

Definition WriteHeader (w : Response) (code : Z) : Response :=
  mkResponse (contentType w) (statuses w ++ [code]) (bodies w).

Definition send (w : Response) (p : Payload) : Response :=
  mkResponse (contentType w) (statuses w) (bodies w ++ [p]).

Definition serveHTTP (lvl : AtomicLevel) (w : Response) (r : Request) (h : Heap)
    : outcome (error * Response * Heap) :=
  let w := mkResponse (str "application/json") (statuses w) (bodies w) in
  if decide (Method r = str "GET") then
    let! l := Level_ lvl h in
    Ret (encode (levelPayload l), send w (levelPayload l), h)
  else if decide (Method r = str "PUT") then
    let '(requestedLvl, err) := decodePutRequest r in
    match err with
    | Some e =>
        let p := errorResponse (Error_text e) in
        Ret (encode p, send (WriteHeader w StatusBadRequest) p, h)
    | None =>
        let! h := SetLevel lvl requestedLvl h in
        let! l := Level_ lvl h in
        Ret (encode (levelPayload l), send w (levelPayload l), h)
    end
  else
    let p := errorResponse (str "Only GET and PUT are supported.") in
    Ret (encode p, send (WriteHeader w StatusMethodNotAllowed) p, h).

Definition ServeHTTP (lvl : AtomicLevel) (w : Response) (r : Request) (h : Heap)
    : outcome (Response * Heap) :=
  let! (err, w, h) := serveHTTP lvl w r h in
  match err with
  | None => Ret (w, h)
  | Some e =>
      let w := mkResponse (str "text/plain; charset=utf-8") (statuses w) (bodies w) in
      let w := WriteHeader w StatusInternalServerError in
      Ret (send w (plainText (str "internal error: " ++ Error_text e)), h)
  end.
End text.

(** * Lemmas *)

Lemma int8_int32_level l : inS 8 l -> int8 (int32 l) = l.
Proof.
  intros H. unfold int32, int8. rewrite wrapS_id with (w := 32); [|done|].
  - by apply wrapS_id.
  - unfold inS in *. simpl in *. lia.
Qed.

Lemma levels_int8 l : l ∈ levels -> inS 8 l.
Proof. rewrite levels_spec. unfold inS, _minLevel, _maxLevel, DebugLevel, FatalLevel. simpl. lia. Qed.

Lemma SetLevel_Level i l h :
  (i < length h)%nat -> inS 8 l ->
  SetLevel (Some i) l h = Ret (<[i := int32 l]> h) /\ Level_ (Some i) (<[i := int32 l]> h) = Ret l.
Proof.
  intros Hi Hl. unfold SetLevel, Store, Level_, Load. rewrite decide_True by done. split; [done|].
  rewrite list_lookup_insert_eq by done. simpl. by rewrite int8_int32_level.
Qed.

Lemma UnmarshalText_range {std : GoStd} l0 text l e :
  UnmarshalText (Some l0) text = (l, e) -> e = None -> default 0 l ∈ levels.
Proof.
  unfold UnmarshalText.
  destruct (unmarshalText text) as [l1|] eqn:E1.
  { intros [= <- <-] _. by eapply unmarshalText_range. }
  destruct (unmarshalText (ToLower text)) as [l1|] eqn:E2; [|by intros [= <- <-]].
  intros [= <- <-] _. by eapply unmarshalText_range.
Qed.

Lemma Level_dom lvl h l : Level_ lvl h = Ret l -> exists i, lvl = Some i /\ (i < length h)%nat.
Proof.
  unfold Level_, Load. destruct lvl as [i|]; [|done].
  destruct (h !! i) eqn:E; [|done]. intros _. exists i. split; [done|]. by apply lookup_lt_Some in E.
Qed.

(** * Theorems *)

(** * What a request asks for

    The documentation of [ServeHTTP], without the decoders. *)

(** The names of the levels, in lower case; the empty text is the default. *)
Definition levelNames : list (bytes * Level) :=
  [(str "debug", -1); ([], 0); (str "info", 0); (str "warn", 1); (str "warning", 1); (str "error", 2);
   (str "dpanic", 3); (str "panic", 4); (str "fatal", 5)].

Definition formType : bytes := str "application/x-www-form-urlencoded".

Section theorems.
Context {std : GoStd}.

Definition names (text : bytes) (l : Level) : Prop := (ToLower text, l) ∈ levelNames.

Definition notALevel (text : bytes) : bytes := str "unrecognized level: " ++ Quote text.

(** A level, or the reason why there is none.  A form must have a level that is not
    empty; with any other content type, or none that can be read, the body is JSON. *)
Inductive asksFor (r : Request) : Level + bytes -> Prop :=
| form_level l :
    mediaType r = Some formType -> FormValue_level r <> [] -> names (FormValue_level r) l -> asksFor r (inl l)
| form_missing :
    mediaType r = Some formType -> FormValue_level r = [] -> asksFor r (inr (str "must specify logging level"))
| form_unknown :
    mediaType r = Some formType -> FormValue_level r <> [] -> (forall l, ~ names (FormValue_level r) l) ->
    asksFor r (inr (notALevel (FormValue_level r)))
| json_level text l : mediaType r <> Some formType -> body r = BodyLevel text -> names text l -> asksFor r (inl l)
| json_missing :
    mediaType r <> Some formType -> body r = BodyWithoutLevel -> asksFor r (inr (str "must specify logging level"))
| json_unknown text :
    mediaType r <> Some formType -> body r = BodyLevel text -> (forall l, ~ names text l) ->
    asksFor r (inr (str "malformed request body: " ++ notALevel text))
| json_malformed e :
    mediaType r <> Some formType -> body r = BodyError e -> asksFor r (inr (str "malformed request body: " ++ e)).

(** The answer to a request at a level: the level from then on, the statuses, none for the
    implicit 200, and the body. *)
Inductive answers (r : Request) (old : Level) : Level -> list Z -> Payload -> Prop :=
| answer_get : Method r = str "GET" -> answers r old old [] (levelPayload old)
| answer_put l : Method r = str "PUT" -> asksFor r (inl l) -> answers r old l [] (levelPayload l)
| answer_refused msg : Method r = str "PUT" -> asksFor r (inr msg) -> answers r old old [400] (errorResponse msg)
| answer_method :
    Method r <> str "GET" -> Method r <> str "PUT" ->
    answers r old old [405] (errorResponse (str "Only GET and PUT are supported.")).

Lemma unmarshalText_names t l : unmarshalText t = Some l <-> (t, l) ∈ levelNames.
Proof.
  unfold levelNames. rewrite !elem_of_cons, elem_of_nil. split.
  - level_cases; intros [= <-]; tauto.
  - intros H. destruct_or!; simplify_eq; reflexivity.
Qed.

Lemma UnmarshalText_names t :
  match UnmarshalText (Some 0) t with
  | (l, None) => exists l', l = Some l' /\ names t l'
  | (_, Some e) => e = New_error (notALevel t) /\ forall l, ~ names t l
  end.
Proof.
  unfold UnmarshalText, names. destruct (unmarshalText t) as [l|] eqn:E.
  - exists l. split; [done|]. destruct (unmarshalText_lower _ _ E) as [Hlow Ha]. unfold ToLower. rewrite Ha, Hlow.
    by apply unmarshalText_names.
  - destruct (unmarshalText (ToLower t)) as [l|] eqn:El.
    + exists l. split; [done|]. by apply unmarshalText_names.
    + split; [done|]. intros l H%unmarshalText_names. congruence.
Qed.

Lemma decodePutRequest_asks r :
  match decodePutRequest r with
  | (l, None) => asksFor r (inl l)
  | (_, Some e) => exists msg, e = New_error msg /\ asksFor r (inr msg)
  end.
Proof.
  unfold decodePutRequest.
  assert (mediaType r <> Some formType -> match decodePutJSON (body r) with
    | (l, None) => asksFor r (inl l)
    | (_, Some e) => exists msg, e = New_error msg /\ asksFor r (inr msg)
    end) as HJ.
  { intros Hm. unfold decodePutJSON. destruct (body r) as [e| |t] eqn:Eb.
    - eexists. split; [done|by apply json_malformed].
    - eexists. split; [done|by apply json_missing].
    - pose proof (UnmarshalText_names t) as H. destruct (UnmarshalText _ t) as [l [e|]]; cbn.
      + destruct H as [-> H]. eexists. split; [done|by apply json_unknown].
      + destruct H as (l' & -> & H). by eapply json_level. }
  destruct (mediaType r) as [m|] eqn:Em; [|by apply HJ]. destruct (decide _) as [->|Hm]; [|apply HJ; by intros [= ->]].
  unfold decodePutURL. destruct (decide (FormValue_level r = [])).
  - eexists. split; [done|by apply form_missing].
  - pose proof (UnmarshalText_names (FormValue_level r)) as H. destruct (UnmarshalText _ _) as [l [e|]]; cbn.
    + destruct H as [-> H]. eexists. split; [done|by apply form_unknown].
    + destruct H as (l' & -> & H). by eapply form_level.
Qed.

Lemma names_int8 t l : names t l -> inS 8 l.
Proof.
  unfold names, levelNames. rewrite !elem_of_cons, elem_of_nil. intros H. unfold inS.
  destruct_or!; simplify_eq; simpl; lia.
Qed.

Lemma asksFor_int8 r l : asksFor r (inl l) -> inS 8 l.
Proof. inversion 1; by eapply names_int8. Qed.

Lemma serveHTTP_answers encode i old w r h :
  Level_ (Some i) h = Ret old ->
  exists new codes p h', answers r old new codes p /\ Level_ (Some i) h' = Ret new /\
    (forall j, j <> i -> h' !! j = h !! j) /\
    serveHTTP encode (Some i) w r h =
    Ret (encode p, mkResponse (str "application/json") (statuses w ++ codes) (bodies w ++ [p]), h').
Proof.
  intros Hlvl. apply Level_dom in Hlvl as Hi. destruct Hi as (? & [= <-] & Hi). unfold serveHTTP.
  destruct (decide (Method r = str "GET")) as [Hg|Hg].
  { eexists _, _, _, h. split; [by apply answer_get|]. rewrite Hlvl. cbn [obind]. by rewrite app_nil_r. }
  destruct (decide (Method r = str "PUT")) as [Hp|Hp]; [|by eexists _, _, _, h; split; [apply answer_method|]].
  pose proof (decodePutRequest_asks r) as Hask. destruct (decodePutRequest r) as [l [e|]].
  - destruct Hask as (msg & -> & Hask). eexists _, _, _, h. by split; [apply (answer_refused r old msg)|].
  - destruct (SetLevel_Level i l h Hi (asksFor_int8 _ _ Hask)) as [-> HL]. cbn [obind]. rewrite HL. cbn [obind].
    eexists _, _, _, _. split; [by apply answer_put|]. split; [exact HL|]. split; [|by rewrite app_nil_r].
    intros j Hj. by apply list_lookup_insert_ne.
Qed.

(** C37: the HTTP endpoint does what its documentation says.  It always returns.  A GET
    answers with the level; a PUT sets the level that the form or, with any other content
    type, the JSON body asks for, and answers with it; one without a level or with text
    that is no name of a level answers 400 with the reason, and any other method 405, and
    both leave the level as it is.  No other level changes.  When the answer cannot be
    written, the status 500 and the error follow, and what became of the level is the
    same. *)
Theorem ServeHTTP_level encode i old w r h (Hlvl : Level_ (Some i) h = Ret old) :
  exists new codes p h', answers r old new codes p /\ Level_ (Some i) h' = Ret new /\
    (forall j, j <> i -> h' !! j = h !! j) /\
    ServeHTTP encode (Some i) w r h =
    Ret (match encode p with
         | None => mkResponse (str "application/json") (statuses w ++ codes) (bodies w ++ [p])
         | Some e => mkResponse (str "text/plain; charset=utf-8") (statuses w ++ codes ++ [500])
                       (bodies w ++ [p; plainText (str "internal error: " ++ Error_text e)])
         end, h').
Proof.
  destruct (serveHTTP_answers encode i old w r h Hlvl) as (new & codes & p & h' & Ha & Hn & Hj & E).
  exists new, codes, p, h'. split_and!; try done. unfold ServeHTTP. rewrite E. cbn [obind].
  destruct (encode p); [|done]. unfold WriteHeader, send. cbn. by rewrite <- !app_assoc.
Qed.

(** Decoding the text of a level into an [AtomicLevel], nil or not, puts that
    level in force, and text that is no level leaves an existing one in force. *)
Theorem UnmarshalText_sets lvl text h
    (Hlvl : match lvl with Some i => (i < length h)%nat | None => True end) :
  exists i e h', UnmarshalText_ lvl text h = Ret (Some i, e, h') /\
    (forall l, lvl = Some l -> i = l) /\
    Level_ (Some i) h' =
      match ParseLevel text with
      | (l, None) => Ret l
      | (_, Some _) => match lvl with Some _ => Level_ lvl h | None => Ret InfoLevel end
      end /\
    e = (ParseLevel text).2.
Proof.
  unfold UnmarshalText_, ParseLevel.
  assert (exists i h1, ensureAllocated lvl h = (Some i, h1) /\
    (i < length h1)%nat /\ (forall l, lvl = Some l -> i = l /\ h1 = h) /\
    (lvl = None -> Level_ (Some i) h1 = Ret 0)) as (i & h1 & -> & Hi & Hl & Hz).
  { destruct lvl as [i|]; [exists i, h; naive_solver|].
    exists (length h), (h ++ [0]). rewrite length_app. simpl.
    repeat split; [lia|done..|]. intros _. unfold Level_, Load.
    by rewrite lookup_app_r, Nat.sub_diag. }
  destruct (UnmarshalText (Some 0) text) as [l e] eqn:E. exists i, e.
  destruct e as [e|].
  - exists h1. simpl. destruct lvl as [j|]; [destruct (Hl j eq_refl) as [-> ->]|];
      repeat split; try done; [naive_solver|by apply Hz].
  - pose proof (UnmarshalText_range _ _ _ _ E eq_refl) as Hr. apply levels_int8 in Hr.
    destruct (SetLevel_Level i _ h1 Hi Hr) as [-> HL]. eexists. simpl. split; [done|].
    split; [naive_solver|]. split; [|done]. by rewrite HL.
Qed.
End theorems.

#[local] Existing Instance asciiStd.

Definition putDebug : Request := mkRequest (str "PUT") None [] (BodyLevel (str "debug")).

Lemma ServeHTTP_level_witness :
  exists w' h', ServeHTTP (fun _ => None) (Some 1%nat) (mkResponse [] [] []) putDebug [2; 0] = Ret (w', h') /\
    answers putDebug 0 DebugLevel [] (levelPayload DebugLevel) /\ Level_ (Some 1%nat) h' = Ret DebugLevel /\
    h' !! 0%nat = Some 2.
Proof.
  destruct (ServeHTTP_level (fun _ => None) 1%nat 0 (mkResponse [] [] []) putDebug [2; 0] eq_refl)
    as (new & codes & p & h' & Ha & HL & Hj & E).
  eexists _, h'. split; [exact E|]. split; [apply answer_put; [reflexivity|]|].
  - apply (json_level putDebug (str "debug")); [discriminate|reflexivity|]. apply unmarshalText_names. reflexivity.
  - split; [|by apply (Hj 0%nat)]. vm_compute in E. injection E as _ _ <-. reflexivity.
Defined.

Lemma UnmarshalText_sets_witness :
  exists i e h', UnmarshalText_ None (str "ERROR") [] = Ret (Some i, e, h') /\ Level_ (Some i) h' = Ret ErrorLevel.
Proof.
  destruct (UnmarshalText_sets None (str "ERROR") [] I) as (i & e & h' & E & _ & HL & _).
  exists i, e, h'. split; [exact E|exact HL].
Defined.
End AtomicLevel.
