(* ===== verification/WriteSyncer.v ===== *)
(** zapcore/write_syncer.go and [CombineWriteSyncers] of writer.go: the
    [WriteSyncer] interface, its lock, no-op-Sync and fan-out wrappers.

    A call on a [WriteSyncer] is a function on a world [W] (files, buffers,
    whatever the implementation mutates).  The dynamic types the code tests for
    ([*lockedWriteSyncer], a plain [io.Writer]) are constructors. *)

From Stdlib Require Import ZArith Lia.
From S2P Require Import Prelude.
From stdpp Require Import base list.

Local Open Scope Z_scope.

Module WriteSyncer.

Section WriteSyncer.
Context {W : Type}.

(** [Write(p) (n int, err error)] and [Sync() error] as state transformers. *)
Definition WriteFn : Type := bytes -> W -> (Z * error) * W.
Definition SyncFn : Type := W -> error * W.

(** A value of the interface type [WriteSyncer], by its dynamic type: some
    implementation outside this file, [*lockedWriteSyncer], [writerWrapper] or
    [multiWriteSyncer]. *)
Inductive WriteSyncer : Type :=
| foreignSyncer (write : WriteFn) (sync : SyncFn)
| lockedWriteSyncer (ws : WriteSyncer)
| writerWrapper (write : WriteFn)
| multiWriteSyncer (ws : list WriteSyncer).

(** An [io.Writer]: its dynamic type has a [Sync] method or it has not. *)
Inductive Writer : Type :=
| writeSyncer (ws : WriteSyncer)
| plainWriter (write : WriteFn).

(** The loop body of [multiWriteSyncer.Write]: which count is kept. *)
Definition keepCount (nWritten n : Z) : Z :=
  if (nWritten =? 0) && negb (n =? 0) then n
  else if n <? nWritten then n
  else nWritten.

Context {M : Multierr}.

(** The methods of [*lockedWriteSyncer], given those of the wrapped syncer: the
    mutex is held for exactly the wrapped call, so the call is one step. *)
Definition locked_Write (wsWrite : WriteFn) : WriteFn := fun bs w =>
  let '((n, err), w') := wsWrite bs w in ((n, err), w').

Definition locked_Sync (wsSync : SyncFn) : SyncFn := fun w =>
  let '(err, w') := wsSync w in (err, w').

(** [writerWrapper.Sync] does nothing. *)
Definition wrapper_Sync : SyncFn := fun w => (None, w).

(** [multiWriteSyncer.Write]: the loop over the writers' [Write] methods. *)
Fixpoint multi_Write (ws : list WriteFn) (p : bytes) (acc : Z * error) (w : W)
    : (Z * error) * W :=
  match ws with
  | [] => (acc, w)
  | write :: ws' =>
      let '((n, err), w') := write p w in
      multi_Write ws' p (keepCount acc.1 n, multierr_Append acc.2 err) w'
  end.

Fixpoint multi_Sync (ws : list SyncFn) (acc : error) (w : W) : error * W :=
  match ws with
  | [] => (acc, w)
  | sync :: ws' =>
      let '(err, w') := sync w in
      multi_Sync ws' (multierr_Append acc err) w'
  end.

(** Dynamic dispatch of the interface's two methods. *)
Fixpoint Write (s : WriteSyncer) : WriteFn :=
  match s with
  | foreignSyncer write _ => write
  | lockedWriteSyncer ws => locked_Write (Write ws)
  | writerWrapper write => write
  | multiWriteSyncer ws => fun p w => multi_Write (map Write ws) p (0, None) w
  end.

Fixpoint Sync (s : WriteSyncer) : SyncFn :=
  match s with
  | foreignSyncer _ sync => sync
  | lockedWriteSyncer ws => locked_Sync (Sync ws)
  | writerWrapper _ => wrapper_Sync
  | multiWriteSyncer ws => fun w => multi_Sync (map Sync ws) None w
  end.

Definition AddSync (w : Writer) : WriteSyncer :=
  match w with
  | writeSyncer ws => ws
  | plainWriter write => writerWrapper write
  end.

Definition Lock (ws : WriteSyncer) : WriteSyncer :=
  match ws with
  | lockedWriteSyncer _ => ws
  | _ => lockedWriteSyncer ws
  end.

Definition NewMultiWriteSyncer (ws : list WriteSyncer) : WriteSyncer :=
  match ws with
  | [s] => s
  | _ => multiWriteSyncer ws
  end.

(** [io.Discard]. *)
Definition Discard : Writer := plainWriter (fun p w => ((lenZ p, None), w)).

Definition CombineWriteSyncers (writers : list WriteSyncer) : WriteSyncer :=
  match writers with
  | [] => AddSync Discard
  | _ => Lock (NewMultiWriteSyncer writers)
  end.

(** * What a fan-out write promises

    Every writer is called once, in order, with the whole of [p]. *)
Fixpoint writeEach (ws : list WriteSyncer) (p : bytes) (w : W) : list (Z * error) * W :=
  match ws with
  | [] => ([], w)
  | s :: ws' =>
      let '(r, w1) := Write s p w in
      let '(rs, w2) := writeEach ws' p w1 in
      (r :: rs, w2)
  end.

Fixpoint syncEach (ws : list WriteSyncer) (w : W) : list error * W :=
  match ws with
  | [] => ([], w)
  | s :: ws' =>
      let '(r, w1) := Sync s w in
      let '(rs, w2) := syncEach ws' w1 in
      (r :: rs, w2)
  end.

Definition appendAll (es : list error) : error := foldl multierr_Append None es.

Lemma Write_multi ws p w :
  Write (multiWriteSyncer ws) p w =
  let '(rs, w') := writeEach ws p w in
  ((foldl keepCount 0 (map fst rs), appendAll (map snd rs)), w').
Proof.
  simpl. unfold appendAll.
  assert (forall acc w, multi_Write (map Write ws) p acc w =
    let '(rs, w') := writeEach ws p w in
    ((foldl keepCount acc.1 (map fst rs), foldl multierr_Append acc.2 (map snd rs)), w')) as IH;
    [|apply IH].
  induction ws as [|s ws IH]; intros [c e] w0; [done|].
  simpl. destruct (Write s p w0) as [[n er] w1]. rewrite IH. simpl.
  by destruct (writeEach ws p w1).
Qed.

Lemma Sync_multi ws w :
  Sync (multiWriteSyncer ws) w =
  let '(rs, w') := syncEach ws w in (appendAll rs, w').
Proof.
  simpl. unfold appendAll. generalize (None : error) as acc. revert w.
  induction ws as [|s ws IH]; intros w acc; [done|].
  simpl. destruct (Sync s w) as [er w1]. rewrite IH.
  by destruct (syncEach ws w1).
Qed.

Lemma Write_Lock s p w : Write (Lock s) p w = Write s p w.
Proof. destruct s; try done; simpl; unfold locked_Write; by repeat case_match; simplify_eq. Qed.

Lemma Sync_Lock s w : Sync (Lock s) w = Sync s w.
Proof. destruct s; try done; simpl; unfold locked_Sync; by repeat case_match; simplify_eq. Qed.

Lemma keepCount_min c n : 0 < n -> 0 <= c -> keepCount c n = if c =? 0 then n else Z.min c n.
Proof. intros. unfold keepCount. split_ifs; lia. Qed.

Lemma foldl_keepCount_pos ns c :
  Forall (fun n => 0 < n) ns -> 0 < c -> foldl keepCount c ns = foldl Z.min c ns.
Proof.
  intros H. revert c. induction H as [|n ns Hn H IH]; intros c Hc; [done|].
  simpl. rewrite keepCount_min by lia. rewrite (proj2 (Z.eqb_neq c 0)) by lia.
  apply IH. lia.
Qed.

Lemma foldl_min_spec (rs : list (Z * error)) r0 e0 :
  foldl Z.min r0 (map fst rs) ∈ r0 :: map fst rs /\
  Forall (fun r : Z * error => foldl Z.min r0 (map fst rs) <= r.1) ((r0, e0) :: rs).
Proof.
  revert r0. induction rs as [|[r1 e1] rs IH]; intros r0; simpl.
  - split; [left|repeat constructor; simpl; lia].
  - destruct (IH (Z.min r0 r1)) as [Hin Hle].
    inversion Hle as [|? ? Hm Hle']; subst. simpl in Hm. split.
    + apply elem_of_cons in Hin as [Hin|Hin]; [|by repeat right].
      rewrite Hin. destruct (Z.min_spec r0 r1) as [[_ ->]|[_ ->]]; [left|right; left].
    + constructor; [simpl; lia|]. constructor; [simpl; lia|done].
Qed.

Section errors.
Context {MS : MultierrSpec M}.

Lemma Errors_foldl es acc :
  multierr_Errors (foldl multierr_Append acc es) =
  multierr_Errors acc ++ concat (map multierr_Errors es).
Proof.
  revert acc. induction es as [|e es IH]; intros acc; simpl.
  - by rewrite app_nil_r.
  - by rewrite IH, Errors_Append, app_assoc.
Qed.

Lemma Errors_appendAll es :
  multierr_Errors (appendAll es) = concat (map multierr_Errors es).
Proof. unfold appendAll. by rewrite Errors_foldl, Errors_nil. Qed.

(** C32: [CombineWriteSyncers] of at least two writers duplicates a write: every
    writer receives the whole of [p] once, in order, whatever the others return;
    the errors of the combined result are exactly the writers' errors, in order. *)
Theorem combine_write_all s1 s2 ws p w :
  let '(rs, w') := writeEach (s1 :: s2 :: ws) p w in
  exists n e,
    Write (CombineWriteSyncers (s1 :: s2 :: ws)) p w = ((n, e), w') /\
    multierr_Errors e = concat (map (fun r => multierr_Errors r.2) rs).
Proof.
  unfold CombineWriteSyncers. rewrite Write_Lock. unfold NewMultiWriteSyncer.
  rewrite Write_multi. destruct (writeEach _ _ _) as [rs w'].
  eexists _, _. split; [done|]. by rewrite Errors_appendAll, map_map.
Qed.
End errors.

(** When every writer reports a positive count, the fan-out write returns
    the smallest of the counts, which is the documented result. *)
Theorem multi_write_smallest s ws p w rs w'
    (Hrs : writeEach (s :: ws) p w = (rs, w'))
    (Hpos : Forall (fun r => 0 < r.1) rs) :
  exists n e,
    Write (multiWriteSyncer (s :: ws)) p w = ((n, e), w') /\
    n ∈ map fst rs /\ Forall (fun r => n <= r.1) rs.
Proof.
  rewrite Write_multi, Hrs. eexists _, _. split; [done|].
  assert (rs <> []) as Hne.
  { simpl in Hrs. destruct (Write s p w) as [r w1], (writeEach ws p w1). congruence. }
  destruct rs as [|[r0 e0] rs]; [done|]. clear Hrs Hne.
  apply Forall_cons in Hpos as [Hr0 Hpos]. simpl in *.
  rewrite keepCount_min by lia. simpl.
  rewrite foldl_keepCount_pos; [|by apply Forall_map|done].
  apply foldl_min_spec.
Qed.
End WriteSyncer.

Arguments WriteSyncer : clear implicits.
Arguments Writer : clear implicits.
Arguments WriteFn : clear implicits.
Arguments SyncFn : clear implicits.

(** * Concrete writers: the theorems applied *)

#[local] Existing Instances flat_multierr flat_multierr_spec.

(** A writer that takes at most [k] bytes of each write, appending to its slot. *)
Definition cappedWriter (k : Z) : WriteSyncer bytes :=
  foreignSyncer
    (fun p w => ((Z.min k (lenZ p), if lenZ p <=? k then None else Some (New_error (str "short"))),
                 w ++ take (Z.to_nat k) p))
    (fun w => (None, w)).

Lemma multi_write_smallest_witness :
  exists n e,
    Write (multiWriteSyncer [cappedWriter 5; cappedWriter 2; cappedWriter 3]) (str "abcd") [] =
      ((n, e), str "abcdababc") /\
    n ∈ [4; 2; 3] /\ Forall (fun r => n <= r.1)
      [(4, None); (2, Some (New_error (str "short"))); (3, Some (New_error (str "short")))].
Proof.
  apply (multi_write_smallest (cappedWriter 5) [cappedWriter 2; cappedWriter 3] (str "abcd") []
    [(4, None); (2, Some (New_error (str "short"))); (3, Some (New_error (str "short")))]).
  - vm_compute. reflexivity.
  - repeat constructor.
Defined.

Lemma combine_write_all_witness :
  exists n e,
    Write (CombineWriteSyncers [cappedWriter 5; cappedWriter 2]) (str "abc") [] =
      ((n, e), str "abcab") /\
    multierr_Errors e = [New_error (str "short")].
Proof. exact (combine_write_all (cappedWriter 5) (cappedWriter 2) [] (str "abc") []). Defined.

(** A writer that takes nothing is skipped when the smallest count is chosen:
    the fan-out write then returns a count larger than the smallest one. *)
Theorem multi_write_not_smallest :
  exists (ws : list (WriteSyncer bytes)) p w rs w' n e,
    writeEach ws p w = (rs, w') /\ Write (multiWriteSyncer ws) p w = ((n, e), w') /\
    Exists (fun r => r.1 < n) rs.
Proof.
  exists [cappedWriter 0; cappedWriter 3], (str "abc"), [].
  eexists _, _, _, _. split; [vm_compute; done|]. split; [vm_compute; done|].
  left. done.
Qed.
End WriteSyncer.
