(* ===== verification/Bufio.v ===== *)
(** The part of the standard library's [bufio.Writer] that
    zapcore/buffered_write_syncer.go uses: [NewWriterSize], [Available],
    [Buffered], [Flush] and [Write], over an arbitrary underlying writer. *)

From Stdlib Require Import ZArith Lia.
From S2P Require Import Prelude WriteSyncer.
From stdpp Require Import base list.

Local Open Scope Z_scope.
Local Open Scope zap_scope.

Module Bufio.
Import WriteSyncer.

(** [size] is [len(b.buf)], [buf] the buffered bytes [b.buf[0:b.n]], [werr] the
    sticky error [b.err]. *)
Record Writer := mkWriter { size : Z; buf : bytes; werr : error }.

Definition defaultBufSize : Z := 4096.

Definition ErrShortWrite : err := New_error (str "short write").

Definition NewWriterSize (sz : Z) : Writer :=
  mkWriter (if sz <=? 0 then defaultBufSize else sz) [] None.

Definition Buffered (b : Writer) : Z := lenZ (buf b).

Definition Available (b : Writer) : Z := size b - Buffered b.

Section Writer.
Context {W : Type} (wr : WriteFn W).

Definition Flush (b : Writer) (w : W) : (error * Writer) * W :=
  match werr b with
  | Some e => ((Some e, b), w)
  | None =>
      if Buffered b =? 0 then ((None, b), w)
      else
        let '((n, e), w') := wr (buf b) w in
        let e' := match e with
                  | None => if n <? Buffered b then Some ErrShortWrite else None
                  | Some _ => e
                  end in
        match e' with
        | Some _ => ((e', mkWriter (size b) (drop (Z.to_nat n) (buf b)) e'), w')
        | None => ((None, mkWriter (size b) [] None), w')
        end
  end.

(** The loop of [Write]: [p] is what is left of the argument, [nn] what has been
    accepted so far. *)
Fixpoint fillLoop (fuel : nat) (b : Writer) (p : bytes) (nn : Z) (w : W)
    : outcome ((Z * Writer * bytes) * W) :=
  if (Available b <? lenZ p) && bool_decide (werr b = None) then
    match fuel with
    | O => Diverge
    | S fuel =>
        if Buffered b =? 0 then
          let '((n, e), w') := wr p w in
          fillLoop fuel (mkWriter (size b) (buf b) e) (drop (Z.to_nat n) p) (nn + n) w'
        else
          let n := Available b in
          let b1 := mkWriter (size b) (buf b ++ take (Z.to_nat n) p) (werr b) in
          let '((_, b2), w') := Flush b1 w in
          fillLoop fuel b2 (drop (Z.to_nat n) p) (nn + n) w'
    end
  else Ret ((nn, b, p), w).

(** Enough iterations for every writer that makes progress. *)
Definition writeFuel (p : bytes) : nat := length p + 2.

Definition Write (b : Writer) (p : bytes) (w : W) : outcome ((Z * error) * Writer * W) :=
  let! ((nn, b', p'), w') := fillLoop (writeFuel p) b p 0 w in
  match werr b' with
  | Some e => Ret ((nn, Some e), b', w')
  | None => Ret ((nn + lenZ p', None), mkWriter (size b') (buf b' ++ p') None, w')
  end.
End Writer.

(** The documented contract of [io.Writer]: the count is between 0 and [len(p)],
    and a short count comes with an error. *)
Definition WriterContract {W} (wr : WriteFn W) : Prop :=
  forall p w, let '((n, e), _) := wr p w in
    0 <= n <= lenZ p /\ (n < lenZ p -> e <> None).

(** A writer that takes everything it is given. *)
Definition NeverFails {W} (wr : WriteFn W) : Prop :=
  forall p w, (wr p w).1 = (lenZ p, None).

(** Room for the buffered bytes. *)
Definition wf (b : Writer) : Prop := 0 < size b /\ Buffered b <= size b.

Lemma NeverFails_contract {W} (wr : WriteFn W) : NeverFails wr -> WriterContract wr.
Proof.
  intros H p w. specialize (H p w). destruct (wr p w) as [[n e] w'].
  simpl in H. injection H as -> ->. split; [|lia]. split; [apply lenZ_nonneg|lia].
Qed.

Lemma NewWriterSize_wf sz : wf (NewWriterSize sz).
Proof.
  unfold wf, NewWriterSize, Buffered, lenZ, defaultBufSize. simpl.
  destruct (Z.leb_spec sz 0); lia.
Qed.

(** [Write] on the three paths the buffered syncer can take: a sticky error, an
    argument that fits, and a large argument on an empty buffer. *)
Lemma Write_sticky {W} (wr : WriteFn W) b p w e :
  werr b = Some e -> Write wr b p w = Ret ((0, Some e), b, w).
Proof.
  intros He. unfold Write, writeFuel. destruct (length p + 2)%nat as [|n]; simpl;
  rewrite He, bool_decide_eq_false_2, andb_false_r by done; simpl; by rewrite He.
Qed.

Lemma Write_fits {W} (wr : WriteFn W) b p w :
  werr b = None -> lenZ p <= Available b ->
  Write wr b p w = Ret ((lenZ p, None), mkWriter (size b) (buf b ++ p) None, w).
Proof.
  intros He Hp. unfold Write, writeFuel. destruct (length p + 2)%nat as [|n]; simpl;
  rewrite (proj2 (Z.ltb_ge _ _) Hp); simpl; by rewrite He.
Qed.

Lemma Write_direct {W} (wr : WriteFn W) b p w n e w' :
  werr b = None -> buf b = [] -> wf b -> size b < lenZ p ->
  wr p w = ((n, e), w') -> 0 <= n <= lenZ p -> (n < lenZ p -> e <> None) ->
  Write wr b p w = Ret ((n, e), mkWriter (size b) [] e, w').
Proof.
  intros He Hb Hwf Hp Hw Hn Hshort. unfold Write, writeFuel.
  replace (length p + 2)%nat with (S (S (length p))) by lia. simpl.
  unfold Available, Buffered. rewrite Hb. simpl.
  rewrite (proj2 (Z.ltb_lt _ _)) by (unfold lenZ at 1; simpl; lia).
  rewrite bool_decide_eq_true_2 by done. simpl. rewrite Hw. simpl.
  destruct e as [e|]; simpl.
  - rewrite andb_false_r. simpl. by rewrite Z.add_0_l.
  - assert (n = lenZ p) as -> by (destruct (decide (n < lenZ p)); [by exfalso; apply Hshort|lia]).
    rewrite drop_ge by (unfold lenZ; lia). rewrite (proj2 (Z.ltb_ge _ _)).
    + simpl. by rewrite Z.add_0_r.
    + unfold wf, Available, Buffered, lenZ in *. rewrite Hb in Hwf. simpl in *. lia.
Qed.

Lemma Buffered_0 b : Buffered b = 0 -> buf b = [].
Proof. apply lenZ_nil_inv. Qed.

(** What reached the underlying writer, recorded by wrapping it: each call with
    its argument and its result. *)
Record call := mkCall { arg : bytes; count : Z; cerr : error }.

Definition record {W} (wr : WriteFn W) : WriteFn (W * list call) :=
  fun p '(w, tr) =>
    let '((n, e), w') := wr p w in ((n, e), (w', tr ++ [mkCall p n e])).

(** The bytes the underlying writer has taken. *)
Definition delivered (tr : list call) : bytes :=
  concat (map (fun c => take (Z.to_nat (count c)) (arg c)) tr).

Lemma record_contract {W} (wr : WriteFn W) : WriterContract wr -> WriterContract (record wr).
Proof.
  intros H p [w tr]. simpl. specialize (H p w). by destruct (wr p w) as [[n e] w'].
Qed.

Lemma delivered_snoc tr c :
  delivered (tr ++ [c]) = delivered tr ++ take (Z.to_nat (count c)) (arg c).
Proof. unfold delivered. rewrite map_app. apply concat_snoc. Qed.

(** What a call of the underlying writer returns for [p], in some world, within
    the contract. *)
Definition allowed {W} (wr : WriteFn W) (p : bytes) (n : Z) (e : error) : Prop :=
  (exists w w', wr p w = ((n, e), w')) /\ 0 <= n <= lenZ p /\ (n < lenZ p -> e <> None).

Lemma allowed_full {W} (wr : WriteFn W) p n e : allowed wr p n e -> e = None -> n = lenZ p.
Proof.
  intros (_ & Hn & Hs) ->. destruct (decide (n < lenZ p)); [by exfalso; apply Hs|lia].
Qed.

Lemma allowed_NeverFails {W} (wr : WriteFn W) p n e :
  NeverFails wr -> allowed wr p n e -> e = None.
Proof.
  intros Hnf ((w & w' & Hw) & _). specialize (Hnf p w). rewrite Hw in Hnf.
  simpl in Hnf. congruence.
Qed.

(** What [Flush] can do to the buffer and to the underlying writer: fail with the
    earlier error, have nothing to do, deliver the whole buffer in one call, or
    fail after delivering a prefix of it, which leaves the buffer. *)
Inductive flush_effect {W} (wr : WriteFn W) (b : Writer) : list call -> error -> Writer -> Prop :=
| flush_sticky e :
    werr b = Some e -> flush_effect wr b [] (Some e) b
| flush_empty :
    werr b = None -> buf b = [] -> flush_effect wr b [] None b
| flush_all :
    werr b = None -> buf b <> [] ->
    flush_effect wr b [mkCall (buf b) (lenZ (buf b)) None] None (mkWriter (size b) [] None)
| flush_fails n e :
    werr b = None -> buf b <> [] -> allowed wr (buf b) n (Some e) ->
    flush_effect wr b [mkCall (buf b) n (Some e)] (Some e)
      (mkWriter (size b) (drop (Z.to_nat n) (buf b)) (Some e)).

Section recorded.
Context {W : Type} (wr : WriteFn W) (Hwr : WriterContract wr).

Abbreviation rec := (record wr).

Lemma record_allowed p w tr n e w' tr' :
  rec p (w, tr) = ((n, e), (w', tr')) -> allowed wr p n e /\ tr' = tr ++ [mkCall p n e].
Proof.
  simpl. specialize (Hwr p w). destruct (wr p w) as [[n' e'] w1] eqn:E.
  intros [= <- <- <- <-]. unfold allowed. eauto.
Qed.

Lemma Flush_effect b w tr :
  exists e b' w' cs, Flush rec b (w, tr) = ((e, b'), (w', tr ++ cs)) /\ flush_effect wr b cs e b'.
Proof.
  unfold Flush. destruct (werr b) as [e0|] eqn:He.
  { eexists _, _, _, []. rewrite app_nil_r. split; [done|by constructor]. }
  destruct (Z.eqb_spec (Buffered b) 0) as [Hb0|Hb0].
  { eexists _, _, _, []. rewrite app_nil_r. split; [done|].
    constructor; [done|by apply Buffered_0]. }
  assert (buf b <> []) as Hne.
  { intros E. unfold Buffered in Hb0. by rewrite E in Hb0. }
  destruct (rec (buf b) (w, tr)) as [[n e1] [w1 tr1]] eqn:Hrec.
  apply record_allowed in Hrec as [Hal ->]. simpl.
  destruct e1 as [e1|].
  { eexists _, _, _, _. split; [done|by constructor]. }
  destruct Hal as (_ & Hn & Hshort). unfold Buffered.
  destruct (Z.ltb_spec n (lenZ (buf b))) as [Hlt|Hge]; [by apply Hshort in Hlt|].
  assert (n = lenZ (buf b)) as -> by lia.
  eexists _, _, _, _. split; [done|by constructor].
Qed.
End recorded.

Lemma take_lenZ {A} (l : list A) : take (Z.to_nat (lenZ l)) l = l.
Proof. apply take_ge. unfold lenZ. lia. Qed.

Lemma delivered_app tr cs : delivered (tr ++ cs) = delivered tr ++ delivered cs.
Proof. unfold delivered. by rewrite map_app, concat_app. Qed.

(** The facts about [Flush] that its clients use: the buffer stays well formed,
    no byte is lost or duplicated, and success leaves the buffer empty. *)
Lemma flush_effect_spec {W} (wr : WriteFn W) b cs e b' :
  flush_effect wr b cs e b' -> wf b ->
  wf b' /\ size b' = size b /\ e = werr b' /\
  delivered cs ++ buf b' = buf b /\ (e = None -> buf b' = []).
Proof.
  unfold wf, Buffered. intros H [Hs Hb].
  destruct H as [e He|He Hb0|He Hb0|n e He Hb0 Hal]; unfold delivered; simpl.
  - repeat split; auto; congruence.
  - repeat split; auto.
  - rewrite !app_nil_r, take_lenZ. repeat split; auto. unfold lenZ. simpl. lia.
  - rewrite app_nil_r, take_drop. repeat split; auto; try done. len.
Qed.
End Bufio.
