(* ===== verification/BufferedWriteSyncer.v ===== *)
(** zapcore/buffered_write_syncer.go: a [WriteSyncer] that batches writes in
    memory, with its background flush loop and its shutdown protocol.

    [Write], [Sync] and the first part of [Stop] run under the mutex, so each is
    one function on the state.  The interleaving of clients, the flush loop and
    the ticker is the step relation [step]. *)

From Stdlib Require Import ZArith Lia.
From S2P Require Import Prelude WriteSyncer Bufio.
From stdpp Require Import base list relations.

Local Open Scope Z_scope.
Local Open Scope zap_scope.

Module BufferedWriteSyncer.
Import WriteSyncer.

Definition _defaultBufferSize : Z := 256 * 1024.

(** [time.Second] is 10^9 nanoseconds. *)
Definition _defaultFlushInterval : Z := 30 * 1000000000.

(** A [*time.Ticker]: its interval, whether it still ticks, and its channel, which
    holds at most one tick. *)
Record Ticker := mkTicker { interval : Z; running : bool; pending : bool }.

Definition NewTickerFn : Type := Z -> outcome Ticker.

(** [time.NewTicker], used by the default clock, panics on a non-positive
    interval. *)
Definition DefaultClock : NewTickerFn := fun d =>
  if d <=? 0 then Panic (str "non-positive interval for NewTicker")
  else Ret (mkTicker d true false).

(** Where the goroutine started by [initialize] is: at the [select], holding a
    tick and about to call [Sync], or returned. *)
Inductive LoopState := Selecting | Ticked | Exited.

(** What [initialize] creates; [stop] and [done] say whether the channel is
    closed. *)
Record Live := mkLive {
  writer : Bufio.Writer;
  ticker : Ticker;
  stop : bool;
  done : bool;
  loop : LoopState
}.

(** [initialized] is [true] exactly when [live] is set: [initialize] assigns the
    four fields and the flag together. *)
Record BufferedWriteSyncer := mkBWS {
  Size : Z;
  FlushInterval : Z;
  Clock : option NewTickerFn;
  stopped : bool;
  live : option Live
}.

Definition setLive (s : BufferedWriteSyncer) (l : Live) : BufferedWriteSyncer :=
  mkBWS (Size s) (FlushInterval s) (Clock s) (stopped s) (Some l).

Definition setWriter (l : Live) (b : Bufio.Writer) : Live :=
  mkLive b (ticker l) (stop l) (done l) (loop l).

Definition initialize (s : BufferedWriteSyncer) : outcome BufferedWriteSyncer :=
  let size := if Size s =? 0 then _defaultBufferSize else Size s in
  let flushInterval :=
    if FlushInterval s =? 0 then _defaultFlushInterval else FlushInterval s in
  let clock := default DefaultClock (Clock s) in
  let! t := clock flushInterval in
  Ret (mkBWS (Size s) (FlushInterval s) (Some clock) (stopped s)
         (Some (mkLive (Bufio.NewWriterSize size) t false false Selecting))).

Section ops.
Context {W : Type} {M : Multierr} (WS : WriteSyncer W).

Abbreviation wr := (WriteSyncer.Write WS).

(** The state [Write] works on: the existing one, or a freshly initialized one. *)
Definition ensureLive (s : BufferedWriteSyncer) : outcome (BufferedWriteSyncer * Live) :=
  match live s with
  | Some l => Ret (s, l)
  | None =>
      let! s' := initialize s in
      match live s' with
      | Some l => Ret (s', l)
      | None => Panic (str "nil pointer dereference")
      end
  end.

Definition Write (s : BufferedWriteSyncer) (bs : bytes) (w : W)
    : outcome ((Z * error) * BufferedWriteSyncer * W) :=
  let! (s, l) := ensureLive s in
  let write (b : Bufio.Writer) (w : W) :=
    let! (r, b', w') := Bufio.Write wr b bs w in
    Ret (r, setLive s (setWriter l b'), w') in
  if (Bufio.Available (writer l) <? lenZ bs) && (0 <? Bufio.Buffered (writer l)) then
    let '((e, b), w') := Bufio.Flush wr (writer l) w in
    match e with
    | Some _ => Ret ((0, e), setLive s (setWriter l b), w')
    | None => write b w'
    end
  else write (writer l) w.

Definition Sync (s : BufferedWriteSyncer) (w : W) : error * BufferedWriteSyncer * W :=
  let '(e, s', w') :=
    match live s with
    | Some l =>
        let '((e, b), w') := Bufio.Flush wr (writer l) w in
        (e, setLive s (setWriter l b), w')
    | None => (None, s, w)
    end in
  let '(e2, w2) := WriteSyncer.Sync WS w' in
  (multierr_Append e e2, s', w2).

(** The critical section of [Stop]: whether this call has to wait for the loop,
    and the new state.  Closing a closed channel panics. *)
Definition stopCritical (s : BufferedWriteSyncer) : outcome (bool * BufferedWriteSyncer) :=
  match live s with
  | None => Ret (false, s)
  | Some l =>
      if stopped s then Ret (false, s)
      else if stop l then Panic (str "close of closed channel")
      else
        let t := mkTicker (interval (ticker l)) false (pending (ticker l)) in
        Ret (true, mkBWS (Size s) (FlushInterval s) (Clock s) true
                     (Some (mkLive (writer l) t true (done l) (loop l))))
  end.
End ops.

(** A [BufferedWriteSyncer] composite literal: nothing has run yet. *)
Definition fresh (size interval : Z) (clock : option NewTickerFn) : BufferedWriteSyncer :=
  mkBWS size interval clock false None.

(** * The system: clients, ticker, flush loop *)

(** A call of [Stop], after its critical section: returned at once, waiting for
    the loop, woken up, or finished with an error value. *)
Inductive StopCall := Waiting | Woken | Returned (e : error).

(** The world is recorded, so [trace] is every call the wrapped syncer received;
    [writes] is the history of [Write] calls with their returned counts. *)
Record System (W : Type) := mkSystem {
  bws : BufferedWriteSyncer;
  world : W;
  trace : list Bufio.call;
  writes : list (bytes * Z);
  stops : list StopCall
}.
Arguments mkSystem {W}.
Arguments bws {W}.
Arguments world {W}.
Arguments trace {W}.
Arguments writes {W}.
Arguments stops {W}.

Section system.
Context {W : Type} {M : Multierr} (WS : WriteSyncer W).

(** The wrapped syncer, recording its [Write] calls. *)
Definition spy : WriteSyncer (W * list Bufio.call) :=
  foreignSyncer (Bufio.record (WriteSyncer.Write WS))
    (fun '(w, tr) => let '(e, w') := WriteSyncer.Sync WS w in (e, (w', tr))).

Definition withLive (σ : System W) (l : Live) : System W :=
  mkSystem (setLive (bws σ) l) (world σ) (trace σ) (writes σ) (stops σ).

Inductive step : System W -> System W -> Prop :=
| step_write s w tr ws ss bs n e s' w' tr' :
    Write spy s bs (w, tr) = Ret ((n, e), s', (w', tr')) ->
    step (mkSystem s w tr ws ss) (mkSystem s' w' tr' (ws ++ [(bs, n)]) ss)
| step_sync s w tr ws ss e s' w' tr' :
    Sync spy s (w, tr) = (e, s', (w', tr')) ->
    step (mkSystem s w tr ws ss) (mkSystem s' w' tr' ws ss)
| step_tick σ l :
    live (bws σ) = Some l -> running (ticker l) = true ->
    step σ (withLive σ (mkLive (writer l) (mkTicker (interval (ticker l)) true true)
                          (stop l) (done l) (loop l)))
| step_loop_receive σ l :
    live (bws σ) = Some l -> loop l = Selecting -> pending (ticker l) = true ->
    step σ (withLive σ (mkLive (writer l)
                          (mkTicker (interval (ticker l)) (running (ticker l)) false)
                          (stop l) (done l) Ticked))
| step_loop_sync s w tr ws ss l e s' l' w' tr' :
    live s = Some l -> loop l = Ticked ->
    Sync spy s (w, tr) = (e, s', (w', tr')) -> live s' = Some l' ->
    step (mkSystem s w tr ws ss)
         (mkSystem (setLive s' (mkLive (writer l') (ticker l') (stop l') (done l') Selecting))
            w' tr' ws ss)
| step_loop_stop σ l :
    live (bws σ) = Some l -> loop l = Selecting -> stop l = true ->
    step σ (withLive σ (mkLive (writer l) (ticker l) (stop l) true Exited))
| step_stop_noop s w tr ws ss s' :
    stopCritical s = Ret (false, s') ->
    step (mkSystem s w tr ws ss) (mkSystem s' w tr ws (ss ++ [Returned None]))
| step_stop_begin s w tr ws ss s' :
    stopCritical s = Ret (true, s') ->
    step (mkSystem s w tr ws ss) (mkSystem s' w tr ws (ss ++ [Waiting]))
| step_stop_wake s w tr ws ss1 ss2 l :
    live s = Some l -> done l = true ->
    step (mkSystem s w tr ws (ss1 ++ Waiting :: ss2))
         (mkSystem s w tr ws (ss1 ++ Woken :: ss2))
| step_stop_sync s w tr ws ss1 ss2 e s' w' tr' :
    Sync spy s (w, tr) = (e, s', (w', tr')) ->
    step (mkSystem s w tr ws (ss1 ++ Woken :: ss2))
         (mkSystem s' w' tr' ws (ss1 ++ Returned e :: ss2)).

Definition initial (size interval : Z) (clock : option NewTickerFn) (w : W) : System W :=
  mkSystem (fresh size interval clock) w [] [] [].

Definition reachable (σ : System W) : Prop :=
  exists size interval clock w, rtc step (initial size interval clock w) σ.

(** The bytes that [Write] calls have accepted, in order. *)
Definition accepted (ws : list (bytes * Z)) : bytes :=
  concat (map (fun '(bs, n) => take (Z.to_nat n) bs) ws).

Definition buffered (s : BufferedWriteSyncer) : bytes :=
  match live s with
  | Some l => Bufio.buf (writer l)
  | None => []
  end.

(** * What one operation does *)

(** The effect of [Write] on the buffer and on the wrapped syncer.  In every case
    the wrapped syncer is handed either the whole buffer or the whole argument. *)
Inductive write_effect (b : Bufio.Writer) (bs : bytes)
    : list Bufio.call -> Z -> error -> Bufio.Writer -> Prop :=
| write_sticky e :
    Bufio.werr b = Some e -> write_effect b bs [] 0 (Some e) b
| write_buffered :
    Bufio.werr b = None -> lenZ bs <= Bufio.Available b ->
    write_effect b bs [] (lenZ bs) None
      (Bufio.mkWriter (Bufio.size b) (Bufio.buf b ++ bs) None)
| write_direct n e :
    Bufio.werr b = None -> Bufio.buf b = [] -> Bufio.size b < lenZ bs ->
    Bufio.allowed (WriteSyncer.Write WS) bs n e ->
    write_effect b bs [Bufio.mkCall bs n e] n e (Bufio.mkWriter (Bufio.size b) [] e)
| write_flush_fails cs e b' :
    Bufio.buf b <> [] -> Bufio.Available b < lenZ bs ->
    Bufio.flush_effect (WriteSyncer.Write WS) b cs (Some e) b' ->
    write_effect b bs cs 0 (Some e) b'
| write_flush_buffered cs b' :
    Bufio.buf b <> [] -> Bufio.Available b < lenZ bs <= Bufio.size b ->
    Bufio.flush_effect (WriteSyncer.Write WS) b cs None b' ->
    write_effect b bs cs (lenZ bs) None (Bufio.mkWriter (Bufio.size b) bs None)
| write_flush_direct cs b' n e :
    Bufio.buf b <> [] -> Bufio.size b < lenZ bs ->
    Bufio.flush_effect (WriteSyncer.Write WS) b cs None b' -> Bufio.allowed (WriteSyncer.Write WS) bs n e ->
    write_effect b bs (cs ++ [Bufio.mkCall bs n e]) n e
      (Bufio.mkWriter (Bufio.size b) [] e).

Lemma Write_spy : WriteSyncer.Write spy = Bufio.record (WriteSyncer.Write WS).
Proof. done. Qed.

Section contract.
Context (HWS : Bufio.WriterContract (WriteSyncer.Write WS)).

(** [bufio.Writer.Write] when the buffer is empty or the argument fits: the only
    ways in which the buffered syncer calls it. *)
Lemma bufio_Write_effect b bs w tr :
  Bufio.wf b -> Bufio.buf b = [] \/ lenZ bs <= Bufio.Available b ->
  exists n e b' w' cs,
    Bufio.Write (WriteSyncer.Write spy) b bs (w, tr) = Ret ((n, e), b', (w', tr ++ cs)) /\
    write_effect b bs cs n e b'.
Proof.
  intros Hwf Hcase. destruct (Bufio.werr b) as [e|] eqn:He.
  { eexists _, _, _, _, []. rewrite app_nil_r.
    split; [by apply Bufio.Write_sticky|by constructor]. }
  destruct (decide (lenZ bs <= Bufio.Available b)) as [Hfit|Hbig].
  { eexists _, _, _, _, []. rewrite app_nil_r.
    split; [by apply Bufio.Write_fits|by constructor]. }
  destruct Hcase as [Hempty|]; [|lia].
  assert (Bufio.size b < lenZ bs) as Hlt.
  { unfold Bufio.Available, Bufio.Buffered in Hbig. rewrite Hempty in Hbig.
    unfold lenZ in Hbig at 2. simpl in Hbig. lia. }
  rewrite Write_spy.
  destruct (Bufio.record (WriteSyncer.Write WS) bs (w, tr)) as [[n e] [w1 tr1]] eqn:Hrec.
  destruct (Bufio.record_allowed _ HWS _ _ _ _ _ _ _ Hrec) as [Hal ->].
  pose proof Hal as (_ & Hn & Hshort).
  eexists _, _, _, _, _. split; [by eapply Bufio.Write_direct|by constructor].
Qed.

Lemma Write_effect s s0 l bs w tr :
  ensureLive s = Ret (s0, l) -> Bufio.wf (writer l) ->
  exists n e b' w' cs,
    Write spy s bs (w, tr) = Ret ((n, e), setLive s0 (setWriter l b'), (w', tr ++ cs)) /\
    write_effect (writer l) bs cs n e b'.
Proof.
  intros Hl Hwf. unfold Write. rewrite Write_spy, Hl. cbn [obind].
  destruct (_ && _) eqn:Hc.
  - apply andb_true_iff in Hc as [Hav Hbuf]. apply Z.ltb_lt in Hav, Hbuf.
    assert (Bufio.buf (writer l) <> []) as Hne.
    { intros E. unfold Bufio.Buffered in Hbuf. by rewrite E in Hbuf. }
    destruct (Bufio.Flush_effect _ HWS (writer l) w tr) as (e & b1 & w1 & cs & -> & Hf).
    destruct e as [e|].
    { eexists _, _, _, _, _. split; [done|by econstructor]. }
    destruct (Bufio.flush_effect_spec _ _ _ _ _ Hf Hwf) as (Hwf1 & Hsz & He & _ & Hempty).
    destruct (bufio_Write_effect b1 bs w1 (tr ++ cs) Hwf1) as (n & e & b2 & w2 & cs2 & HW & Heff).
    { left. auto. }
    rewrite Write_spy in HW.
    rewrite HW. simpl.
    eexists _, _, _, _, (cs ++ cs2). rewrite app_assoc. split; [done|].
    specialize (Hempty eq_refl).
    inversion Heff as [e' He'|He' Hfit|n' e' He' Hb' Hlt Hal|? ? ? Hb'|? ? Hb'|? ? ? ? Hb'];
      subst; try congruence.
    + rewrite app_nil_r, Hsz, Hempty, app_nil_l. econstructor; [done| |done].
      unfold Bufio.Available, Bufio.Buffered, lenZ in *. rewrite Hempty in Hfit.
      simpl in Hfit. lia.
    + rewrite Hsz. econstructor; [done|lia|done|done].
  - destruct (bufio_Write_effect (writer l) bs w tr Hwf) as (n & e & b2 & w2 & cs2 & HW & Heff).
    { apply andb_false_iff in Hc as [Hc|Hc]; apply Z.ltb_ge in Hc; [by right|left].
      apply Bufio.Buffered_0. pose proof (lenZ_nonneg (Bufio.buf (writer l))).
      unfold Bufio.Buffered in *. lia. }
    rewrite Write_spy in HW. rewrite HW. simpl. eexists _, _, _, _, _. split; [done|done].
Qed.

Lemma write_effect_spec b bs cs n e b' :
  write_effect b bs cs n e b' -> Bufio.wf b ->
  Bufio.wf b' /\ Bufio.size b' = Bufio.size b /\ e = Bufio.werr b' /\
  0 <= n <= lenZ bs /\ (e = None -> n = lenZ bs) /\
  Bufio.delivered cs ++ Bufio.buf b' = Bufio.buf b ++ take (Z.to_nat n) bs.
Proof.
  intros H Hwf. pose proof Hwf as [Hs Hb]. pose proof (lenZ_nonneg bs) as Hbs.
  destruct H as [e He|He Hfit|n e He Hempty Hlt Hal|cs e b' Hne Hav Hf
    |cs b' Hne Hav Hf|cs b' n e Hne Hlt Hf Hal].
  - simpl. rewrite take_0, app_nil_r. repeat split; auto; try lia. congruence.
  - unfold Bufio.wf, Bufio.Available, Bufio.Buffered in *. simpl.
    rewrite Bufio.take_lenZ, lenZ_app. repeat split; auto; lia.
  - pose proof (Bufio.allowed_full _ _ _ _ Hal) as Hfull. destruct Hal as (_ & Hn & _).
    unfold Bufio.wf, Bufio.Buffered, Bufio.delivered. simpl. rewrite Hempty, !app_nil_r.
    repeat split; auto; try lia. unfold lenZ. simpl. lia.
  - destruct (Bufio.flush_effect_spec _ _ _ _ _ Hf Hwf) as (Hwf1 & Hsz & He & Hdel & _).
    rewrite take_0, app_nil_r. repeat split; auto; try lia; try congruence; apply Hwf1.
  - destruct (Bufio.flush_effect_spec _ _ _ _ _ Hf Hwf) as (Hwf1 & Hsz & He & Hdel & Hempty).
    rewrite (Hempty eq_refl), app_nil_r in Hdel. simpl. rewrite Bufio.take_lenZ, Hdel.
    unfold Bufio.wf, Bufio.Buffered. simpl. repeat split; auto; lia.
  - destruct (Bufio.flush_effect_spec _ _ _ _ _ Hf Hwf) as (Hwf1 & Hsz & He & Hdel & Hempty).
    rewrite (Hempty eq_refl), app_nil_r in Hdel. simpl. rewrite Bufio.delivered_snoc, Hdel, app_nil_r.
    pose proof (Bufio.allowed_full _ _ _ _ Hal) as Hfull. destruct Hal as (_ & Hn & _).
    unfold Bufio.wf, Bufio.Buffered. simpl. repeat split; auto; try lia. unfold lenZ. simpl. lia.
Qed.

Lemma Sync_effect s w tr :
  match live s with
  | Some l => exists e e2 b' w' cs,
      Sync spy s (w, tr) = (multierr_Append e e2, setLive s (setWriter l b'), (w', tr ++ cs)) /\
      Bufio.flush_effect (WriteSyncer.Write WS) (writer l) cs e b'
  | None => exists e2 w', Sync spy s (w, tr) = (multierr_Append None e2, s, (w', tr))
  end.
Proof.
  unfold Sync. destruct (live s) as [l|].
  - rewrite Write_spy. destruct (Bufio.Flush_effect _ HWS (writer l) w tr) as (e & b1 & w1 & cs & -> & Hf).
    simpl. destruct (WriteSyncer.Sync WS w1) as [e2 w2]. eauto 10.
  - simpl. destruct (WriteSyncer.Sync WS w) as [e2 w2]. eauto.
Qed.

(** * The invariant of the system *)

Definition active (c : StopCall) : Prop := match c with Returned _ => False | _ => True end.

Definition inv (σ : System W) : Prop :=
  match live (bws σ) with
  | None =>
      trace σ = [] /\ writes σ = [] /\ stopped (bws σ) = false /\
      Forall (fun c => c = Returned None) (stops σ)
  | Some l =>
      Bufio.wf (writer l) /\
      Bufio.delivered (trace σ) ++ Bufio.buf (writer l) = accepted (writes σ) /\
      stop l = stopped (bws σ) /\
      (done l = true <-> loop l = Exited) /\
      (loop l = Exited -> stop l = true) /\
      (Exists active (stops σ) -> stop l = true) /\
      (Woken ∈ stops σ -> done l = true)
  end.

Lemma accepted_snoc ws bs n : accepted (ws ++ [(bs, n)]) = accepted ws ++ take (Z.to_nat n) bs.
Proof. unfold accepted. rewrite map_app. apply concat_snoc. Qed.

Lemma ensureLive_inv s w tr ws ss s0 l :
  inv (mkSystem s w tr ws ss) -> ensureLive s = Ret (s0, l) ->
  live s0 = Some l /\ inv (mkSystem s0 w tr ws ss).
Proof.
  unfold ensureLive, inv. simpl. destruct (live s) as [l'|] eqn:Hl.
  { intros Hinv [= <- <-]. by rewrite Hl. }
  intros (-> & -> & Hst & Hss) (s1 & Hs1 & Hret)%obind_Ret_inv.
  apply obind_Ret_inv in Hs1 as (t & _ & [= <-]). simpl in Hret. injection Hret as <- <-.
  simpl. split; [done|]. split; [apply Bufio.NewWriterSize_wf|].
  repeat split; auto; try done.
  - intros Hex. exfalso. apply Exists_exists in Hex as (c & Hin & Hc).
    rewrite Forall_forall in Hss. by rewrite (Hss c Hin) in Hc.
  - intros Hin. rewrite Forall_forall in Hss. by apply Hss in Hin.
Qed.

(** A flush keeps the invariant. *)
Lemma inv_flush s w tr ws ss l w' cs e b' :
  inv (mkSystem s w tr ws ss) -> live s = Some l ->
  Bufio.flush_effect (WriteSyncer.Write WS) (writer l) cs e b' ->
  inv (mkSystem (setLive s (setWriter l b')) w' (tr ++ cs) ws ss).
Proof.
  unfold inv. simpl. intros Hinv Hl Hf. rewrite Hl in Hinv.
  destruct Hinv as (Hwf & Hdel & Hrest).
  destruct (Bufio.flush_effect_spec _ _ _ _ _ Hf Hwf) as (Hwf1 & _ & _ & Hd & _).
  split; [done|]. split; [|done].
  rewrite Bufio.delivered_app, <- app_assoc, Hd. done.
Qed.

Lemma inv_sync s w tr ws ss e s' w' tr' :
  inv (mkSystem s w tr ws ss) -> Sync spy s (w, tr) = (e, s', (w', tr')) ->
  inv (mkSystem s' w' tr' ws ss).
Proof.
  intros Hinv HS. pose proof (Sync_effect s w tr) as Hsync.
  destruct (live s) as [l|] eqn:Hl.
  - destruct Hsync as (e1 & e2 & b' & w1 & cs & HS' & Hf). rewrite HS in HS'.
    injection HS' as -> -> -> ->. by eapply inv_flush.
  - destruct Hsync as (e2 & w1 & HS'). rewrite HS in HS'. injection HS' as -> -> -> ->. done.
Qed.

Lemma inv_stops s w tr ws ss ss' l :
  live s = Some l ->
  (Exists active ss' -> stop l = true) -> (Woken ∈ ss' -> done l = true) ->
  inv (mkSystem s w tr ws ss) -> inv (mkSystem s w tr ws ss').
Proof. unfold inv. simpl. intros -> H1 H2. naive_solver. Qed.

Lemma inv_write s w tr ws ss bs n e s' w' tr' :
  inv (mkSystem s w tr ws ss) -> Write spy s bs (w, tr) = Ret ((n, e), s', (w', tr')) ->
  inv (mkSystem s' w' tr' (ws ++ [(bs, n)]) ss).
Proof.
  intros Hinv HW. pose proof HW as HW0. apply obind_Ret_inv in HW0 as ([s0 l] & Hl & _).
  destruct (ensureLive_inv _ _ _ _ _ _ _ Hinv Hl) as [Hlive Hinv0].
  unfold inv in Hinv0. simpl in Hinv0. rewrite Hlive in Hinv0.
  destruct Hinv0 as (Hwf & Hdel & Hrest).
  destruct (Write_effect s s0 l bs w tr Hl Hwf) as (n' & e' & b' & w1 & cs & HW' & Heff).
  rewrite HW in HW'. injection HW' as <- <- -> -> ->.
  destruct (write_effect_spec _ _ _ _ _ _ Heff Hwf) as (Hwf1 & _ & _ & _ & _ & Hd).
  unfold inv. simpl. split; [done|]. split; [|done].
  rewrite Bufio.delivered_app, <- app_assoc, Hd, app_assoc, Hdel, accepted_snoc. done.
Qed.

(** An active [Stop] call in the middle of the list of calls. *)
Lemma Exists_active_middle ss1 ss2 c : active c -> Exists active (ss1 ++ c :: ss2).
Proof. intros H. apply Exists_app. right. by left. Qed.

Lemma Woken_replace ss1 ss2 c c' :
  Woken ∈ ss1 ++ c' :: ss2 -> Woken ∈ ss1 ++ c :: ss2 \/ c' = Woken.
Proof. rewrite !elem_of_app, !elem_of_cons. naive_solver. Qed.

Lemma inv_step σ σ' : step σ σ' -> inv σ -> inv σ'.
Proof.
  intros Hstep Hinv.
  destruct Hstep as [s w tr ws ss bs n e s' w' tr' HW|s w tr ws ss e s' w' tr' HS
    |σ l Hl Hrun|σ l Hl Hloop Hp|s w tr ws ss l e s' l' w' tr' Hl Hloop HS Hl'
    |σ l Hl Hloop Hstop|s w tr ws ss s' Hc|s w tr ws ss s' Hc
    |s w tr ws ss1 ss2 l Hl Hdone|s w tr ws ss1 ss2 e s' w' tr' HS].
  - by eapply inv_write.
  - by eapply inv_sync.
  - unfold inv in *. simpl. by rewrite Hl in Hinv.
  - unfold inv in *. simpl. rewrite Hl in Hinv. rewrite Hloop in Hinv. naive_solver.
  - pose proof (inv_sync _ _ _ _ _ _ _ _ _ Hinv HS) as Hinv'.
    pose proof (Sync_effect s w tr) as Hsync. rewrite Hl, HS in Hsync.
    destruct Hsync as (? & ? & b' & ? & ? & [= -> -> -> ->] & _).
    injection Hl' as <-. unfold inv in *. simpl in *. rewrite Hloop in Hinv'. naive_solver.
  - unfold inv in *. simpl. rewrite Hl in Hinv. naive_solver.
  - unfold stopCritical in Hc. destruct (live s) as [l|] eqn:Hl.
    + destruct (stopped s); [|by destruct (stop l)]. injection Hc as <-.
      unfold inv in *. simpl in *. rewrite Hl in *.
      rewrite Exists_app, Exists_cons, Exists_nil, elem_of_app, list_elem_of_singleton. naive_solver.
    + injection Hc as <-. unfold inv in *. simpl in *. rewrite Hl in *.
      rewrite Forall_app, Forall_singleton. naive_solver.
  - unfold stopCritical in Hc. destruct (live s) as [l|] eqn:Hl; [|done].
    destruct (stopped s); [done|]. destruct (stop l); [done|]. injection Hc as <-.
    unfold inv in *. simpl in *. rewrite Hl in *.
    rewrite elem_of_app, list_elem_of_singleton. naive_solver.
  - eapply (inv_stops _ _ _ _ (ss1 ++ Waiting :: ss2)); try done.
    intros _. unfold inv in Hinv. simpl in Hinv. rewrite Hl in Hinv.
    destruct Hinv as (_ & _ & _ & Hd & He & _). apply He, Hd, Hdone.
  - pose proof (inv_sync _ _ _ _ _ _ _ _ _ Hinv HS) as Hinv'.
    pose proof Hinv' as Hinv''. unfold inv in Hinv''. simpl in Hinv''.
    destruct (live s') as [l|] eqn:Hl.
    + destruct Hinv'' as (_ & _ & _ & _ & _ & Hact & Hwok).
      eapply inv_stops; [done| | |done].
      * intros _. apply Hact. by apply Exists_active_middle.
      * intros _. apply Hwok. apply elem_of_app. right. left.
    + destruct Hinv'' as (_ & _ & _ & Hss). apply Forall_app in Hss as [_ Hss].
      apply Forall_cons in Hss as [Hss _]. done.
Qed.

Lemma reachable_inv σ : reachable σ -> inv σ.
Proof.
  intros (size & int & clock & w & Hrtc).
  assert (inv (initial size int clock w)) as Hinit by (unfold inv; simpl; auto).
  induction Hrtc as [|σ1 σ2 σ3 Hs _ IH]; [done|]. apply IH. by eapply inv_step.
Qed.

(** C4: nothing is lost, duplicated or reordered.  In every reachable state, under
    every interleaving of writers, syncs, ticks, the flush loop and [Stop], and
    whatever errors the wrapped syncer returns, the bytes it has taken followed by
    the bytes in the buffer are the bytes that [Write] reported as accepted, in the
    order of the calls. *)
Theorem bytes_conserved σ (Hr : reachable σ) :
  Bufio.delivered (trace σ) ++ buffered (bws σ) = accepted (writes σ).
Proof.
  apply reachable_inv in Hr. unfold inv, buffered in *.
  destruct (live (bws σ)) as [l|]; [by destruct Hr as (_ & ? & _)|].
  by destruct Hr as (-> & -> & _).
Qed.

Context {MS : MultierrSpec M}.

(** A flush that reports nothing has left nothing behind. *)
Lemma sync_nil_flushes s w tr ws ss s' w' tr' :
  inv (mkSystem s w tr ws ss) -> Sync spy s (w, tr) = (None, s', (w', tr')) ->
  Bufio.delivered tr' = accepted ws /\ buffered s' = [].
Proof.
  intros Hr HS.
  pose proof (inv_sync _ _ _ _ _ _ _ _ _ Hr HS) as Hinv.
  pose proof (Sync_effect s w tr) as Hsync. unfold inv, buffered in *. simpl in *.
  destruct (live s) as [l|] eqn:Hl.
  - destruct Hsync as (e1 & e2 & b' & w1 & cs & HS' & Hf). rewrite HS in HS'.
    injection HS' as He -> -> ->. simpl in *. symmetry in He.
    apply Append_None in He as [-> _].
    destruct Hr as (Hwf & _). destruct Hinv as (_ & Hdel & _).
    destruct (Bufio.flush_effect_spec _ _ _ _ _ Hf Hwf) as (_ & _ & _ & _ & Hempty).
    rewrite (Hempty eq_refl), app_nil_r in Hdel. auto.
  - destruct Hsync as (e2 & w1 & HS'). rewrite HS in HS'. injection HS' as _ -> -> ->.
    rewrite Hl. by destruct Hr as (-> & -> & _).
Qed.

(** C29: a [Sync] that returns nil, in particular the final one of [Stop], has
    handed every accepted byte to the wrapped syncer and leaves an empty buffer. *)
Theorem sync_nil_delivers_all σ s' w' tr'
    (Hr : reachable σ) (HS : Sync spy (bws σ) (world σ, trace σ) = (None, s', (w', tr'))) :
  Bufio.delivered tr' = accepted (writes σ) /\ buffered s' = [].
Proof.
  apply reachable_inv in Hr. destruct σ as [s w tr ws ss]. by eapply sync_nil_flushes.
Qed.

(** C13: [Stop] cannot deadlock with the flush loop.  Whenever a call of [Stop]
    waits for the loop, at most three steps, none of them by a client, wake it up:
    the loop may finish a flush it has begun, sees the closed channel, and exits. *)
Theorem stop_never_deadlocks σ ss1 ss2 (Hr : reachable σ)
    (Hw : stops σ = ss1 ++ Waiting :: ss2) :
  exists n σ', (n <= 3)%nat /\ nsteps step n σ σ' /\
    stops σ' = ss1 ++ Woken :: ss2 /\ writes σ' = writes σ.
Proof.
  apply reachable_inv in Hr. destruct σ as [s w tr ws ss]. simpl in Hw. subst ss.
  pose proof Hr as Hinv. unfold inv in Hinv. simpl in Hinv.
  destruct (live s) as [l|] eqn:Hl.
  2: { destruct Hinv as (_ & _ & _ & Hss). apply Forall_app in Hss as [_ Hss].
       by apply Forall_cons in Hss as [Hss _]. }
  destruct Hinv as (_ & _ & _ & Hdone & _ & Hact & _).
  assert (stop l = true) as Hstop by (apply Hact, Exists_active_middle; done).
  assert (forall s1 w1 tr1 l1, live s1 = Some l1 -> loop l1 = Selecting -> stop l1 = true ->
    exists σ', nsteps step 2 (mkSystem s1 w1 tr1 ws (ss1 ++ Waiting :: ss2)) σ' /\
      stops σ' = ss1 ++ Woken :: ss2 /\ writes σ' = ws) as Hexit.
  { intros s1 w1 tr1 l1 Hl1 Hloop1 Hstop1. eexists. split.
    - eapply nsteps_l; [by eapply step_loop_stop|].
      eapply nsteps_once. by eapply step_stop_wake.
    - done. }
  destruct (loop l) eqn:Hloop.
  - destruct (Hexit s w tr l Hl Hloop Hstop) as (σ' & ? & ? & ?). exists 2%nat, σ'. eauto.
  - pose proof (Sync_effect s w tr) as Hsync. rewrite Hl in Hsync.
    destruct Hsync as (e1 & e2 & b' & w1 & cs & HS & _).
    pose (l' := mkLive b' (ticker l) (stop l) (BufferedWriteSyncer.done l) Selecting).
    destruct (Hexit (setLive s l') w1 (tr ++ cs) l') as (σ' & ? & ? & ?); [done..|].
    exists 3%nat, σ'. split; [done|]. split; [|done].
    eapply nsteps_l; [|done].
    exact (step_loop_sync s w tr ws _ l _ _ (setWriter l b') _ _ Hl Hloop HS eq_refl).
  - exists 1%nat. eexists. split; [lia|].
    split; [eapply nsteps_once, step_stop_wake; [done|by apply Hdone]|done].
Qed.

(** A call of [Stop] that has been through its critical section: it returned nil at once,
    or it stopped the ticker, closed the channel and waits.  Nothing is written. *)
Definition newStop (σ σ' : System W) (c : StopCall) : Prop :=
  world σ' = world σ /\ trace σ' = trace σ /\ writes σ' = writes σ /\
  match c with
  | Returned e =>
      e = None /\ (live (bws σ) = None \/ stopped (bws σ) = true) /\ bws σ' = bws σ
  | Waiting =>
      exists l l', live (bws σ) = Some l /\ stopped (bws σ) = false /\
        live (bws σ') = Some l' /\ stopped (bws σ') = true /\
        writer l' = writer l /\ loop l' = loop l /\ stop l' = true /\ running (ticker l') = false
  | Woken => False
  end.

(** The rest of it: it goes on after the loop has exited, and then it returns what a
    [Sync] does, which is nil only if everything is with the wrapped syncer. *)
Definition movedStop (σ σ' : System W) (c c' : StopCall) : Prop :=
  writes σ' = writes σ /\
  match c, c' with
  | Waiting, Woken =>
      bws σ' = bws σ /\ world σ' = world σ /\ trace σ' = trace σ /\
      exists l, live (bws σ) = Some l /\ loop l = Exited
  | Woken, Returned e =>
      Sync spy (bws σ) (world σ, trace σ) = (e, bws σ', (world σ', trace σ')) /\
      (e = None -> Bufio.delivered (trace σ') = accepted (writes σ') /\ buffered (bws σ') = [])
  | _, _ => False
  end.

Lemma stopCritical_total σ : inv σ -> exists first s', stopCritical (bws σ) = Ret (first, s').
Proof.
  unfold inv, stopCritical. destruct (live (bws σ)) as [l|]; [|eauto]. intros (_ & _ & -> & _).
  destruct (stopped (bws σ)); eauto.
Qed.

Lemma step_newStop σ σ' c : step σ σ' -> stops σ' = stops σ ++ [c] -> newStop σ σ' c.
Proof.
  intros Hstep E. destruct Hstep; simpl in E.
  1-6,9-10: exfalso; apply (f_equal length) in E; rewrite ?length_app in E; simpl in E; rewrite ?length_app in E; simpl in E; lia.
  - apply app_inj_tail in E as [_ <-]. unfold newStop, stopCritical in *. simpl. split_and!; try done;
      destruct (live s) as [l|] eqn:Hl; simplify_eq; auto; destruct (stopped s); try (by destruct (stop l)); simplify_eq; auto.
  - apply app_inj_tail in E as [_ <-]. unfold newStop, stopCritical in *. simpl. split_and!; try done.
    destruct (live s) as [l|] eqn:Hl; [|done]. destruct (stopped s); [done|]. destruct (stop l); [done|]. simplify_eq.
    simpl. by eexists _, _.
Qed.

Lemma lookup_middle_ne {A} (l1 l2 : list A) x y i : i <> length l1 -> (l1 ++ x :: l2) !! i = (l1 ++ y :: l2) !! i.
Proof.
  intros Hi. destruct (decide (i < length l1)%nat).
  - by rewrite !lookup_app_l.
  - rewrite !lookup_app_r by lia. destruct (i - length l1)%nat eqn:E; [lia|done].
Qed.

Lemma step_movedStop σ σ' i c c' :
  inv σ -> step σ σ' -> stops σ !! i = Some c -> stops σ' !! i = Some c' -> c <> c' -> movedStop σ σ' c c'.
Proof.
  intros Hinv Hstep E E' Hne. destruct Hstep; simpl in E, E'.
  1-6: congruence.
  - rewrite lookup_app_l in E' by (by eapply lookup_lt_Some). congruence.
  - rewrite lookup_app_l in E' by (by eapply lookup_lt_Some). congruence.
  - destruct (decide (i = length ss1)) as [->|Hi]; [|rewrite (lookup_middle_ne _ _ Waiting Woken) in E by done; congruence].
    rewrite list_lookup_middle in E, E' by done. simplify_eq. unfold inv in Hinv. simpl in Hinv.
    destruct (live s) as [l0|] eqn:Hl; [|done]. simplify_eq. destruct Hinv as (_ & _ & _ & Hd & _).
    unfold movedStop. simpl. split_and!; try done. exists l. split; [done|by apply Hd].
  - destruct (decide (i = length ss1)) as [->|Hi]; [|rewrite (lookup_middle_ne _ _ Woken (Returned e)) in E by done; congruence].
    rewrite list_lookup_middle in E, E' by done. simplify_eq. unfold movedStop. simpl. split; [done|]. split; [done|].
    intros ->. by eapply sync_nil_flushes.
Qed.

Lemma step_stopped σ σ' : step σ σ' -> stopped (bws σ) = true -> is_Some (live (bws σ)) ->
  stopped (bws σ') = true /\ is_Some (live (bws σ')).
Proof.
  intros Hstep Hst [l0 Hl0]. pose proof (fun s w tr => Sync_effect s w tr) as HSync.
  destruct Hstep as [s w tr ws ss bs n e s' w' tr' HW|s w tr ws ss e s' w' tr' HS
    |σ l Hl Hrun|σ l Hl Hloop Hp|s w tr ws ss l e s' l' w' tr' Hl Hloop HS Hl'
    |σ l Hl Hloop Hstop|s w tr ws ss s' Hc|s w tr ws ss s' Hc
    |s w tr ws ss1 ss2 l Hl Hdone|s w tr ws ss1 ss2 e s' w' tr' HS]; simpl in *; eauto.
  all: try (specialize (HSync s w tr); rewrite Hl0, HS in HSync; destruct HSync as (? & ? & ? & ? & ? & [= -> -> -> ->] & _); by eauto).
  - unfold Write, ensureLive in HW. rewrite Hl0 in HW. cbn [obind] in HW.
    destruct (_ && _); [destruct (Bufio.Flush _ _ _) as [[[e1|] b1] w1]; [by simplify_eq; eauto|]|];
      apply obind_Ret_inv in HW as ([[r b2] w2] & _ & HW); simplify_eq; eauto.
  - unfold stopCritical in Hc. rewrite Hl0, Hst in Hc. by simplify_eq; eauto.
  - unfold stopCritical in Hc. by rewrite Hl0, Hst in Hc.
Qed.

Lemma step_added σ σ' i c :
  step σ σ' -> stops σ !! i = None -> stops σ' !! i = Some c -> stops σ' = stops σ ++ [c].
Proof.
  intros Hstep E E'. destruct Hstep; simpl in *; try congruence.
  1-2: rewrite lookup_app_r in E' by (by apply lookup_ge_None); apply list_lookup_singleton_Some in E' as [_ <-]; done.
  all: apply lookup_lt_Some in E'; apply lookup_ge_None in E; rewrite !length_app in *; simpl in *; lia.
Qed.

Lemma stops_after σ σ' :
  inv σ -> stopped (bws σ) = true -> rtc step σ σ' ->
  forall i c, (length (stops σ) <= i)%nat -> stops σ' !! i = Some c -> c = Returned None.
Proof.
  intros Hinv Hst Hsteps.
  assert (inv σ' /\ (stopped (bws σ') = true /\ is_Some (live (bws σ'))) /\
    forall i c, (length (stops σ) <= i)%nat -> stops σ' !! i = Some c -> c = Returned None) as H; [|apply H].
  revert σ' Hsteps. apply rtc_ind_r; [|intros σ1 σ2 _ Hstep (Hinv1 & [Hst1 Hl1] & IH)].
  - split; [done|]. split; [split; [done|]|by intros i c Hi ?%lookup_lt_Some; lia].
    unfold inv in Hinv. destruct (live (bws σ)) as [l|]; [done|]. destruct Hinv as (_ & _ & H & _). congruence.
  - split; [by eapply inv_step|]. split; [by eapply step_stopped|]. intros i c Hi E.
    destruct (stops σ1 !! i) as [c1|] eqn:E1.
    + pose proof (IH i c1 Hi E1) as ->. pose proof (step_movedStop _ _ _ _ _ Hinv1 Hstep E1 E) as Hm.
      destruct c as [| |[e|]]; [..|done]; by destruct Hm as [_ []].
    + pose proof (step_added _ _ _ _ Hstep E1 E) as Ea. apply step_newStop in Ea as (_ & _ & _ & H); [|done].
      destruct c as [| |e]; [|done|by destruct H as (-> & _)]. destruct H as (? & ? & _ & H & _). congruence.
Qed.

(** C31: [Stop] runs once.  It can be called in every reachable state, without a panic.  If
    nothing was written yet, or [Stop] was called before, the call returns nil at once and
    changes nothing; otherwise it stops the ticker and closes the channel, goes on only
    after the flush loop has exited, and returns what a final [Sync] does, which is nil
    only if all bytes that were accepted are with the wrapped syncer.  After that first
    call every other one, at any later time, returns nil at once. *)
Theorem stop_runs_once σ (Hr : reachable σ) :
  (exists σ' c, step σ σ' /\ stops σ' = stops σ ++ [c]) /\
  (forall σ' c, step σ σ' -> stops σ' = stops σ ++ [c] -> newStop σ σ' c) /\
  (forall σ' i c c', step σ σ' -> stops σ !! i = Some c -> stops σ' !! i = Some c' -> c <> c' -> movedStop σ σ' c c') /\
  (stopped (bws σ) = true -> forall σ' i c, rtc step σ σ' ->
     (length (stops σ) <= i)%nat -> stops σ' !! i = Some c -> c = Returned None).
Proof.
  apply reachable_inv in Hr. split; [|split; [apply step_newStop|split; [intros; by eapply step_movedStop|]]].
  - destruct (stopCritical_total σ Hr) as ([] & s' & E); destruct σ as [s w tr ws ss]; eexists _, _;
      (split; [by econstructor|done]).
  - intros Hst σ' i c Hsteps. by apply (stops_after σ σ').
Qed.

(** C30: one [Write] returns, and hands the wrapped syncer at most two pieces of
    data: nothing when the argument fits, the whole old buffer (at most once) when
    it does not, and the argument itself when it is larger than the buffer. *)
Theorem write_flushes_at_most_once σ bs s0 l
    (Hr : reachable σ) (Hlive : ensureLive (bws σ) = Ret (s0, l)) :
  exists n e s' w' cs,
    Write spy (bws σ) bs (world σ, trace σ) = Ret ((n, e), s', (w', trace σ ++ cs)) /\
    map Bufio.arg cs ∈ [[]; [Bufio.buf (writer l)]; [bs]; [Bufio.buf (writer l); bs]] /\
    (lenZ bs <= Bufio.Available (writer l) -> cs = []) /\
    (lenZ bs <= Bufio.size (writer l) -> (length cs <= 1)%nat).
Proof.
  apply reachable_inv in Hr. destruct σ as [s w tr ws ss]. simpl in *.
  destruct (ensureLive_inv _ _ _ _ _ _ _ Hr Hlive) as [Hl Hinv].
  unfold inv in Hinv. simpl in Hinv. rewrite Hl in Hinv. destruct Hinv as (Hwf & _).
  destruct (Write_effect s s0 l bs w tr Hlive Hwf) as (n & e & b' & w1 & cs & HW & Heff).
  exists n, e, (setLive s0 (setWriter l b')), w1, cs. split; [done|].
  pose proof Hwf as [Hs Hb]. pose proof (lenZ_nonneg (Bufio.buf (writer l))) as Hb0.
  unfold Bufio.Available, Bufio.Buffered in *.
  destruct Heff as [e He|He Hfit|n e He Hempty Hlt Hal|cs e b' Hne Hav Hf
    |cs b' Hne Hav Hf|cs b' n e Hne Hlt Hf Hal];
    [| | |destruct Hf..]; try done; simpl;
    unfold Bufio.Available, Bufio.Buffered in *;
    (split; [set_solver|]); split; intros; try done; try lia; simpl; lia.
Qed.

Definition failed (σ : System W) (e : err) : Prop :=
  exists l, live (bws σ) = Some l /\ Bufio.werr (writer l) = Some e.

Lemma sync_sticky s w tr l e :
  live s = Some l -> Bufio.werr (writer l) = Some e ->
  exists e2 w', Sync spy s (w, tr) = (multierr_Append (Some e) e2, s, (w', tr)).
Proof.
  intros Hl He. unfold Sync. rewrite Hl. unfold Bufio.Flush. rewrite He. simpl.
  destruct (WriteSyncer.Sync WS w) as [e2 w2]. exists e2, w2. f_equal. f_equal. f_equal.
  destruct s as [? ? ? ? lv]. simpl in *. subst lv. unfold setLive. simpl.
  by destruct l.
Qed.

Lemma write_sticky_eq s w tr l e bs :
  live s = Some l -> Bufio.werr (writer l) = Some e ->
  Write spy s bs (w, tr) = Ret ((0, Some e), s, (w, tr)).
Proof.
  intros Hl He. unfold Write, ensureLive. rewrite Hl. simpl.
  assert (setLive s (setWriter l (writer l)) = s) as Hid.
  { destruct s as [? ? ? ? lv]. simpl in *. subst lv. unfold setLive. simpl. by destruct l. }
  rewrite Bufio.Write_sticky with (e := e) by done. simpl. unfold Bufio.Flush. rewrite He.
  rewrite Hid. by destruct (_ && _).
Qed.

Lemma failed_step σ σ' e : step σ σ' -> failed σ e -> failed σ' e /\ trace σ' = trace σ.
Proof.
  intros Hstep (l & Hl & He).
  destruct Hstep as [s w tr ws ss bs n e' s' w' tr' HW|s w tr ws ss e' s' w' tr' HS
    |σ l0 Hl0 Hrun|σ l0 Hl0 Hloop Hp|s w tr ws ss l0 e' s' l' w' tr' Hl0 Hloop HS Hl'
    |σ l0 Hl0 Hloop Hstop|s w tr ws ss s' Hc|s w tr ws ss s' Hc
    |s w tr ws ss1 ss2 l0 Hl0 Hdone|s w tr ws ss1 ss2 e' s' w' tr' HS]; simpl in *;
    unfold failed; simpl.
  all: try (destruct (sync_sticky s w tr l e Hl He) as (e2 & w2 & HS'); rewrite HS in HS';
            injection HS' as -> -> -> ->).
  all: try (rewrite write_sticky_eq with (l := l) (e := e) in HW by done;
            injection HW as <- <- <- <- <-).
  all: try (rewrite Hl in *; simplify_eq); eauto 10.
  - unfold stopCritical in Hc. rewrite Hl in Hc.
    destruct (stopped s); [|by destruct (stop l)]. injection Hc as <-. eauto.
  - unfold stopCritical in Hc. rewrite Hl in Hc.
    destruct (stopped s); [done|]. destruct (stop l); [done|]. injection Hc as <-.
    simpl. eauto.
Qed.

(** C14: an error of the wrapped syncer is never lost.  Once a flush has failed, by
    a client or silently in the flush loop, in every later state the wrapped syncer
    receives no more data, every [Write] reports the error and accepts nothing, and
    every [Sync], so the final one of [Stop] too, returns an error. *)
Theorem flush_error_is_sticky σ σ' e (Hf : failed σ e) (Hsteps : rtc step σ σ') :
  trace σ' = trace σ /\
  (forall bs, Write spy (bws σ') bs (world σ', trace σ') =
     Ret ((0, Some e), bws σ', (world σ', trace σ'))) /\
  (exists e' s w tr, Sync spy (bws σ') (world σ', trace σ') = (Some e', s, (w, tr))).
Proof.
  assert (failed σ' e /\ trace σ' = trace σ) as [(l & Hl & He) Htr].
  { induction Hsteps as [|σ1 σ2 σ3 Hs Hrest IH]; [done|].
    destruct (failed_step _ _ _ Hs Hf) as [Hf2 <-]. auto. }
  split; [done|]. split.
  - intros bs. by apply write_sticky_eq with l.
  - destruct (sync_sticky (bws σ') (world σ') (trace σ') l e Hl He) as (e2 & w' & ->).
    destruct (multierr_Append (Some e) e2) eqn:E; [eauto 10|].
    by apply Append_None in E as [? _].
Qed.
End contract.

(** * Whole messages *)

(** The messages written so far, split into the groups that were handed to the
    wrapped syncer, one call each, and those still in the buffer. *)
Definition whole_messages (σ : System W) : Prop :=
  exists (groups : list (list bytes)) (rest : list bytes),
    map fst (writes σ) = concat groups ++ rest /\
    map Bufio.arg (trace σ) = map (fun g => concat g) groups /\
    buffered (bws σ) = concat rest.

Section never_fails.
Context (Hok : Bufio.NeverFails (WriteSyncer.Write WS)).

Let HWS := Bufio.NeverFails_contract _ Hok.

Definition healthy (s : BufferedWriteSyncer) : Prop :=
  forall l, live s = Some l -> Bufio.werr (writer l) = None.

(** Messages [ms] of which some have gone out as the calls [cs], the rest being the
    contents [b] of the buffer. *)
Definition split_at (ms : list bytes) (cs : list bytes) (b : bytes) : Prop :=
  exists (groups : list (list bytes)) (rest : list bytes),
    ms = concat groups ++ rest /\ cs = map (fun g => concat g) groups /\ b = concat rest.

Lemma split_at_buffer ms cs b m :
  split_at ms cs b -> split_at (ms ++ [m]) cs (b ++ m).
Proof.
  intros (gs & rest & -> & -> & ->). exists gs, (rest ++ [m]).
  rewrite <- app_assoc, concat_snoc. auto.
Qed.

Lemma split_at_flush ms cs b : split_at ms cs b -> split_at ms (cs ++ [b]) [].
Proof.
  intros (gs & rest & -> & -> & ->). exists (gs ++ [rest]), [].
  rewrite concat_snoc, map_app, app_nil_r. auto.
Qed.

Lemma split_at_flush_effect ms tr cs e b b' :
  split_at ms (map Bufio.arg tr) (Bufio.buf b) -> Bufio.werr b = None ->
  Bufio.flush_effect (WriteSyncer.Write WS) b cs e b' ->
  split_at ms (map Bufio.arg (tr ++ cs)) (Bufio.buf b') /\ Bufio.werr b' = None.
Proof.
  intros Hsp He Hf.
  destruct Hf as [e He'|He' Hb0|He' Hb0|n e He' Hb0 Hal]; [congruence| | |].
  - by rewrite app_nil_r.
  - rewrite map_app. split; [by apply split_at_flush|done].
  - by apply Bufio.allowed_NeverFails in Hal.
Qed.

Lemma split_at_write_effect ms tr cs n e b b' bs :
  split_at ms (map Bufio.arg tr) (Bufio.buf b) -> Bufio.werr b = None ->
  write_effect b bs cs n e b' ->
  split_at (ms ++ [bs]) (map Bufio.arg (tr ++ cs)) (Bufio.buf b') /\ Bufio.werr b' = None.
Proof.
  intros Hsp He Heff.
  destruct Heff as [e He'|He' Hfit|n e He' Hempty Hlt Hal|cs e b' Hne Hav Hf
    |cs b' Hne Hav Hf|cs b' n e Hne Hlt Hf Hal]; simpl.
  - congruence.
  - rewrite app_nil_r. split; [by apply split_at_buffer|done].
  - apply Bufio.allowed_NeverFails in Hal; [subst e|done]. split; [|done].
    rewrite map_app. simpl. apply split_at_flush.
    apply (split_at_buffer _ _ _ bs) in Hsp. by rewrite Hempty in Hsp.
  - inversion Hf as [| | |? ? ? ? Hal]; subst; [congruence|].
    by apply Bufio.allowed_NeverFails in Hal.
  - destruct (split_at_flush_effect _ _ _ _ _ _ Hsp He Hf) as [Hsp1 _].
    split; [|done]. apply (split_at_buffer _ _ _ bs) in Hsp1.
    by inversion Hf; subst; simpl in *.
  - destruct (split_at_flush_effect _ _ _ _ _ _ Hsp He Hf) as [Hsp1 _].
    apply Bufio.allowed_NeverFails in Hal; [subst e|done]. split; [|done].
    rewrite app_assoc, map_app. simpl. apply split_at_flush.
    apply (split_at_buffer _ _ _ bs) in Hsp1.
    by inversion Hf; subst; simpl in *.
Qed.

Definition whole (σ : System W) : Prop :=
  healthy (bws σ) /\
  split_at (map fst (writes σ)) (map Bufio.arg (trace σ)) (buffered (bws σ)).

Lemma whole_sync s w tr ws ss e s' w' tr' :
  whole (mkSystem s w tr ws ss) -> Sync spy s (w, tr) = (e, s', (w', tr')) ->
  whole (mkSystem s' w' tr' ws ss).
Proof.
  unfold whole, healthy, buffered. simpl. intros [He Hsp] HS.
  pose proof (Sync_effect HWS s w tr) as Hsync.
  destruct (live s) as [l|] eqn:Hl.
  - destruct Hsync as (e1 & e2 & b' & w1 & cs & HS' & Hf). rewrite HS in HS'.
    injection HS' as -> -> -> ->. simpl.
    destruct (split_at_flush_effect _ _ _ _ _ _ Hsp (He l eq_refl) Hf) as [Hsp1 He1].
    split; [by intros l0 [= <-]|done].
  - destruct Hsync as (e2 & w1 & HS'). rewrite HS in HS'. injection HS' as -> -> -> ->.
    by rewrite Hl.
Qed.

Lemma whole_write s w tr ws ss bs n e s' w' tr' :
  inv (mkSystem s w tr ws ss) -> whole (mkSystem s w tr ws ss) ->
  Write spy s bs (w, tr) = Ret ((n, e), s', (w', tr')) ->
  whole (mkSystem s' w' tr' (ws ++ [(bs, n)]) ss).
Proof.
  unfold whole, healthy, buffered. simpl. intros Hinv [He Hsp] HW.
  pose proof HW as HW0. apply obind_Ret_inv in HW0 as ([s0 l] & Hl & _).
  destruct (ensureLive_inv _ _ _ _ _ _ _ Hinv Hl) as [Hlive Hinv0].
  unfold inv in Hinv0. simpl in Hinv0. rewrite Hlive in Hinv0. destruct Hinv0 as (Hwf & _).
  assert (Bufio.werr (writer l) = None /\
    split_at (map fst ws) (map Bufio.arg tr) (Bufio.buf (writer l))) as [He0 Hsp0].
  { unfold ensureLive in Hl. destruct (live s) as [l0|] eqn:Hls.
    - injection Hl as -> ->. auto.
    - apply obind_Ret_inv in Hl as (s1 & Hs1 & Hret).
      apply obind_Ret_inv in Hs1 as (t & _ & [= <-]). simpl in Hret. by injection Hret as <- <-. }
  destruct (Write_effect HWS s s0 l bs w tr Hl Hwf) as (n' & e' & b' & w1 & cs & HW' & Heff).
  rewrite HW in HW'. injection HW' as <- <- -> -> ->. simpl. rewrite map_app. simpl.
  destruct (split_at_write_effect _ _ _ _ _ _ _ _ Hsp0 He0 Heff) as [Hsp1 He1].
  split; [by intros l0 [= <-]|done].
Qed.

Lemma whole_step σ σ' : step σ σ' -> inv σ -> whole σ -> whole σ'.
Proof.
  intros Hstep Hinv Hwh.
  destruct Hstep as [s w tr ws ss bs n e s' w' tr' HW|s w tr ws ss e s' w' tr' HS
    |σ l Hl Hrun|σ l Hl Hloop Hp|s w tr ws ss l e s' l' w' tr' Hl Hloop HS Hl'
    |σ l Hl Hloop Hstop|s w tr ws ss s' Hc|s w tr ws ss s' Hc
    |s w tr ws ss1 ss2 l Hl Hdone|s w tr ws ss1 ss2 e s' w' tr' HS].
  1: by eapply whole_write.
  1: by eapply whole_sync.
  3: { pose proof (whole_sync _ _ _ _ _ _ _ _ _ Hwh HS) as Hwh'.
       unfold whole, healthy, buffered in *. simpl in *. rewrite Hl' in Hwh'.
       destruct Hwh' as [He Hsp]. split; [|done]. intros l0 [= <-]. simpl. by apply He. }
  7: by pose proof (whole_sync _ _ _ _ _ _ _ _ _ Hwh HS).
  6: done.
  4, 5: unfold stopCritical in Hc; unfold whole, healthy, buffered in *; simpl in *;
    destruct (live s) as [l|] eqn:Hl; [destruct (stopped s), (stop l)|];
    simplify_eq; simpl; rewrite ?Hl; try done; destruct Hwh as [He Hsp];
    (split; [intros l0 [= <-]; simpl; by apply He|done]).
  all: unfold whole, healthy, buffered in *; simpl; rewrite Hl in Hwh;
    destruct Hwh as [He Hsp]; (split; [intros l0 [= <-]; simpl; by apply He|done]).
Qed.

Lemma reachable_whole σ : reachable σ -> whole σ.
Proof.
  intros (size & int & clock & w & Hrtc).
  assert (inv (initial size int clock w)) as Hinit by (unfold inv; simpl; auto).
  assert (whole (initial size int clock w)) as Hwh.
  { split; [done|]. by exists [], []. }
  induction Hrtc as [|σ1 σ2 σ3 Hs _ IH]; [done|].
  apply IH; [by eapply (inv_step HWS)|by eapply whole_step].
Qed.

(** C5: messages are never split.  With a wrapped syncer that takes what it is
    given, in every reachable state each piece of data handed to it is the
    concatenation of whole, consecutive messages, and the buffer holds the whole
    messages that are left. *)
Theorem messages_never_split σ (Hr : reachable σ) : whole_messages σ.
Proof. apply (reachable_whole σ Hr). Qed.
End never_fails.
End system.

(** * The theorems at a concrete syncer

    A destination in memory, and one that fails after its first [n] bytes. *)

#[local] Existing Instances flat_multierr flat_multierr_spec.

Definition memSyncer : WriteSyncer bytes :=
  foreignSyncer (fun p w => ((lenZ p, None), w ++ p)) (fun w => (None, w)).

Definition fullSyncer (cap : Z) : WriteSyncer bytes :=
  foreignSyncer
    (fun p w =>
       let room := Z.max 0 (cap - lenZ w) in
       if lenZ p <=? room then ((lenZ p, None), w ++ p)
       else ((room, Some (New_error (str "disk full"))), w ++ take (Z.to_nat room) p))
    (fun w => (None, w)).

Lemma memSyncer_never_fails : Bufio.NeverFails (WriteSyncer.Write memSyncer).
Proof. done. Qed.

Lemma fullSyncer_contract cap : Bufio.WriterContract (WriteSyncer.Write (fullSyncer cap)).
Proof.
  intros p w. simpl. pose proof (lenZ_nonneg p).
  destruct (Z.leb_spec (lenZ p) (Z.max 0 (cap - lenZ w))); split; try lia; done.
Qed.

(** Two messages written to a four-byte buffer: the second does not fit. *)
Definition demo (first : list Bufio.call) (w : bytes) (b : bytes) (e : error) (n : Z)
    (stopping : bool) : System bytes :=
  mkSystem
    (mkBWS 4 0 (Some DefaultClock) stopping
       (Some (mkLive (Bufio.mkWriter 4 b e)
                (mkTicker _defaultFlushInterval (negb stopping) false) stopping false Selecting)))
    w first [(str "ab", 2); (str "cde", n)] (if stopping then [Waiting] else []).

Definition demoOk := demo [Bufio.mkCall (str "ab") 2 None] (str "ab") (str "cde") None 3.

Definition diskFull := Some (New_error (str "disk full")).

Definition demoFull :=
  demo [Bufio.mkCall (str "ab") 1 diskFull] (str "a") (str "b") diskFull 0.

Lemma demoOk_reachable : reachable memSyncer (demoOk false).
Proof.
  exists 4, 0, None, []. eapply rtc_l; [eapply (step_write _ _ _ _ _ _ (str "ab")); vm_compute; done|].
  eapply rtc_l; [eapply (step_write _ _ _ _ _ _ (str "cde")); vm_compute; done|]. apply rtc_refl.
Qed.

Lemma demoOk_stopping : reachable memSyncer (demoOk true).
Proof.
  destruct demoOk_reachable as (a & b & c & d & H). exists a, b, c, d.
  eapply rtc_r; [apply H|]. apply (step_stop_begin _ _ _ _ _ []). vm_compute. done.
Qed.

Lemma demoFull_failed : failed (demoFull false) (New_error (str "disk full")).
Proof. eexists. split; [vm_compute; done|done]. Qed.

Lemma demoFull_reachable : reachable (fullSyncer 1) (demoFull false).
Proof.
  exists 4, 0, None, []. eapply rtc_l; [eapply (step_write _ _ _ _ _ _ (str "ab")); vm_compute; done|].
  eapply rtc_l; [eapply (step_write _ _ _ _ _ _ (str "cde")); vm_compute; done|]. apply rtc_refl.
Qed.

Lemma bytes_conserved_witness :
  reachable (fullSyncer 1) (demoFull false) /\
  str "a" ++ str "b" = accepted (writes (demoFull false)).
Proof.
  split; [exact demoFull_reachable|].
  exact (bytes_conserved (fullSyncer 1) (fullSyncer_contract 1) _ demoFull_reachable).
Defined.

Lemma sync_nil_delivers_all_witness :
  Bufio.delivered [Bufio.mkCall (str "ab") 2 None; Bufio.mkCall (str "cde") 3 None] =
  accepted (writes (demoOk false)) /\
  exists s', buffered s' = [].
Proof.
  destruct (sync_nil_delivers_all memSyncer (Bufio.NeverFails_contract _ memSyncer_never_fails)
    (demoOk false) _ _ _ demoOk_reachable (eq_refl _)) as [H1 H2].
  split; [exact H1|eexists; exact H2].
Defined.

Lemma stop_never_deadlocks_witness :
  exists n σ', (n <= 3)%nat /\ nsteps (step memSyncer) n (demoOk true) σ' /\
    stops σ' = [Woken] /\ writes σ' = writes (demoOk true).
Proof.
  exact (stop_never_deadlocks memSyncer (Bufio.NeverFails_contract _ memSyncer_never_fails)
    (demoOk true) [] [] demoOk_stopping eq_refl).
Defined.

(** After the call of [Stop] that waits, another one. *)
Lemma stop_runs_once_witness :
  exists σ', step memSyncer (demoOk true) σ' /\ stops σ' = [Waiting; Returned None] /\
    newStop (demoOk true) σ' (Returned None).
Proof.
  pose proof (stop_runs_once memSyncer (Bufio.NeverFails_contract _ memSyncer_never_fails)
    (demoOk true) demoOk_stopping) as (_ & H & _).
  assert (step memSyncer (demoOk true) (mkSystem (bws (demoOk true)) (world (demoOk true)) (trace (demoOk true))
    (writes (demoOk true)) ([Waiting] ++ [Returned None]))) as Hs by (by apply step_stop_noop).
  eexists. split; [exact Hs|]. split; [reflexivity|]. exact (H _ _ Hs eq_refl).
Defined.

Lemma write_flushes_at_most_once_witness :
  exists n e s' w' cs,
    Write (spy memSyncer) (bws (demoOk false)) (str "fghij")
      (world (demoOk false), trace (demoOk false)) =
      Ret ((n, e), s', (w', trace (demoOk false) ++ cs)) /\
    map Bufio.arg cs ∈ [[]; [str "cde"]; [str "fghij"]; [str "cde"; str "fghij"]].
Proof.
  destruct (write_flushes_at_most_once memSyncer
    (Bufio.NeverFails_contract _ memSyncer_never_fails) (demoOk false) (str "fghij") _ _
    demoOk_reachable (eq_refl _)) as (n & e & s' & w' & cs & H1 & H2 & _).
  exists n, e, s', w', cs. split; [exact H1|exact H2].
Defined.

Lemma flush_error_is_sticky_witness :
  trace (demoFull true) = trace (demoFull false) /\
  Write (spy (fullSyncer 1)) (bws (demoFull true)) (str "x") (world (demoFull true), trace (demoFull true)) =
    Ret ((0, diskFull), bws (demoFull true), (world (demoFull true), trace (demoFull true))).
Proof.
  assert (rtc (step (fullSyncer 1)) (demoFull false) (demoFull true)) as Hs.
  { eapply rtc_once, (step_stop_begin _ _ _ _ _ []). vm_compute. done. }
  destruct (flush_error_is_sticky (fullSyncer 1) (demoFull false) (demoFull true) _
    demoFull_failed Hs) as (H1 & H2 & _).
  split; [exact H1|exact (H2 (str "x"))].
Defined.

Lemma messages_never_split_witness : whole_messages (demoOk true).
Proof. exact (messages_never_split memSyncer memSyncer_never_fails (demoOk true) demoOk_stopping). Defined.
End BufferedWriteSyncer.
