(* ===== verification/Buffer.v ===== *)
(** buffer/buffer.go, buffer/pool.go, internal/pool/pool.go and
    internal/bufferpool/bufferpool.go: the byte buffers that every encoder writes to
    and the pools they come from.

    A [Buffer] is its contents and the pool it goes back to.  The capacity of the
    slice, which the runtime chooses, is not part of the model.  A pool holds
    pointers to buffers in a heap; which pooled buffer [sync.Pool.Get] returns, if
    any, and when the runtime drops one, is a choice of the environment. *)

From Stdlib Require Import ZArith Lia.
From S2P Require Import Prelude Strconv GoStd.
From stdpp Require Import base list gmap.

Local Open Scope Z_scope.
Local Open Scope zap_scope.

Module Buffer.
Import Strconv.

(** A [Pool] value by its identity, with [None] for the zero [Pool]. *)
Record Buffer := mkBuffer { bs : bytes; pool : option nat }.

Definition _size : Z := 1024.

Definition AppendByte (b : Buffer) (v : byte) : Buffer := mkBuffer (bs b ++ [v]) (pool b).

Definition AppendBytes (b : Buffer) (v : bytes) : Buffer := mkBuffer (bs b ++ v) (pool b).

Definition AppendString (b : Buffer) (s : bytes) : Buffer := mkBuffer (bs b ++ s) (pool b).

Definition AppendInt (b : Buffer) (i : Z) : Buffer := mkBuffer (bs b ++ itoa i) (pool b).

Definition AppendUint (b : Buffer) (i : Z) : Buffer := mkBuffer (bs b ++ uitoa i) (pool b).

Definition AppendBool (b : Buffer) (v : bool) : Buffer :=
  mkBuffer (bs b ++ AppendBool_text v) (pool b).

Definition AppendTime `{GoStd} (b : Buffer) (t : Time) (layout : bytes) : Buffer :=
  mkBuffer (bs b ++ formatTime t layout) (pool b).

Definition AppendFloat `{GoStd} (b : Buffer) (f : Z) (bitSize : Z) : Buffer :=
  mkBuffer (bs b ++ formatFloat f bitSize) (pool b).

Definition Len (b : Buffer) : Z := lenZ (bs b).

Definition Bytes (b : Buffer) : bytes := bs b.

Definition String (b : Buffer) : bytes := bs b.

Definition Reset (b : Buffer) : Buffer := mkBuffer [] (pool b).

Definition Write (b : Buffer) (p : bytes) : (Z * error) * Buffer :=
  ((lenZ p, None), mkBuffer (bs b ++ p) (pool b)).

Definition WriteByte (b : Buffer) (v : byte) : error * Buffer := (None, AppendByte b v).

Definition WriteString (b : Buffer) (s : bytes) : (Z * error) * Buffer :=
  ((lenZ s, None), AppendString b s).

Definition TrimNewline (b : Buffer) : Buffer :=
  let i := Len b - 1 in
  if 0 <=? i then
    if decide (bs b !! Z.to_nat i = Some x0a) then mkBuffer (take (Z.to_nat i) (bs b)) (pool b)
    else b
  else b.

(** * Pools *)

(** The buffers allocated so far, and the pointers each pool holds. *)
Record World := mkWorld { heap : list Buffer; pools : list (list nat) }.

(** [NewPool], with the function that makes a buffer when the pool has none. *)
Definition NewPool (w : World) : nat * World :=
  (length (pools w), mkWorld (heap w) (pools w ++ [[]])).

Definition newBuffer : Buffer := mkBuffer [] None.

(** [sync.Pool.Get]: [Some i] takes the [i]th pointer out of the pool, [None] calls
    [New].  No result means the choice is not one that the pool has. *)
Definition pool_Get (p : nat) (choice : option nat) (w : World) : option (nat * World) :=
  match pools w !! p with
  | None => None
  | Some free =>
      match choice with
      | None => Some (length (heap w), mkWorld (heap w ++ [newBuffer]) (pools w))
      | Some i =>
          match free !! i with
          | Some l => Some (l, mkWorld (heap w) (<[p := delete i free]> (pools w)))
          | None => None
          end
      end
  end.

(** [sync.Pool.Put]. *)
Definition pool_Put (p l : nat) (w : World) : option World :=
  match pools w !! p with
  | Some free => Some (mkWorld (heap w) (<[p := l :: free]> (pools w)))
  | None => None
  end.

Definition update (l : nat) (f : Buffer -> Buffer) (w : World) : World :=
  mkWorld (alter f l (heap w)) (pools w).

Definition Get (p : nat) (choice : option nat) (w : World) : option (nat * World) :=
  match pool_Get p choice w with
  | Some (buf, w) => Some (buf, update buf (fun b => mkBuffer (bs (Reset b)) (Some p)) w)
  | None => None
  end.

Definition put (p : nat) (buf : nat) (w : World) : option World := pool_Put p buf w.

(** [b.pool.put(b)]; no result is the nil dereference of the zero [Pool]. *)
Definition Free (l : nat) (w : World) : option World :=
  match heap w !! l with
  | Some b => match pool b with Some p => put p l w | None => None end
  | None => None
  end.

(** * Clients of the pools

    [held] is the set of pointers that clients have obtained and not freed.  A
    client follows the rule of [Free]: it uses and frees only what it holds. *)

Record System := mkSystem { world : World; held : gset nat }.

Inductive event :=
| EGet (p l : nat)
| EUse (l : nat) (f : bytes -> bytes)
| EFree (l : nat)
| EDrop (p : nat).

Inductive pstep : System -> event -> System -> Prop :=
| step_get p choice l w w' H :
    Get p choice w = Some (l, w') ->
    pstep (mkSystem w H) (EGet p l) (mkSystem w' ({[l]} ∪ H))
| step_use l f w H :
    l ∈ H ->
    pstep (mkSystem w H) (EUse l f) (mkSystem (update l (fun b => mkBuffer (f (bs b)) (pool b)) w) H)
| step_free l w w' H :
    l ∈ H -> Free l w = Some w' ->
    pstep (mkSystem w H) (EFree l) (mkSystem w' (H ∖ {[l]}))
| step_drop p i l w H free :
    pools w !! p = Some free -> free !! i = Some l ->
    pstep (mkSystem w H) (EDrop p) (mkSystem (mkWorld (heap w) (<[p := delete i free]> (pools w))) H).

Inductive psteps : System -> list event -> System -> Prop :=
| psteps_nil s : psteps s [] s
| psteps_snoc s s1 s2 tr e : psteps s tr s1 -> pstep s1 e s2 -> psteps s (tr ++ [e]) s2.

(** [n] new pools and no buffers. *)
Definition start (n : nat) : System := mkSystem (mkWorld [] (replicate n [])) ∅.

(** The abstract view: each pointer that is held has contents of its own, which
    start empty and change only by its holder's operations.  It is undefined when a
    pointer is given out that is already held, or used when it is not. *)
Definition spec_step (m : gmap nat bytes) (e : event) : option (gmap nat bytes) :=
  match e with
  | EGet _ l => match m !! l with Some _ => None | None => Some (<[l := []]> m) end
  | EUse l f => match m !! l with Some c => Some (<[l := f c]> m) | None => None end
  | EFree l => match m !! l with Some _ => Some (delete l m) | None => None end
  | EDrop _ => Some m
  end.

Definition spec_run (tr : list event) : option (gmap nat bytes) :=
  foldl (fun om e => om ≫= fun m => spec_step m e) (Some ∅) tr.

(** * Lemmas *)

Definition owned (m : gmap nat bytes) (s : System) : Prop :=
  dom m = held s /\
  (forall l c, m !! l = Some c -> exists p, heap (world s) !! l = Some (mkBuffer c (Some p)) /\
     is_Some (pools (world s) !! p)) /\
  (forall l, l ∈ concat (pools (world s)) -> l ∉ held s /\ (l < length (heap (world s)))%nat) /\
  NoDup (concat (pools (world s))).

Lemma concat_insert_perm {A} (pp : list (list A)) p old new :
  pp !! p = Some old -> exists rest, concat pp ≡ₚ old ++ rest /\ concat (<[p := new]> pp) ≡ₚ new ++ rest.
Proof.
  intros Hp. exists (concat (take p pp) ++ concat (drop (S p) pp)).
  assert (p < length pp)%nat by (by eapply lookup_lt_Some).
  split.
  - rewrite <- (take_drop_middle pp p old Hp) at 1. rewrite concat_app. simpl.
    rewrite !(assoc_L (++)). f_equiv. by rewrite (Permutation_app_comm (concat _)).
  - rewrite insert_take_drop by done. rewrite concat_app. simpl.
    rewrite !(assoc_L (++)). f_equiv. by rewrite (Permutation_app_comm (concat _)).
Qed.

Lemma delete_perm {A} (l : list A) i x : l !! i = Some x -> l ≡ₚ x :: delete i l.
Proof. apply delete_Permutation. Qed.

(** Removing pointers from a pool keeps the pooled ones distinct. *)
Lemma pooled_take (pp : list (list nat)) p free i l :
  pp !! p = Some free -> free !! i = Some l ->
  concat pp ≡ₚ l :: concat (<[p := delete i free]> pp).
Proof.
  intros Hp Hi. destruct (concat_insert_perm pp p free (delete i free) Hp) as (rest & E1 & E2).
  rewrite E1, E2. exact (Permutation_app_tail rest (delete_perm free i l Hi)).
Qed.

Lemma pooled_put (pp : list (list nat)) p free l :
  pp !! p = Some free -> concat (<[p := l :: free]> pp) ≡ₚ l :: concat pp.
Proof.
  intros Hp. destruct (concat_insert_perm pp p free (l :: free) Hp) as (rest & E1 & E2).
  by rewrite E1, E2.
Qed.

Lemma is_Some_insert (pp : list (list nat)) p x q :
  is_Some (pp !! q) -> is_Some (<[p := x]> pp !! q).
Proof. rewrite !lookup_lt_is_Some, length_insert. done. Qed.

(** The pointers that a step leaves alone. *)
Lemma heap_preserved (l : nat) (f : Buffer -> Buffer) (h : list Buffer) (k : nat) b :
  l <> k -> h !! k = Some b -> alter f l h !! k = Some b.
Proof. intros Hne Hk. by rewrite list_lookup_alter_ne. Qed.

Lemma owned_get m w H p choice l w' :
  owned m (mkSystem w H) -> Get p choice w = Some (l, w') ->
  m !! l = None /\ owned (<[l := []]> m) (mkSystem w' ({[l]} ∪ H)).
Proof.
  intros (Hdom & Hcont & Hfree & Hnd) HG. simpl in *. unfold Get, pool_Get in HG.
  destruct (pools w !! p) as [free|] eqn:Hp; [|done].
  assert (is_Some (pools w !! p)) as HpS by (by rewrite Hp).
  set (f := fun b => mkBuffer _ _) in HG. destruct choice as [i|].
  - destruct (free !! i) as [l0|] eqn:Hi; [|done]. injection HG as -> <-.
    pose proof (pooled_take _ _ _ _ _ Hp Hi) as Hperm.
    destruct (Hfree l) as [HlH Hlen]; [rewrite Hperm; set_solver|].
    apply lookup_lt_is_Some in Hlen as [b Hb].
    rewrite Hperm in Hnd. apply NoDup_cons in Hnd as [Hl Hnd].
    split; [apply not_elem_of_dom; by rewrite Hdom|].
    split; [set_solver|]. split; [|split; [|done]]; simpl.
    + intros k c [[<- <-]|[Hne Hk]]%lookup_insert_Some.
      * exists p. rewrite list_lookup_alter_eq. rewrite Hb.
        split; [done|]. by apply is_Some_insert.
      * destruct (Hcont k c Hk) as (q & Hq & HqS). exists q.
        split; [by apply heap_preserved|by apply is_Some_insert].
    + intros k Hk. rewrite length_alter.
      destruct (Hfree k) as [? ?]; [rewrite Hperm; set_solver|]. set_solver.
  - injection HG as <- <-.
    assert (length (heap w) ∉ H) as HlH.
    { rewrite <- Hdom. intros [c Hc]%elem_of_dom. apply Hcont in Hc as (? & Hc & _).
      apply lookup_lt_Some in Hc. lia. }
    split; [apply not_elem_of_dom; by rewrite Hdom|].
    split; [set_solver|]. split; [|split; [|done]]; simpl.
    + intros k c [[<- <-]|[Hne Hk]]%lookup_insert_Some.
      * exists p. rewrite list_lookup_alter_eq.
        by rewrite lookup_app_r, Nat.sub_diag.
      * destruct (Hcont k c Hk) as (q & Hq & HqS). exists q.
        split; [|done]. apply heap_preserved; [done|]. by apply lookup_app_l_Some.
    + intros k Hk. rewrite length_alter, length_app. simpl.
      destruct (Hfree k Hk) as [? ?]. split; [|lia]. intros [->%elem_of_singleton|?]%elem_of_union; [lia|done].
Qed.

Lemma owned_use m w H l f :
  owned m (mkSystem w H) -> l ∈ H ->
  exists c, m !! l = Some c /\
    owned (<[l := f c]> m) (mkSystem (update l (fun b => mkBuffer (f (bs b)) (pool b)) w) H).
Proof.
  intros (Hdom & Hcont & Hfree & Hnd) Hl. simpl in *.
  assert (l ∈ dom m) as [c Hc]%elem_of_dom by (by rewrite Hdom).
  exists c. split; [done|]. split; [set_solver|]. split; [|split; [|done]]; simpl.
  - intros k d [[<- <-]|[Hne Hk]]%lookup_insert_Some.
    + destruct (Hcont l c Hc) as (q & Hq & HqS). exists q.
      rewrite list_lookup_alter_eq. by rewrite Hq.
    + destruct (Hcont k d Hk) as (q & Hq & HqS). exists q. split; [|done]. by apply heap_preserved.
  - intros k Hk. rewrite length_alter. auto.
Qed.

Lemma owned_free m w H l w' :
  owned m (mkSystem w H) -> l ∈ H -> Free l w = Some w' ->
  is_Some (m !! l) /\ owned (delete l m) (mkSystem w' (H ∖ {[l]})).
Proof.
  intros (Hdom & Hcont & Hfree & Hnd) Hl HF. simpl in *.
  assert (l ∈ dom m) as [c Hc]%elem_of_dom by (by rewrite Hdom).
  unfold Free, put, pool_Put in HF. destruct (Hcont l c Hc) as (p & Hb & [free Hp]).
  rewrite Hb in HF. simpl in HF. rewrite Hp in HF. injection HF as <-.
  pose proof (pooled_put _ p free l Hp) as Hperm.
  split; [done|]. split; [set_solver|]. split; [|split]; simpl.
  - intros k d [Hne Hk]%lookup_delete_Some. destruct (Hcont k d Hk) as (q & Hq & HqS). exists q.
    split; [done|]. by apply is_Some_insert.
  - intros k. rewrite Hperm, elem_of_cons. intros [->|Hk].
    + split; [set_solver|]. by apply lookup_lt_Some in Hb.
    + destruct (Hfree k Hk). set_solver.
  - rewrite Hperm. apply NoDup_cons. split; [|done]. intros Hin. by apply Hfree in Hin as [].
Qed.

Lemma owned_drop m w H p free i l :
  owned m (mkSystem w H) -> pools w !! p = Some free -> free !! i = Some l ->
  owned m (mkSystem (mkWorld (heap w) (<[p := delete i free]> (pools w))) H).
Proof.
  intros (Hdom & Hcont & Hfree & Hnd) Hp Hi. simpl in *.
  pose proof (pooled_take _ _ _ _ _ Hp Hi) as Hperm.
  rewrite Hperm in Hnd. apply NoDup_cons in Hnd as [Hl Hnd].
  split; [done|]. split; [|split; [|done]]; simpl.
  - intros k d Hk. destruct (Hcont k d Hk) as (q & Hq & HqS). exists q.
    split; [done|]. by apply is_Some_insert.
  - intros k Hk. apply Hfree. rewrite Hperm. set_solver.
Qed.

Lemma spec_simulates m s e s' :
  owned m s -> pstep s e s' -> exists m', spec_step m e = Some m' /\ owned m' s'.
Proof.
  intros Hm Hs. destruct Hs as [p choice l w w' H HG|l f w H Hl|l w w' H Hl HF|p i l w H free Hp Hi]; simpl.
  - destruct (owned_get _ _ _ _ _ _ _ Hm HG) as [-> ?]. eauto.
  - destruct (owned_use _ _ _ _ f Hm Hl) as (c & -> & ?). eauto.
  - destruct (owned_free _ _ _ _ _ Hm Hl HF) as [[c ->] ?]. eauto.
  - exists m. split; [done|]. by eapply owned_drop.
Qed.

Lemma owned_start n : owned ∅ (start n).
Proof.
  assert (concat (replicate n []) = ([] : list nat)) as E by (induction n; auto).
  split; [set_solver|]. simpl. rewrite E. split; [by intros l c Hl|]. split; [set_solver|constructor].
Qed.

(** C23: buffers from pools are indistinguishable from fresh, private ones: along every
    sequence of client operations, whatever the pools give out and the runtime drops,
    a buffer that is given out is not held by another client, starts empty, and has
    exactly the contents that its holder's own operations gave it. *)
Theorem pool_buffers_private n tr s (Hrun : psteps (start n) tr s) :
  exists m, spec_run tr = Some m /\ dom m = held s /\
    forall l c, m !! l = Some c -> bs <$> heap (world s) !! l = Some c.
Proof.
  assert (exists m, spec_run tr = Some m /\ owned m s) as (m & E & Hm).
  { remember (start n) as s0 eqn:Hs0. induction Hrun as [s|s s1 s2 tr e _ IH Hstep]; subst.
    { exists ∅. split; [done|apply owned_start]. }
    destruct (IH eq_refl) as (m & E & Hm). destruct (spec_simulates _ _ _ _ Hm Hstep) as (m' & E' & Hm').
    exists m'. split; [|done]. unfold spec_run in *. by rewrite foldl_app, E. }
  destruct Hm as (Hdom & Hcont & _). exists m. split; [done|]. split; [done|].
  intros l c (p & -> & _)%Hcont. done.
Qed.

(** A holder can always free: the buffer it got carries the pool it came from. *)
Lemma Free_total m s l : owned m s -> l ∈ held s -> is_Some (Free l (world s)).
Proof.
  intros (Hdom & Hcont & _) Hl. rewrite <- Hdom in Hl. apply elem_of_dom in Hl as [c Hc].
  apply Hcont in Hc as (p & Hb & [free Hp]). unfold Free, put, pool_Put. rewrite Hb. simpl. by rewrite Hp.
Qed.

Lemma pool_buffers_private_witness :
  exists s m, psteps (start 1) [EGet 0 0; EUse 0 (fun b => b ++ str "a"); EFree 0; EGet 0 0] s /\
    spec_run [EGet 0 0; EUse 0 (fun b => b ++ str "a"); EFree 0; EGet 0 0] = Some m /\
    m !! 0%nat = Some [] /\ dom m = held s.
Proof.
  eassert (psteps (start 1) ([] ++ [EGet 0 0] ++ [EUse 0 (fun b => b ++ str "a")] ++ [EFree 0] ++ [EGet 0 0]) _) as Hrun.
  { rewrite !(assoc_L (++)). repeat eapply psteps_snoc; [apply psteps_nil|..].
    - by eapply (step_get 0 None).
    - apply step_use. set_solver.
    - apply step_free; [set_solver|done].
    - by eapply (step_get 0 (Some 0%nat)). }
  destruct (pool_buffers_private 1 _ _ Hrun) as (m & E & Hdom & _).
  eexists _, m. split; [exact Hrun|]. split; [exact E|]. split; [|exact Hdom].
  vm_compute in E. injection E as <-. done.
Defined.
End Buffer.
