(* ===== verification/Sampler.v ===== *)
(** The counters and the decision of the sampler, zapcore/sampler.go.

    [IncCheckReset] is given twice: as the function it computes when nothing else
    runs, and as the atomic operations it performs on the shared counter, which
    other goroutines can interleave with.  The core that consults it is in Core.v. *)

From Stdlib Require Import ZArith Lia.
From S2P Require Import Prelude GoStd Level.
From stdpp Require Import base list gmap relations.

Local Open Scope Z_scope.
Local Open Scope zap_scope.

Module Sampler.
Import Level.

Definition _numLevels : Z := _maxLevel - _minLevel + 1.
Definition _countersPerLevel : Z := 4096.

Record counter := mkCounter { resetAt : Z; count : Z }.

Definition zeroCounter : counter := mkCounter 0 0.

(** The array of counters; an index that is absent is still zero. *)
Definition counters : Type := gmap (Z * Z) counter.

Definition newCounters : counters := ∅.

Definition offset32 : Z := 2166136261.
Definition prime32 : Z := 16777619.

Definition fnv32a (s : bytes) : Z :=
  foldl (fun hash b => uint32 (Z.lxor hash (bval b) * prime32)) (uint32 offset32) s.

(** The counter at an index; an index outside the array panics. *)
Definition get (lvl : Level) (key : bytes) : outcome (Z * Z) :=
  let i := int8 (lvl - _minLevel) in
  let j := fnv32a key mod _countersPerLevel in
  if (0 <=? i) && (i <? _numLevels) && (0 <=? j) && (j <? _countersPerLevel) then Ret (i, j)
  else Panic (str "index out of range").

Definition load (cs : counters) (ij : Z * Z) : counter := default zeroCounter (cs !! ij).

(** The calls on the counter run one after the other, so the compare-and-swap finds
    the value that was loaded. *)
Definition IncCheckReset (c : counter) (t : Time) (tick : Z) : Z * counter :=
  let tn := UnixNano t in
  let resetAfter := resetAt c in
  if tn <? resetAfter then
    let n := uint64 (count c + 1) in (n, mkCounter resetAfter n)
  else (1, mkCounter (int64 (tn + tick)) 1).

Inductive SamplingDecision := LogDropped | LogSampled.

#[global] Instance SamplingDecision_eq_decision : EqDecision SamplingDecision.
Proof. solve_decision. Defined.

(** The values of the bit field. *)
Definition decisionBits (d : SamplingDecision) : Z :=
  match d with
  | LogDropped => Z.shiftl 1 0
  | LogSampled => Z.shiftl 1 1
  end.

(** The parameters of a [sampler]. *)
Record params := mkParams { tick : Z; first : Z; thereafter : Z }.

(** The conversions [uint64(first)] and [uint64(thereafter)] of
    [NewSamplerWithOptions]. *)
Definition newParams (tick first thereafter : Z) : params :=
  mkParams tick (uint64 first) (uint64 thereafter).

(** The condition under which [Check] drops the [n]th entry. *)
Definition dropped (p : params) (n : Z) : bool :=
  (first p <? n) && ((thereafter p =? 0) || negb (uint64 (n - first p) mod thereafter p =? 0)).

(** The part of [Check] between the level test and the wrapped core: the decision
    on an entry, if one is made, and the counters it leaves. *)
Definition sample (p : params) (cs : counters) (lvl : Level) (msg : bytes) (t : Time)
    : outcome (option SamplingDecision * counters) :=
  if (_minLevel <=? lvl) && (lvl <=? _maxLevel) then
    let! ij := get lvl msg in
    let '(n, c) := IncCheckReset (load cs ij) t (tick p) in
    let cs := <[ij := c]> cs in
    Ret (Some (if dropped p n then LogDropped else LogSampled), cs)
  else Ret (None, cs).

(** * The atomic operations of [IncCheckReset] *)

Inductive pc :=
| AtLoad
| AtAdd                       (** in a window: increment *)
| AtStore (resetAfter : Z)    (** window over: store 1 *)
| AtCAS (resetAfter : Z)      (** move the window *)
| AtReAdd                     (** lost the race: increment *)
| Done (n : Z).

(** The next atomic operation of a call at time [tn] on the shared counter. *)
Definition atomic_step (tick tn : Z) (c : counter) (p : pc) : option (counter * pc) :=
  match p with
  | AtLoad => Some (c, if tn <? resetAt c then AtAdd else AtStore (resetAt c))
  | AtAdd => let n := uint64 (count c + 1) in Some (mkCounter (resetAt c) n, Done n)
  | AtStore ra => Some (mkCounter (resetAt c) 1, AtCAS ra)
  | AtCAS ra =>
      if resetAt c =? ra then Some (mkCounter (int64 (tn + tick)) (count c), Done 1)
      else Some (c, AtReAdd)
  | AtReAdd => let n := uint64 (count c + 1) in Some (mkCounter (resetAt c) n, Done n)
  | Done _ => None
  end.

(** Calls in progress: each with its time and position. *)
Abbreviation thread := (Z * pc)%type.

Inductive interleave (tick : Z) : counter * list thread -> counter * list thread -> Prop :=
| interleave_step c c' ts i tn p p' :
    ts !! i = Some (tn, p) -> atomic_step tick tn c p = Some (c', p') ->
    interleave tick (c, ts) (c', <[i := (tn, p')]> ts).

(** One call on its own, for at most the given number of operations. *)
Fixpoint alone (fuel : nat) (tick tn : Z) (c : counter) (p : pc) : option (Z * counter) :=
  match p, fuel with
  | Done n, _ => Some (n, c)
  | _, O => None
  | _, S fuel =>
      match atomic_step tick tn c p with
      | Some (c', p') => alone fuel tick tn c' p'
      | None => None
      end
  end.

(** * The specification: windows *)

(** The entries that fall in the window that ends at [stop], and the rest. *)
Fixpoint takeWindow (stop : Z) (ts : list Z) : list Z * list Z :=
  match ts with
  | [] => ([], [])
  | t :: ts' =>
      if t <? stop then let '(w, rest) := takeWindow stop ts' in (t :: w, rest) else ([], ts)
  end.

(** The entries of one counter in windows: an entry that is in no window opens one
    that lasts a tick. *)
Fixpoint windows (fuel : nat) (tick : Z) (ts : list Z) : list (list Z) :=
  match fuel, ts with
  | S fuel, t :: ts' =>
      let '(w, rest) := takeWindow (t + tick) ts' in (t :: w) :: windows fuel tick rest
  | _, _ => []
  end.

(** The windows from a fresh counter: it counts the entries before the epoch as one window,
    that ends with the epoch. *)
Definition allWindows (tick : Z) (ts : list Z) : list (list Z) :=
  let '(w, rest) := takeWindow 0 ts in w :: windows (length rest) tick rest.

(** How many of the [n] entries of a window are logged. *)
Definition quota (p : params) (n : Z) : Z :=
  if n <=? first p then n
  else first p + (if thereafter p =? 0 then 0 else (n - first p) / thereafter p).

(** The decisions that a counter gives for a sequence of entries. *)
Fixpoint decisions (p : params) (c : counter) (ts : list Z) : list SamplingDecision :=
  match ts with
  | [] => []
  | t :: ts' =>
      let '(n, c') := IncCheckReset c (mkTime t UTC) (tick p) in
      (if dropped p n then LogDropped else LogSampled) :: decisions p c' ts'
  end.

(** The [n]th entry of a window is logged: it is one of the first, or every Mth after
    those. *)
Definition kept (p : params) (n : Z) : bool :=
  (n <=? first p) || (negb (thereafter p =? 0) && ((n - first p) mod thereafter p =? 0)).

(** The decisions of the specification for one window. *)
Definition windowDecisions (p : params) (w : list Z) : list SamplingDecision :=
  map (fun n => if kept p n then LogSampled else LogDropped) (seqZ 1 (lenZ w)).

Definition sampledIn (ds : list SamplingDecision) : Z :=
  lenZ (filter (fun d => d = LogSampled) ds).

(** * Lemmas *)

Lemma fnv32a_range s : inU 32 (fnv32a s).
Proof.
  unfold fnv32a. apply (rev_ind (fun s => inU 32 (foldl _ _ s))).
  - simpl. apply wrapU_range. lia.
  - intros b l _. rewrite foldl_app. simpl. apply wrapU_range. lia.
Qed.

Lemma get_total lvl key : _minLevel <= lvl <= _maxLevel -> exists ij, get lvl key = Ret ij.
Proof.
  intros H. unfold get, _minLevel, _maxLevel, DebugLevel, FatalLevel in *.
  pose proof (Z.mod_pos_bound (fnv32a key) _countersPerLevel ltac:(done)) as [Hj1 Hj2].
  unfold int8. rewrite wrapS_id by (unfold inS; simpl; lia).
  unfold _numLevels, _maxLevel, _minLevel, DebugLevel, FatalLevel.
  rewrite (proj2 (Z.leb_le 0 _)), (proj2 (Z.ltb_lt _ (5 - -1 + 1))), (proj2 (Z.leb_le 0 (_ mod _))),
    (proj2 (Z.ltb_lt (_ mod _) _)) by lia. simpl. eauto.
Qed.

Lemma takeWindow_spec stop ts :
  let '(w, rest) := takeWindow stop ts in
  ts = w ++ rest /\ Forall (fun t => t < stop) w /\ (forall t, head rest = Some t -> stop <= t).
Proof.
  induction ts as [|t ts IH]; simpl; [by repeat split|].
  destruct (Z.ltb_spec t stop) as [Hlt|Hge].
  - destruct (takeWindow stop ts) as [w rest]. destruct IH as (-> & Hw & Hr). auto.
  - repeat split; [constructor|]. intros t' [= <-]. lia.
Qed.

(** A time that is an [int64] of nanoseconds, also with a tick added. *)
Definition representable (tick t : Z) : Prop := inS 64 t /\ inS 64 (t + tick).

Lemma representable_UnixNano tick t :
  representable tick t -> UnixNano (mkTime t UTC) = t /\ int64 (t + tick) = t + tick.
Proof. intros [H0 H1]. unfold UnixNano, int64. simpl. split; by apply wrapS_id. Qed.

Lemma decision_kept p n :
  0 <= first p -> n < 2 ^ 64 ->
  (if dropped p n then LogDropped else LogSampled) = if kept p n then LogSampled else LogDropped.
Proof.
  intros Hf Hn. unfold dropped, kept. destruct (Z.leb_spec n (first p)) as [H|H].
  - by rewrite (proj2 (Z.ltb_ge _ _)) by lia.
  - rewrite (proj2 (Z.ltb_lt _ _)) by lia. unfold uint64. rewrite wrapU_id by (unfold inU; lia).
    by destruct (_ =? 0), (_ =? 0).
Qed.

Lemma decisions_in_window p stop n w rest :
  0 <= first p -> Forall (representable (tick p)) w -> Forall (fun t => t < stop) w ->
  0 <= n -> n + lenZ w < 2 ^ 64 ->
  decisions p (mkCounter stop n) (w ++ rest) =
    map (fun k => if kept p k then LogSampled else LogDropped) (seqZ (n + 1) (lenZ w)) ++
    decisions p (mkCounter stop (n + lenZ w)) rest.
Proof.
  intros Hf. revert n. induction w as [|t w IH]; intros n Hrep Hw Hn Hb.
  { simpl. by rewrite Z.add_0_r. }
  apply Forall_cons in Hrep as [Ht Hrep]. apply Forall_cons in Hw as [Hlt Hw].
  assert (lenZ (t :: w) = Z.succ (lenZ w)) as E by (unfold lenZ; simpl; lia).
  rewrite E in *. pose proof (lenZ_nonneg w).
  rewrite seqZ_cons by lia. cbn [app decisions map].
  destruct (representable_UnixNano _ t Ht) as [Et _].
  unfold IncCheckReset. rewrite Et. cbn [resetAt count].
  rewrite (proj2 (Z.ltb_lt t stop)) by lia.
  unfold uint64. rewrite wrapU_id by (unfold inU; lia). cbn [map app]. f_equal.
  { apply decision_kept; [done|lia]. }
  rewrite IH by (auto; lia). rewrite Z.pred_succ.
  by replace (n + 1 + lenZ w) with (n + Z.succ (lenZ w)) by lia.
Qed.

Lemma decisions_windows fuel p c ts :
  0 <= first p -> Forall (representable (tick p)) ts -> lenZ ts < 2 ^ 64 ->
  (length ts <= fuel)%nat -> (forall t, head ts = Some t -> resetAt c <= t) ->
  decisions p c ts = concat (map (windowDecisions p) (windows fuel (tick p) ts)).
Proof.
  intros Hfirst. revert c ts. induction fuel as [|fuel IH]; intros c ts Hrep Hlen Hf Hc.
  { destruct ts; [done|]. simpl in Hf. lia. }
  destruct ts as [|t ts]; [done|].
  apply Forall_cons in Hrep as [Ht Hrep]. cbn [windows decisions].
  destruct (representable_UnixNano _ t Ht) as [Et Es].
  unfold IncCheckReset. rewrite Et, Es. specialize (Hc t eq_refl).
  rewrite (proj2 (Z.ltb_ge t (resetAt c))) by lia.
  pose proof (takeWindow_spec (t + tick p) ts) as Hw.
  destruct (takeWindow (t + tick p) ts) as [w rest]. destruct Hw as (-> & Hw & Hr).
  apply Forall_app in Hrep as [Hrw Hrr].
  assert (lenZ (t :: w ++ rest) = 1 + lenZ w + lenZ rest) as E
    by (unfold lenZ; simpl; rewrite length_app; lia).
  pose proof (lenZ_nonneg w). pose proof (lenZ_nonneg rest).
  rewrite decisions_in_window by (auto; lia).
  rewrite (IH _ rest); [|done|lia|simpl in *; rewrite length_app in *; lia|done].
  cbn [map concat]. unfold windowDecisions at 2.
  replace (lenZ (t :: w)) with (Z.succ (lenZ w)) by (unfold lenZ; simpl; lia).
  rewrite (seqZ_cons 1), Z.pred_succ by lia. cbn [map app]. f_equal. apply decision_kept; [done|lia].
Qed.

Lemma decisions_allWindows p ts :
  0 <= first p -> Forall (representable (tick p)) ts -> lenZ ts < 2 ^ 64 ->
  decisions p zeroCounter ts = concat (map (windowDecisions p) (allWindows (tick p) ts)).
Proof.
  intros Hf Hts Hlen. unfold allWindows. pose proof (takeWindow_spec 0 ts) as Hw.
  destruct (takeWindow 0 ts) as [w rest]. destruct Hw as (-> & Hw & Hr). apply Forall_app in Hts as [Hts Hrest].
  rewrite lenZ_app in Hlen. pose proof (lenZ_nonneg w). pose proof (lenZ_nonneg rest).
  unfold zeroCounter. rewrite decisions_in_window by (auto; lia). cbn [map concat]. f_equal.
  apply decisions_windows; auto; lia.
Qed.

Lemma load_insert (cs : counters) ij c ij' :
  load (<[ij := c]> cs) ij' = if decide (ij = ij') then c else load cs ij'.
Proof.
  unfold load, counters in *. destruct (decide (ij = ij')) as [<-|Hne].
  - apply (f_equal (default zeroCounter) (lookup_insert_eq (M := gmap (Z * Z)) cs ij c)).
  - apply (f_equal (default zeroCounter) (lookup_insert_ne (M := gmap (Z * Z)) cs ij ij' c Hne)).
Qed.

(** The counter after a sequence of entries, and its decision on one more. *)
Definition counterAfter (p : params) (c : counter) (ts : list Z) : counter :=
  foldl (fun c t => (IncCheckReset c (mkTime t UTC) (tick p)).2) c ts.

Lemma counterAfter_snoc p c ts t :
  counterAfter p c (ts ++ [t]) = (IncCheckReset (counterAfter p c ts) (mkTime t UTC) (tick p)).2.
Proof. unfold counterAfter. by rewrite foldl_app. Qed.

Lemma decisions_snoc p c ts t :
  decisions p c (ts ++ [t]) =
  decisions p c ts ++
    [if dropped p (IncCheckReset (counterAfter p c ts) (mkTime t UTC) (tick p)).1 then LogDropped else LogSampled].
Proof.
  revert c. induction ts as [|t' ts IH]; intros c; cbn [app decisions counterAfter foldl].
  - by destruct (IncCheckReset c (mkTime t UTC) (tick p)).
  - destruct (IncCheckReset c (mkTime t' UTC) (tick p)) as [n c']. by rewrite IH.
Qed.

(** The decision that the windows give for the last of the entries. *)
Definition windowDecision (p : params) (ts : list Z) : option SamplingDecision :=
  last (concat (map (windowDecisions p) (allWindows (tick p) ts))).

Lemma windowDecision_counter p ts t :
  0 <= first p -> Forall (representable (tick p)) (ts ++ [t]) -> lenZ (ts ++ [t]) < 2 ^ 64 ->
  windowDecision p (ts ++ [t]) =
  Some (if dropped p (IncCheckReset (counterAfter p zeroCounter ts) (mkTime t UTC) (tick p)).1 then LogDropped else LogSampled).
Proof.
  intros Hf Hts Hlen. unfold windowDecision. by rewrite <- decisions_allWindows, decisions_snoc, last_snoc.
Qed.

Lemma quota_step p n :
  0 <= first p -> 0 <= thereafter p -> 0 <= n ->
  quota p (n + 1) = quota p n + (if kept p (n + 1) then 1 else 0).
Proof.
  intros Hf Ht Hn. unfold quota, kept.
  destruct (Z.leb_spec (n + 1) (first p)) as [H1|H1].
  { by rewrite (proj2 (Z.leb_le n (first p))) by lia. }
  simpl.
  set (q := if thereafter p =? 0 then 0 else (n - first p) / thereafter p).
  assert ((if n <=? first p then n else first p + q) = first p + q) as ->.
  { destruct (Z.leb_spec n (first p)) as [H2|H2]; [|done]. subst q.
    replace n with (first p) by lia. rewrite Z.sub_diag, Zdiv_0_l. destruct (_ =? _); lia. }
  subst q. destruct (Z.eqb_spec (thereafter p) 0) as [->|H0]; simpl; [lia|].
  set (m := thereafter p) in *. set (k := n - first p).
  replace (n + 1 - first p) with (k + 1) by lia.
  pose proof (Z.div_mod k m H0). pose proof (Z.mod_pos_bound k m).
  pose proof (Z.div_mod (k + 1) m H0). pose proof (Z.mod_pos_bound (k + 1) m).
  destruct (Z.eqb_spec ((k + 1) mod m) 0); simpl; nia.
Qed.

Lemma sampledIn_app ds ds' : sampledIn (ds ++ ds') = sampledIn ds + sampledIn ds'.
Proof. unfold sampledIn. by rewrite filter_app, lenZ_app. Qed.

Lemma windowDecisions_quota p w :
  0 <= first p -> 0 <= thereafter p -> sampledIn (windowDecisions p w) = quota p (lenZ w).
Proof.
  intros Hf Ht. unfold windowDecisions, lenZ. generalize (length w). intros n.
  induction n as [|n IH].
  { unfold quota. rewrite (proj2 (Z.leb_le _ _)) by lia. done. }
  rewrite Nat2Z.inj_succ, <- Z.add_1_r, quota_step, <- IH by lia.
  rewrite seqZ_app, map_app, sampledIn_app by lia. f_equal.
  replace (1 + Z.of_nat n) with (Z.of_nat n + 1) by lia.
  rewrite seqZ_cons by lia. cbn [Z.pred map]. unfold sampledIn.
  by destruct (kept p (Z.of_nat n + 1)).
Qed.

(** * Theorems *)

(** ** Sequences of entries *)

(** An entry that reaches the sampler: its level, message and time. *)
Definition entry : Type := Level * bytes * Z.

(** What [Check] decides on a sequence of entries. *)
Fixpoint sampleAll (p : params) (cs : counters) (es : list entry) : outcome (list (option SamplingDecision)) :=
  match es with
  | [] => Ret []
  | (lvl, msg, t) :: es =>
      let! (d, cs) := sample p cs lvl msg (mkTime t UTC) in
      let! ds := sampleAll p cs es in
      Ret (d :: ds)
  end.

(** Entries of the seven levels are counted, those of one level and one hash together. *)
Definition counted (e : entry) : bool := (_minLevel <=? e.1.1) && (e.1.1 <=? _maxLevel).
Definition bucket (e : entry) : Z * Z := (e.1.1 - _minLevel, fnv32a e.1.2 mod _countersPerLevel).

Definition timesIn (ij : Z * Z) (es : list entry) : list Z :=
  map snd (filter (fun e => counted e = true /\ bucket e = ij) es).

(** The decisions of the specification, after the entries [past]. *)
Fixpoint expected (p : params) (past es : list entry) : list (option SamplingDecision) :=
  match es with
  | [] => []
  | e :: es =>
      (if counted e then windowDecision p (timesIn (bucket e) (past ++ [e])) else None) :: expected p (past ++ [e]) es
  end.

Lemma get_bucket e : counted e = true -> get e.1.1 e.1.2 = Ret (bucket e).
Proof.
  intros [H1%Z.leb_le H2%Z.leb_le]%andb_prop. unfold get, bucket, _minLevel, _maxLevel, DebugLevel, FatalLevel in *.
  pose proof (Z.mod_pos_bound (fnv32a e.1.2) _countersPerLevel ltac:(done)) as [Hj1 Hj2].
  unfold int8. rewrite wrapS_id by (unfold inS; simpl; lia).
  unfold _numLevels, _maxLevel, _minLevel, DebugLevel, FatalLevel.
  by rewrite (proj2 (Z.leb_le 0 _)), (proj2 (Z.ltb_lt _ (5 - -1 + 1))), (proj2 (Z.leb_le 0 (_ mod _))),
    (proj2 (Z.ltb_lt (_ mod _) _)) by lia.
Qed.

Lemma timesIn_snoc ij es e :
  timesIn ij (es ++ [e]) = timesIn ij es ++ (if decide (counted e = true /\ bucket e = ij) then [e.2] else []).
Proof. unfold timesIn. rewrite filter_app, map_app. f_equal. rewrite filter_cons. by case_decide. Qed.

Lemma timesIn_some ij es (P : Z -> Prop) :
  Forall P (map snd es) -> Forall P (timesIn ij es) /\ lenZ (timesIn ij es) <= lenZ es.
Proof.
  intros H. unfold timesIn. split.
  - rewrite Forall_map in H |- *. rewrite Forall_forall in *. intros x [_ Hx]%list_elem_of_filter. auto.
  - unfold lenZ. rewrite length_map. apply inj_le, length_filter.
Qed.

Lemma sampleAll_expected p cs past es :
  0 <= first p -> Forall (representable (tick p)) (map snd (past ++ es)) -> lenZ (past ++ es) < 2 ^ 64 ->
  (forall ij, load cs ij = counterAfter p zeroCounter (timesIn ij past)) ->
  sampleAll p cs es = Ret (expected p past es).
Proof.
  intros Hf. revert cs past. induction es as [|[[lvl msg] t] es IH]; intros cs past Hrep Hlen Hcs; [done|].
  cbn [sampleAll expected]. set (e := (lvl, msg, t)) in *. rewrite (cons_middle e past es), app_assoc in Hrep, Hlen. unfold sample. change ((_minLevel <=? lvl) && (lvl <=? _maxLevel)) with (counted e).
  destruct (counted e) eqn:Ec.
  - rewrite (get_bucket e Ec : get lvl msg = _). cbn [obind].
    destruct (IncCheckReset (load cs (bucket e)) (mkTime t UTC) (tick p)) as [n c] eqn:Ei. cbn [obind].
    rewrite timesIn_snoc, decide_True by done.
    rewrite (IH _ (past ++ [e])); [cbn [obind]| |done|].
    + do 2 f_equal. rewrite map_app in Hrep. apply Forall_app in Hrep as [Hrep _]. rewrite lenZ_app in Hlen.
      pose proof (lenZ_nonneg es).
      destruct (timesIn_some (bucket e) (past ++ [e]) _ Hrep) as [H1 H2]. rewrite timesIn_snoc, decide_True in H1, H2 by done.
      rewrite windowDecision_counter by (done || lia). by rewrite <- Hcs, (Ei : IncCheckReset _ (mkTime e.2 UTC) _ = _).
    + done.
    + intros ij. rewrite load_insert, timesIn_snoc. destruct (decide (bucket e = ij)) as [<-|Hne].
      * rewrite decide_True, counterAfter_snoc by done. by rewrite <- Hcs, (Ei : IncCheckReset _ (mkTime e.2 UTC) _ = _).
      * rewrite decide_False by naive_solver. by rewrite app_nil_r.
  - cbn [obind]. rewrite (IH _ (past ++ [e])); [done|done|done|].
    intros ij. rewrite timesIn_snoc, decide_False by (intros [? _]; congruence). by rewrite app_nil_r.
Qed.


(** Of the [n] entries of a window exactly [min n first] plus one in [thereafter]
    of the rest are logged, and nothing of the rest when [thereafter] is zero. *)
Theorem window_sampled_count p w
    (Hfirst : 0 <= first p) (Hthereafter : 0 <= thereafter p) :
  sampledIn (windowDecisions p w) =
  Z.min (lenZ w) (first p) +
    (if thereafter p =? 0 then 0 else Z.max 0 (lenZ w - first p) / thereafter p).
Proof.
  rewrite windowDecisions_quota by done. unfold quota.
  destruct (Z.leb_spec (lenZ w) (first p)).
  - rewrite Z.min_l, Z.max_l, Zdiv_0_l by lia. destruct (_ =? _); lia.
  - rewrite Z.min_r, Z.max_r by lia. done.
Qed.

(** An entry of one of the seven levels always gets a decision, without an
    index out of range, and its counter is the only one that changes; an entry of
    any other level is not counted. *)
Theorem sample_total p cs lvl msg t :
  (_minLevel <= lvl <= _maxLevel /\ exists ij d c, get lvl msg = Ret ij /\
     sample p cs lvl msg t = Ret (Some d, <[ij := c]> cs) /\
     c = (IncCheckReset (load cs ij) t (tick p)).2) \/
  (~ _minLevel <= lvl <= _maxLevel /\ sample p cs lvl msg t = Ret (None, cs)).
Proof.
  unfold sample. destruct (Z.leb_spec _minLevel lvl); destruct (Z.leb_spec lvl _maxLevel); simpl;
    try (right; split; [lia|done]).
  left. split; [lia|]. destruct (get_total lvl msg) as [ij Hij]; [lia|]. rewrite Hij. simpl.
  destruct (IncCheckReset _ _ _) as [n c] eqn:E. exists ij. do 2 eexists. split; [done|]. by rewrite E.
Qed.

(** When no other goroutine interferes, the atomic operations of
    [IncCheckReset] return, after at most three of them, what the sequential
    function says. *)
Theorem atomic_sequential tk t c :
  alone 3 tk (UnixNano t) c AtLoad = Some (IncCheckReset c t tk).
Proof.
  unfold IncCheckReset. cbn [alone atomic_step].
  destruct (UnixNano t <? resetAt c); cbn; [done|]. by rewrite Z.eqb_refl.
Qed.

(** The operations that a call still has to do at most. *)
Definition remaining (p : pc) : nat :=
  match p with
  | AtLoad => 4
  | AtStore _ => 3
  | AtCAS _ => 2
  | AtAdd | AtReAdd => 1
  | Done _ => 0
  end.

Definition work (ts : list thread) : nat := sum_list_with (fun th => remaining th.2) ts.

(** What a call remembers is a window end that had passed. *)
Definition thread_ok (th : thread) : Prop :=
  match th.2 with
  | AtStore ra | AtCAS ra => ra <= th.1
  | _ => True
  end.

Lemma atomic_step_ok tk tn c p c' p' :
  0 <= tk -> inS 64 (tn + tk) -> thread_ok (tn, p) -> atomic_step tk tn c p = Some (c', p') ->
  thread_ok (tn, p') /\ resetAt c <= resetAt c' /\ (remaining p' < remaining p)%nat.
Proof.
  intros Hk Hs Hok E. destruct p as [| |ra|ra| |n]; cbn in E; simplify_eq/=; unfold thread_ok in *; simpl in *.
  - destruct (Z.ltb_spec tn (resetAt c')); simpl; repeat split; lia.
  - repeat split; lia.
  - repeat split; lia.
  - destruct (Z.eqb_spec (resetAt c) ra); simplify_eq/=; [|repeat split; lia].
    unfold int64. rewrite wrapS_id by done. repeat split; lia.
  - repeat split; lia.
Qed.

Lemma work_insert ts i th th' :
  ts !! i = Some th -> (remaining th'.2 < remaining th.2)%nat ->
  (work (<[i := th']> ts) < work ts)%nat.
Proof.
  unfold work. revert i. induction ts as [|x ts IH]; intros [|i] H Hr; simplify_eq/=; [lia|].
  specialize (IH i H Hr). unfold insert in *. lia.
Qed.

Lemma interleave_ok tk c ts c' ts' :
  0 <= tk -> Forall (fun th => inS 64 (th.1 + tk)) ts -> Forall thread_ok ts ->
  interleave tk (c, ts) (c', ts') ->
  Forall (fun th => inS 64 (th.1 + tk)) ts' /\ Forall thread_ok ts' /\
  resetAt c <= resetAt c' /\ (work ts' < work ts)%nat.
Proof.
  intros Hk Hs Hok Hst. inversion Hst; subst; clear Hst.
  match goal with H : ts !! _ = _ |- _ => pose proof H as Hi end.
  pose proof (Forall_lookup_1 _ _ _ _ Hs Hi) as Hsi. simpl in Hsi.
  edestruct atomic_step_ok as (? & ? & ?); [done|exact Hsi| |done|].
  { by eapply (Forall_lookup_1 _ _ _ _ Hok). }
  split; [by apply Forall_insert|]. split; [by apply Forall_insert|]. split; [done|].
  by eapply work_insert.
Qed.

Lemma interleaves_ok tk n st st' :
  0 <= tk -> Forall (fun th => inS 64 (th.1 + tk)) st.2 -> Forall thread_ok st.2 ->
  nsteps (interleave tk) n st st' ->
  resetAt st.1 <= resetAt st'.1 /\ (n + work st'.2 <= work st.2)%nat.
Proof.
  intros Hk Hs Hok Hrun. induction Hrun as [|n [c ts] [c1 ts1] st' Hst _ IH]; [lia|].
  apply interleave_ok in Hst as (? & ? & ? & ?); [|done..]. simpl in *.
  destruct IH; [done..|]. lia.
Qed.

(** C26: any number of concurrent calls on one counter finish, however they
    interleave, after at most four atomic operations for each of them, all together, none of
    them ever waiting for another; and the end of the window never moves back.  The tick is
    not negative, and the ends of the windows are [int64]s. *)
Theorem IncCheckReset_wait_free tk c tns n c' ts'
    (Htick : 0 <= tk) (Htns : Forall (fun tn => inS 64 (tn + tk)) tns)
    (Hrun : nsteps (interleave tk) n (c, map (fun tn => (tn, AtLoad)) tns) (c', ts')) :
  (n <= 4 * length tns)%nat /\ resetAt c <= resetAt c' /\
  forall i tn p, ts' !! i = Some (tn, p) ->
    (exists k, p = Done k) \/ exists st, interleave tk (c', ts') st.
Proof.
  assert (work (map (fun tn => (tn, AtLoad)) tns) = (4 * length tns)%nat) as Hw
    by (clear; unfold work; induction tns; simpl in *; lia).
  apply interleaves_ok in Hrun as [Hr Hn]; [|done|by apply Forall_map|by apply Forall_map, Forall_true].
  simpl in *. split; [lia|]. split; [done|]. intros i tn p Hi.
  destruct (atomic_step tk tn c' p) as [[c2 p2]|] eqn:E.
  - right. eexists. by eapply interleave_step.
  - left. destruct p; simpl in E; try done; [by case_match|by eexists].
Qed.

(** * Witnesses *)

Definition everyThird : params := newParams 100 2 3.

(** Entries of two levels, one of them before 1970, and one of no level. *)
Definition demoEntries : list entry :=
  map (fun t => (InfoLevel, str "m", t)) [-7; 10; 20; 30] ++ [(WarnLevel, str "m", 40); (100, str "m", 41)] ++
  map (fun t => (InfoLevel, str "m", t)) [109; 90; 110; 115].


Lemma window_sampled_count_witness : sampledIn (windowDecisions everyThird (replicate 12 5)) = 5.
Proof.
  rewrite (window_sampled_count everyThird (replicate 12 5)); [reflexivity|discriminate..].
Defined.

Lemma IncCheckReset_wait_free_witness :
  exists c' ts', nsteps (interleave 100) 1 (zeroCounter, [(7, AtLoad); (8, AtLoad)]) (c', ts') /\
    (1 <= 4 * 2)%nat /\ resetAt zeroCounter <= resetAt c'.
Proof.
  eassert (nsteps (interleave 100) 1 (zeroCounter, map (fun tn => (tn, AtLoad)) [7; 8]) _) as Hrun.
  { eapply nsteps_l; [|apply nsteps_O]. by eapply (interleave_step _ _ _ _ 0%nat). }
  destruct (IncCheckReset_wait_free 100 zeroCounter [7; 8] 1 _ _ ltac:(discriminate)
    ltac:(repeat constructor; discriminate) Hrun) as (Hn & Hr & _).
  do 2 eexists. split; [exact Hrun|]. split; [exact Hn|exact Hr].
Defined.
End Sampler.
