(* ===== verification/JsonString.v ===== *)
(** String escaping of the JSON encoder: [safeAppendStringLike],
    [safeAddString] and [safeAddByteString] of zapcore/json_encoder.go, with the
    [utf8.DecodeRune] of the standard library that they call. *)

From Stdlib Require Import ZArith Lia.
From S2P Require Import Prelude.
From stdpp Require Import base list.

Local Open Scope Z_scope.
Local Open Scope zap_scope.

Module JsonString.

(** * unicode/utf8 *)

Definition RuneSelf : Z := 128.
Definition RuneError : Z := 65533.

(** The table [first] and [acceptRanges]: for a leading byte, the length of the
    encoding and the range of the second byte. *)
Definition first (b : Z) : option (nat * Z * Z) :=
  if (194 <=? b) && (b <=? 223) then Some (2%nat, 128, 191)
  else if b =? 224 then Some (3%nat, 160, 191)
  else if (225 <=? b) && (b <=? 236) then Some (3%nat, 128, 191)
  else if b =? 237 then Some (3%nat, 128, 159)
  else if (238 <=? b) && (b <=? 239) then Some (3%nat, 128, 191)
  else if b =? 240 then Some (4%nat, 144, 191)
  else if (241 <=? b) && (b <=? 243) then Some (4%nat, 128, 191)
  else if b =? 244 then Some (4%nat, 128, 143)
  else None.

Definition in_range (lo hi b : Z) : bool := (lo <=? b) && (b <=? hi).

(** [utf8.DecodeRune]: the rune and its width. *)
Definition DecodeRune (p : bytes) : Z * nat :=
  match p with
  | [] => (RuneError, 0%nat)
  | b0 :: rest =>
      let p0 := bval b0 in
      if p0 <? RuneSelf then (p0, 1%nat)
      else
        match first p0, rest with
        | Some (2%nat, lo, hi), b1 :: _ =>
            if in_range lo hi (bval b1) then (Z.land p0 31 * 64 + Z.land (bval b1) 63, 2%nat)
            else (RuneError, 1%nat)
        | Some (3%nat, lo, hi), b1 :: b2 :: _ =>
            if in_range lo hi (bval b1) && in_range 128 191 (bval b2) then
              (Z.land p0 15 * 4096 + Z.land (bval b1) 63 * 64 + Z.land (bval b2) 63, 3%nat)
            else (RuneError, 1%nat)
        | Some (4%nat, lo, hi), b1 :: b2 :: b3 :: _ =>
            if in_range lo hi (bval b1) && in_range 128 191 (bval b2) && in_range 128 191 (bval b3) then
              (Z.land p0 7 * 262144 + Z.land (bval b1) 63 * 4096 + Z.land (bval b2) 63 * 64 +
               Z.land (bval b3) 63, 4%nat)
            else (RuneError, 1%nat)
        | _, _ => (RuneError, 1%nat)
        end
  end.

(** * zapcore/json_encoder.go *)

Definition _hex : bytes := str "0123456789abcdef".

(** [_hex[n]]. *)
Definition hex (n : Z) : byte := nth (Z.to_nat n) _hex x00.

(** What the switch on a byte that needs escaping appends. *)
Definition escapeByte (b : byte) : bytes :=
  if decide (b = x5c \/ b = x22) then [x5c; b]
  else if decide (b = x0a) then [x5c; x6e]
  else if decide (b = x0d) then [x5c; x72]
  else if decide (b = x09) then [x5c; x74]
  else str "\u00" ++ [hex (Z.shiftr (bval b) 4); hex (Z.land (bval b) 15)].

Definition replacement : bytes := str "\ufffd".

(** [s[last:i]]. *)
Definition slice (s : bytes) (last i : nat) : bytes := take (i - last) (drop last s).

(** The loop, with its variables [last] and [i] and the buffer it appends to.
    [None] is running out of iterations. *)
Fixpoint safeLoop (fuel : nat) (s : bytes) (last i : nat) (buf : bytes) : option bytes :=
  match s !! i with
  | None => Some (buf ++ drop last s)
  | Some b =>
      match fuel with
      | O => None
      | S fuel =>
          if RuneSelf <=? bval b then
            let '(r, size) := DecodeRune (drop i s) in
            if negb (r =? RuneError) || negb (Nat.eqb size 1) then
              safeLoop fuel s last (i + size) buf
            else
              safeLoop fuel s (S i) (S i) (buf ++ slice s last i ++ replacement)
          else if (32 <=? bval b) && negb (bool_decide (b = x5c)) && negb (bool_decide (b = x22)) then
            safeLoop fuel s last (S i) buf
          else
            safeLoop fuel s (S i) (S i) (buf ++ slice s last i ++ escapeByte b)
      end
  end.

(** Every iteration moves [i] forward, so one per byte is enough. *)
Definition safeAppendStringLike (buf s : bytes) : option bytes :=
  safeLoop (length s) s 0 0 buf.

(** * The specification: one rune at a time *)

(** What a string is cut into: a byte that is no part of a valid encoding, a
    rune that is copied, or a byte that is escaped. *)
Inductive piece :=
| Invalid
| Copied (enc : bytes)
| Escaped (b : byte).

Definition validRune (s : bytes) : bool :=
  let '(r, size) := DecodeRune s in negb (r =? RuneError) || negb (Nat.eqb size 1).

Definition plain (b : byte) : bool :=
  (32 <=? bval b) && negb (bool_decide (b = x5c)) && negb (bool_decide (b = x22)).

(** The first piece of a non-empty string and its length. *)
Definition firstPiece (b : byte) (s : bytes) : piece * nat :=
  if RuneSelf <=? bval b then
    if validRune (b :: s) then
      let n := (DecodeRune (b :: s)).2 in (Copied (take n (b :: s)), n)
    else (Invalid, 1%nat)
  else if plain b then (Copied [b], 1%nat)
  else (Escaped b, 1%nat).

Fixpoint pieces (fuel : nat) (s : bytes) : list piece :=
  match fuel, s with
  | S fuel, b :: s' =>
      let '(p, n) := firstPiece b s' in p :: pieces fuel (drop n s)
  | _, _ => []
  end.

Definition escapePiece (p : piece) : bytes :=
  match p with
  | Invalid => replacement
  | Copied e => e
  | Escaped b => escapeByte b
  end.

Definition escape (s : bytes) : bytes := concat (map escapePiece (pieces (length s) s)).

(** * Lemmas *)

Lemma first_size b n lo hi : first b = Some (n, lo, hi) -> n = 2%nat \/ n = 3%nat \/ n = 4%nat.
Proof. unfold first. repeat case_match; intros; simplify_eq; auto. Qed.

(** A rune is as wide as [DecodeRune] says: at least one byte, and no wider than
    the string. *)
Lemma DecodeRune_width b s :
  (1 <= (DecodeRune (b :: s)).2 <= length (b :: s))%nat.
Proof.
  unfold DecodeRune. destruct (bval b <? RuneSelf); simpl; [lia|].
  destruct (first (bval b)) as [[[n lo] hi]|] eqn:E; [|simpl; lia].
  destruct (first_size _ _ _ _ E) as [-> | [-> | ->]].
  - destruct s as [|b1 s]; [simpl; lia|]. destruct (in_range _ _ _); simpl; lia.
  - destruct s as [|b1 [|b2 s]]; [simpl; lia..|]. destruct (_ && _); simpl; lia.
  - destruct s as [|b1 [|b2 [|b3 s]]]; [simpl; lia..|]. destruct (_ && _); simpl; lia.
Qed.

Lemma firstPiece_width b s : (1 <= (firstPiece b s).2 <= length (b :: s))%nat.
Proof.
  unfold firstPiece. pose proof (DecodeRune_width b s).
  repeat case_match; simpl in *; lia.
Qed.

Lemma slice_snoc s last i n :
  (last <= i)%nat -> slice s last (i + n) = slice s last i ++ take n (drop i s).
Proof.
  intros H. unfold slice. replace (i + n - last)%nat with ((i - last) + n)%nat by lia.
  rewrite <- take_take_drop, drop_drop. do 3 f_equal. lia.
Qed.

Lemma slice_drop s last i : (last <= i)%nat -> slice s last i ++ drop i s = drop last s.
Proof.
  intros H. unfold slice. rewrite <- (take_drop (i - last) (drop last s)) at 2.
  rewrite drop_drop. do 2 f_equal. lia.
Qed.

(** The loop in the middle: what has been appended is what is before [last]; the
    rest is escaped piece by piece. *)
Lemma safeLoop_spec fuel s last i buf :
  (last <= i)%nat -> (i <= length s)%nat -> (length s - i <= fuel)%nat ->
  safeLoop fuel s last i buf =
    Some (buf ++ slice s last i ++ concat (map escapePiece (pieces fuel (drop i s)))).
Proof.
  revert last i buf. induction fuel as [|fuel IH]; intros last i buf Hl Hi Hf.
  { assert (i = length s) as -> by lia. cbn [safeLoop]. rewrite lookup_ge_None_2 by lia.
    rewrite (drop_ge s (length s)) by lia. simpl. rewrite app_nil_r.
    by rewrite <- (slice_drop s last (length s)), (drop_ge s (length s)), app_nil_r by lia. }
  cbn [safeLoop]. destruct (s !! i) as [b|] eqn:Hb.
  2: { apply lookup_ge_None in Hb. assert (i = length s) as -> by lia.
       rewrite <- (slice_drop s last (length s)) by lia. by rewrite drop_ge by lia. }
  pose proof (drop_S s b i Hb) as Hd. rewrite Hd. cbn [pieces].
  pose proof (firstPiece_width b (drop (S i) s)) as Hw. rewrite <- Hd in Hw at 1.
  rewrite length_drop in Hw. unfold firstPiece, validRune, plain in *. rewrite <- Hd in *.
  assert (forall n, drop n (drop i s) = drop (i + n) s) as Hdd by (intros; by rewrite drop_drop).
  destruct (RuneSelf <=? bval b) eqn:Eb.
  - destruct (DecodeRune (drop i s)) as [r size]. destruct (_ || _); cbn [snd] in *.
    + rewrite IH by lia. cbn [map concat escapePiece]. rewrite Hdd.
      rewrite slice_snoc by lia. by rewrite <- !app_assoc.
    + rewrite IH by lia. cbn [map concat escapePiece]. rewrite Hdd, Nat.add_1_r.
      unfold slice at 2. rewrite Nat.sub_diag. simpl. by rewrite <- !app_assoc.
  - destruct ((32 <=? bval b) && negb (bool_decide (b = x5c)) && negb (bool_decide (b = x22))); cbn [snd] in *.
    + rewrite IH by lia. cbn [map concat escapePiece]. rewrite Hdd, Nat.add_1_r.
      rewrite <- (Nat.add_1_r i) at 1. rewrite slice_snoc by lia. rewrite Hd at 1. simpl.
      by rewrite <- !app_assoc.
    + rewrite IH by lia. cbn [map concat escapePiece]. rewrite Hdd, Nat.add_1_r.
      unfold slice at 2. rewrite Nat.sub_diag. simpl. by rewrite <- !app_assoc.
Qed.

Lemma safeAppendStringLike_spec buf s : safeAppendStringLike buf s = Some (buf ++ escape s).
Proof.
  unfold safeAppendStringLike. rewrite safeLoop_spec by lia. by rewrite drop_0.
Qed.

(** * Reading a JSON string back

    [stringBody] is the grammar of what is between the quotes of a JSON string in RFC 8259.
    [unescape] is a strict reader of such bodies: it takes valid UTF-8 only outside escapes,
    and of the escapes it rejects those of surrogates, which [safeAppendStringLike] does
    not write. *)

Definition hexDigit (b : byte) : bool :=
  in_range 48 57 (bval b) || in_range 97 102 (bval b) || in_range 65 70 (bval b).

Inductive stringBody : bytes -> Prop :=
| body_nil : stringBody []
| body_char b s : plain b = true -> stringBody s -> stringBody (b :: s)
| body_escape e s : e ∈ [x22; x5c; x2f; x62; x66; x6e; x72; x74] -> stringBody s -> stringBody (x5c :: e :: s)
| body_unicode h1 h2 h3 h4 s :
    forallb hexDigit [h1; h2; h3; h4] = true -> stringBody s -> stringBody (x5c :: x75 :: h1 :: h2 :: h3 :: h4 :: s).

Definition hexValue (b : byte) : option Z :=
  let v := bval b in
  if in_range 48 57 v then Some (v - 48)
  else if in_range 97 102 v then Some (v - 87)
  else if in_range 65 70 v then Some (v - 55)
  else None.

(** The UTF-8 encoding of a code point below 2^16 that is not a surrogate. *)
Definition encodeRune (c : Z) : option bytes :=
  if c <? 128 then Some [byteZ c]
  else if c <? 2048 then Some [byteZ (192 + c / 64); byteZ (128 + c mod 64)]
  else if in_range 55296 57343 c then None
  else Some [byteZ (224 + c / 4096); byteZ (128 + (c / 64) mod 64); byteZ (128 + c mod 64)].

(** What follows a backslash. *)
Definition readEscape (s : bytes) : option (bytes * bytes) :=
  match s with
  | c :: s' =>
      if decide (c = x22 \/ c = x5c \/ c = x2f) then Some ([c], s')
      else if decide (c = x62) then Some ([x08], s')
      else if decide (c = x66) then Some ([x0c], s')
      else if decide (c = x6e) then Some ([x0a], s')
      else if decide (c = x72) then Some ([x0d], s')
      else if decide (c = x74) then Some ([x09], s')
      else if decide (c = x75) then
        match s' with
        | h1 :: h2 :: h3 :: h4 :: s'' =>
            match hexValue h1, hexValue h2, hexValue h3, hexValue h4 with
            | Some a, Some b, Some c, Some d =>
                match encodeRune (((a * 16 + b) * 16 + c) * 16 + d) with
                | Some e => Some (e, s'')
                | None => None
                end
            | _, _, _, _ => None
            end
        | _ => None
        end
      else None
  | [] => None
  end.

(** The first character of a non-empty body, and the rest of it. *)
Definition readChar (b : byte) (s : bytes) : option (bytes * bytes) :=
  if decide (b = x5c) then readEscape s
  else if RuneSelf <=? bval b then
    if validRune (b :: s) then
      let n := (DecodeRune (b :: s)).2 in Some (take n (b :: s), drop n (b :: s))
    else None
  else if plain b then Some ([b], s) else None.

Fixpoint unescapeLoop (fuel : nat) (s : bytes) : option bytes :=
  match s with
  | [] => Some []
  | b :: s' =>
      match fuel with
      | O => None
      | S fuel =>
          match readChar b s' with
          | Some (c, rest) => app c <$> unescapeLoop fuel rest
          | None => None
          end
      end
  end.

Definition unescape (s : bytes) : option bytes := unescapeLoop (length s) s.

(** The text that is meant: every byte that is not part of valid UTF-8 replaced by
    U+FFFD. *)
Definition sanitizePiece (p : piece) : bytes :=
  match p with
  | Invalid => [xef; xbf; xbd]
  | Copied e => e
  | Escaped b => [b]
  end.

Definition sanitize (s : bytes) : bytes := concat (map sanitizePiece (pieces (length s) s)).

Fixpoint validLoop (fuel : nat) (s : bytes) : bool :=
  match fuel, s with
  | S fuel, b :: s' => validRune s && validLoop fuel (drop (DecodeRune s).2 s)
  | _, _ => true
  end.

(** [utf8.Valid]. *)
Definition Valid (s : bytes) : bool := validLoop (length s) s.

(** * Lemmas on reading back *)

(** A valid rune is recognised whatever follows it. *)
Lemma DecodeRune_prefix b s rest :
  validRune (b :: s) = true ->
  DecodeRune (take (DecodeRune (b :: s)).2 (b :: s) ++ rest) = DecodeRune (b :: s).
Proof.
  unfold validRune, DecodeRune. destruct (bval b <? RuneSelf) eqn:E0; [by simpl; rewrite E0|].
  destruct (first (bval b)) as [[[n lo] hi]|] eqn:E; [|done].
  destruct (first_size _ _ _ _ E) as [-> | [-> | ->]].
  - destruct s as [|b1 s]; [done|].
    destruct (in_range lo hi (bval b1)) eqn:E1; [|done]. intros _. simpl. by rewrite E0, E, E1.
  - destruct s as [|b1 [|b2 s]]; [done..|].
    destruct (_ && _) eqn:E1; [|done]. intros _. simpl. by rewrite E0, E, E1.
  - destruct s as [|b1 [|b2 [|b3 s]]]; [done..|].
    destruct (_ && _) eqn:E1; [|done]. intros _. simpl. by rewrite E0, E, E1.
Qed.

(** The pieces that [pieces] produces. *)
Definition wfPiece (p : piece) : Prop :=
  match p with
  | Invalid => True
  | Copied e => exists b s, e = take (DecodeRune (b :: s)).2 (b :: s) /\ validRune (b :: s) = true /\
                  (bval b < RuneSelf -> plain b = true)
  | Escaped b => plain b = false /\ bval b < RuneSelf
  end.

Lemma firstPiece_wf b s : wfPiece (firstPiece b s).1.
Proof.
  unfold firstPiece. destruct (Z.leb_spec RuneSelf (bval b)) as [H|H].
  - destruct (validRune (b :: s)) eqn:E; [|done]. exists b, s. split; [done|]. split; [done|]. lia.
  - destruct (plain b) eqn:E; [|done]. exists b, [].
    unfold validRune, DecodeRune. rewrite (proj2 (Z.ltb_lt _ _)) by done. simpl.
    split; [done|]. split; [|done].
    rewrite (proj2 (Z.eqb_neq (bval b) RuneError)); [done|]. unfold RuneSelf, RuneError in *. lia.
Qed.

Lemma pieces_wf fuel s : Forall wfPiece (pieces fuel s).
Proof.
  revert s. induction fuel as [|fuel IH]; intros [|b s]; simpl; try constructor.
  pose proof (firstPiece_wf b s). destruct (firstPiece b s). constructor; auto.
Qed.

(** Reading back what was written for a byte below 128 that needs escaping. *)
Lemma read_escapeByte b rest :
  plain b = false -> bval b < RuneSelf ->
  exists c s, escapeByte b = c :: s /\ readChar c (s ++ rest) = Some ([b], rest).
Proof.
  intros Hp Hb. destruct b; try (exfalso; vm_compute in Hb; discriminate Hb);
    try (vm_compute in Hp; discriminate Hp); eexists _, _; split; reflexivity.
Qed.

Lemma read_piece p rest :
  wfPiece p -> exists c s, escapePiece p = c :: s /\ readChar c (s ++ rest) = Some (sanitizePiece p, rest).
Proof.
  destruct p as [|e|b]; cbn [wfPiece escapePiece sanitizePiece].
  - intros _. eexists _, _. split; reflexivity.
  - intros (b & s & -> & Hv & Hp). pose proof (DecodeRune_width b s) as Hw.
    destruct (DecodeRune (b :: s)).2 as [|n] eqn:En; [lia|]. exists b, (take n s).
    split; [done|]. pose proof (DecodeRune_prefix b s rest Hv) as Hpre. rewrite En in Hpre.
    simpl take in Hpre. rewrite <- app_comm_cons in Hpre.
    unfold readChar, validRune in *. rewrite Hpre.
    assert (length (take n s) = n) as Hlen by (rewrite length_take; simpl in Hw; lia).
    rewrite En. destruct (Z.leb_spec RuneSelf (bval b)) as [H|H].
    + rewrite decide_False by (intros ->; vm_compute in H; by apply H).
      destruct (DecodeRune (b :: s)) as [r size]. cbn [snd] in En. subst size.
      rewrite Hv. simpl take. simpl drop. rewrite take_app_length', drop_app_length' by done. done.
    + specialize (Hp H). rewrite Hp.
      rewrite decide_False by (intros ->; vm_compute in Hp; discriminate Hp).
      assert (n = 0%nat) as ->.
      { unfold DecodeRune in En. rewrite (proj2 (Z.ltb_lt _ _)) in En by done. by injection En. }
      done.
  - intros [Hp Hb]. by apply read_escapeByte.
Qed.

Lemma unescape_pieces ps fuel :
  Forall wfPiece ps -> (length ps <= fuel)%nat ->
  unescapeLoop fuel (concat (map escapePiece ps)) = Some (concat (map sanitizePiece ps)).
Proof.
  intros Hps. revert fuel. induction Hps as [|p ps Hp _ IH]; intros fuel Hf; [by destruct fuel|].
  simpl in Hf. destruct fuel as [|fuel]; [lia|]. cbn [map concat].
  destruct (read_piece p (concat (map escapePiece ps)) Hp) as (c & s & -> & Hr).
  simpl. rewrite Hr, IH by lia. done.
Qed.

Lemma escape_length ps : Forall wfPiece ps -> (length ps <= length (concat (map escapePiece ps)))%nat.
Proof.
  induction 1 as [|p ps Hp _ IH]; simpl; [lia|]. rewrite length_app.
  destruct (read_piece p [] Hp) as (c & s & -> & _). simpl. lia.
Qed.

Lemma sanitize_valid fuel s :
  (length s <= fuel)%nat -> validLoop fuel s = true -> concat (map sanitizePiece (pieces fuel s)) = s.
Proof.
  revert s. induction fuel as [|fuel IH]; intros [|b s] Hf Hv; simpl in Hf; try done; [lia|].
  cbn [validLoop] in Hv. apply andb_true_iff in Hv as [Hv1 Hv]. cbn [pieces].
  pose proof (DecodeRune_width b s) as Hw. simpl in Hw.
  unfold firstPiece. rewrite Hv1. destruct (Z.leb_spec RuneSelf (bval b)) as [H|H].
  - cbn [map concat sanitizePiece]. rewrite IH; [apply take_drop| |done].
    rewrite length_drop. simpl. lia.
  - assert ((DecodeRune (b :: s)).2 = 1%nat) as E.
    { unfold DecodeRune. by rewrite (proj2 (Z.ltb_lt _ _)). }
    rewrite E in Hv. simpl drop in Hv.
    destruct (plain b); cbn [map concat sanitizePiece]; simpl; f_equal; apply IH; auto; lia.
Qed.

(** ** Bodies of strings *)

Lemma body_app s t : stringBody s -> stringBody t -> stringBody (s ++ t).
Proof. intros Hs Ht. induction Hs; [done|..]; cbn [app]; by constructor. Qed.

Lemma body_plain s : Forall (fun b => plain b = true) s -> stringBody s.
Proof. induction 1; by constructor. Qed.

Lemma high_plain b : RuneSelf <= bval b -> plain b = true.
Proof. intros H. destruct b; try done; exfalso; vm_compute in H; by apply H. Qed.

Lemma first_low b n lo hi : first b = Some (n, lo, hi) -> RuneSelf <= lo.
Proof. unfold first, RuneSelf. repeat case_match; intros; simplify_eq; lia. Qed.

Lemma in_range_plain lo hi b : RuneSelf <= lo -> in_range lo hi (bval b) = true -> plain b = true.
Proof. intros Hlo [H _]%andb_prop. apply Z.leb_le in H. apply high_plain. lia. Qed.

(** The bytes of a rune outside ASCII stand for themselves in a string. *)
Lemma rune_plain b s :
  RuneSelf <= bval b -> Forall (fun b => plain b = true) (take (DecodeRune (b :: s)).2 (b :: s)).
Proof.
  intros Hb. pose proof (high_plain b Hb) as Hp. unfold DecodeRune. rewrite (proj2 (Z.ltb_ge _ _)) by done.
  destruct (first (bval b)) as [[[n lo] hi]|] eqn:E; [|by apply Forall_singleton].
  pose proof (first_low _ _ _ _ E) as Hlo. assert (RuneSelf <= 128) as H128 by done.
  destruct (first_size _ _ _ _ E) as [-> | [-> | ->]].
  - destruct s as [|b1 s]; [by apply Forall_singleton|].
    destruct (in_range lo hi (bval b1)) eqn:E1; [|by apply Forall_singleton]. simpl.
    repeat apply Forall_cons_2; [done|eapply in_range_plain; [|exact E1]; done|done].
  - destruct s as [|b1 [|b2 s]]; try (by apply Forall_singleton).
    destruct (_ && _) eqn:E1; [|by apply Forall_singleton]. apply andb_prop in E1 as [E1 E2]. simpl.
    repeat apply Forall_cons_2; try done; (eapply in_range_plain; [|eassumption]; done).
  - destruct s as [|b1 [|b2 [|b3 s]]]; try (by apply Forall_singleton).
    destruct (_ && _) eqn:E1; [|by apply Forall_singleton]. apply andb_prop in E1 as [E1 E3].
    apply andb_prop in E1 as [E1 E2]. simpl. repeat apply Forall_cons_2; try done; (eapply in_range_plain; [|eassumption]; done).
Qed.

Lemma escapeByte_body b : plain b = false -> bval b < RuneSelf -> stringBody (escapeByte b).
Proof.
  intros Hp Hb. destruct b; try (exfalso; vm_compute in Hb; discriminate Hb);
    try (vm_compute in Hp; discriminate Hp);
    first [apply body_escape; [by apply (bool_decide_unpack _)|constructor]|apply body_unicode; [done|constructor]].
Qed.

Lemma piece_body p : wfPiece p -> stringBody (escapePiece p).
Proof.
  destruct p as [|e|b]; cbn [wfPiece escapePiece].
  - intros _. apply body_unicode; [done|constructor].
  - intros (b & s & -> & _ & Hp). apply body_plain. destruct (Z.le_gt_cases RuneSelf (bval b)) as [H|H].
    + by apply rune_plain.
    + unfold DecodeRune. rewrite (proj2 (Z.ltb_lt _ _)) by done. apply Forall_singleton. auto.
  - intros [Hp Hb]. by apply escapeByte_body.
Qed.

Lemma escape_body s : stringBody (escape s).
Proof.
  unfold escape. pose proof (pieces_wf (length s) s) as H. induction H as [|p ps Hp _ IH]; [constructor|].
  cbn [map concat]. apply body_app; [by apply piece_body|done].
Qed.

(** * Theorems *)

(** The loop of [safeAppendStringLike], with its two indices and its copying of
    whole runs, always finishes and appends exactly the escaped runes of the
    string, one after the other. *)
Theorem safeAppendStringLike_escape buf s :
  safeAppendStringLike buf s = Some (buf ++ escape s).
Proof. apply safeAppendStringLike_spec. Qed.

(** C10: strings survive.  The loop of [safeAppendStringLike], with its two indices and its
    copying of whole runs, always ends; what it appends to the buffer is the body of a JSON
    string, and a strict reader gets back from it the original text with each byte that is
    not UTF-8 replaced by U+FFFD; the original itself when it is valid UTF-8. *)
Theorem escape_roundtrip buf s :
  exists body,
    safeAppendStringLike buf s = Some (buf ++ body) /\ stringBody body /\
    unescape body = Some (sanitize s) /\ (Valid s = true -> sanitize s = s).
Proof.
  exists (escape s). split; [apply safeAppendStringLike_spec|]. split; [apply escape_body|].
  pose proof (pieces_wf (length s) s) as Hwf. split.
  - unfold unescape, escape, sanitize. apply unescape_pieces; [done|]. by apply escape_length.
  - intros Hv. by apply sanitize_valid.
Qed.

Lemma escape_roundtrip_witness :
  (exists body, safeAppendStringLike (str "k=") (str "a\b" ++ [x0a; xc3; xa9; xff]) = Some (str "k=" ++ body) /\
     unescape body = Some (str "a\b" ++ [x0a; xc3; xa9; xef; xbf; xbd])) /\
  sanitize (str "tab" ++ [x09]) = str "tab" ++ [x09].
Proof.
  split.
  - destruct (escape_roundtrip (str "k=") (str "a\b" ++ [x0a; xc3; xa9; xff])) as (body & Hb & _ & Hu & _). by exists body.
  - destruct (escape_roundtrip [] (str "tab" ++ [x09])) as (body & _ & _ & _ & Hv). exact (Hv eq_refl).
Defined.
End JsonString.
