(* ===== verification/Encode.v ===== *)
(** The interface between values and encoders: zapcore/encoder.go
    ([ObjectEncoder], [ArrayEncoder], [PrimitiveArrayEncoder]), zapcore/marshaler.go,
    and the [Field] and [interface{}] values that cross it.

    A marshaler only sees the encoder through the methods of the interface and what
    they return, so it is a program: a tree of calls, each continued by the error
    that the call returned.  An encoder is an instance of the class [Encoders]; running
    a program on it is [runObj] and [runArr].  A relation between two encoders that
    every method preserves is preserved by every program ([runObj_related]). *)

From Stdlib Require Import ZArith Lia.
From S2P Require Import Prelude GoStd.
From stdpp Require Import base list.

Local Open Scope Z_scope.
Local Open Scope zap_scope.

Module Encode.

(** * Built-in types *)

Inductive ikind :=
| KInt | KInt64 | KInt32 | KInt16 | KInt8
| KUint | KUint64 | KUint32 | KUint16 | KUint8 | KUintptr.

#[global] Instance ikind_eq_decision : EqDecision ikind.
Proof. solve_decision. Defined.

Definition signed (k : ikind) : bool :=
  match k with
  | KInt | KInt64 | KInt32 | KInt16 | KInt8 => true
  | _ => false
  end.

Definition width (k : ikind) : Z :=
  match k with
  | KInt | KInt64 | KUint | KUint64 | KUintptr => 64
  | KInt32 | KUint32 => 32
  | KInt16 | KUint16 => 16
  | KInt8 | KUint8 => 8
  end.

(** The values of the type. *)
Definition inKind (k : ikind) (z : Z) : Prop :=
  if signed k then inS (width k) z else inU (width k) z.

(** What the methods of [PrimitiveArrayEncoder] append.  A complex number is its
    real and imaginary parts as bit patterns of the component type. *)
Inductive prim :=
| PBool (b : bool)
| PByteString (s : bytes)
| PComplex128 (c : Z * Z)
| PComplex64 (c : Z * Z)
| PFloat64 (f : Z)
| PFloat32 (f : Z)
| PInt (k : ikind) (z : Z)
| PString (s : bytes).

(** The scalar types with a field constructor, a pointer constructor and a slice
    constructor each. *)
Inductive scalar :=
| TBool | TComplex128 | TComplex64 | TFloat64 | TFloat32 | TInt (k : ikind)
| TString | TTime | TDuration.

Definition denote (t : scalar) : Type :=
  match t with
  | TBool => bool
  | TComplex128 | TComplex64 => Z * Z
  | TFloat64 | TFloat32 | TInt _ | TDuration => Z
  | TString => bytes
  | TTime => Time
  end.

(** * Fields, interface values and marshalers *)

Inductive FieldType :=
| UnknownType | ArrayMarshalerType | ObjectMarshalerType | BinaryType | BoolType | ByteStringType
| Complex128Type | Complex64Type | DurationType | Float64Type | Float32Type | Int64Type
| Int32Type | Int16Type | Int8Type | StringType | TimeType | TimeFullType | Uint64Type
| Uint32Type | Uint16Type | Uint8Type | UintptrType | ReflectType | NamespaceType
| StringerType | ErrorType | SkipType | InlineMarshalerType.

#[global] Instance FieldType_eq_decision : EqDecision FieldType.
Proof. solve_decision. Defined.

(** A value in an [interface{}], by its dynamic type: what [Any] and [AddTo] can tell
    apart.  [VField] is a field that is not meant as a value, [VStringer] a value that is used through its [String] method, and
    [VOther] one of any other type, which only reflection can serialize. *)
Inductive any : Type :=
| VNil
| VScalar (t : scalar) (v : denote t)
| VPtr (t : scalar) (v : option (denote t))
| VSlice (t : scalar) (vs : list (denote t))
| VBytes (s : bytes)
| VLocation (name : bytes)
| VFields (fs : list Field)
| VField (f : Field)
| VObjectMarshaler (m : ObjProg)
| VArrayMarshaler (m : ArrProg)
| VError (e : err)
| VErrors (es : list error)
| VStringer (String_ : call_result)
| VOther (id : Z)

with Field : Type :=
| mkField (Key : bytes) (Type_ : FieldType) (Integer : Z) (String_ : bytes) (Interface : any)

(** [MarshalLogObject]: returns an error or nil, panics, or calls the encoder. *)
with ObjProg : Type :=
| ODone (e : error)
| OPanic (v : bytes)
| OCall (op : ObjOp) (k : error -> ObjProg)

with ObjOp : Type :=
| OPrim (key : bytes) (p : prim)
| OBinary (key : bytes) (val : bytes)
| ODuration (key : bytes) (d : Z)
| OTime (key : bytes) (t : Time)
| OReflected (key : bytes) (v : any)
| ONamespace (key : bytes)
| OArray (key : bytes) (arr : ArrProg)
| OObject (key : bytes) (obj : ObjProg)

(** [MarshalLogArray]. *)
with ArrProg : Type :=
| ADone (e : error)
| APanic (v : bytes)
| ACall (op : ArrOp) (k : error -> ArrProg)

with ArrOp : Type :=
| APrim (p : prim)
| ADuration (d : Z)
| ATime (t : Time)
| AReflected (v : any)
| AArray (arr : ArrProg)
| AObject (obj : ObjProg).

Definition Key (f : Field) : bytes := let 'mkField k _ _ _ _ := f in k.
Definition Type_ (f : Field) : FieldType := let 'mkField _ t _ _ _ := f in t.
Definition Integer (f : Field) : Z := let 'mkField _ _ i _ _ := f in i.
Definition String_ (f : Field) : bytes := let 'mkField _ _ _ s _ := f in s.
Definition Interface (f : Field) : any := let 'mkField _ _ _ _ v := f in v.

(** Sequencing: [p], then [k] on the error it returned. *)
Fixpoint oseq (p : ObjProg) (k : error -> ObjProg) : ObjProg :=
  match p with
  | ODone e => k e
  | OPanic v => OPanic v
  | OCall op c => OCall op (fun e => oseq (c e) k)
  end.

(** * Encoders *)

(** An encoder of objects with state [O] whose arrays are encoded in a state [A].
    The marshaler of a nested array or object is the function that runs it on an
    encoder. *)
Class Encoders (O A : Type) := {
  AddPrim : bytes -> prim -> O -> O;
  AddBinary : bytes -> bytes -> O -> O;
  AddDuration : bytes -> Z -> O -> O;
  AddTime : bytes -> Time -> O -> O;
  AddReflected : bytes -> any -> O -> error * O;
  OpenNamespace : bytes -> O -> O;
  AddArray : bytes -> (A -> outcome (error * A)) -> O -> outcome (error * O);
  AddObject : bytes -> (O -> outcome (error * O)) -> O -> outcome (error * O);
  AppendPrim : prim -> A -> A;
  AppendDuration : Z -> A -> A;
  AppendTime : Time -> A -> A;
  AppendReflected : any -> A -> error * A;
  AppendArray : (A -> outcome (error * A)) -> A -> outcome (error * A);
  AppendObject : (O -> outcome (error * O)) -> A -> outcome (error * A)
}.

Section run.
Context {O A : Type} {E : Encoders O A}.

Fixpoint runObj (p : ObjProg) (enc : O) : outcome (error * O) :=
  match p with
  | ODone e => Ret (e, enc)
  | OPanic v => Panic v
  | OCall op k =>
      let! (e, enc) := runObjOp op enc in
      runObj (k e) enc
  end
with runObjOp (op : ObjOp) (enc : O) : outcome (error * O) :=
  match op with
  | OPrim key p => Ret (None, AddPrim key p enc)
  | OBinary key v => Ret (None, AddBinary key v enc)
  | ODuration key d => Ret (None, AddDuration key d enc)
  | OTime key t => Ret (None, AddTime key t enc)
  | OReflected key v => Ret (AddReflected key v enc)
  | ONamespace key => Ret (None, OpenNamespace key enc)
  | OArray key arr => AddArray key (runArr arr) enc
  | OObject key obj => AddObject key (runObj obj) enc
  end
with runArr (p : ArrProg) (enc : A) : outcome (error * A) :=
  match p with
  | ADone e => Ret (e, enc)
  | APanic v => Panic v
  | ACall op k =>
      let! (e, enc) := runArrOp op enc in
      runArr (k e) enc
  end
with runArrOp (op : ArrOp) (enc : A) : outcome (error * A) :=
  match op with
  | APrim p => Ret (None, AppendPrim p enc)
  | ADuration d => Ret (None, AppendDuration d enc)
  | ATime t => Ret (None, AppendTime t enc)
  | AReflected v => Ret (AppendReflected v enc)
  | AArray arr => AppendArray (runArr arr) enc
  | AObject obj => AppendObject (runObj obj) enc
  end.

Lemma runObj_oseq p k enc :
  runObj (oseq p k) enc = let! (e, enc) := runObj p enc in runObj (k e) enc.
Proof.
  revert enc. induction p as [e|v|op c IH]; intros enc; simpl; [done..|].
  destruct (runObjOp op enc) as [[e enc']|v|]; simpl; [|done..]. apply IH.
Qed.
End run.

Scheme ObjProg_prog_ind := Induction for ObjProg Sort Prop
with ObjOp_prog_ind := Induction for ObjOp Sort Prop
with ArrProg_prog_ind := Induction for ArrProg Sort Prop
with ArrOp_prog_ind := Induction for ArrOp Sort Prop.

Combined Scheme prog_ind from ObjProg_prog_ind, ObjOp_prog_ind, ArrProg_prog_ind, ArrOp_prog_ind.

(** * Programs preserve what the methods preserve *)

(** Two outcomes agree: the same error and related states, or the same panic. *)
Inductive related {S1 S2} (R : S1 -> S2 -> Prop) :
    outcome (error * S1) -> outcome (error * S2) -> Prop :=
| related_ret e s1 s2 : R s1 s2 -> related R (Ret (e, s1)) (Ret (e, s2))
| related_panic v : related R (Panic v) (Panic v).

Lemma related_bind {S1 S2 T1 T2} (R : S1 -> S2 -> Prop) (Q : T1 -> T2 -> Prop) m1 m2 f1 f2 :
  related R m1 m2 ->
  (forall e s1 s2, R s1 s2 -> related Q (f1 (e, s1)) (f2 (e, s2))) ->
  related Q (obind m1 f1) (obind m2 f2).
Proof. intros [e s1 s2 H|v] Hf; simpl; [by apply Hf|constructor]. Qed.

Lemma related_ret_inv {S1 S2} (R : S1 -> S2 -> Prop) e s1 m :
  related R (Ret (e, s1)) m -> exists s2, m = Ret (e, s2) /\ R s1 s2.
Proof. inversion 1; subst. eauto. Qed.

Section relation.
Context {O1 A1 O2 A2 : Type} {E1 : Encoders O1 A1} {E2 : Encoders O2 A2}.

(** The relations between object states and between array states, each in a
    family: a nested object or array is encoded at another index. *)
Context {I J : Type} (RO : I -> O1 -> O2 -> Prop) (RA : J -> A1 -> A2 -> Prop).

(** Marshalers that agree at every index. *)
Definition relO (m1 : O1 -> outcome (error * O1)) (m2 : O2 -> outcome (error * O2)) : Prop :=
  forall i s1 s2, RO i s1 s2 -> related (RO i) (m1 s1) (m2 s2).

Definition relA (m1 : A1 -> outcome (error * A1)) (m2 : A2 -> outcome (error * A2)) : Prop :=
  forall j s1 s2, RA j s1 s2 -> related (RA j) (m1 s1) (m2 s2).

(** Every method of the interface preserves the relations. *)
Record Preserved : Prop := {
  pres_AddPrim i key p s1 s2 : RO i s1 s2 -> RO i (AddPrim key p s1) (AddPrim key p s2);
  pres_AddBinary i key v s1 s2 : RO i s1 s2 -> RO i (AddBinary key v s1) (AddBinary key v s2);
  pres_AddDuration i key d s1 s2 : RO i s1 s2 -> RO i (AddDuration key d s1) (AddDuration key d s2);
  pres_AddTime i key t s1 s2 : RO i s1 s2 -> RO i (AddTime key t s1) (AddTime key t s2);
  pres_AddReflected i key v s1 s2 : RO i s1 s2 ->
    (AddReflected key v s1).1 = (AddReflected key v s2).1 /\
    RO i (AddReflected key v s1).2 (AddReflected key v s2).2;
  pres_OpenNamespace i key s1 s2 : RO i s1 s2 -> RO i (OpenNamespace key s1) (OpenNamespace key s2);
  pres_AddArray key m1 m2 : relA m1 m2 -> relO (AddArray key m1) (AddArray key m2);
  pres_AddObject key m1 m2 : relO m1 m2 -> relO (AddObject key m1) (AddObject key m2);
  pres_AppendPrim j p s1 s2 : RA j s1 s2 -> RA j (AppendPrim p s1) (AppendPrim p s2);
  pres_AppendDuration j d s1 s2 : RA j s1 s2 -> RA j (AppendDuration d s1) (AppendDuration d s2);
  pres_AppendTime j t s1 s2 : RA j s1 s2 -> RA j (AppendTime t s1) (AppendTime t s2);
  pres_AppendReflected j v s1 s2 : RA j s1 s2 ->
    (AppendReflected v s1).1 = (AppendReflected v s2).1 /\
    RA j (AppendReflected v s1).2 (AppendReflected v s2).2;
  pres_AppendArray m1 m2 : relA m1 m2 -> relA (AppendArray m1) (AppendArray m2);
  pres_AppendObject m1 m2 : relO m1 m2 -> relA (AppendObject m1) (AppendObject m2)
}.

Lemma related_pair {S1 S2} (R : S1 -> S2 -> Prop) x y :
  x.1 = y.1 /\ R x.2 y.2 -> related R (Ret x) (Ret y).
Proof. destruct x, y. simpl. intros [-> H]. by constructor. Qed.

Lemma run_related (HP : Preserved) :
  (forall p, relO (runObj p) (runObj p)) /\ (forall op, relO (runObjOp op) (runObjOp op)) /\
  (forall p, relA (runArr p) (runArr p)) /\ (forall op, relA (runArrOp op) (runArrOp op)).
Proof.
  apply prog_ind.
  - intros e i s1 s2 H. by constructor.
  - intros v i s1 s2 H. constructor.
  - intros op IHop k IHk i s1 s2 H. simpl. eapply related_bind; [by apply IHop|].
    intros e t1 t2 Ht. by apply IHk.
  - intros key p i s1 s2 H. constructor. by apply HP.
  - intros key v i s1 s2 H. constructor. by apply HP.
  - intros key d i s1 s2 H. constructor. by apply HP.
  - intros key t i s1 s2 H. constructor. by apply HP.
  - intros key v i s1 s2 H. apply related_pair. by apply HP.
  - intros key i s1 s2 H. constructor. by apply HP.
  - intros key arr IH. by apply HP.
  - intros key obj IH. by apply HP.
  - intros e i s1 s2 H. by constructor.
  - intros v i s1 s2 H. constructor.
  - intros op IHop k IHk i s1 s2 H. simpl. eapply related_bind; [by apply IHop|].
    intros e t1 t2 Ht. by apply IHk.
  - intros p j s1 s2 H. constructor. by apply HP.
  - intros d j s1 s2 H. constructor. by apply HP.
  - intros t j s1 s2 H. constructor. by apply HP.
  - intros v j s1 s2 H. apply related_pair. by apply HP.
  - intros arr IH. by apply HP.
  - intros obj IH. by apply HP.
Qed.

Lemma runObj_related (HP : Preserved) p i s1 s2 :
  RO i s1 s2 -> related (RO i) (runObj p s1) (runObj p s2).
Proof. apply (run_related HP). Qed.

Lemma runArr_related (HP : Preserved) p j s1 s2 :
  RA j s1 s2 -> related (RA j) (runArr p s1) (runArr p s2).
Proof. apply (run_related HP). Qed.
End relation.

(** * The panics of programs *)

Section panics.

(** The values that the code may panic with. *)
Context (P : bytes -> Prop).

(** What [Error()] or [String()] may do. *)
Definition mayCall (c : call_result) : Prop :=
  match c with
  | Returns _ => True
  | PanicsNil => P (str "nil pointer dereference")
  | Panics v => P v
  end.

(** An error whose [Error()] may be called. *)
Definition okErr (e : error) : Prop :=
  match e with
  | None => True
  | Some (Err c _) => mayCall c
  end.

(** A program that panics only with such values and ends with such an error, if the calls
    it makes return such errors. *)
Fixpoint safeObj (p : ObjProg) : Prop :=
  match p with
  | ODone e => okErr e
  | OPanic v => P v
  | OCall op k => safeObjOp op /\ forall e, okErr e -> safeObj (k e)
  end
with safeObjOp (op : ObjOp) : Prop :=
  match op with
  | OArray _ arr => safeArr arr
  | OObject _ obj => safeObj obj
  | _ => True
  end
with safeArr (p : ArrProg) : Prop :=
  match p with
  | ADone e => okErr e
  | APanic v => P v
  | ACall op k => safeArrOp op /\ forall e, okErr e -> safeArr (k e)
  end
with safeArrOp (op : ArrOp) : Prop :=
  match op with
  | AArray arr => safeArr arr
  | AObject obj => safeObj obj
  | _ => True
  end.

Definition returns {S} (m : outcome (error * S)) : Prop :=
  match m with
  | Ret (e, _) => okErr e
  | Panic v => P v
  | Diverge => False
  end.
End panics.

(** No panics. *)
Definition never (v : bytes) : Prop := False.

(** An encoder that adds no panics and no panicking errors of its own. *)
Class Transparent {O A} (E : Encoders O A) : Prop := {
  transparent_AddReflected key v s : okErr never (AddReflected key v s).1;
  transparent_AddArray P key m s : (forall a, returns P (m a)) -> returns P (AddArray key m s);
  transparent_AddObject P key m s : (forall a, returns P (m a)) -> returns P (AddObject key m s);
  transparent_AppendReflected v s : okErr never (AppendReflected v s).1;
  transparent_AppendArray P m s : (forall a, returns P (m a)) -> returns P (AppendArray m s);
  transparent_AppendObject P m s : (forall a, returns P (m a)) -> returns P (AppendObject m s)
}.

Lemma okErr_never P e : okErr never e -> okErr P e.
Proof. by destruct e as [[[] ?]|]. Qed.

Lemma returns_bind P {S T} (m : outcome (error * S)) (f : error * S -> outcome (error * T)) :
  returns P m -> (forall e s, okErr P e -> returns P (f (e, s))) -> returns P (obind m f).
Proof. destruct m as [[e s]| |]; simpl; auto; done. Qed.

Lemma run_safe P {O A} (E : Encoders O A) {T : Transparent E} :
  (forall p, safeObj P p -> forall s : O, returns P (runObj p s)) /\
  (forall op, safeObjOp P op -> forall s : O, returns P (runObjOp op s)) /\
  (forall p, safeArr P p -> forall s : A, returns P (runArr p s)) /\
  (forall op, safeArrOp P op -> forall s : A, returns P (runArrOp op s)).
Proof.
  apply prog_ind; simpl; try done.
  - intros op IHop k IHk [Hop Hk] s. apply returns_bind; auto.
  - intros key v _ s. destruct (AddReflected key v s) eqn:Ex. simpl.
    pose proof (transparent_AddReflected key v s). rewrite Ex in *. by apply okErr_never.
  - intros key arr IH Hs s. apply T. auto.
  - intros key obj IH Hs s. apply T. auto.
  - intros op IHop k IHk [Hop Hk] s. apply returns_bind; auto.
  - intros v _ s. destruct (AppendReflected v s) eqn:Ex. simpl.
    pose proof (transparent_AppendReflected v s). rewrite Ex in *. by apply okErr_never.
  - intros arr IH Hs s. apply T. auto.
  - intros obj IH Hs s. apply T. auto.
Qed.

Lemma safe_oseq P p k : safeObj P p -> (forall e, okErr P e -> safeObj P (k e)) -> safeObj P (oseq p k).
Proof. induction p as [e|v|op c IH]; simpl; [auto|done|]. intros [Hop Hc] Hk. auto. Qed.

(** * An encoder that records the calls made to it *)

Inductive trace :=
| TrObjOp (op : ObjOp)
| TrArrOp (op : ArrOp)
| TrArray (key : bytes) (elems : list trace)
| TrObject (key : bytes) (members : list trace).

(** Run a marshaler on a new encoder and record what it did. *)
Definition record (wrap : list trace -> trace) (m : list trace -> outcome (error * list trace))
    (s : list trace) : outcome (error * list trace) :=
  let! (e, inner) := m [] in Ret (e, s ++ [wrap inner]).

Definition recorder : Encoders (list trace) (list trace) := {|
  AddPrim key p s := s ++ [TrObjOp (OPrim key p)];
  AddBinary key v s := s ++ [TrObjOp (OBinary key v)];
  AddDuration key d s := s ++ [TrObjOp (ODuration key d)];
  AddTime key t s := s ++ [TrObjOp (OTime key t)];
  AddReflected key v s := (None, s ++ [TrObjOp (OReflected key v)]);
  OpenNamespace key s := s ++ [TrObjOp (ONamespace key)];
  AddArray key := record (TrArray key);
  AddObject key := record (TrObject key);
  AppendPrim p s := s ++ [TrArrOp (APrim p)];
  AppendDuration d s := s ++ [TrArrOp (ADuration d)];
  AppendTime t s := s ++ [TrArrOp (ATime t)];
  AppendReflected v s := (None, s ++ [TrArrOp (AReflected v)]);
  AppendArray := record (TrArray []);
  AppendObject := record (TrObject [])
|}.

Lemma record_returns P wrap m s : (forall a, returns P (m a)) -> returns P (record wrap m s).
Proof. intros H. unfold record. apply returns_bind; auto. Qed.

Lemma recorder_transparent : Transparent recorder.
Proof. split; intros; try done; by apply record_returns. Qed.
End Encode.
