(* ===== verification/Field.v ===== *)
(** Fields: zapcore/field.go and zapcore/error.go ([AddTo] and what it calls), the
    constructors of field.go, array.go, error.go and exp/zapfield/zapfield.go, and the
    dispatch of [Any].

    [AddTo] is the program of encoder calls that it makes (Encode.v). *)

From Stdlib Require Import ZArith Lia.
From S2P Require Import Prelude GoStd Encode.
From stdpp Require Import base list.

Local Open Scope Z_scope.
Local Open Scope zap_scope.

Module Field.
Import Encode.

(** * zapcore: adding a field to an encoder *)

(** A single call whose error is returned. *)
Definition call (op : ObjOp) : ObjProg := OCall op ODone.

(** A failed type assertion; the text of the runtime error is not modelled. *)
Definition conversionError : bytes := str "interface conversion".

Definition AddString (key s : bytes) : ObjOp := OPrim key (PString s).

(** [errArray.MarshalLogArray] over the programs of its non-nil elements, with
    [None] for a nil error. *)
Fixpoint errArrayProg (elems : list (option ObjProg)) : ArrProg :=
  match elems with
  | [] => ADone None
  | None :: elems' => errArrayProg elems'
  | Some el :: elems' =>
      ACall (AObject el) (fun err =>
        match err with
        | None => errArrayProg elems'
        | Some _ => ADone err
        end)
  end.

(** [encodeError], with the recovery from a panic of [Error()], before anything is added, or of
    [Errors()], after the message is.  The elements of a
    group are marshaled by [errArrayElem.MarshalLogObject], which is [encodeError]
    under the key "error". *)
Fixpoint encodeError (key : bytes) (e : err) : ObjProg :=
  match e with
  | Err PanicsNil _ => call (AddString key (str "<nil>"))
  | Err (Panics v) _ => ODone (Some (New_error (str "PANIC=" ++ v)))
  | Err (Returns basic) impl =>
      OCall (AddString key basic) (fun _ =>
        match impl with
        | Plain => ODone None
        | Formatter verbose =>
            if decide (verbose = basic) then ODone None
            else OCall (AddString (key ++ str "Verbose") verbose) (fun _ => ODone None)
        | Group es =>
            call (OArray (key ++ str "Causes")
              (errArrayProg ((fix elems (es : list error) : list (option ObjProg) :=
                 match es with
                 | [] => []
                 | None :: es' => None :: elems es'
                 | Some e' :: es' => Some (encodeError (str "error") e') :: elems es'
                 end) es)))
        | GroupPanicsNil => call (AddString key (str "<nil>"))
        | GroupPanics v => ODone (Some (New_error (str "PANIC=" ++ v)))
        end)
  end.

(** [encodeStringer] on what [String()] does; a value that is no [fmt.Stringer] fails
    the assertion, which is recovered from too. *)
Definition encodeStringer (key : bytes) (stringer : any) : ObjProg :=
  match stringer with
  | VStringer (Returns s) => call (AddString key s)
  | VStringer PanicsNil => call (AddString key (str "<nil>"))
  | VStringer (Panics v) => ODone (Some (New_error (str "PANIC=" ++ v)))
  | VLocation name => call (AddString key name)
  | _ => ODone (Some (New_error (str "PANIC=" ++ conversionError)))
  end.

(** The switch of [AddTo]: the calls and the error they end with. *)
Definition AddTo_switch (f : Field) : ObjProg :=
  let key := Key f in
  match Type_ f with
  | ArrayMarshalerType =>
      match Interface f with VArrayMarshaler m => call (OArray key m) | _ => OPanic conversionError end
  | ObjectMarshalerType =>
      match Interface f with VObjectMarshaler m => call (OObject key m) | _ => OPanic conversionError end
  | InlineMarshalerType =>
      match Interface f with VObjectMarshaler m => m | _ => OPanic conversionError end
  | BinaryType =>
      match Interface f with VBytes s => call (OBinary key s) | _ => OPanic conversionError end
  | BoolType => call (OPrim key (PBool (Integer f =? 1)))
  | ByteStringType =>
      match Interface f with VBytes s => call (OPrim key (PByteString s)) | _ => OPanic conversionError end
  | Complex128Type =>
      match Interface f with
      | VScalar TComplex128 c => call (OPrim key (PComplex128 c))
      | _ => OPanic conversionError
      end
  | Complex64Type =>
      match Interface f with
      | VScalar TComplex64 c => call (OPrim key (PComplex64 c))
      | _ => OPanic conversionError
      end
  | DurationType => call (ODuration key (Integer f))
  | Float64Type => call (OPrim key (PFloat64 (uint64 (Integer f))))
  | Float32Type => call (OPrim key (PFloat32 (uint32 (Integer f))))
  | Int64Type => call (OPrim key (PInt KInt64 (Integer f)))
  | Int32Type => call (OPrim key (PInt KInt32 (int32 (Integer f))))
  | Int16Type => call (OPrim key (PInt KInt16 (int16 (Integer f))))
  | Int8Type => call (OPrim key (PInt KInt8 (int8 (Integer f))))
  | StringType => call (AddString key (String_ f))
  | TimeType =>
      match Interface f with
      | VNil => call (OTime key (Unix0 (Integer f)))
      | VLocation loc => call (OTime key (In_location (Unix0 (Integer f)) loc))
      | _ => OPanic conversionError
      end
  | TimeFullType =>
      match Interface f with VScalar TTime t => call (OTime key t) | _ => OPanic conversionError end
  | Uint64Type => call (OPrim key (PInt KUint64 (uint64 (Integer f))))
  | Uint32Type => call (OPrim key (PInt KUint32 (uint32 (Integer f))))
  | Uint16Type => call (OPrim key (PInt KUint16 (uint16 (Integer f))))
  | Uint8Type => call (OPrim key (PInt KUint8 (uint8 (Integer f))))
  | UintptrType => call (OPrim key (PInt KUintptr (uint64 (Integer f))))
  | ReflectType => call (OReflected key (Interface f))
  | NamespaceType => call (ONamespace key)
  | StringerType => encodeStringer key (Interface f)
  | ErrorType =>
      match Interface f with VError e => encodeError key e | _ => OPanic conversionError end
  | SkipType => ODone None
  | UnknownType => OPanic (str "unknown field type")
  end.

(** [err.Error()] as a program. *)
Definition withErrorText (e : err) (k : bytes -> ObjProg) : ObjProg :=
  match e with
  | Err (Returns text) _ => k text
  | Err PanicsNil _ => OPanic (str "nil pointer dereference")
  | Err (Panics v) _ => OPanic v
  end.

Definition AddTo (f : Field) : ObjProg :=
  oseq (AddTo_switch f) (fun err =>
    match err with
    | None => ODone None
    | Some e => withErrorText e (fun text =>
        OCall (AddString (Key f ++ str "Error") text) (fun _ => ODone None))
    end).

Fixpoint addFields (fields : list Field) : ObjProg :=
  match fields with
  | [] => ODone None
  | f :: fields' => oseq (AddTo f) (fun _ => addFields fields')
  end.

(** [Equals], with [reflect.DeepEqual] and the comparison [==] of structs as the
    language's own operations.  A comparison with [==] panics when both [Interface]
    members have the same type and values of it, slices for example, have no [==]. *)
Section equals.
Context (DeepEqual : any -> any -> bool) (structEqual : Field -> Field -> outcome bool).

Definition Equals (f other : Field) : outcome bool :=
  if negb (bool_decide (Type_ f = Type_ other)) then Ret false
  else if negb (bool_decide (Key f = Key other)) then Ret false
  else
    match Type_ f with
    | BinaryType | ByteStringType =>
        match Interface f, Interface other with
        | VBytes a, VBytes b => Ret (bool_decide (a = b))
        | _, _ => Panic conversionError
        end
    | ArrayMarshalerType | ObjectMarshalerType | ErrorType | ReflectType =>
        Ret (DeepEqual (Interface f) (Interface other))
    | _ => structEqual f other
    end.
End equals.

(** * field.go *)

Definition _minTimeInt64 : Time := Unix0 (- 2 ^ 63).
Definition _maxTimeInt64 : Time := Unix0 (2 ^ 63 - 1).

Definition Skip : Field := mkField [] SkipType 0 [] VNil.
Definition Reflect (key : bytes) (val : any) : Field := mkField key ReflectType 0 [] val.
Definition nilField (key : bytes) : Field := Reflect key VNil.
Definition Binary (key val : bytes) : Field := mkField key BinaryType 0 [] (VBytes val).
Definition Bool (key : bytes) (val : bool) : Field :=
  let ival := if val then 1 else 0 in mkField key BoolType ival [] VNil.
Definition ByteString (key val : bytes) : Field := mkField key ByteStringType 0 [] (VBytes val).
Definition Complex128 (key : bytes) (val : Z * Z) : Field :=
  mkField key Complex128Type 0 [] (VScalar TComplex128 val).
Definition Complex64 (key : bytes) (val : Z * Z) : Field :=
  mkField key Complex64Type 0 [] (VScalar TComplex64 val).
Definition Float64 (key : bytes) (val : Z) : Field := mkField key Float64Type (int64 val) [] VNil.
Definition Float32 (key : bytes) (val : Z) : Field := mkField key Float32Type (int64 val) [] VNil.
Definition Int64 (key : bytes) (val : Z) : Field := mkField key Int64Type val [] VNil.
Definition Int (key : bytes) (val : Z) : Field := Int64 key (int64 val).
Definition Int32 (key : bytes) (val : Z) : Field := mkField key Int32Type (int64 val) [] VNil.
Definition Int16 (key : bytes) (val : Z) : Field := mkField key Int16Type (int64 val) [] VNil.
Definition Int8 (key : bytes) (val : Z) : Field := mkField key Int8Type (int64 val) [] VNil.
Definition String (key val : bytes) : Field := mkField key StringType 0 val VNil.
Definition Uint64 (key : bytes) (val : Z) : Field := mkField key Uint64Type (int64 val) [] VNil.
Definition Uint (key : bytes) (val : Z) : Field := Uint64 key (uint64 val).
Definition Uint32 (key : bytes) (val : Z) : Field := mkField key Uint32Type (int64 val) [] VNil.
Definition Uint16 (key : bytes) (val : Z) : Field := mkField key Uint16Type (int64 val) [] VNil.
Definition Uint8 (key : bytes) (val : Z) : Field := mkField key Uint8Type (int64 val) [] VNil.
Definition Uintptr (key : bytes) (val : Z) : Field := mkField key UintptrType (int64 val) [] VNil.
Definition Namespace (key : bytes) : Field := mkField key NamespaceType 0 [] VNil.
Definition Stringer (key : bytes) (val : any) : Field := mkField key StringerType 0 [] val.
Definition Duration (key : bytes) (val : Z) : Field := mkField key DurationType (int64 val) [] VNil.

Definition Time (key : bytes) (val : GoStd.Time) : Field :=
  if Before val _minTimeInt64 || After val _maxTimeInt64 then
    mkField key TimeFullType 0 [] (VScalar TTime val)
  else mkField key TimeType (UnixNano val) [] (VLocation (location val)).

(** The constructors of pointers: nil is logged explicitly. *)
Definition pointer {A} (c : bytes -> A -> Field) (key : bytes) (val : option A) : Field :=
  match val with
  | None => nilField key
  | Some v => c key v
  end.

Definition Boolp (key : bytes) (val : option bool) : Field := pointer Bool key val.
Definition Complex128p (key : bytes) (val : option (Z * Z)) : Field := pointer Complex128 key val.
Definition Complex64p (key : bytes) (val : option (Z * Z)) : Field := pointer Complex64 key val.
Definition Float64p (key : bytes) (val : option Z) : Field := pointer Float64 key val.
Definition Float32p (key : bytes) (val : option Z) : Field := pointer Float32 key val.
Definition Intp (key : bytes) (val : option Z) : Field := pointer Int key val.
Definition Int64p (key : bytes) (val : option Z) : Field := pointer Int64 key val.
Definition Int32p (key : bytes) (val : option Z) : Field := pointer Int32 key val.
Definition Int16p (key : bytes) (val : option Z) : Field := pointer Int16 key val.
Definition Int8p (key : bytes) (val : option Z) : Field := pointer Int8 key val.
Definition Stringp (key : bytes) (val : option bytes) : Field := pointer String key val.
Definition Uintp (key : bytes) (val : option Z) : Field := pointer Uint key val.
Definition Uint64p (key : bytes) (val : option Z) : Field := pointer Uint64 key val.
Definition Uint32p (key : bytes) (val : option Z) : Field := pointer Uint32 key val.
Definition Uint16p (key : bytes) (val : option Z) : Field := pointer Uint16 key val.
Definition Uint8p (key : bytes) (val : option Z) : Field := pointer Uint8 key val.
Definition Uintptrp (key : bytes) (val : option Z) : Field := pointer Uintptr key val.
Definition Timep (key : bytes) (val : option GoStd.Time) : Field := pointer Time key val.
Definition Durationp (key : bytes) (val : option Z) : Field := pointer Duration key val.

(** A nil [ObjectMarshaler] is [None]. *)
Definition Object (key : bytes) (val : option ObjProg) : Field :=
  match val with
  | None => nilField key
  | Some m => mkField key ObjectMarshalerType 0 [] (VObjectMarshaler m)
  end.

Definition Inline (val : option ObjProg) : Field :=
  mkField [] InlineMarshalerType 0 [] (match val with Some m => VObjectMarshaler m | None => VNil end).

(** [dictObject.MarshalLogObject]. *)
Fixpoint dictObject (d : list Field) : ObjProg :=
  match d with
  | [] => ODone None
  | f :: d' => oseq (AddTo f) (fun _ => dictObject d')
  end.

Definition DictObject (val : list Field) : ObjProg := dictObject val.

Definition dictField (key : bytes) (val : list Field) : Field := Object key (Some (dictObject val)).

Definition Dict (key : bytes) (val : list Field) : Field := dictField key val.

(** [stacktrace.Take] is the runtime's. *)
Definition StackSkip (Take : Z -> bytes) (key : bytes) (skip : Z) : Field :=
  String key (Take (skip + 1)).

Definition Stack (Take : Z -> bytes) (key : bytes) : Field := StackSkip Take key 1.

(** * error.go *)

Definition NamedError (key : bytes) (e : error) : Field :=
  match e with
  | None => Skip
  | Some e => mkField key ErrorType 0 [] (VError e)
  end.

Definition Error (e : error) : Field := NamedError (str "error") e.

(** The package's own [errArrayElem], which goes through a field. *)
Definition errArrayElem (e : err) : ObjProg := oseq (AddTo (Error (Some e))) (fun _ => ODone None).

Definition errArray (errs : list error) : ArrProg :=
  errArrayProg (map (option_map errArrayElem) errs).

(** * array.go *)

Definition Array (key : bytes) (val : ArrProg) : Field :=
  mkField key ArrayMarshalerType 0 [] (VArrayMarshaler val).

(** The loop of the slice types: append each element. *)
Fixpoint appendEach (ops : list ArrOp) : ArrProg :=
  match ops with
  | [] => ADone None
  | op :: ops' => ACall op (fun _ => appendEach ops')
  end.

Definition bools (bs : list bool) : ArrProg := appendEach (map (fun b => APrim (PBool b)) bs).
Definition byteStringsArray (bss : list bytes) : ArrProg :=
  appendEach (map (fun s => APrim (PByteString s)) bss).
Definition complex128s (nums : list (Z * Z)) : ArrProg :=
  appendEach (map (fun c => APrim (PComplex128 c)) nums).
Definition complex64s (nums : list (Z * Z)) : ArrProg :=
  appendEach (map (fun c => APrim (PComplex64 c)) nums).
Definition durations (ds : list Z) : ArrProg := appendEach (map ADuration ds).
Definition float64s (nums : list Z) : ArrProg := appendEach (map (fun f => APrim (PFloat64 f)) nums).
Definition float32s (nums : list Z) : ArrProg := appendEach (map (fun f => APrim (PFloat32 f)) nums).
Definition ints (nums : list Z) : ArrProg := appendEach (map (fun z => APrim (PInt KInt z)) nums).
Definition int64s (nums : list Z) : ArrProg := appendEach (map (fun z => APrim (PInt KInt64 z)) nums).
Definition int32s (nums : list Z) : ArrProg := appendEach (map (fun z => APrim (PInt KInt32 z)) nums).
Definition int16s (nums : list Z) : ArrProg := appendEach (map (fun z => APrim (PInt KInt16 z)) nums).
Definition int8s (nums : list Z) : ArrProg := appendEach (map (fun z => APrim (PInt KInt8 z)) nums).
Definition stringArray (ss : list bytes) : ArrProg := appendEach (map (fun s => APrim (PString s)) ss).
Definition times (ts : list GoStd.Time) : ArrProg := appendEach (map ATime ts).
Definition uints (nums : list Z) : ArrProg := appendEach (map (fun z => APrim (PInt KUint z)) nums).
Definition uint64s (nums : list Z) : ArrProg := appendEach (map (fun z => APrim (PInt KUint64 z)) nums).
Definition uint32s (nums : list Z) : ArrProg := appendEach (map (fun z => APrim (PInt KUint32 z)) nums).
Definition uint16s (nums : list Z) : ArrProg := appendEach (map (fun z => APrim (PInt KUint16 z)) nums).
Definition uint8s (nums : list Z) : ArrProg := appendEach (map (fun z => APrim (PInt KUint8 z)) nums).
Definition uintptrs (nums : list Z) : ArrProg := appendEach (map (fun z => APrim (PInt KUintptr z)) nums).

Definition Bools (key : bytes) (bs : list bool) : Field := Array key (bools bs).
Definition ByteStrings (key : bytes) (bss : list bytes) : Field := Array key (byteStringsArray bss).
Definition Complex128s (key : bytes) (nums : list (Z * Z)) : Field := Array key (complex128s nums).
Definition Complex64s (key : bytes) (nums : list (Z * Z)) : Field := Array key (complex64s nums).
Definition Durations (key : bytes) (ds : list Z) : Field := Array key (durations ds).
Definition Float64s (key : bytes) (nums : list Z) : Field := Array key (float64s nums).
Definition Float32s (key : bytes) (nums : list Z) : Field := Array key (float32s nums).
Definition Ints (key : bytes) (nums : list Z) : Field := Array key (ints nums).
Definition Int64s (key : bytes) (nums : list Z) : Field := Array key (int64s nums).
Definition Int32s (key : bytes) (nums : list Z) : Field := Array key (int32s nums).
Definition Int16s (key : bytes) (nums : list Z) : Field := Array key (int16s nums).
Definition Int8s (key : bytes) (nums : list Z) : Field := Array key (int8s nums).
Definition Strings (key : bytes) (ss : list bytes) : Field := Array key (stringArray ss).
Definition Times (key : bytes) (ts : list GoStd.Time) : Field := Array key (times ts).
Definition Uints (key : bytes) (nums : list Z) : Field := Array key (uints nums).
Definition Uint64s (key : bytes) (nums : list Z) : Field := Array key (uint64s nums).
Definition Uint32s (key : bytes) (nums : list Z) : Field := Array key (uint32s nums).
Definition Uint16s (key : bytes) (nums : list Z) : Field := Array key (uint16s nums).
Definition Uint8s (key : bytes) (nums : list Z) : Field := Array key (uint8s nums).
Definition Uintptrs (key : bytes) (nums : list Z) : Field := Array key (uintptrs nums).
Definition Errors (key : bytes) (errs : list error) : Field := Array key (errArray errs).

(** [objects.MarshalLogArray]: stops at the first error. *)
Fixpoint objects (os : list ObjProg) : ArrProg :=
  match os with
  | [] => ADone None
  | o :: os' =>
      ACall (AObject o) (fun err => match err with Some _ => ADone err | None => objects os' end)
  end.

Definition Objects (key : bytes) (values : list ObjProg) : Field := Array key (objects values).

(** [objectValues.MarshalLogArray], over the marshalers of the pointers to the
    elements. *)
Fixpoint objectValues (os : list ObjProg) : ArrProg :=
  match os with
  | [] => ADone None
  | p :: os' =>
      ACall (AObject p) (fun err => match err with Some _ => ADone err | None => objectValues os' end)
  end.

Definition ObjectValues (key : bytes) (values : list ObjProg) : Field := Array key (objectValues values).

(** [stringers.MarshalLogArray]: a panic of [String()] is not recovered from. *)
Fixpoint stringers (os : list call_result) : ArrProg :=
  match os with
  | [] => ADone None
  | Returns s :: os' => ACall (APrim (PString s)) (fun _ => stringers os')
  | PanicsNil :: _ => APanic (str "nil pointer dereference")
  | Panics v :: _ => APanic v
  end.

Definition Stringers (key : bytes) (values : list call_result) : Field := Array key (stringers values).

(** * exp/zapfield *)

Definition Str (k v : bytes) : Field := String k v.
Definition zapfield_stringArray (a : list bytes) : ArrProg :=
  appendEach (map (fun s => APrim (PString s)) a).
Definition Strs (k : bytes) (v : list bytes) : Field := Array k (zapfield_stringArray v).

(** * Any *)

Definition intField (k : ikind) : bytes -> Z -> Field :=
  match k with
  | KInt => Int | KInt64 => Int64 | KInt32 => Int32 | KInt16 => Int16 | KInt8 => Int8
  | KUint => Uint | KUint64 => Uint64 | KUint32 => Uint32 | KUint16 => Uint16 | KUint8 => Uint8
  | KUintptr => Uintptr
  end.

Definition intpField (k : ikind) : bytes -> option Z -> Field :=
  match k with
  | KInt => Intp | KInt64 => Int64p | KInt32 => Int32p | KInt16 => Int16p | KInt8 => Int8p
  | KUint => Uintp | KUint64 => Uint64p | KUint32 => Uint32p | KUint16 => Uint16p | KUint8 => Uint8p
  | KUintptr => Uintptrp
  end.

(** A [[]uint8] is a [[]byte], which is not a slice of numbers to [Any]; its values
    are [VBytes]. *)
Definition intsField (k : ikind) : bytes -> list Z -> Field :=
  match k with
  | KInt => Ints | KInt64 => Int64s | KInt32 => Int32s | KInt16 => Int16s | KInt8 => Int8s
  | KUint => Uints | KUint64 => Uint64s | KUint32 => Uint32s | KUint16 => Uint16s | KUint8 => Uint8s
  | KUintptr => Uintptrs
  end.

Definition Any (key : bytes) (value : any) : Field :=
  match value with
  | VObjectMarshaler m => Object key (Some m)
  | VArrayMarshaler m => Array key m
  | VFields fs => dictField key fs
  | VScalar TBool v => Bool key v
  | VPtr TBool v => Boolp key v
  | VSlice TBool v => Bools key v
  | VScalar TComplex128 v => Complex128 key v
  | VPtr TComplex128 v => Complex128p key v
  | VSlice TComplex128 v => Complex128s key v
  | VScalar TComplex64 v => Complex64 key v
  | VPtr TComplex64 v => Complex64p key v
  | VSlice TComplex64 v => Complex64s key v
  | VScalar TFloat64 v => Float64 key v
  | VPtr TFloat64 v => Float64p key v
  | VSlice TFloat64 v => Float64s key v
  | VScalar TFloat32 v => Float32 key v
  | VPtr TFloat32 v => Float32p key v
  | VSlice TFloat32 v => Float32s key v
  | VScalar (TInt k) v => intField k key v
  | VPtr (TInt k) v => intpField k key v
  | VSlice (TInt k) v => intsField k key v
  | VScalar TString v => String key v
  | VPtr TString v => Stringp key v
  | VSlice TString v => Strings key v
  | VBytes v => Binary key v
  | VScalar TTime v => Time key v
  | VPtr TTime v => Timep key v
  | VSlice TTime v => Times key v
  | VScalar TDuration v => Duration key v
  | VPtr TDuration v => Durationp key v
  | VSlice TDuration v => Durations key v
  | VError e => NamedError key (Some e)
  | VErrors es => Errors key es
  | VStringer _ | VLocation _ => Stringer key value
  | VNil | VField _ | VOther _ => Reflect key value
  end.

(** * Lemmas *)

(** The values of a scalar type, as Go has them. *)
Definition wellTyped (t : scalar) : denote t -> Prop :=
  match t with
  | TFloat64 => fun f => inU 64 f
  | TFloat32 => fun f => inU 32 f
  | TInt k => fun z => inKind k z
  | TDuration => fun d => inS 64 d
  | _ => fun _ => True
  end.

(** [Int] and [Uint] are stored as 64-bit integers. *)
Definition storedKind (k : ikind) : ikind :=
  match k with
  | KInt => KInt64
  | KUint => KUint64
  | _ => k
  end.

(** The typed call that a scalar is meant to make. *)
Definition scalarOp (key : bytes) (t : scalar) : denote t -> ObjOp :=
  match t with
  | TBool => fun v => OPrim key (PBool v)
  | TComplex128 => fun v => OPrim key (PComplex128 v)
  | TComplex64 => fun v => OPrim key (PComplex64 v)
  | TFloat64 => fun v => OPrim key (PFloat64 v)
  | TFloat32 => fun v => OPrim key (PFloat32 v)
  | TInt k => fun v => OPrim key (PInt (storedKind k) v)
  | TString => fun v => OPrim key (PString v)
  | TTime => fun v => OTime key v
  | TDuration => fun v => ODuration key v
  end.

Definition elemOp (t : scalar) : denote t -> ArrOp :=
  match t with
  | TBool => fun v => APrim (PBool v)
  | TComplex128 => fun v => APrim (PComplex128 v)
  | TComplex64 => fun v => APrim (PComplex64 v)
  | TFloat64 => fun v => APrim (PFloat64 v)
  | TFloat32 => fun v => APrim (PFloat32 v)
  | TInt k => fun v => APrim (PInt k v)
  | TString => fun v => APrim (PString v)
  | TTime => fun v => ATime v
  | TDuration => fun v => ADuration v
  end.

Lemma int64_signed z w : inS w z -> 0 < w <= 64 -> int64 z = z.
Proof.
  intros H Hw. apply wrapS_id; [lia|]. unfold inS in *.
  assert (2 ^ (w - 1) <= 2 ^ (64 - 1)) by (apply Z.pow_le_mono_r; lia). lia.
Qed.

Lemma int64_unsigned z w : inU w z -> 0 < w < 64 -> int64 z = z.
Proof.
  intros H Hw. apply wrapS_id; [lia|]. unfold inS, inU in *.
  assert (2 ^ w <= 2 ^ (64 - 1)) by (apply Z.pow_le_mono_r; lia). lia.
Qed.

(** Going through the [int64] member of the union loses nothing of an integer. *)
Lemma AddTo_int key k z :
  inKind k z -> AddTo_switch (intField k key z) = call (OPrim key (PInt (storedKind k) z)).
Proof.
  unfold inKind. intros H.
  destruct k; simpl in H; unfold AddTo_switch; simpl; unfold int32, int16, int8, uint64, uint32, uint16, uint8;
    repeat f_equal.
  - by apply (int64_signed z 64).
  - rewrite (int64_signed z 32) by (done || lia). by apply wrapS_id.
  - rewrite (int64_signed z 16) by (done || lia). by apply wrapS_id.
  - rewrite (int64_signed z 8) by (done || lia). by apply wrapS_id.
  - rewrite (wrapU_id 64 z) by done. by apply wrapU_wrapS.
  - by apply wrapU_wrapS.
  - rewrite (int64_unsigned z 32) by (done || lia). by apply wrapU_id.
  - rewrite (int64_unsigned z 16) by (done || lia). by apply wrapU_id.
  - rewrite (int64_unsigned z 8) by (done || lia). by apply wrapU_id.
  - by apply wrapU_wrapS.
Qed.

Lemma AddTo_time key t : AddTo_switch (Time key t) = call (OTime key t).
Proof.
  unfold Time, Before, After. destruct t as [n loc]. simpl.
  destruct (Z.ltb_spec n (- 2 ^ 63)); [done|]. destruct (Z.ltb_spec (2 ^ 63 - 1) n); [done|].
  unfold AddTo_switch, In_location, Unix0, UnixNano. simpl. do 3 f_equal.
  apply wrapS_id; [lia|]. unfold inS. simpl in *. lia.
Qed.

Lemma AddTo_scalar key t v :
  wellTyped t v -> AddTo_switch (Any key (VScalar t v)) = call (scalarOp key t v).
Proof.
  destruct t as [| | | | |k| | |]; simpl; intros H; try done.
  - by destruct v.
  - unfold AddTo_switch. simpl. do 3 f_equal. by apply wrapU_wrapS.
  - unfold AddTo_switch. simpl. do 3 f_equal. unfold uint32.
    rewrite (int64_unsigned v 32) by (done || lia). by apply wrapU_id.
  - by apply AddTo_int.
  - apply AddTo_time.
  - unfold AddTo_switch. simpl. do 2 f_equal. by apply wrapS_id.
Qed.

(** Running the appends of a slice: the elements in order, and no error. *)
Lemma runArr_appendEach {O A} {E : Encoders O A} {B} (f : B -> ArrOp) (g : B -> A -> A) vs (s : A) :
  (forall v s, runArrOp (f v) s = Ret (None, g v s)) ->
  runArr (appendEach (map f vs)) s = Ret (None, foldl (fun s v => g v s) s vs).
Proof.
  intros Hg. revert s. induction vs as [|v vs IH]; intros s; [done|]. simpl. rewrite Hg. simpl. apply IH.
Qed.

(** What one element of a slice appends. *)
Definition elemEffect {O A} {E : Encoders O A} (t : scalar) (v : denote t) (s : A) : A :=
  match elemOp t v with
  | APrim p => AppendPrim p s
  | ADuration d => AppendDuration d s
  | ATime t => AppendTime t s
  | _ => s
  end.

Lemma elemOp_effect {O A} {E : Encoders O A} t v (s : A) :
  runArrOp (elemOp t v) s = Ret (None, elemEffect t v s).
Proof. by destruct t. Qed.

Lemma Any_slice key t vs :
  t <> TInt KUint8 -> Any key (VSlice t vs) = Array key (appendEach (map (elemOp t) vs)).
Proof. destruct t as [| | | | |[]| | |]; done. Qed.

Lemma encodeError_safe P : forall e key, safeObj P (encodeError key e).
Proof.
  fix IH 1. intros [[basic| |v] impl] key; [|by split|done].
  simpl. split; [done|]. intros _ _. destruct impl as [|verbose|es| |v]; [done| | |done|done].
  - by case_decide.
  - simpl. split; [|done].
    induction es as [|[e|] es IHes]; simpl; [done| |done].
    split; [apply IH|]. intros [e'|] He; done.
Qed.

(** Adding more fields is adding the first ones and then the rest. *)
Lemma run_addFields_app {O A} {E : Encoders O A} fs fs' (enc : O) :
  runObj (addFields (fs ++ fs')) enc =
  let! (_, enc) := runObj (addFields fs) enc in runObj (addFields fs') enc.
Proof.
  revert enc. induction fs as [|f fs IH]; intros enc; [done|]. simpl. rewrite !runObj_oseq.
  destruct (runObj (AddTo f) enc) as [[e enc']| |]; [apply IH|done..].
Qed.

Lemma AddTo_safe P f : safeObj P (AddTo_switch f) -> safeObj P (AddTo f).
Proof.
  intros H. apply safe_oseq; [done|]. by intros [[[text| |v] impl]|] He.
Qed.

Lemma errArray_safe P es : safeArr P (errArray es).
Proof.
  unfold errArray. induction es as [|[e|] es IH]; simpl; [done| |done].
  split; [|by intros [e'|]]. apply safe_oseq; [|done]. apply AddTo_safe, encodeError_safe.
Qed.

(** * Theorems *)

Section theorems.
Context {O A : Type} {E : Encoders O A}.

(** C16: for each of the 19 scalar types, logging a value through [Any] makes the one
    typed call with that very value: the integer, float bits, time and duration come
    back unchanged out of the [int64] member that carries them, at every width, and
    times outside its range too. *)
Theorem any_scalar_roundtrip key t v enc (Hv : wellTyped t v) :
  runObj (AddTo (Any key (VScalar t v))) enc = runObjOp (scalarOp key t v) enc /\
  Any key (VPtr t (Some v)) = Any key (VScalar t v) /\ Any key (VPtr t None) = nilField key.
Proof.
  split; [|by destruct t as [| | | | |[]| | |]].
  unfold AddTo. rewrite (AddTo_scalar key t v Hv), runObj_oseq. simpl.
  by destruct t as [| | | | |[]| | |].
Qed.

(** A slice is logged as an array of exactly its elements, in order, each by the
    typed append of its type, and adding it reports no error of its own. *)
Theorem any_slice_in_order key t vs enc (Ht : t <> TInt KUint8) :
  runObj (AddTo (Any key (VSlice t vs))) enc =
  runObj (AddTo (Array key (appendEach (map (elemOp t) vs)))) enc /\
  forall s : A, runArr (appendEach (map (elemOp t) vs)) s =
    Ret (None, foldl (fun s v => elemEffect t v s) s vs).
Proof.
  rewrite Any_slice by done. split; [done|].
  intros s. apply runArr_appendEach. intros. apply elemOp_effect.
Qed.

(** Logging an error, a group of errors, a slice of errors or a [Stringer] never
    panics, even when their [Error] or [String] methods do, at any depth of the
    group: on every encoder that does not panic by itself, the field is added. *)
Theorem error_fields_never_panic key v enc {T : Transparent E}
    (Hv : match v with VError _ | VErrors _ | VStringer _ => True | _ => False end) :
  exists e enc', runObj (AddTo (Any key v)) enc = Ret (e, enc').
Proof.
  assert (safeObj never (AddTo (Any key v))) as Hs.
  { apply AddTo_safe. destruct v; try done; simpl.
    - apply encodeError_safe.
    - split; [apply errArray_safe|done].
    - match goal with r : call_result |- _ => by destruct r end. }
  pose proof (proj1 (run_safe never E) _ Hs enc) as Hr.
  destruct (runObj _ enc) as [[e enc']| |]; [eauto|done..].
Qed.
End theorems.

(** * Witnesses *)

#[local] Existing Instances recorder recorder_transparent.

Lemma any_scalar_roundtrip_witness :
  runObj (AddTo (Any (str "k") (VScalar (TInt KUint64) 18446744073709551615))) [] =
  Ret (None, [TrObjOp (OPrim (str "k") (PInt KUint64 18446744073709551615))]).
Proof.
  assert (wellTyped (TInt KUint64) 18446744073709551615) as Hv.
  { vm_compute. split; [discriminate|reflexivity]. }
  rewrite (proj1 (any_scalar_roundtrip (str "k") (TInt KUint64) 18446744073709551615 [] Hv)). reflexivity.
Defined.

Lemma any_slice_in_order_witness :
  runObj (AddTo (Any (str "k") (VSlice TBool [true; false]))) [] =
  Ret (None, [TrArray (str "k") [TrArrOp (APrim (PBool true)); TrArrOp (APrim (PBool false))]]).
Proof.
  rewrite (proj1 (any_slice_in_order (str "k") TBool [true; false] [] ltac:(discriminate))). reflexivity.
Defined.

(** A group whose second error is a nil pointer, whose third is a group that panics when
    it is taken apart, and whose last panics at once. *)
Definition badGroup : err :=
  Err (Returns (str "many"))
    (Group [None; Some (Err PanicsNil Plain); Some (Err (Returns (str "late")) GroupPanicsNil);
            Some (Err (Panics (str "boom")) Plain)]).

Lemma error_fields_never_panic_witness :
  exists e enc', runObj (AddTo (Any (str "k") (VError badGroup))) [] = Ret (e, enc') /\
    enc' = [TrObjOp (AddString (str "k") (str "many"));
            TrArray (str "kCauses") [TrObject [] [TrObjOp (AddString (str "error") (str "<nil>"))];
                                     TrObject [] [TrObjOp (AddString (str "error") (str "late"));
                                                  TrObjOp (AddString (str "error") (str "<nil>"))];
                                     TrObject [] []];
            TrObjOp (AddString (str "kError") (str "PANIC=boom"))].
Proof.
  destruct (error_fields_never_panic (str "k") (VError badGroup) [] I) as (e & enc' & H).
  exists e, enc'. split; [exact H|]. vm_compute in H. injection H as _ <-. reflexivity.
Defined.
End Field.
