(* ===== verification/FieldTyping.v ===== *)
(** Typing of fields: the tag of a [Field] says what its [Interface] member holds, and
    [AddTo] and [Equals] of zapcore/field.go rely on that with unchecked type
    assertions.  Every constructor of field.go, array.go, error.go and exp/zapfield
    respects the tag, so that no field that is made by them makes an assertion fail. *)

From Stdlib Require Import ZArith Lia.
From S2P Require Import Prelude GoStd Encode Field.
From stdpp Require Import base list.

Local Open Scope Z_scope.
Local Open Scope zap_scope.

Module FieldTyping.
Import Encode Field.

(** * The typing relation *)

(** What the [Interface] of a field with the tag can hold.  [Reflect] takes values of any
    type, and nothing is asserted of them.  A value whose type has a [String] method is
    [VStringer], with what that does, when it is passed as a [fmt.Stringer]; time zones
    have one too. *)
Definition holds (t : FieldType) (v : any) : Prop :=
  match t with
  | ArrayMarshalerType => exists m, v = VArrayMarshaler m
  | ObjectMarshalerType | InlineMarshalerType => exists m, v = VObjectMarshaler m
  | BinaryType | ByteStringType => exists s, v = VBytes s
  | Complex128Type => exists c, v = VScalar TComplex128 c
  | Complex64Type => exists c, v = VScalar TComplex64 c
  | TimeType => exists loc, v = VLocation loc
  | TimeFullType => exists t, v = VScalar TTime t
  | ErrorType => exists e, v = VError e
  | StringerType => v = VNil \/ (exists r, v = VStringer r) \/ exists loc, v = VLocation loc
  | ReflectType => True
  | UnknownType => False
  | _ => v = VNil
  end.

Definition typed (f : Field) : Prop := holds (Type_ f) (Interface f).

Section typing.

(** The values that the program's own marshalers and [String] methods may panic with. *)
Context (P : bytes -> Prop).

(** The marshalers that a value brings along panic only with these. *)
Definition quiet (v : any) : Prop :=
  match v with
  | VObjectMarshaler m => safeObj P m
  | VArrayMarshaler m => safeArr P m
  | _ => True
  end.

(** * The constructors *)

(** The fields that the constructors make.  Those of the scalar types, their pointers and
    slices are [Any] at the type ([any_is_constructor]).  A [Stringer] or an error may
    panic; [Stringers] and [Inline(nil)] do not recover from that, so the panic must be
    one of [P]. *)
Inductive built : Field -> Prop :=
| built_any key v : (forall fs, v <> VFields fs) -> quiet v -> built (Any key v)
| built_fields key fs : Forall built fs -> built (Any key (VFields fs))
| built_dict key fs : Forall built fs -> built (Dict key fs)
| built_skip : built Skip
| built_byteString key s : built (ByteString key s)
| built_byteStrings key ss : built (ByteStrings key ss)
| built_uint8s key zs : built (Uint8s key zs)
| built_reflect key v : built (Reflect key v)
| built_namespace key : built (Namespace key)
| built_stringer key v : holds StringerType v -> built (Stringer key v)
| built_object key m : default True (safeObj P <$> m) -> built (Object key m)
| built_inline m : match m with Some m => safeObj P m | None => P conversionError end -> built (Inline m)
| built_namedError key e : built (NamedError key e)
| built_objects key ms : Forall (safeObj P) ms -> built (Objects key ms)
| built_objectValues key ms : Forall (safeObj P) ms -> built (ObjectValues key ms)
| built_stringers key ss : Forall (mayCall P) ss -> built (Stringers key ss)
| built_strs key ss : built (Strs key ss)
| built_stack take key skip : built (StackSkip take key skip).

(** The constructors of the scalar types are [Any] at that type. *)
Lemma any_is_constructor key :
  (forall v, Bool key v = Any key (VScalar TBool v)) /\ (forall v, Boolp key v = Any key (VPtr TBool v)) /\
  (forall v, Float64 key v = Any key (VScalar TFloat64 v)) /\ (forall v, Time key v = Any key (VScalar TTime v)) /\
  (forall k v, intField k key v = Any key (VScalar (TInt k) v)) /\
  (forall k v, intpField k key v = Any key (VPtr (TInt k) v)) /\
  (forall k vs, intsField k key vs = Any key (VSlice (TInt k) vs)) /\
  (forall v, String key v = Any key (VScalar TString v)) /\ (forall vs, Strings key vs = Any key (VSlice TString vs)) /\
  (forall s, Binary key s = Any key (VBytes s)) /\ (forall m, Array key m = Any key (VArrayMarshaler m)) /\
  (forall es, Errors key es = Any key (VErrors es)) /\ (forall d, Duration key d = Any key (VScalar TDuration d)).
Proof. done. Qed.

(** * Every constructor respects the tag *)

Lemma typed_Time key t : typed (Time key t).
Proof. unfold Time. destruct (_ || _); by eexists. Qed.

Lemma typed_Any key v : typed (Any key v).
Proof.
  unfold typed. destruct v as [|t v|t v|t vs| | | | | | | | | |]; try (by eexists); try (by simpl; eauto).
  - destruct t as [| | | | |[]| | |]; try by eexists. apply typed_Time.
  - destruct t as [| | | | |[]| | |], v; try by eexists. apply typed_Time.
  - destruct t as [| | | | |[]| | |]; by eexists.
Qed.

Lemma built_typed f : built f -> f <> Inline None -> typed f.
Proof.
  destruct 1 as [| | | | | | | | |key v H|key [m|] H|[m|] H|key [e|]| | | | |]; try (intros _; apply typed_Any);
    unfold typed; simpl; eauto; done.
Qed.

(** * Nothing that is built panics *)

Lemma appendEach_safe ops : Forall (safeArrOp P) ops -> safeArr P (appendEach ops).
Proof. induction 1; simpl; auto. Qed.

(** The elements of a slice are primitive appends. *)
Definition primitive (op : ArrOp) : bool :=
  match op with APrim _ | ADuration _ | ATime _ => true | _ => false end.

Lemma primitives_safe {A} (f : A -> ArrOp) vs :
  (forall v, primitive (f v) = true) -> safeArr P (appendEach (map f vs)).
Proof.
  intros H. apply appendEach_safe, Forall_map, Forall_true. intros v. specialize (H v). simpl. by destruct (f v).
Qed.

Lemma objects_safe ms : Forall (safeObj P) ms -> safeArr P (objects ms).
Proof. induction 1; simpl; [done|]. split; [done|]. by intros [e|] He. Qed.

Lemma objectValues_safe ms : Forall (safeObj P) ms -> safeArr P (objectValues ms).
Proof. induction 1; simpl; [done|]. split; [done|]. by intros [e|] He. Qed.

Lemma stringers_safe ss : Forall (mayCall P) ss -> safeArr P (stringers ss).
Proof. induction 1 as [|[]]; simpl; auto. Qed.

Lemma encodeStringer_safe key v : safeObj P (encodeStringer key v).
Proof. by destruct v as [| | | | | | | | | | | |[]|]; repeat split. Qed.

Lemma Array_safe key m : safeArr P m -> safeObj P (AddTo (Array key m)).
Proof. intros H. apply AddTo_safe. by split. Qed.

Lemma dictObject_safe fs : Forall (fun f => safeObj P (AddTo f)) fs -> safeObj P (dictObject fs).
Proof. induction 1; simpl; [done|]. by apply safe_oseq. Qed.

Lemma Time_safe key t : safeObj P (AddTo (Time key t)).
Proof. apply AddTo_safe. rewrite AddTo_time. by split. Qed.

Lemma Any_safe key v : (forall fs, v <> VFields fs) -> quiet v -> safeObj P (AddTo (Any key v)).
Proof.
  intros Hf Hq.
  destruct v as [|t v|t v|t vs| | |fs| | | | | | |]; try (by apply AddTo_safe; repeat split);
    try (by destruct (Hf fs)).
  - destruct t as [| | | | |[]| | |]; try (by apply AddTo_safe; repeat split). apply Time_safe.
  - destruct t as [| | | | |[]| | |], v; try (by apply AddTo_safe; repeat split). apply Time_safe.
  - destruct t as [| | | | |[]| | |]; apply Array_safe, primitives_safe; done.
  - apply AddTo_safe, encodeError_safe.
  - apply Array_safe, errArray_safe.
  - apply AddTo_safe, encodeStringer_safe.
Qed.

Lemma built_safe : forall f, built f -> safeObj P (AddTo f).
Proof.
  fix IH 2. intros f Hf. destruct Hf as [key v Hf Hq|key fs H|key fs H| | |key ss|key zs| | | |key [m|] H|[m|] H|key [e|]
    |key ms H|key ms H|key ss H|key ss|]; try (by apply AddTo_safe; repeat split).
  - by apply Any_safe.
  - apply AddTo_safe. split; [|done]. apply dictObject_safe. induction H; constructor; auto.
  - apply AddTo_safe. split; [|done]. apply dictObject_safe. induction H; constructor; auto.
  - apply Array_safe, primitives_safe. done.
  - apply Array_safe, primitives_safe. done.
  - apply AddTo_safe, encodeStringer_safe.
  - apply AddTo_safe, encodeError_safe.
  - by apply Array_safe, objects_safe.
  - by apply Array_safe, objectValues_safe.
  - by apply Array_safe, stringers_safe.
  - apply Array_safe, primitives_safe. done.
Qed.

(** * Soundness *)

Lemma Equals_typed DeepEqual structEqual f g :
  typed f -> typed g ->
  (exists b, Equals DeepEqual structEqual f g = Ret b) \/
  Equals DeepEqual structEqual f g = structEqual f g.
Proof.
  unfold typed, Equals. intros Hf Hg. case_bool_decide as Et; simpl; [|left; eexists; reflexivity].
  case_bool_decide; simpl; [|left; eexists; reflexivity]. rewrite <- Et in Hg.
  destruct (Type_ f); simpl in *; try (by right); left; try (eexists; reflexivity);
    (destruct Hf as [? ->], Hg as [? ->]; eexists; reflexivity).
Qed.

End typing.

(** [Inline] of a nil marshaler is not sound: adding it panics. *)
Lemma inline_nil_panics {O A} {E : Encoders O A} (enc : O) :
  ~ typed (Inline None) /\ runObj (AddTo (Inline None)) enc = Panic conversionError.
Proof. split; [by intros [m H]|done]. Qed.

(** A dictionary with an error whose [Error] method panics, which is recorded, and with
    [Stringers] of which one panics, which the caller sees. *)
Definition demoDict (ss : list call_result) : Field :=
  Dict (str "d") [Int (str "n") 1; NamedError (str "e") (Some (Err (Panics (str "boom")) Plain)); Stringers (str "s") ss].

Lemma demoDict_built P ss : Forall (mayCall P) ss -> built P (demoDict ss).
Proof.
  intros H. apply built_dict. repeat (apply Forall_cons; split); [|apply built_namedError|by apply built_stringers|done].
  by apply (built_any P (str "n") (VScalar (TInt KInt) 1)).
Qed.

End FieldTyping.
