(* ===== verification/Entry.v ===== *)
(** The log entry and its caller, zapcore/entry.go.  The [CheckedEntry] of that
    file is in Core.v, beside the cores it holds. *)

From Stdlib Require Import ZArith Lia.
From S2P Require Import Prelude Strconv GoStd Level.
From stdpp Require Import base list sets.

Local Open Scope Z_scope.
Local Open Scope zap_scope.

Module Entry.
Import Strconv.

Record EntryCaller := mkCaller {
  Defined : bool;
  PC : Z;
  File : bytes;
  Line : Z;
  Function : bytes
}.

#[global] Instance EntryCaller_eq_decision : EqDecision EntryCaller.
Proof. solve_decision. Defined.

(** [EntryCaller{}]. *)
Definition noCaller : EntryCaller := mkCaller false 0 [] 0 [].

Definition NewEntryCaller (pc : Z) (file : bytes) (line : Z) (ok : bool) : EntryCaller :=
  if negb ok then noCaller else mkCaller true pc file line [].

Definition FullPath (ec : EntryCaller) : bytes :=
  if negb (Defined ec) then str "undefined"
  else File ec ++ str ":" ++ itoa (Line ec).

Definition String (ec : EntryCaller) : bytes := FullPath ec.

(** [strings.LastIndexByte(s, c)]; [None] is -1. *)
Fixpoint LastIndexByte (s : bytes) (c : byte) : option nat :=
  match s with
  | [] => None
  | b :: s' =>
      match LastIndexByte s' c with
      | Some i => Some (S i)
      | None => if decide (b = c) then Some 0%nat else None
      end
  end.

Definition slash : byte := x2f.

Definition TrimmedPath (ec : EntryCaller) : bytes :=
  if negb (Defined ec) then str "undefined"
  else
    match LastIndexByte (File ec) slash with
    | None => FullPath ec
    | Some idx =>
        match LastIndexByte (take idx (File ec)) slash with
        | None => FullPath ec
        | Some idx => drop (S idx) (File ec) ++ str ":" ++ itoa (Line ec)
        end
    end.

Record Entry := mkEntry {
  Level : Level.Level;
  Time : GoStd.Time;
  LoggerName : bytes;
  Message : bytes;
  Caller : EntryCaller;
  Stack : bytes
}.

#[global] Instance Entry_eq_decision : EqDecision Entry.
Proof. solve_decision. Defined.

(** [Entry{}]. *)
Definition zeroEntry : Entry := mkEntry 0 zeroTime [] [] noCaller [].

(** * Lemmas *)

Lemma LastIndexByte_none s c : LastIndexByte s c = None <-> c ∉ s.
Proof.
  induction s as [|b s IH]; simpl; [set_solver|].
  destruct (LastIndexByte s c); [set_solver|]. case_decide; set_solver.
Qed.

Lemma LastIndexByte_app pre c post :
  c ∉ post -> LastIndexByte (pre ++ c :: post) c = Some (length pre).
Proof.
  intros Hp. induction pre as [|b pre IH]; simpl.
  - rewrite (proj2 (LastIndexByte_none post c)) by done. by rewrite decide_True.
  - by rewrite IH.
Qed.

(** [TrimmedPath] keeps exactly the last directory and the file name: whatever
    comes before the penultimate slash is dropped, and a path without two slashes
    is kept whole. *)
Theorem TrimmedPath_last_two pre dir file ec
    (Hdef : Defined ec = true) (Hdir : slash ∉ dir) (Hfile : slash ∉ file) :
  (File ec = pre ++ slash :: dir ++ slash :: file ->
     TrimmedPath ec = dir ++ str "/" ++ file ++ str ":" ++ itoa (Line ec)) /\
  (File ec = dir ++ slash :: file \/ File ec = file -> TrimmedPath ec = FullPath ec).
Proof.
  unfold TrimmedPath. rewrite Hdef. simpl. split.
  - intros ->.
    replace (pre ++ slash :: dir ++ slash :: file) with ((pre ++ slash :: dir) ++ slash :: file)
      by (by rewrite <- app_assoc).
    rewrite LastIndexByte_app by done. rewrite take_app_length.
    rewrite LastIndexByte_app by done. rewrite <- app_assoc. simpl.
    replace (pre ++ slash :: dir ++ slash :: file) with ((pre ++ [slash]) ++ dir ++ slash :: file)
      by (by rewrite <- app_assoc).
    rewrite drop_app_length' by (rewrite length_app; simpl; lia). by rewrite <- app_assoc.
  - intros [-> | ->].
    + rewrite LastIndexByte_app by done. rewrite take_app_length.
      by rewrite (proj2 (LastIndexByte_none dir slash)).
    + by rewrite (proj2 (LastIndexByte_none file slash)).
Qed.

Lemma TrimmedPath_last_two_witness :
  TrimmedPath (mkCaller true 0 (str "/go/src/zap/logger.go") 42 []) = str "zap/logger.go:42".
Proof.
  apply (TrimmedPath_last_two (str "/go/src") (str "zap") (str "logger.go")
    (mkCaller true 0 (str "/go/src/zap/logger.go") 42 [])); [reflexivity| | |reflexivity];
    vm_compute; set_solver.
Defined.
End Entry.
