(* ===== verification/EncoderConfig.v ===== *)
(** The configuration of encoders, zapcore/encoder.go: the functions that turn
    levels, times, durations, callers and names into primitive values, how they are
    read from text, and the [EncoderConfig] that holds them.

    Such a function gets a [PrimitiveArrayEncoder] and appends to it; here it is the
    list of appends that it makes. *)

From Stdlib Require Import ZArith Lia.
From S2P Require Import Prelude GoStd Level Encode Entry.
From stdpp Require Import base list gmap.

Local Open Scope Z_scope.
Local Open Scope zap_scope.

Module EncoderConfig.
Import Encode.

Definition DefaultLineEnding : bytes := [x0a].
Definition OmitKey : bytes := [].

(** One append; [TimeLayoutOp] is [encodeTimeLayout], which asks the encoder whether
    it has [AppendTimeLayout]. *)
Inductive primop :=
| PrimOp (p : prim)
| TimeLayoutOp (t : Time) (layout : bytes).

Definition LevelEncoder : Type := Level.Level -> list primop.
Definition TimeEncoder : Type := Time -> list primop.
Definition DurationEncoder : Type := Z -> list primop.
Definition CallerEncoder : Type := Entry.EntryCaller -> list primop.
Definition NameEncoder : Type := bytes -> list primop.

Definition appendString (s : bytes) : list primop := [PrimOp (PString s)].

(** * Levels *)

Definition LowercaseLevelEncoder : LevelEncoder := fun l => appendString (Level.String l).

Definition LowercaseColorLevelEncoder : LevelEncoder := fun l =>
  match Level._levelToLowercaseColorString !! l with
  | Some s => appendString s
  | None => appendString (Level.Color_Add Level._unknownLevelColor (Level.String l))
  end.

Definition CapitalLevelEncoder : LevelEncoder := fun l => appendString (Level.CapitalString l).

Definition CapitalColorLevelEncoder : LevelEncoder := fun l =>
  match Level._levelToCapitalColorString !! l with
  | Some s => appendString s
  | None => appendString (Level.Color_Add Level._unknownLevelColor (Level.CapitalString l))
  end.

Definition LevelEncoder_UnmarshalText (text : bytes) : LevelEncoder :=
  if decide (text = str "capital") then CapitalLevelEncoder
  else if decide (text = str "capitalColor") then CapitalColorLevelEncoder
  else if decide (text = str "color") then LowercaseColorLevelEncoder
  else LowercaseLevelEncoder.

(** * Times, durations, callers and names *)

Section std.
Context {std : GoStd}.

Definition EpochTimeEncoder : TimeEncoder := fun t =>
  let sec := float64Div (intToFloat64 (UnixNano t)) (intToFloat64 Second) in
  [PrimOp (PFloat64 sec)].

Definition EpochMillisTimeEncoder : TimeEncoder := fun t =>
  let millis := float64Div (intToFloat64 (UnixNano t)) (intToFloat64 Millisecond) in
  [PrimOp (PFloat64 millis)].

Definition EpochNanosTimeEncoder : TimeEncoder := fun t => [PrimOp (PInt KInt64 (UnixNano t))].

Definition encodeTimeLayout (t : Time) (layout : bytes) : list primop := [TimeLayoutOp t layout].

Definition RFC3339 : bytes := str "2006-01-02T15:04:05Z07:00".
Definition RFC3339Nano : bytes := str "2006-01-02T15:04:05.999999999Z07:00".

Definition ISO8601TimeEncoder : TimeEncoder := fun t =>
  encodeTimeLayout t (str "2006-01-02T15:04:05.000Z0700").

Definition RFC3339TimeEncoder : TimeEncoder := fun t => encodeTimeLayout t RFC3339.

Definition RFC3339NanoTimeEncoder : TimeEncoder := fun t => encodeTimeLayout t RFC3339Nano.

Definition TimeEncoderOfLayout (layout : bytes) : TimeEncoder := fun t => encodeTimeLayout t layout.

Definition TimeEncoder_UnmarshalText (text : bytes) : TimeEncoder :=
  if decide (text = str "rfc3339nano" \/ text = str "RFC3339Nano") then RFC3339NanoTimeEncoder
  else if decide (text = str "rfc3339" \/ text = str "RFC3339") then RFC3339TimeEncoder
  else if decide (text = str "iso8601" \/ text = str "ISO8601") then ISO8601TimeEncoder
  else if decide (text = str "millis") then EpochMillisTimeEncoder
  else if decide (text = str "nanos") then EpochNanosTimeEncoder
  else EpochTimeEncoder.

(** [UnmarshalYAML]: [asObject] and [asString] are what [unmarshal] makes of the
    document for an object with a layout and for a string. *)
Definition UnmarshalYAML (e : TimeEncoder) (asObject asString : err + bytes) : TimeEncoder * error :=
  match asObject with
  | inr layout => (TimeEncoderOfLayout layout, None)
  | inl _ =>
      match asString with
      | inl er => (e, Some er)
      | inr s => (TimeEncoder_UnmarshalText s, None)
      end
  end.

(** [UnmarshalJSON]: [UnmarshalYAML] with [json.Unmarshal]. *)
Definition UnmarshalJSON (Unmarshal_object Unmarshal_string : bytes -> err + bytes)
    (e : TimeEncoder) (data : bytes) : TimeEncoder * error :=
  UnmarshalYAML e (Unmarshal_object data) (Unmarshal_string data).

Definition SecondsDurationEncoder : DurationEncoder := fun d =>
  [PrimOp (PFloat64 (float64Div (intToFloat64 d) (intToFloat64 Second)))].

Definition NanosDurationEncoder : DurationEncoder := fun d => [PrimOp (PInt KInt64 d)].

(** Go's integer division truncates. *)
Definition MillisDurationEncoder : DurationEncoder := fun d =>
  [PrimOp (PInt KInt64 (Z.quot d 1000000))].

Definition StringDurationEncoder : DurationEncoder := fun d => appendString (durationString d).

Definition DurationEncoder_UnmarshalText (text : bytes) : DurationEncoder :=
  if decide (text = str "string") then StringDurationEncoder
  else if decide (text = str "nanos") then NanosDurationEncoder
  else if decide (text = str "ms") then MillisDurationEncoder
  else SecondsDurationEncoder.
End std.

Definition FullCallerEncoder : CallerEncoder := fun c => appendString (Entry.String c).

Definition ShortCallerEncoder : CallerEncoder := fun c => appendString (Entry.TrimmedPath c).

Definition CallerEncoder_UnmarshalText (text : bytes) : CallerEncoder :=
  if decide (text = str "full") then FullCallerEncoder else ShortCallerEncoder.

Definition FullNameEncoder : NameEncoder := fun name => appendString name.

Definition NameEncoder_UnmarshalText (text : bytes) : NameEncoder :=
  if decide (text = str "full") then FullNameEncoder else FullNameEncoder.

(** * The configuration *)

(** A [ReflectedEncoder]: what it writes for a value, and its error. *)
Definition ReflectedEncoder : Type := any -> bytes * error.

(** A function field that is nil is [None]. *)
Record EncoderConfig := mkConfig {
  MessageKey : bytes;
  LevelKey : bytes;
  TimeKey : bytes;
  NameKey : bytes;
  CallerKey : bytes;
  FunctionKey : bytes;
  StacktraceKey : bytes;
  SkipLineEnding : bool;
  LineEnding : bytes;
  EncodeLevel : option LevelEncoder;
  EncodeTime : option TimeEncoder;
  EncodeDuration : option DurationEncoder;
  EncodeCaller : option CallerEncoder;
  EncodeName : option NameEncoder;
  NewReflectedEncoder : option ReflectedEncoder;
  ConsoleSeparator : bytes
}.

(** The assignments that the constructors of encoders make. *)
Definition setLineEnding (c : EncoderConfig) (s : bytes) : EncoderConfig :=
  mkConfig (MessageKey c) (LevelKey c) (TimeKey c) (NameKey c) (CallerKey c) (FunctionKey c)
    (StacktraceKey c) (SkipLineEnding c) s (EncodeLevel c) (EncodeTime c) (EncodeDuration c)
    (EncodeCaller c) (EncodeName c) (NewReflectedEncoder c) (ConsoleSeparator c).

Definition setReflected (c : EncoderConfig) (r : ReflectedEncoder) : EncoderConfig :=
  mkConfig (MessageKey c) (LevelKey c) (TimeKey c) (NameKey c) (CallerKey c) (FunctionKey c)
    (StacktraceKey c) (SkipLineEnding c) (LineEnding c) (EncodeLevel c) (EncodeTime c)
    (EncodeDuration c) (EncodeCaller c) (EncodeName c) (Some r) (ConsoleSeparator c).

Definition setConsoleSeparator (c : EncoderConfig) (s : bytes) : EncoderConfig :=
  mkConfig (MessageKey c) (LevelKey c) (TimeKey c) (NameKey c) (CallerKey c) (FunctionKey c)
    (StacktraceKey c) (SkipLineEnding c) (LineEnding c) (EncodeLevel c) (EncodeTime c)
    (EncodeDuration c) (EncodeCaller c) (EncodeName c) (NewReflectedEncoder c) s.

(** "This function must make exactly one call": the contract of the functions above.
    The encoders also cope with none, so that is allowed here. *)
Definition atMostOne (ops : list primop) : Prop := (length ops <= 1)%nat.

Record lawful (c : EncoderConfig) : Prop := {
  lawful_level f l : EncodeLevel c = Some f -> atMostOne (f l);
  lawful_time f t : EncodeTime c = Some f -> atMostOne (f t);
  lawful_duration f d : EncodeDuration c = Some f -> atMostOne (f d);
  lawful_caller f x : EncodeCaller c = Some f -> atMostOne (f x);
  lawful_name f n : EncodeName c = Some f -> atMostOne (f n)
}.
End EncoderConfig.
