(* ===== verification/JsonEncoder.v ===== *)
(** The JSON encoder, zapcore/json_encoder.go and zapcore/reflected_encoder.go.

    The encoder's state is its configuration, the buffer it appends to, whether it
    puts spaces after separators, the number of namespaces left open, and the
    scratch buffer for reflected values.  Here an encoder that comes from the pool is a new
    one; JsonPool.v shows that this makes no difference. *)

From Stdlib Require Import ZArith Lia.
From S2P Require Import Prelude Strconv GoStd Level JsonString Encode Field Entry EncoderConfig.
From stdpp Require Import base list.

Local Open Scope Z_scope.
Local Open Scope zap_scope.

Module JsonEncoder.
Import Strconv Encode EncoderConfig.

Record jsonEncoder := mkEncoder {
  config : EncoderConfig;
  buf : bytes;
  spaced : bool;
  openNamespaces : Z;
  reflectBuf : option bytes
}.

Definition setBuf (enc : jsonEncoder) (b : bytes) : jsonEncoder :=
  mkEncoder (config enc) b (spaced enc) (openNamespaces enc) (reflectBuf enc).

(** [enc.buf.AppendString(s)]. *)
Definition append (s : bytes) (enc : jsonEncoder) : jsonEncoder := setBuf enc (buf enc ++ s).

Definition setNamespaces (enc : jsonEncoder) (n : Z) : jsonEncoder :=
  mkEncoder (config enc) (buf enc) (spaced enc) n (reflectBuf enc).

Definition setReflectBuf (enc : jsonEncoder) (r : option bytes) : jsonEncoder :=
  mkEncoder (config enc) (buf enc) (spaced enc) (openNamespaces enc) r.

(** [encoding/base64.StdEncoding]. *)
Definition base64Alphabet : bytes :=
  str "ABCDEFGHIJKLMNOPQRSTUVWXYZabcdefghijklmnopqrstuvwxyz0123456789+/".

Definition base64Digit (n : Z) : byte := nth (Z.to_nat n) base64Alphabet x3d.

Fixpoint base64 (s : bytes) : bytes :=
  match s with
  | a :: b :: c :: s' =>
      let n := bval a * 65536 + bval b * 256 + bval c in
      base64Digit (n / 262144) :: base64Digit (n / 4096 mod 64) ::
      base64Digit (n / 64 mod 64) :: base64Digit (n mod 64) :: base64 s'
  | [a; b] =>
      let n := bval a * 65536 + bval b * 256 in
      [base64Digit (n / 262144); base64Digit (n / 4096 mod 64); base64Digit (n / 64 mod 64); x3d]
  | [a] =>
      let n := bval a * 65536 in
      [base64Digit (n / 262144); base64Digit (n / 4096 mod 64); x3d; x3d]
  | [] => []
  end.

(** * Separators and strings *)

Definition quote : bytes := [x22].

Definition addElementSeparator (enc : jsonEncoder) : jsonEncoder :=
  match last (buf enc) with
  | None => enc
  | Some b =>
      if decide (b = x7b \/ b = x5b \/ b = x3a \/ b = x2c \/ b = x20) then enc
      else
        let enc := append [x2c] enc in
        if spaced enc then append [x20] enc else enc
  end.

(** The loop always finishes (JsonString.v), so there is a result. *)
Definition safeAddString (s : bytes) (enc : jsonEncoder) : jsonEncoder :=
  setBuf enc (default (buf enc) (JsonString.safeAppendStringLike (buf enc) s)).

Definition safeAddByteString (s : bytes) (enc : jsonEncoder) : jsonEncoder :=
  setBuf enc (default (buf enc) (JsonString.safeAppendStringLike (buf enc) s)).

Definition addKey (key : bytes) (enc : jsonEncoder) : jsonEncoder :=
  let enc := addElementSeparator enc in
  let enc := append quote enc in
  let enc := safeAddString key enc in
  let enc := append quote enc in
  let enc := append [x3a] enc in
  if spaced enc then append [x20] enc else enc.

Fixpoint closeLoop (n : nat) (enc : jsonEncoder) : jsonEncoder :=
  match n with
  | O => enc
  | S n => closeLoop n (append [x7d] enc)
  end.

Definition closeOpenNamespaces (enc : jsonEncoder) : jsonEncoder :=
  setNamespaces (closeLoop (Z.to_nat (openNamespaces enc)) enc) 0.

Section encoder.
Context {std : GoStd}.

(** [json.NewEncoder] with HTML escaping turned off, of the standard library. *)
Context (defaultReflectedEncoder : ReflectedEncoder).

(** * Appending values *)

Definition AppendBool (val : bool) (enc : jsonEncoder) : jsonEncoder :=
  append (AppendBool_text val) (addElementSeparator enc).

Definition AppendByteString (val : bytes) (enc : jsonEncoder) : jsonEncoder :=
  let enc := addElementSeparator enc in
  let enc := append quote enc in
  let enc := safeAddByteString val enc in
  append quote enc.

Definition AppendString (val : bytes) (enc : jsonEncoder) : jsonEncoder :=
  let enc := addElementSeparator enc in
  let enc := append quote enc in
  let enc := safeAddString val enc in
  append quote enc.

(** The parts of a complex number are [float64]s here. *)
Definition appendComplex (val : Z * Z) (precision : Z) (enc : jsonEncoder) : jsonEncoder :=
  let enc := addElementSeparator enc in
  let '(r, i) := val in
  let enc := append quote enc in
  let enc := append (formatFloat r precision) enc in
  let enc := if f64_ge0 i then append [x2b] enc else enc in
  let enc := append (formatFloat i precision) enc in
  let enc := append [x69] enc in
  append quote enc.

Definition AppendComplex128 (v : Z * Z) (enc : jsonEncoder) : jsonEncoder := appendComplex v 64 enc.

Definition AppendComplex64 (v : Z * Z) (enc : jsonEncoder) : jsonEncoder :=
  appendComplex (float32to64 v.1, float32to64 v.2) 32 enc.

Definition appendFloat (val : Z) (bitSize : Z) (enc : jsonEncoder) : jsonEncoder :=
  let enc := addElementSeparator enc in
  if IsNaN val then append (quote ++ str "NaN" ++ quote) enc
  else if IsInf val 1 then append (quote ++ str "+Inf" ++ quote) enc
  else if IsInf val (-1) then append (quote ++ str "-Inf" ++ quote) enc
  else append (formatFloat val bitSize) enc.

Definition AppendFloat64 (v : Z) (enc : jsonEncoder) : jsonEncoder := appendFloat v 64 enc.

Definition AppendFloat32 (v : Z) (enc : jsonEncoder) : jsonEncoder :=
  appendFloat (float32to64 v) 32 enc.

Definition AppendInt64 (val : Z) (enc : jsonEncoder) : jsonEncoder :=
  append (itoa val) (addElementSeparator enc).

Definition AppendUint64 (val : Z) (enc : jsonEncoder) : jsonEncoder :=
  append (uitoa val) (addElementSeparator enc).

(** [AppendInt], [AppendInt32], ..., [AppendUintptr]: the conversion to 64 bits. *)
Definition AppendInt_kind (k : ikind) (v : Z) (enc : jsonEncoder) : jsonEncoder :=
  if signed k then AppendInt64 (int64 v) enc else AppendUint64 (uint64 v) enc.

Definition AppendTimeLayout (t : Time) (layout : bytes) (enc : jsonEncoder) : jsonEncoder :=
  let enc := addElementSeparator enc in
  let enc := append quote enc in
  let enc := append (formatTime t layout) enc in
  append quote enc.

Definition appendPrim (p : prim) (enc : jsonEncoder) : jsonEncoder :=
  match p with
  | PBool b => AppendBool b enc
  | PByteString s => AppendByteString s enc
  | PComplex128 c => AppendComplex128 c enc
  | PComplex64 c => AppendComplex64 c enc
  | PFloat64 f => AppendFloat64 f enc
  | PFloat32 f => AppendFloat32 f enc
  | PInt k z => AppendInt_kind k z enc
  | PString s => AppendString s enc
  end.

(** A call of one of the functions of the configuration: the JSON encoder has an
    [AppendTimeLayout]. *)
Definition runPrimOp (enc : jsonEncoder) (op : primop) : jsonEncoder :=
  match op with
  | PrimOp p => appendPrim p enc
  | TimeLayoutOp t layout => AppendTimeLayout t layout enc
  end.

Definition runPrimOps (ops : list primop) (enc : jsonEncoder) : jsonEncoder :=
  foldl runPrimOp enc ops.

(** [cur == enc.buf.Len()]: nothing was appended. *)
Definition unchanged (enc enc' : jsonEncoder) : bool := lenZ (buf enc) =? lenZ (buf enc').

Definition AppendDuration (val : Z) (enc : jsonEncoder) : jsonEncoder :=
  let enc' := match EncodeDuration (config enc) with Some e => runPrimOps (e val) enc | None => enc end in
  if unchanged enc enc' then AppendInt64 val enc' else enc'.

Definition AppendTime (val : Time) (enc : jsonEncoder) : jsonEncoder :=
  let enc' := match EncodeTime (config enc) with Some e => runPrimOps (e val) enc | None => enc end in
  if unchanged enc enc' then AppendInt64 (UnixNano val) enc' else enc'.

(** * Reflection *)

Definition resetReflectBuf (enc : jsonEncoder) : jsonEncoder := setReflectBuf enc (Some []).

Definition nullLiteralBytes : bytes := str "null".

(** [TrimNewline] of the buffer. *)
Definition trimNewline (s : bytes) : bytes :=
  match last s with
  | Some b => if decide (b = x0a) then take (length s - 1) s else s
  | None => s
  end.

Definition encodeReflected (obj : any) (enc : jsonEncoder) : (bytes + err) * jsonEncoder :=
  match obj with
  | VNil => (inl nullLiteralBytes, enc)
  | _ =>
      let enc := resetReflectBuf enc in
      let encode := default defaultReflectedEncoder (NewReflectedEncoder (config enc)) in
      let '(written, err) := encode obj in
      let enc := setReflectBuf enc (Some written) in
      match err with
      | Some e => (inr e, enc)
      | None =>
          let enc := setReflectBuf enc (Some (trimNewline written)) in
          (inl (trimNewline written), enc)
      end
  end.

Definition AppendReflected (val : any) (enc : jsonEncoder) : error * jsonEncoder :=
  match encodeReflected val enc with
  | (inr err, enc) => (Some err, enc)
  | (inl valueBytes, enc) =>
      let enc := addElementSeparator enc in
      (None, append valueBytes enc)
  end.

Definition AddReflected (key : bytes) (obj : any) (enc : jsonEncoder) : error * jsonEncoder :=
  match encodeReflected obj enc with
  | (inr err, enc) => (Some err, enc)
  | (inl valueBytes, enc) =>
      let enc := addKey key enc in
      (None, append valueBytes enc)
  end.

(** * Arrays and objects *)

Definition AppendArray (marshal : jsonEncoder -> outcome (error * jsonEncoder)) (enc : jsonEncoder)
    : outcome (error * jsonEncoder) :=
  let enc := addElementSeparator enc in
  let enc := append [x5b] enc in
  let! (err, enc) := marshal enc in
  let enc := append [x5d] enc in
  Ret (err, enc).

Definition AppendObject (marshal : jsonEncoder -> outcome (error * jsonEncoder)) (enc : jsonEncoder)
    : outcome (error * jsonEncoder) :=
  let old := openNamespaces enc in
  let enc := setNamespaces enc 0 in
  let enc := addElementSeparator enc in
  let enc := append [x7b] enc in
  let! (err, enc) := marshal enc in
  let enc := append [x7d] enc in
  let enc := closeOpenNamespaces enc in
  let enc := setNamespaces enc old in
  Ret (err, enc).

(** * Adding fields *)

Definition AddArray (key : bytes) (arr : jsonEncoder -> outcome (error * jsonEncoder))
    (enc : jsonEncoder) : outcome (error * jsonEncoder) :=
  AppendArray arr (addKey key enc).

Definition AddObject (key : bytes) (obj : jsonEncoder -> outcome (error * jsonEncoder))
    (enc : jsonEncoder) : outcome (error * jsonEncoder) :=
  AppendObject obj (addKey key enc).

Definition AddString (key val : bytes) (enc : jsonEncoder) : jsonEncoder :=
  AppendString val (addKey key enc).

Definition AddBinary (key val : bytes) (enc : jsonEncoder) : jsonEncoder :=
  AddString key (base64 val) enc.

Definition AddByteString (key val : bytes) (enc : jsonEncoder) : jsonEncoder :=
  AppendByteString val (addKey key enc).

Definition AddBool (key : bytes) (val : bool) (enc : jsonEncoder) : jsonEncoder :=
  AppendBool val (addKey key enc).

Definition AddComplex128 (key : bytes) (val : Z * Z) (enc : jsonEncoder) : jsonEncoder :=
  AppendComplex128 val (addKey key enc).

Definition AddComplex64 (key : bytes) (val : Z * Z) (enc : jsonEncoder) : jsonEncoder :=
  AppendComplex64 val (addKey key enc).

Definition AddDuration (key : bytes) (val : Z) (enc : jsonEncoder) : jsonEncoder :=
  AppendDuration val (addKey key enc).

Definition AddFloat64 (key : bytes) (val : Z) (enc : jsonEncoder) : jsonEncoder :=
  AppendFloat64 val (addKey key enc).

Definition AddFloat32 (key : bytes) (val : Z) (enc : jsonEncoder) : jsonEncoder :=
  AppendFloat32 val (addKey key enc).

Definition AddInt64 (key : bytes) (val : Z) (enc : jsonEncoder) : jsonEncoder :=
  AppendInt64 val (addKey key enc).

Definition AddUint64 (key : bytes) (val : Z) (enc : jsonEncoder) : jsonEncoder :=
  AppendUint64 val (addKey key enc).

(** [AddInt], [AddInt32], ..., [AddUintptr]. *)
Definition AddInt_kind (key : bytes) (k : ikind) (v : Z) (enc : jsonEncoder) : jsonEncoder :=
  if signed k then AddInt64 key (int64 v) enc else AddUint64 key (uint64 v) enc.

Definition AddTime (key : bytes) (val : Time) (enc : jsonEncoder) : jsonEncoder :=
  AppendTime val (addKey key enc).

Definition OpenNamespace (key : bytes) (enc : jsonEncoder) : jsonEncoder :=
  let enc := addKey key enc in
  let enc := append [x7b] enc in
  setNamespaces enc (openNamespaces enc + 1).

Definition addPrim (key : bytes) (p : prim) (enc : jsonEncoder) : jsonEncoder :=
  match p with
  | PBool b => AddBool key b enc
  | PByteString s => AddByteString key s enc
  | PComplex128 c => AddComplex128 key c enc
  | PComplex64 c => AddComplex64 key c enc
  | PFloat64 f => AddFloat64 key f enc
  | PFloat32 f => AddFloat32 key f enc
  | PInt k z => AddInt_kind key k z enc
  | PString s => AddString key s enc
  end.

(** The method table. *)
Definition jsonEncoders : Encoders jsonEncoder jsonEncoder := {|
  Encode.AddPrim := addPrim;
  Encode.AddBinary := AddBinary;
  Encode.AddDuration := AddDuration;
  Encode.AddTime := AddTime;
  Encode.AddReflected := AddReflected;
  Encode.OpenNamespace := OpenNamespace;
  Encode.AddArray := AddArray;
  Encode.AddObject := AddObject;
  Encode.AppendPrim := appendPrim;
  Encode.AppendDuration := AppendDuration;
  Encode.AppendTime := AppendTime;
  Encode.AppendReflected := AppendReflected;
  Encode.AppendArray := AppendArray;
  Encode.AppendObject := AppendObject
|}.

(** * Encoders and entries *)

Definition newJSONEncoder (cfg : EncoderConfig) (spaced : bool) : jsonEncoder :=
  let cfg :=
    if SkipLineEnding cfg then setLineEnding cfg []
    else if decide (LineEnding cfg = []) then setLineEnding cfg DefaultLineEnding
    else cfg in
  let cfg :=
    match NewReflectedEncoder cfg with
    | None => setReflected cfg defaultReflectedEncoder
    | Some _ => cfg
    end in
  mkEncoder cfg [] spaced 0 None.

Definition NewJSONEncoder (cfg : EncoderConfig) : jsonEncoder := newJSONEncoder cfg false.

(** A new encoder with the same configuration, and an empty buffer. *)
Definition clone (enc : jsonEncoder) : jsonEncoder :=
  mkEncoder (config enc) [] (spaced enc) (openNamespaces enc) None.

Definition Clone (enc : jsonEncoder) : jsonEncoder :=
  let c := clone enc in append (buf enc) c.

Definition truncate (enc : jsonEncoder) : jsonEncoder := setBuf enc [].

(** The fields that precede the context in an entry: level, time, name, caller,
    function and message, each when its key is set and it has a value. *)
Definition entryLevel (ent : Entry.Entry) (final : jsonEncoder) : jsonEncoder :=
  let cfg := config final in
  match EncodeLevel cfg with
  | Some e =>
      if decide (LevelKey cfg = []) then final
      else
        let final := addKey (LevelKey cfg) final in
        let final' := runPrimOps (e (Entry.Level ent)) final in
        if unchanged final final' then AppendString (Level.String (Entry.Level ent)) final' else final'
  | None => final
  end.

Definition entryTime (ent : Entry.Entry) (final : jsonEncoder) : jsonEncoder :=
  let cfg := config final in
  if negb (bool_decide (TimeKey cfg = [])) && negb (IsZero (Entry.Time ent)) then
    AddTime (TimeKey cfg) (Entry.Time ent) final
  else final.

Definition entryName (ent : Entry.Entry) (final : jsonEncoder) : jsonEncoder :=
  let cfg := config final in
  if negb (bool_decide (Entry.LoggerName ent = [])) && negb (bool_decide (NameKey cfg = [])) then
    let final := addKey (NameKey cfg) final in
    let nameEncoder := default FullNameEncoder (EncodeName cfg) in
    let final' := runPrimOps (nameEncoder (Entry.LoggerName ent)) final in
    if unchanged final final' then AppendString (Entry.LoggerName ent) final' else final'
  else final.

Definition entryCaller (ent : Entry.Entry) (final : jsonEncoder) : outcome jsonEncoder :=
  let cfg := config final in
  if Entry.Defined (Entry.Caller ent) then
    let! final :=
      if decide (CallerKey cfg = []) then Ret final
      else
        let final := addKey (CallerKey cfg) final in
        match EncodeCaller cfg with
        | None => Panic (str "invalid memory address or nil pointer dereference")
        | Some e =>
            let final' := runPrimOps (e (Entry.Caller ent)) final in
            Ret (if unchanged final final' then AppendString (Entry.String (Entry.Caller ent)) final'
                 else final')
        end in
    Ret (if decide (FunctionKey cfg = []) then final
         else AppendString (Entry.Function (Entry.Caller ent)) (addKey (FunctionKey cfg) final))
  else Ret final.

Definition entryMessage (ent : Entry.Entry) (final : jsonEncoder) : jsonEncoder :=
  let cfg := config final in
  if decide (MessageKey cfg = []) then final
  else AppendString (Entry.Message ent) (addKey (MessageKey cfg) final).

(** The bytes of the buffer that [EncodeEntry] returns; its error is always nil. *)
Definition EncodeEntry (enc : jsonEncoder) (ent : Entry.Entry) (fields : list Field)
    : outcome (bytes * error) :=
  let final := append [x7b] (clone enc) in
  let final := entryLevel ent final in
  let final := entryTime ent final in
  let final := entryName ent final in
  let! final := entryCaller ent final in
  let final := entryMessage ent final in
  let final :=
    if 0 <? lenZ (buf enc) then append (buf enc) (addElementSeparator final) else final in
  let! (_, final) := @runObj _ _ jsonEncoders (Field.addFields fields) final in
  let final := closeOpenNamespaces final in
  let final :=
    if negb (bool_decide (Entry.Stack ent = [])) && negb (bool_decide (StacktraceKey (config final) = [])) then
      AddString (StacktraceKey (config final)) (Entry.Stack ent) final
    else final in
  let final := append [x7d] final in
  let final := append (LineEnding (config final)) final in
  Ret (buf final, None).
End encoder.
End JsonEncoder.
