(* ===== verification/JsonPool.v ===== *)
(** The reuse of JSON encoders through their pool, zapcore/json_encoder.go and the context of
    zapcore/console_encoder.go.

    JsonEncoder.v takes a new encoder for every entry.  The code takes one from [_jsonPool],
    with whatever [putJSONEncoder] left in it, keeps a reflected encoder that is bound to the
    scratch buffer, and puts the encoder back.  Here the encoder has these parts, and the
    theorem is that the reuse does not show. *)

From Stdlib Require Import ZArith Lia.
From S2P Require Import Prelude Strconv GoStd Level JsonString Encode Field Entry EncoderConfig JsonEncoder.
From stdpp Require Import base list.

Local Open Scope Z_scope.
Local Open Scope zap_scope.

Module JsonPool.
Import Encode EncoderConfig JsonEncoder.

(** An encoder in the pool: the members that may be nil are options. *)
Record object := mkObject {
  oConfig : option EncoderConfig;
  oBuf : option bytes;
  oSpaced : bool;
  oNamespaces : Z;
  oReflectBuf : option bytes;
  oReflectEnc : option ReflectedEncoder
}.

(** [&jsonEncoder{}]. *)
Definition newObject : object := mkObject None None false 0 None None.

(** An encoder in use. *)
Record pooled := mkPooled { base : jsonEncoder; reflectEnc : option ReflectedEncoder }.

Definition onBase (f : jsonEncoder -> jsonEncoder) (p : pooled) : pooled := mkPooled (f (base p)) (reflectEnc p).

(** The pool hands out any of its encoders, or a new one: also when it is not empty,
    since the runtime may have dropped some. *)
Definition Get (choice : option nat) (pool : list object) : object * list object :=
  match choice with
  | Some i =>
      match pool !! i with
      | Some o => (o, delete i pool)
      | None => (newObject, pool)
      end
  | None => (newObject, pool)
  end.

(** What is left of an encoder: every member is assigned. *)
Definition putJSONEncoder (p : pooled) : object :=
  {| oConfig := None; oBuf := None; oSpaced := false; oNamespaces := 0; oReflectBuf := None; oReflectEnc := None |}.

(** [clone] sets four members and keeps the other two. *)
Definition cloneInto (o : object) (enc : jsonEncoder) : pooled :=
  mkPooled (mkEncoder (config enc) [] (spaced enc) (openNamespaces enc) (oReflectBuf o)) (oReflectEnc o).

Definition CloneInto (o : object) (enc : jsonEncoder) : pooled := onBase (append (buf enc)) (cloneInto o enc).

Section pool.
Context {std : GoStd} (defaultReflectedEncoder : ReflectedEncoder).

(** * Methods *)

(** The reflected encoder is made with the scratch buffer, and kept with it. *)
Definition resetReflectBuf (p : pooled) : pooled :=
  match reflectBuf (base p) with
  | None =>
      mkPooled (setReflectBuf (base p) (Some []))
        (Some (default defaultReflectedEncoder (NewReflectedEncoder (config (base p)))))
  | Some _ => onBase (fun enc => setReflectBuf enc (Some [])) p
  end.

(** A nil reflected encoder would be a nil dereference, which does not happen. *)
Definition encodeReflected (obj : any) (p : pooled) : (bytes + err) * pooled :=
  match obj with
  | VNil => (inl nullLiteralBytes, p)
  | _ =>
      let p := resetReflectBuf p in
      match reflectEnc p with
      | None => (inr (New_error (str "invalid memory address or nil pointer dereference")), p)
      | Some encode =>
          let '(written, err) := encode obj in
          let p := onBase (fun enc => setReflectBuf enc (Some written)) p in
          match err with
          | Some e => (inr e, p)
          | None => (inl (trimNewline written), onBase (fun enc => setReflectBuf enc (Some (trimNewline written))) p)
          end
      end
  end.

Definition AppendReflected (val : any) (p : pooled) : error * pooled :=
  match encodeReflected val p with
  | (inr err, p) => (Some err, p)
  | (inl valueBytes, p) => (None, onBase (append valueBytes) (onBase addElementSeparator p))
  end.

Definition AddReflected (key : bytes) (obj : any) (p : pooled) : error * pooled :=
  match encodeReflected obj p with
  | (inr err, p) => (Some err, p)
  | (inl valueBytes, p) => (None, onBase (append valueBytes) (onBase (addKey key) p))
  end.

Definition AppendArray (marshal : pooled -> outcome (error * pooled)) (p : pooled) : outcome (error * pooled) :=
  let p := onBase addElementSeparator p in
  let p := onBase (append [x5b]) p in
  let! (err, p) := marshal p in
  Ret (err, onBase (append [x5d]) p).

Definition AppendObject (marshal : pooled -> outcome (error * pooled)) (p : pooled) : outcome (error * pooled) :=
  let old := openNamespaces (base p) in
  let p := onBase (fun enc => setNamespaces enc 0) p in
  let p := onBase addElementSeparator p in
  let p := onBase (append [x7b]) p in
  let! (err, p) := marshal p in
  let p := onBase (append [x7d]) p in
  let p := onBase closeOpenNamespaces p in
  Ret (err, onBase (fun enc => setNamespaces enc old) p).

(** The methods that do not reflect only use the members of JsonEncoder.v. *)
Definition pooledEncoders : Encoders pooled pooled := {|
  Encode.AddPrim key p := onBase (addPrim key p);
  Encode.AddBinary key v := onBase (AddBinary key v);
  Encode.AddDuration key d := onBase (AddDuration key d);
  Encode.AddTime key t := onBase (AddTime key t);
  Encode.AddReflected := AddReflected;
  Encode.OpenNamespace key := onBase (OpenNamespace key);
  Encode.AddArray key m p := AppendArray m (onBase (addKey key) p);
  Encode.AddObject key m p := AppendObject m (onBase (addKey key) p);
  Encode.AppendPrim p := onBase (appendPrim p);
  Encode.AppendDuration d := onBase (AppendDuration d);
  Encode.AppendTime t := onBase (AppendTime t);
  Encode.AppendReflected := AppendReflected;
  Encode.AppendArray := AppendArray;
  Encode.AppendObject := AppendObject
|}.

Definition addFields (fields : list Field) (p : pooled) : outcome (error * pooled) :=
  @runObj _ _ pooledEncoders (Field.addFields fields) p.

(** [EncodeEntry] with the encoder [o] of the pool: the line, and the encoder that is put
    back. *)
Definition EncodeEntry (o : object) (enc : jsonEncoder) (ent : Entry.Entry) (fields : list Field)
    : outcome ((bytes * error) * object) :=
  let final := onBase (append [x7b]) (cloneInto o enc) in
  let final := onBase (entryLevel ent) final in
  let final := onBase (entryTime ent) final in
  let final := onBase (entryName ent) final in
  let! b := entryCaller ent (base final) in
  let final := onBase (fun _ => b) final in
  let final := onBase (entryMessage ent) final in
  let final :=
    if 0 <? lenZ (buf enc) then onBase (append (buf enc)) (onBase addElementSeparator final) else final in
  let! (_, final) := addFields fields final in
  let final := onBase closeOpenNamespaces final in
  let final :=
    if negb (bool_decide (Entry.Stack ent = [])) && negb (bool_decide (StacktraceKey (config (base final)) = [])) then
      onBase (AddString (StacktraceKey (config (base final))) (Entry.Stack ent)) final
    else final in
  let final := onBase (append [x7d]) final in
  let final := onBase (fun enc => append (LineEnding (config enc)) enc) final in
  let ret := buf (base final) in
  Ret ((ret, None), putJSONEncoder final).

(** The use of an encoder in [consoleEncoder.writeContext]: the text of the context, if the
    fields can be added; a deferred function puts the encoder back in any case. *)
Definition writeContext (o : object) (enc : jsonEncoder) (extra : list Field) : outcome bytes * object :=
  let context := CloneInto o enc in
  match addFields extra context with
  | Ret (_, context) =>
      let context := onBase closeOpenNamespaces context in (Ret (buf (base context)), putJSONEncoder context)
  | Panic v => (Panic v, putJSONEncoder context)
  | Diverge => (Diverge, putJSONEncoder context)
  end.

(** * The uses of the pool *)

Inductive use :=
| Entry_ (enc : jsonEncoder) (ent : Entry.Entry) (fields : list Field)
| With_ (enc : jsonEncoder) (fields : list Field)
| Context_ (enc : jsonEncoder) (extra : list Field).

(** What they give: a line, an encoder with a context, or the text of a console
    encoder's context. *)
Inductive result :=
| Line (r : outcome (bytes * error))
| Derived (r : outcome (error * jsonEncoder))
| ContextText (r : outcome bytes).

(** Without a pool. *)
Definition plain (u : use) : result :=
  match u with
  | Entry_ enc ent fields => Line (JsonEncoder.EncodeEntry defaultReflectedEncoder enc ent fields)
  | With_ enc fields =>
      Derived (@runObj _ _ (jsonEncoders defaultReflectedEncoder) (Field.addFields fields) (Clone enc))
  | Context_ enc extra =>
      ContextText (let! (_, context) := @runObj _ _ (jsonEncoders defaultReflectedEncoder) (Field.addFields extra) (Clone enc) in
                   Ret (buf (closeOpenNamespaces context)))
  end.

(** With the pool.  An encoder is lost to the pool when [EncodeEntry] panics; [With] keeps
    it. *)
Definition usePool (choice : option nat) (u : use) (pool : list object) : result * list object :=
  let '(o, pool) := Get choice pool in
  match u with
  | Entry_ enc ent fields =>
      match EncodeEntry o enc ent fields with
      | Ret (r, o) => (Line (Ret r), o :: pool)
      | Panic v => (Line (Panic v), pool)
      | Diverge => (Line Diverge, pool)
      end
  | With_ enc fields =>
      (Derived (let! (e, p) := addFields fields (CloneInto o enc) in Ret (e, base p)), pool)
  | Context_ enc extra => let '(r, o) := writeContext o enc extra in (ContextText r, o :: pool)
  end.

Fixpoint usesPool (us : list (option nat * use)) (pool : list object) : list result * list object :=
  match us with
  | [] => ([], pool)
  | (choice, u) :: us' =>
      let '(r, pool) := usePool choice u pool in
      let '(rs, pool) := usesPool us' pool in
      (r :: rs, pool)
  end.

(** * Lemmas *)

(** The methods that do not reflect leave the configuration and the scratch buffer alone. *)
Definition keeps (f : jsonEncoder -> jsonEncoder) : Prop :=
  forall enc, config (f enc) = config enc /\ reflectBuf (f enc) = reflectBuf enc.

Lemma keeps_comp f g : keeps f -> keeps g -> keeps (fun enc => f (g enc)).
Proof. intros Hf Hg enc. destruct (Hf (g enc)) as [-> ->]. apply Hg. Qed.

Lemma keeps_append s : keeps (append s).
Proof. done. Qed.

Lemma keeps_separator : keeps addElementSeparator.
Proof. intros enc. unfold addElementSeparator. by repeat case_match. Qed.

Lemma keeps_safeAddString s : keeps (safeAddString s).
Proof. done. Qed.

Lemma keeps_namespaces n : keeps (fun enc => setNamespaces enc n).
Proof. done. Qed.

Lemma keeps_close : keeps closeOpenNamespaces.
Proof.
  intros enc. unfold closeOpenNamespaces. simpl. generalize (Z.to_nat (openNamespaces enc)). intros n.
  revert enc. induction n as [|n IH]; intros enc; [done|].
  exact (IH (append [x7d] enc)).
Qed.

Lemma keeps_addKey key : keeps (addKey key).
Proof.
  intros enc. unfold addKey. destruct (keeps_separator enc) as [H1 H2]. simpl. by case_match.
Qed.

Lemma keeps_text text : keeps (fun enc => append text (addElementSeparator enc)).
Proof. apply (keeps_comp (append text)); [apply keeps_append|apply keeps_separator]. Qed.

Lemma keeps_appendPrim p : keeps (appendPrim p).
Proof.
  intros enc. pose proof (keeps_separator enc) as [H1 H2].
  destruct p; simpl; unfold AppendInt_kind, AppendFloat64, AppendFloat32, appendFloat, AppendComplex128, AppendComplex64, appendComplex;
    repeat case_match; done.
Qed.

Lemma keeps_runPrimOps ops : keeps (runPrimOps ops).
Proof.
  unfold runPrimOps. induction ops as [|op ops IH]; intros enc; [done|]. simpl.
  destruct (IH (runPrimOp enc op)) as [-> ->]. destruct op as [p|t layout]; [apply keeps_appendPrim|].
  simpl. apply keeps_separator.
Qed.


Lemma keeps_fallback ops (g : jsonEncoder -> jsonEncoder) enc :
  keeps g ->
  config (if unchanged enc (runPrimOps ops enc) then g (runPrimOps ops enc) else runPrimOps ops enc) = config enc /\
  reflectBuf (if unchanged enc (runPrimOps ops enc) then g (runPrimOps ops enc) else runPrimOps ops enc) = reflectBuf enc.
Proof.
  intros Hg. destruct (keeps_runPrimOps ops enc) as [H1 H2]. destruct (Hg (runPrimOps ops enc)) as [H3 H4].
  destruct (unchanged _ _); split; congruence.
Qed.

Lemma keeps_AppendTime t : keeps (AppendTime t).
Proof.
  intros enc. unfold AppendTime. destruct (EncodeTime (config enc)) as [e|].
  - apply keeps_fallback, keeps_text.
  - apply (keeps_fallback []), keeps_text.
Qed.

Lemma keeps_AppendDuration d : keeps (AppendDuration d).
Proof.
  intros enc. unfold AppendDuration. destruct (EncodeDuration (config enc)) as [e|].
  - apply keeps_fallback, keeps_text.
  - apply (keeps_fallback []), keeps_text.
Qed.

Lemma keeps_field f key : keeps f -> keeps (fun enc => f (addKey key enc)).
Proof. intros Hf. apply (keeps_comp f); [done|apply keeps_addKey]. Qed.

Lemma keeps_addPrim key p : keeps (addPrim key p).
Proof.
  assert (addPrim key p = fun enc => appendPrim p (addKey key enc)) as ->.
  { destruct p; try done. }
  apply (keeps_field (appendPrim p)), keeps_appendPrim.
Qed.

(** The reflected encoder is there exactly when the scratch buffer is, and is the one of the
    configuration. *)
Definition sane (p : pooled) : Prop :=
  reflectEnc p =
  match reflectBuf (base p) with
  | None => None
  | Some _ => Some (default defaultReflectedEncoder (NewReflectedEncoder (config (base p))))
  end.

(** The encoder [p] is [enc] of JsonEncoder.v. *)
Definition stands (_ : unit) (p : pooled) (enc : jsonEncoder) : Prop := base p = enc /\ sane p.

Lemma stands_onBase f p enc : keeps f -> stands tt p enc -> stands tt (onBase f p) (f enc).
Proof. intros Hf [<- Hs]. split; [done|]. unfold sane, onBase in *. simpl. by destruct (Hf (base p)) as [-> ->]. Qed.

Lemma stands_encodeReflected v p enc :
  stands tt p enc ->
  (encodeReflected v p).1 = (JsonEncoder.encodeReflected defaultReflectedEncoder v enc).1 /\
  stands tt (encodeReflected v p).2 (JsonEncoder.encodeReflected defaultReflectedEncoder v enc).2.
Proof.
  intros [<- Hs]. unfold encodeReflected, JsonEncoder.encodeReflected.
  assert (reflectEnc (resetReflectBuf p) = Some (default defaultReflectedEncoder (NewReflectedEncoder (config (base p)))) /\
          base (resetReflectBuf p) = JsonEncoder.resetReflectBuf (base p)) as [He Hb].
  { unfold resetReflectBuf, sane in *. by destruct (reflectBuf (base p)). }
  destruct v; [by repeat split|..].
  all: rewrite He; cbn [JsonEncoder.resetReflectBuf setReflectBuf config];
    match goal with |- context [default ?d ?o ?v] => destruct (default d o v) as [written [?|]] end.
  all: unfold stands, sane, onBase; cbn [base reflectEnc fst snd]; rewrite ?Hb; by repeat split.
Qed.

Lemma stands_namespaces n p enc :
  stands tt p enc -> stands tt (onBase (fun enc => setNamespaces enc n) p) (setNamespaces enc n).
Proof. apply (stands_onBase (fun enc => setNamespaces enc n)), keeps_namespaces. Qed.

Create HintDb keeps_db.
#[local] Hint Resolve keeps_append keeps_separator keeps_namespaces keeps_close keeps_addKey keeps_appendPrim
  keeps_AppendTime keeps_AppendDuration keeps_addPrim stands_onBase stands_namespaces : keeps_db.

Lemma stands_Reflected v p enc (f : jsonEncoder -> jsonEncoder) :
  keeps f -> stands tt p enc ->
  let r := match encodeReflected v p with
           | (inr err, p) => (Some err, p)
           | (inl valueBytes, p) => (None, onBase (append valueBytes) (onBase f p))
           end in
  let r' := match JsonEncoder.encodeReflected defaultReflectedEncoder v enc with
            | (inr err, enc) => (Some err, enc)
            | (inl valueBytes, enc) => (None, append valueBytes (f enc))
            end in
  r.1 = r'.1 /\ stands tt r.2 r'.2.
Proof.
  intros Hf H. destruct (stands_encodeReflected v p enc H) as [H1 H2].
  destruct (encodeReflected v p) as [[t|e] p'], (JsonEncoder.encodeReflected _ v enc) as [[t'|e'] enc']; simplify_eq/=; [|done].
  split; [done|]. auto with keeps_db.
Qed.

Lemma stands_AppendArray (m1 : pooled -> outcome (error * pooled)) m2 p enc :
  relO stands m1 m2 -> stands tt p enc ->
  related (stands tt) (AppendArray m1 p) (JsonEncoder.AppendArray m2 enc).
Proof.
  intros Hm H. unfold AppendArray, JsonEncoder.AppendArray. eapply related_bind; [apply Hm; auto with keeps_db|].
  intros e p' enc' H'. constructor. auto with keeps_db.
Qed.

Lemma stands_AppendObject (m1 : pooled -> outcome (error * pooled)) m2 p enc :
  relO stands m1 m2 -> stands tt p enc ->
  related (stands tt) (AppendObject m1 p) (JsonEncoder.AppendObject m2 enc).
Proof.
  intros Hm H. unfold AppendObject, JsonEncoder.AppendObject. rewrite (proj1 H).
  eapply related_bind; [apply Hm; auto 6 with keeps_db|]. intros e p' enc' H'. constructor. auto with keeps_db.
Qed.

Lemma pooled_preserved :
  @Preserved _ _ _ _ pooledEncoders (jsonEncoders defaultReflectedEncoder) _ _ stands stands.
Proof.
  constructor; cbn [pooledEncoders jsonEncoders Encode.AddPrim Encode.AddBinary Encode.AddDuration Encode.AddTime
    Encode.AddReflected Encode.OpenNamespace Encode.AddArray Encode.AddObject Encode.AppendPrim Encode.AppendDuration
    Encode.AppendTime Encode.AppendReflected Encode.AppendArray Encode.AppendObject]; intros; repeat match goal with i : unit |- _ => destruct i end.
  all: try (by apply stands_Reflected; auto with keeps_db).
  all: auto with keeps_db.
  - apply stands_onBase; [|done]. exact (keeps_field (appendPrim (PString (base64 v))) key (keeps_appendPrim _)).
  - apply stands_onBase; [|done]. exact (keeps_field (AppendDuration d) key (keeps_AppendDuration d)).
  - apply stands_onBase; [|done]. exact (keeps_field (AppendTime t) key (keeps_AppendTime t)).
  - apply stands_onBase; [|done]. intros enc. apply (keeps_addKey key enc).
  - intros [] p enc Hp. apply stands_AppendArray; auto with keeps_db.
  - intros [] p enc Hp. apply stands_AppendObject; auto with keeps_db.
  - intros [] p enc Hp. by apply stands_AppendArray.
  - intros [] p enc Hp. by apply stands_AppendObject.
Qed.

Lemma stands_addFields fields p enc :
  stands tt p enc ->
  related (stands tt) (addFields fields p) (@runObj _ _ (jsonEncoders defaultReflectedEncoder) (Field.addFields fields) enc).
Proof. apply (runObj_related _ _ pooled_preserved). Qed.

Lemma keeps_keyed key ops (g : jsonEncoder -> jsonEncoder) enc :
  keeps g -> let enc1 := addKey key enc in
  let enc2 := if unchanged enc1 (runPrimOps ops enc1) then g (runPrimOps ops enc1) else runPrimOps ops enc1 in
  config enc2 = config enc /\ reflectBuf enc2 = reflectBuf enc.
Proof.
  intros Hg. cbv zeta. destruct (keeps_fallback ops g (addKey key enc) Hg) as [-> ->]. apply keeps_addKey.
Qed.

Lemma keeps_entryLevel ent : keeps (entryLevel ent).
Proof.
  intros enc. unfold entryLevel. destruct (EncodeLevel (config enc)) as [e|]; [|done]. case_decide; [done|]. cbv zeta.
  apply keeps_keyed, (keeps_appendPrim (PString _)).
Qed.

Lemma keeps_entryTime ent : keeps (entryTime ent).
Proof.
  intros enc. unfold entryTime. cbv zeta. destruct (_ && _); [|done].
  apply (keeps_field (AppendTime (Entry.Time ent))), keeps_AppendTime.
Qed.

Lemma keeps_entryName ent : keeps (entryName ent).
Proof.
  intros enc. unfold entryName. cbv zeta. destruct (_ && _); [|done].
  apply keeps_keyed, (keeps_appendPrim (PString _)).
Qed.

Lemma keeps_entryMessage ent : keeps (entryMessage ent).
Proof.
  intros enc. unfold entryMessage. cbv zeta. case_decide; [done|].
  apply (keeps_field (appendPrim (PString (Entry.Message ent)))), keeps_appendPrim.
Qed.

Lemma keeps_entryCaller ent enc enc' :
  entryCaller ent enc = Ret enc' -> config enc' = config enc /\ reflectBuf enc' = reflectBuf enc.
Proof.
  unfold entryCaller. cbv zeta. destruct (Entry.Defined _); [|by intros [= <-]].
  intros (enc1 & H1 & [= <-])%obind_Ret_inv.
  assert (config enc1 = config enc /\ reflectBuf enc1 = reflectBuf enc) as [E1 E2].
  { case_decide; [by injection H1 as <-|]. destruct (EncodeCaller (config enc)) as [e|]; [|done].
    injection H1 as <-. apply keeps_keyed, (keeps_appendPrim (PString _)). }
  destruct (decide (FunctionKey (config enc) = [])); [by split|].
  destruct (keeps_field (appendPrim (PString (Entry.Function (Entry.Caller ent)))) (FunctionKey (config enc))
    (keeps_appendPrim _) enc1) as [H2 H3].
  split; [exact (eq_trans H2 E1)|exact (eq_trans H3 E2)].
Qed.

(** An encoder that was put back is as good as a new one. *)
Lemma stands_clone enc : stands tt (cloneInto newObject enc) (clone enc).
Proof. done. Qed.

Lemma EncodeEntry_pooled enc ent fields :
  EncodeEntry newObject enc ent fields =
  let! r := JsonEncoder.EncodeEntry defaultReflectedEncoder enc ent fields in Ret (r, newObject).
Proof.
  unfold EncodeEntry, JsonEncoder.EncodeEntry. cbv zeta.
  assert (stands tt (onBase (entryName ent) (onBase (entryTime ent) (onBase (entryLevel ent)
    (onBase (append [x7b]) (cloneInto newObject enc)))))
    (entryName ent (entryTime ent (entryLevel ent (append [x7b] (clone enc)))))) as [H1 H2].
  { repeat apply stands_onBase; auto using keeps_entryName, keeps_entryTime, keeps_entryLevel, keeps_append, stands_clone. }
  rewrite H1. set (header := onBase (entryName ent) _) in *.
  destruct (entryCaller ent _) as [b| |] eqn:Ec; cbn [obind]; [|done..]. rewrite <- H1 in Ec.
  apply keeps_entryCaller in Ec as [E1 E2].
  assert (stands tt (onBase (fun _ => b) header) b) as Hb.
  { split; [done|]. unfold sane in *. simpl. by rewrite E1, E2. }
  assert (stands tt
    (if 0 <? lenZ (buf enc) then onBase (append (buf enc)) (onBase addElementSeparator (onBase (entryMessage ent) (onBase (fun _ => b) header)))
     else onBase (entryMessage ent) (onBase (fun _ => b) header))
    (if 0 <? lenZ (buf enc) then append (buf enc) (addElementSeparator (entryMessage ent b)) else entryMessage ent b)) as H.
  { destruct (0 <? _); auto using keeps_entryMessage with keeps_db. }
  destruct (stands_addFields fields _ _ H) as [e p' enc' [<- _]|v]; cbn [obind]; [|done].
  unfold onBase. cbn [base]. by destruct (_ && _).
Qed.

Lemma Clone_pooled enc : stands tt (CloneInto newObject enc) (Clone enc).
Proof. exact (stands_onBase (append (buf enc)) _ _ (keeps_append _) (stands_clone enc)). Qed.

Lemma usePool_plain choice u pool :
  Forall (eq newObject) pool ->
  (usePool choice u pool).1 = plain u /\ Forall (eq newObject) (usePool choice u pool).2.
Proof.
  intros Hp. unfold usePool. destruct (Get choice pool) as [o pool'] eqn:Eg.
  assert (o = newObject /\ Forall (eq newObject) pool') as [-> Hp'].
  { unfold Get in Eg. destruct choice as [i|]; [|by injection Eg as <- <-].
    destruct (pool !! i) as [o'|] eqn:Ei; injection Eg as <- <-; [|done].
    split; [symmetry; by eapply (Forall_lookup_1 _ pool)|by apply Forall_delete]. }
  destruct u as [enc ent fields|enc fields|enc extra].
  - rewrite EncodeEntry_pooled. cbn [plain]. destruct (JsonEncoder.EncodeEntry _ _ _ _) as [r| |]; by repeat constructor.
  - cbn [plain fst snd]. split; [|done]. f_equal.
    by destruct (stands_addFields fields _ _ (Clone_pooled enc)) as [e p' enc' [<- _]|v].
  - unfold writeContext. cbn [plain]. destruct (stands_addFields extra _ _ (Clone_pooled enc)) as [e p' enc' [<- _]|v]; by repeat constructor.
Qed.

(** C24: the pool of JSON encoders does not show.  However entries, derived encoders and
    console contexts are encoded one after the other, by encoders with any configurations,
    whichever encoders the pool hands out and whichever marshalers panic on the way: every
    result is that of a new encoder, the reflected encoder that is used is the one of the
    configuration in use, and the pool only ever holds encoders that are like new. *)
Theorem encoder_reuse_invisible us :
  (usesPool us []).1 = map (fun cu => plain cu.2) us /\ Forall (eq newObject) (usesPool us []).2.
Proof.
  assert (forall pool, Forall (eq newObject) pool ->
    (usesPool us pool).1 = map (fun cu => plain cu.2) us /\ Forall (eq newObject) (usesPool us pool).2) as H;
    [|by apply H].
  induction us as [|[choice u] us IH]; intros pool Hp; [done|]. cbn [usesPool map].
  destruct (usePool_plain choice u pool Hp) as [E Hp1]. destruct (usePool choice u pool) as [r pool1]. cbn [fst snd] in *.
  destruct (IH pool1 Hp1) as [Es Hp2]. destruct (usesPool us pool1) as [rs pool2]. cbn [fst snd] in *. by rewrite E, Es.
Qed.
End pool.
End JsonPool.
