(* ===== verification/JsonTree.v ===== *)
(** JSON texts and the trees they render: the specification that the JSON encoder is
    proved against in JsonRefinement.v.

    [valid] is the grammar of a value in RFC 8259 on bytes, for values on one line: the white
    space around tokens has no line breaks.  Like [json.Valid] it does not ask for UTF-8
    inside strings.
    [treeEncoders] is an encoder that builds a tree instead of bytes. *)

From Stdlib Require Import ZArith Lia.
From S2P Require Import Prelude Strconv GoStd JsonString Encode EncoderConfig JsonEncoder.
From stdpp Require Import base list.

Local Open Scope Z_scope.
Local Open Scope zap_scope.

Module JsonTree.
Import Strconv Encode EncoderConfig JsonString.

(** * The grammar *)

(** [-]int[.frac][exp], without leading zeros. *)
Definition number (s : bytes) : Prop :=
  exists sign int frac exp, s = sign ++ int ++ frac ++ exp /\ (sign = [] \/ sign = [x2d]) /\
    Forall is_digit int /\ (int = [x30] \/ exists d ds, int = d :: ds /\ d <> x30) /\
    (frac = [] \/ exists ds, frac = x2e :: ds /\ ds <> [] /\ Forall is_digit ds) /\
    (exp = [] \/ exists e plusMinus ds, exp = e :: plusMinus ++ ds /\ (e = x65 \/ e = x45) /\
       (plusMinus = [] \/ plusMinus = [x2b] \/ plusMinus = [x2d]) /\ ds <> [] /\ Forall is_digit ds).

Definition sepText (sp : bool) : bytes := if sp then [x2c; x20] else [x2c].

Definition colonText (sp : bool) : bytes := if sp then [x3a; x20] else [x3a].

Fixpoint join (sep : bytes) (l : list bytes) : bytes :=
  match l with
  | [] => []
  | [x] => x
  | x :: l' => x ++ sep ++ join sep l'
  end.

Definition quoted (body : bytes) : bytes := [x22] ++ body ++ [x22].

(** A member of an object, from the body of its key and the text of its value. *)
Definition memberText (sp : bool) (m : bytes * bytes) : bytes :=
  quoted m.1 ++ colonText sp ++ m.2.

(** White space without line breaks, and a token with white space around it. *)
Definition blank (b : byte) : Prop := b = x20 \/ b = x09.

Record padded := mkPadded { lead : bytes; token : bytes; trail : bytes }.

Definition paddedText (p : padded) : bytes := lead p ++ token p ++ trail p.

Definition blanks (p : padded) : Prop := Forall blank (lead p) /\ Forall blank (trail p).

(** The members of an object: a string, a colon and a value. *)
Definition pairText (m : padded * padded) : bytes := paddedText m.1 ++ [x3a] ++ paddedText m.2.

Definition stringToken (p : padded) : Prop := exists body, token p = quoted body /\ stringBody body.

Inductive valid : bytes -> Prop :=
| valid_true : valid (str "true")
| valid_false : valid (str "false")
| valid_null : valid (str "null")
| valid_number s : number s -> valid s
| valid_string body : stringBody body -> valid (quoted body)
| valid_empty_array w : Forall blank w -> valid ([x5b] ++ w ++ [x5d])
| valid_array vs :
    Forall blanks vs -> Forall valid (map token vs) ->
    valid ([x5b] ++ join [x2c] (map paddedText vs) ++ [x5d])
| valid_empty_object w : Forall blank w -> valid ([x7b] ++ w ++ [x7d])
| valid_object ms :
    Forall (fun m => blanks m.1 /\ stringToken m.1 /\ blanks m.2) ms -> Forall valid (map (fun m => token m.2) ms) ->
    valid ([x7b] ++ join [x2c] (map pairText ms) ++ [x7d]).

(** * Trees *)

(** A leaf is its text; a key is the string it stands for. *)
Inductive json :=
| JText (text : bytes)
| JArr (elems : list json)
| JObj (members : list (bytes * json)).

Fixpoint render (sp : bool) (v : json) : bytes :=
  match v with
  | JText t => t
  | JArr vs => [x5b] ++ join (sepText sp) (map (render sp) vs) ++ [x5d]
  | JObj ms =>
      [x7b] ++ join (sepText sp) (map (fun m => memberText sp (escape m.1, render sp m.2)) ms) ++ [x7d]
  end.

Definition renderMember (sp : bool) (m : bytes * json) : bytes :=
  memberText sp (escape m.1, render sp m.2).

(** * Objects under construction *)

(** What has been added to an object: members, and namespaces that everything
    after them goes into. *)
Inductive event :=
| Mem (key : bytes) (v : json)
| Open (key : bytes).

Fixpoint build (es : list event) : list (bytes * json) :=
  match es with
  | [] => []
  | Mem k v :: es' => (k, v) :: build es'
  | Open k :: es' => [(k, JObj (build es'))]
  end.

Fixpoint opens (es : list event) : nat :=
  match es with
  | [] => 0
  | Mem _ _ :: es' => opens es'
  | Open _ :: es' => S (opens es')
  end.

Definition keyText (sp : bool) (k : bytes) : bytes := quoted (escape k) ++ colonText sp.

Definition renderEvent (sp : bool) (e : event) : bytes :=
  match e with
  | Mem k v => keyText sp k ++ render sp v
  | Open k => keyText sp k ++ [x7b]
  end.

Definition isMem (e : event) : bool := match e with Mem _ _ => true | Open _ => false end.

(** The text of an object under construction, without its opening brace; [sepFirst]
    says whether a member precedes it. *)
Fixpoint renderFrom (sp sepFirst : bool) (es : list event) : bytes :=
  match es with
  | [] => []
  | e :: es' =>
      (if sepFirst then sepText sp else []) ++ renderEvent sp e ++ renderFrom sp (isMem e) es'
  end.

Definition renderEvents (sp : bool) (es : list event) : bytes := renderFrom sp false es.

(** * The encoder of trees *)

Section tree.
Context {std : GoStd} (defaultReflectedEncoder : ReflectedEncoder) (cfg : EncoderConfig).

Definition floatText (f bits : Z) : bytes :=
  if IsNaN f then quoted (str "NaN")
  else if IsInf f 1 then quoted (str "+Inf")
  else if IsInf f (-1) then quoted (str "-Inf")
  else formatFloat f bits.

Definition complexText (c : Z * Z) (bits : Z) : bytes :=
  quoted (formatFloat c.1 bits ++ (if f64_ge0 c.2 then [x2b] else []) ++ formatFloat c.2 bits ++ [x69]).

Definition primText (p : prim) : bytes :=
  match p with
  | PBool b => AppendBool_text b
  | PByteString s | PString s => quoted (escape s)
  | PComplex128 c => complexText c 64
  | PComplex64 c => complexText (float32to64 c.1, float32to64 c.2) 32
  | PFloat64 f => floatText f 64
  | PFloat32 f => floatText (float32to64 f) 32
  | PInt k z => if signed k then itoa (int64 z) else uitoa (uint64 z)
  end.

Definition opText (op : primop) : bytes :=
  match op with
  | PrimOp p => primText p
  | TimeLayoutOp t layout => quoted (formatTime t layout)
  end.

(** The value that a function of the configuration appends, or the fallback. *)
Definition configText (ops : list primop) (fallback : bytes) : bytes :=
  match ops with
  | [] => fallback
  | op :: _ => opText op
  end.

Definition durationText (d : Z) : bytes :=
  configText (match EncodeDuration cfg with Some e => e d | None => [] end) (itoa d).

Definition timeText (t : Time) : bytes :=
  configText (match EncodeTime cfg with Some e => e t | None => [] end) (itoa (UnixNano t)).

Definition reflectText (v : any) : bytes + err :=
  match v with
  | VNil => inl (str "null")
  | _ =>
      let '(written, e) := default defaultReflectedEncoder (NewReflectedEncoder cfg) v in
      match e with
      | Some e => inr e
      | None => inl (JsonEncoder.trimNewline written)
      end
  end.

Definition addMem (key text : bytes) (es : list event) : list event := es ++ [Mem key (JText text)].

Definition treeEncoders : Encoders (list event) (list json) := {|
  AddPrim key p es := addMem key (primText p) es;
  AddBinary key v es := addMem key (quoted (escape (JsonEncoder.base64 v))) es;
  AddDuration key d es := addMem key (durationText d) es;
  AddTime key t es := addMem key (timeText t) es;
  AddReflected key v es :=
    match reflectText v with
    | inl text => (None, addMem key text es)
    | inr e => (Some e, es)
    end;
  OpenNamespace key es := es ++ [Open key];
  AddArray key m es := let! (e, vs) := m [] in Ret (e, es ++ [Mem key (JArr vs)]);
  AddObject key m es := let! (e, es') := m [] in Ret (e, es ++ [Mem key (JObj (build es'))]);
  AppendPrim p vs := vs ++ [JText (primText p)];
  AppendDuration d vs := vs ++ [JText (durationText d)];
  AppendTime t vs := vs ++ [JText (timeText t)];
  AppendReflected v vs :=
    match reflectText v with
    | inl text => (None, vs ++ [JText text])
    | inr e => (Some e, vs)
    end;
  AppendArray m vs := let! (e, vs') := m [] in Ret (e, vs ++ [JArr vs']);
  AppendObject m vs := let! (e, es) := m [] in Ret (e, vs ++ [JObj (build es)])
|}.
End tree.

(** * Lemmas *)

Arguments join : simpl never.
Arguments sepText : simpl never.
Arguments colonText : simpl never.

(** Normalise concatenations. *)
Ltac norm :=
  unfold renderMember, memberText, keyText, quoted;
  repeat (progress (simpl; rewrite <- ?app_assoc)).

Lemma join_cons sep x l : l <> [] -> join sep (x :: l) = x ++ sep ++ join sep l.
Proof. by destruct l. Qed.

Lemma join_snoc sep l x :
  join sep (l ++ [x]) = join sep l ++ (if decide (l = []) then [] else sep) ++ x.
Proof.
  induction l as [|y [|z l] IH]; [done..|].
  rewrite <- !app_comm_cons, !(join_cons sep y) by done. rewrite app_comm_cons, IH.
  rewrite !decide_False by done. by rewrite <- !app_assoc.
Qed.

Lemma join_concat sep x l : join sep (x :: l) = x ++ concat (map (app sep) l).
Proof.
  revert x. induction l as [|y l IH]; intros x; [by cbn; rewrite app_nil_r|].
  rewrite join_cons by done. rewrite IH. cbn [map concat]. by rewrite <- app_assoc.
Qed.

(** ** The separators of the encoder *)

(** A space before all but the first, when the encoder is spaced. *)
Definition space (sp : bool) : bytes := if sp then [x20] else [].

Lemma blank_space sp : Forall blank (space sp).
Proof. destruct sp; [|constructor]. apply Forall_singleton. by left. Qed.

Lemma join_spaced sp x l : join (sepText sp) (x :: l) = join [x2c] (x :: map (app (space sp)) l).
Proof.
  rewrite !join_concat, map_map. do 2 f_equal. apply map_ext. intros y. by destruct sp.
Qed.

Lemma valid_spaced_array sp vs : Forall valid vs -> valid ([x5b] ++ join (sepText sp) vs ++ [x5d]).
Proof.
  destruct vs as [|v vs]; intros Hv; [apply (valid_empty_array []); constructor|].
  rewrite join_spaced. pose (pads := mkPadded [] v [] :: map (fun v => mkPadded (space sp) v []) vs).
  assert (v :: map (app (space sp)) vs = map paddedText pads) as ->.
  { unfold pads, paddedText. cbn. rewrite app_nil_r, map_map. f_equal. apply map_ext. intros y. cbn. by rewrite app_nil_r. }
  apply valid_array; unfold pads; cbn [map].
  - constructor; [split; constructor|]. apply Forall_map, Forall_true. intros y. split; [apply blank_space|constructor].
  - rewrite map_map. cbn. by rewrite map_id.
Qed.

(** A member of the encoder as a member of the grammar. *)
Definition memberPair (sp : bool) (w : bytes) (m : bytes * bytes) : padded * padded :=
  (mkPadded w (quoted m.1) [], mkPadded (space sp) m.2 []).

Lemma memberPair_text sp w m : pairText (memberPair sp w m) = w ++ memberText sp m.
Proof.
  unfold pairText, paddedText, memberPair, memberText, colonText, space. cbn [fst snd lead token trail].
  rewrite !app_nil_r, <- !app_assoc. by destruct sp.
Qed.

Lemma valid_spaced_object sp ms :
  Forall (fun m => stringBody m.1) ms -> Forall valid ms.*2 ->
  valid ([x7b] ++ join (sepText sp) (map (memberText sp) ms) ++ [x7d]).
Proof.
  intros Hk Hv. rewrite Forall_fmap in Hv. destruct ms as [|m ms]; [apply (valid_empty_object []); constructor|]. cbn [map]. rewrite join_spaced, map_map.
  assert (memberText sp m :: map (fun x => space sp ++ memberText sp x) ms =
    map pairText (memberPair sp [] m :: map (memberPair sp (space sp)) ms)) as ->.
  { cbn [map]. rewrite memberPair_text, map_map. f_equal. apply map_ext. intros y. by rewrite memberPair_text. }
  assert (forall w m, Forall blank w -> stringBody m.1 -> blanks (memberPair sp w m).1 /\ stringToken (memberPair sp w m).1 /\
    blanks (memberPair sp w m).2) as Hm.
  { intros w x Hw Hx. split; [by split|]. split; [by exists x.1|]. split; [apply blank_space|constructor]. }
  apply Forall_cons in Hk as [Hk Hks], Hv as [Hv Hvs]. apply valid_object; cbn [map].
  - constructor; [by apply Hm|]. apply Forall_map. eapply Forall_impl; [exact Hks|]. intros x Hx. apply Hm; [apply blank_space|done].
  - constructor; [done|]. rewrite map_map. by apply Forall_map.
Qed.

(** Whether a separator precedes what is added next. *)
Definition needSep (es : list event) : bool :=
  match last es with
  | Some e => isMem e
  | None => false
  end.

Lemma renderFrom_snoc sp b es e :
  renderFrom sp b (es ++ [e]) =
  renderFrom sp b es ++
    (if match last es with Some x => isMem x | None => b end then sepText sp else []) ++ renderEvent sp e.
Proof.
  revert b. induction es as [|x es IH]; intros b; simpl.
  { by rewrite app_nil_r. }
  rewrite IH, <- !app_assoc. destruct es as [|y es]. { done. }
  rewrite last_cons_cons. by destruct (last (y :: es)) eqn:El; [|apply last_None in El].
Qed.

Lemma renderEvents_snoc sp es e :
  renderEvents sp (es ++ [e]) =
  renderEvents sp es ++ (if needSep es then sepText sp else []) ++ renderEvent sp e.
Proof. apply renderFrom_snoc. Qed.

(** Closing the namespaces that are still open completes the members. *)
Lemma render_close sp b es :
  renderFrom sp b es ++ replicate (opens es) x7d =
  (if b then match es with [] => [] | _ => sepText sp end else []) ++
  join (sepText sp) (map (renderMember sp) (build es)).
Proof.
  revert b. induction es as [|[k v|k] es IH]; intros b; simpl; [by destruct b|..].
  - norm. rewrite IH. destruct es as [|e es]; [by norm; rewrite app_nil_r|].
    assert (map (renderMember sp) (build (e :: es)) <> []) as Hne by (by destruct e).
    rewrite (join_cons _ _ _ Hne). by norm.
  - norm. change (x7d :: replicate (opens es) x7d) with (replicate (S (opens es)) x7d).
    rewrite (replicate_S_end (opens es) x7d). specialize (IH false). simpl in IH.
    rewrite (app_assoc (renderFrom sp false es)), IH. by norm.
Qed.

Lemma build_app_mem es k v :
  opens es = 0%nat -> build (es ++ [Mem k v]) = build es ++ [(k, v)].
Proof. induction es as [|[k' v'|k'] es IH]; simpl; [done| |done]. intros H. by rewrite IH. Qed.

Lemma opens_app es es' : opens (es ++ es') = (opens es + opens es')%nat.
Proof. induction es as [|[k v|k] es IH]; simpl; lia. Qed.

Lemma renderFrom_app sp b es es' :
  renderFrom sp b (es ++ es') =
  renderFrom sp b es ++ renderFrom sp (match last es with Some x => isMem x | None => b end) es'.
Proof.
  revert b. induction es as [|x es IH]; intros b; [done|]. simpl app. cbn [renderFrom].
  rewrite IH. destruct es as [|y es]; [by rewrite <- !app_assoc|].
  rewrite last_cons_cons. destruct (last (y :: es)) eqn:El; [by rewrite <- !app_assoc|].
  by apply last_None in El.
Qed.

Lemma renderFrom_true sp es : es <> [] -> renderFrom sp true es = sepText sp ++ renderFrom sp false es.
Proof. by destruct es. Qed.

(** Complete members as events. *)
Definition members (ms : list (bytes * json)) : list event := map (fun m => Mem m.1 m.2) ms.

Lemma opens_members ms : opens (members ms) = 0%nat.
Proof. by induction ms. Qed.

Lemma build_members ms : build (members ms) = ms.
Proof. induction ms as [|[k v] ms IH]; simpl; [done|]. by rewrite IH. Qed.

Lemma render_members sp ms : renderEvents sp (members ms) = join (sepText sp) (map (renderMember sp) ms).
Proof.
  pose proof (render_close sp false (members ms)) as H.
  rewrite opens_members, build_members in H. simpl in H. by rewrite app_nil_r in H.
Qed.
End JsonTree.
