(* ===== verification/JsonRefinement.v ===== *)
(** The JSON encoder refines the encoder of trees: what it has in its buffer is
    always the rendering of what the same calls build as a tree, and every line it
    produces is a JSON object. *)

From Stdlib Require Import ZArith Lia.
From S2P Require Import Prelude Strconv GoStd Level JsonString Encode Field Entry EncoderConfig JsonEncoder JsonTree.
From stdpp Require Import base list sets.

Local Open Scope Z_scope.
Local Open Scope zap_scope.

Module JsonRefinement.
Import Strconv Encode EncoderConfig JsonString JsonEncoder JsonTree.

(** * The ends of texts *)

(** The bytes after which [addElementSeparator] adds nothing. *)
Definition opener (b : byte) : Prop := b = x7b \/ b = x5b \/ b = x3a \/ b = x2c \/ b = x20.

Definition goodEnd (s : bytes) : Prop := exists b, last s = Some b /\ ~ opener b.

Lemma last_app_ne {A} (s t : list A) : t <> [] -> last (s ++ t) = last t.
Proof. intros H. rewrite last_app. destruct (last t) eqn:E; [done|]. by apply last_None in E. Qed.

Lemma digit_not_opener b : is_digit b -> ~ opener b.
Proof. intros [d Hd] [-> | [-> | [-> | [-> | ->]]]]; vm_compute in Hd; discriminate. Qed.

Lemma goodEnd_app s t : goodEnd t -> goodEnd (s ++ t).
Proof.
  intros (b & Hb & Ho). exists b. split; [|done]. rewrite last_app_ne; [done|]. by destruct t.
Qed.

Lemma goodEnd_digits ds : ds <> [] -> Forall is_digit ds -> goodEnd ds.
Proof.
  intros Hne Hd. destruct (last ds) as [b|] eqn:E; [|by apply last_None in E].
  exists b. split; [done|]. apply digit_not_opener. apply last_Some in E as [l ->].
  apply Forall_app in Hd as [_ Hd]. by apply Forall_cons in Hd as [? _].
Qed.

Lemma goodEnd_snoc s b : ~ opener b -> goodEnd (s ++ [b]).
Proof. intros H. exists b. by rewrite last_snoc. Qed.

Ltac not_opener := unfold opener; naive_solver.

Lemma number_end s : number s -> goodEnd s.
Proof.
  intros (sign & int & frac & exp & -> & _ & Hd & Hint & Hfrac & Hexp). apply goodEnd_app.
  destruct Hexp as [-> | (e & pm & ds & -> & _ & _ & Hne & Hds)].
  2: { rewrite !app_assoc, app_comm_cons, !app_assoc. apply goodEnd_app. by apply goodEnd_digits. }
  rewrite app_nil_r. destruct Hfrac as [-> | (ds & -> & Hne & Hds)].
  - rewrite app_nil_r. apply goodEnd_digits; [|done]. destruct Hint as [-> | (d & ds & -> & _)]; done.
  - apply goodEnd_app. change (x2e :: ds) with ([x2e] ++ ds). apply goodEnd_app. by apply goodEnd_digits.
Qed.

Lemma valid_end s : valid s -> goodEnd s.
Proof.
  intros [].
  - apply (goodEnd_snoc (str "tru") x65). not_opener.
  - apply (goodEnd_snoc (str "fals") x65). not_opener.
  - apply (goodEnd_snoc (str "nul") x6c). not_opener.
  - by apply number_end.
  - unfold quoted. rewrite app_assoc. apply goodEnd_snoc. not_opener.
  - rewrite app_assoc. apply goodEnd_snoc. not_opener.
  - rewrite app_assoc. apply goodEnd_snoc. not_opener.
  - rewrite app_assoc. apply goodEnd_snoc. not_opener.
  - rewrite app_assoc. apply goodEnd_snoc. not_opener.
Qed.

Lemma valid_nonempty s : valid s -> s <> [].
Proof. intros (b & Hb & _)%valid_end ->. done. Qed.

(** * Numbers *)

Lemma formatBits_head fuel u acc :
  0 < u -> exists d ds, formatBits (S fuel) u acc = d :: ds /\ (Z.log2 u <= Z.of_nat fuel -> d <> x30).
Proof.
  revert u acc. induction fuel as [|fuel IH]; intros u acc Hu.
  - simpl. exists (digit (u mod 10)), acc. destruct (Z.ltb_spec u 10) as [H|H].
    + split; [done|]. intros _ E. rewrite Z.mod_small in E by lia.
      assert (bval (digit u) = bval x30) as Ev by (by rewrite E).
      unfold digit in Ev. rewrite bval_byteZ in Ev by lia. change (bval x30) with 48 in Ev. lia.
    + split; [done|]. intros Hl. assert (3 <= Z.log2 u) by (apply (Z.log2_le_mono 8); lia). lia.
  - cbn [formatBits]. destruct (Z.ltb_spec u 10) as [H|H].
    + eexists _, _. split; [done|]. intros _ E. rewrite Z.mod_small in E by lia.
      assert (bval (digit u) = bval x30) as Ev by (by rewrite E).
      unfold digit in Ev. rewrite bval_byteZ in Ev by lia. change (bval x30) with 48 in Ev. lia.
    + destruct (IH (u / 10) (digit (u mod 10) :: acc)) as (d & ds & E & Hd).
      { apply Z.div_str_pos. lia. }
      exists d, ds. split; [exact E|]. intros Hl. apply Hd. pose proof (log2_div10 u). lia.
Qed.

Lemma uitoa_int u :
  0 <= u -> Forall is_digit (uitoa u) /\ (uitoa u = [x30] \/ exists d ds, uitoa u = d :: ds /\ d <> x30).
Proof.
  intros Hu. split; [by apply uitoa_spec|]. destruct (decide (u = 0)) as [->|Hne]; [by left|]. right.
  destruct (formatBits_head (Z.to_nat (Z.log2 u)) u []) as (d & ds & E & Hd); [lia|].
  exists d, ds. split; [exact E|]. apply Hd. pose proof (Z.log2_nonneg u). lia.
Qed.

Lemma number_uitoa u : 0 <= u -> number (uitoa u).
Proof.
  intros Hu. destruct (uitoa_int u Hu) as [Hd Hi].
  exists [], (uitoa u), [], []. rewrite !app_nil_r. auto 10.
Qed.

Lemma number_itoa i : number (itoa i).
Proof.
  unfold itoa. destruct (Z.ltb_spec i 0) as [H|H]; [|by apply number_uitoa].
  destruct (uitoa_int (- i)) as [Hd Hi]; [lia|].
  exists [x2d], (uitoa (- i)), [], []. rewrite !app_nil_r. auto 10.
Qed.

(** * Strings *)

Lemma valid_escaped s : valid (quoted (escape s)).
Proof. apply valid_string, escape_body. Qed.

(** Bytes that stand for themselves in a JSON string. *)
Definition verbatim (b : byte) : Prop := plain b = true /\ bval b < RuneSelf.

Lemma body_verbatim s : Forall verbatim s -> stringBody s.
Proof. intros H. apply body_plain. eapply Forall_impl; [exact H|]. by intros b [Hp _]. Qed.

(** * The relation *)

Lemma append_append s t enc : append t (append s enc) = append (s ++ t) enc.
Proof. unfold append, setBuf. simpl. by rewrite <- app_assoc. Qed.

Lemma append_nil enc : append [] enc = enc.
Proof. destruct enc. unfold append, setBuf. simpl. by rewrite app_nil_r. Qed.

Lemma addElementSeparator_fresh enc :
  (forall b, last (buf enc) = Some b -> opener b) -> addElementSeparator enc = enc.
Proof.
  intros H. unfold addElementSeparator. destruct (last (buf enc)) as [b|]; [|done].
  by rewrite decide_True by (by apply H).
Qed.

Lemma addElementSeparator_after enc :
  goodEnd (buf enc) -> addElementSeparator enc = append (sepText (spaced enc)) enc.
Proof.
  intros (b & Hb & Ho). unfold addElementSeparator. rewrite Hb, decide_False by done.
  unfold append at 1. simpl. destruct (spaced enc) eqn:E; [by rewrite append_append|done].
Qed.

Lemma safeAddString_escape s enc : safeAddString s enc = append (escape s) enc.
Proof. unfold safeAddString. by rewrite safeAppendStringLike_spec. Qed.

Lemma safeAddByteString_escape s enc : safeAddByteString s enc = append (escape s) enc.
Proof. unfold safeAddByteString. by rewrite safeAppendStringLike_spec. Qed.

Lemma addKey_append key enc :
  addKey key enc = append (keyText (spaced enc) key) (addElementSeparator enc).
Proof.
  unfold addKey. rewrite safeAddString_escape.
  assert (spaced (addElementSeparator enc) = spaced enc) as E.
  { unfold addElementSeparator. repeat (case_match; try done). }
  cbv zeta. rewrite !append_append. unfold append at 1. simpl spaced. rewrite E.
  unfold keyText, quoted, colonText, quote.
  destruct (spaced enc); rewrite ?append_append; f_equal; by rewrite <- ?app_assoc.
Qed.

(** After a key nothing separates. *)
Lemma sep_after_key key enc : addElementSeparator (addKey key enc) = addKey key enc.
Proof.
  rewrite addKey_append. apply addElementSeparator_fresh. simpl.
  unfold keyText, colonText. intros b. rewrite app_assoc, last_app_ne by (by destruct (spaced enc)).
  destruct (spaced enc); intros [= <-]; unfold opener; auto.
Qed.

Section refinement.
Context {std : GoStd} (defaultReflectedEncoder : ReflectedEncoder).
Context (cfg : EncoderConfig) (sp : bool).

(** The calls of a function of the configuration. *)
Inductive configOps : list primop -> Prop :=
| configOps_level f l : EncodeLevel cfg = Some f -> configOps (f l)
| configOps_time f t : EncodeTime cfg = Some f -> configOps (f t)
| configOps_duration f d : EncodeDuration cfg = Some f -> configOps (f d)
| configOps_caller f c : EncodeCaller cfg = Some f -> configOps (f c)
| configOps_name f n : EncodeName cfg = Some f -> configOps (f n).

(** What the encoder relies on.  The standard library prints a finite float in the
    format 'f' as a number and any float without quotes, backslashes or control
    characters; a time layout in use prints what can stand between the quotes of a JSON
    string; a reflected encoder that returns no error has written a JSON value on one
    line, as encoding/json does (its escapes, exponents and blanks between tokens are
    all allowed); and the functions of the configuration keep their contract of at most
    one call. *)
Record Documented : Prop := {
  doc_float f bits :
    IsNaN f = false -> IsInf f 1 = false -> IsInf f (-1) = false -> number (formatFloat f bits);
  doc_float_text f bits : Forall verbatim (formatFloat f bits);
  doc_layout ops t layout :
    configOps ops -> TimeLayoutOp t layout ∈ ops -> stringBody (formatTime t layout);
  doc_reflect v written :
    default defaultReflectedEncoder (NewReflectedEncoder cfg) v = (written, None) ->
    valid (trimNewline written);
  doc_config : lawful cfg
}.

Context (doc : Documented).

Definition goodEvent (e : event) : Prop :=
  match e with
  | Mem _ v => valid (render sp v)
  | Open _ => True
  end.

(** The index of an object under construction is what was in the buffer when it
    was started, brace included, and the number of namespaces open outside it. *)
Definition RO (i : bytes * Z) (enc : jsonEncoder) (es : list event) : Prop :=
  config enc = cfg /\ spaced enc = sp /\ buf enc = i.1 ++ renderEvents sp es /\
  (last i.1 = None \/ last i.1 = Some x7b) /\
  openNamespaces enc = i.2 + Z.of_nat (opens es) /\ Forall goodEvent es.

Definition RA (i : bytes * Z) (enc : jsonEncoder) (vs : list json) : Prop :=
  config enc = cfg /\ spaced enc = sp /\
  buf enc = i.1 ++ join (sepText sp) (map (render sp) vs) /\
  last i.1 = Some x5b /\ openNamespaces enc = i.2 /\ Forall (fun v => valid (render sp v)) vs.

(** The separator before the next member. *)
Lemma RO_sep i enc es :
  RO i enc es -> addElementSeparator enc = append (if needSep es then sepText sp else []) enc.
Proof.
  intros (_ & Hsp & Hbuf & Hpre & _ & Hgood). unfold needSep.
  destruct (last es) as [e|] eqn:El.
  - apply last_Some in El as [es' ->]. rewrite renderEvents_snoc in Hbuf.
    apply Forall_app in Hgood as [_ He]. apply Forall_cons in He as [He _].
    destruct e as [k v|k]; cbn [isMem renderEvent] in *.
    + rewrite addElementSeparator_after; [by rewrite Hsp|]. rewrite Hbuf.
      repeat apply goodEnd_app. by apply valid_end.
    + rewrite append_nil. apply addElementSeparator_fresh. rewrite Hbuf, !app_assoc, last_snoc.
      intros b [= <-]. by left.
  - apply last_None in El as ->. rewrite append_nil. apply addElementSeparator_fresh.
    intros b. rewrite Hbuf. simpl. rewrite app_nil_r.
    destruct Hpre as [-> | ->]; [done|]. intros [= <-]. by left.
Qed.

Lemma RA_sep i enc vs :
  RA i enc vs -> addElementSeparator enc = append (if decide (vs = []) then [] else sepText sp) enc.
Proof.
  intros (_ & Hsp & Hbuf & Hpre & _ & Hgood). case_decide as Hvs.
  - subst vs. rewrite append_nil. apply addElementSeparator_fresh. intros b. rewrite Hbuf. simpl.
    rewrite app_nil_r, Hpre. intros [= <-]. right. by left.
  - rewrite addElementSeparator_after; [by rewrite Hsp|]. rewrite Hbuf. apply goodEnd_app.
    destruct vs as [|v vs _] using rev_ind; [done|].
    rewrite map_app. simpl. rewrite join_snoc. repeat apply goodEnd_app.
    apply Forall_app in Hgood as [_ Hv]. apply Forall_cons in Hv as [Hv _]. by apply valid_end.
Qed.

(** The buffer of an encoder extended by a key and a value's text. *)
Lemma RO_extend i enc es e n :
  RO i enc es -> goodEvent e -> n = openNamespaces enc + Z.of_nat (opens [e]) ->
  forall enc', config enc' = cfg -> spaced enc' = sp -> openNamespaces enc' = n ->
  buf enc' = buf enc ++ (if needSep es then sepText sp else []) ++ renderEvent sp e ->
  RO i enc' (es ++ [e]).
Proof.
  intros (Hc & Hsp & Hbuf & Hpre & Hn & Hgood) He -> enc' Hc' Hsp' Hn' Hbuf'.
  split; [done|]. split; [done|]. split; [by rewrite Hbuf', Hbuf, renderEvents_snoc, <- app_assoc|].
  split; [done|]. split; [rewrite Hn', Hn, opens_app; lia|]. apply Forall_app. auto.
Qed.

(** Functions that append the text of one value. *)
Definition appends (f : jsonEncoder -> jsonEncoder) (text : bytes) : Prop :=
  forall enc, config enc = cfg -> f enc = append text (addElementSeparator enc).

Lemma addKey_RO i enc es key :
  RO i enc es ->
  addKey key enc = append ((if needSep es then sepText sp else []) ++ keyText sp key) enc.
Proof.
  intros H. rewrite addKey_append, (RO_sep _ _ _ H), append_append.
  destruct H as (_ & -> & _). done.
Qed.

Lemma RO_add i enc es key f text :
  RO i enc es -> appends f text -> valid text -> RO i (f (addKey key enc)) (addMem key text es).
Proof.
  intros H Hf Hv. assert (config (addKey key enc) = cfg) as Hc.
  { rewrite (addKey_RO _ _ _ _ H). apply H. }
  rewrite Hf, sep_after_key by done. rewrite (addKey_RO _ _ _ _ H), append_append.
  eapply RO_extend; [done|done| |apply H|apply H|done|].
  - simpl. lia.
  - simpl. by rewrite <- app_assoc.
Qed.

Lemma RA_add i enc vs f text :
  RA i enc vs -> appends f text -> valid text -> RA i (f enc) (vs ++ [JText text]).
Proof.
  intros H Hf Hv. rewrite Hf by apply H. rewrite (RA_sep _ _ _ H), append_append.
  destruct H as (Hc & Hsp & Hbuf & Hpre & Hn & Hgood).
  split; [done|]. split; [done|]. split; [|split; [done|split; [done|]]].
  - simpl. rewrite Hbuf, map_app. simpl. rewrite join_snoc.
    destruct vs; simpl; by rewrite <- ?app_assoc.
  - apply Forall_app. auto.
Qed.

(** ** Scalars *)

Lemma appends_string (f : bytes -> jsonEncoder -> jsonEncoder) s :
  f = AppendString \/ f = AppendByteString -> appends (f s) (quoted (escape s)).
Proof.
  intros [-> | ->] enc _; unfold AppendString, AppendByteString; cbv zeta;
    rewrite ?safeAddString_escape, ?safeAddByteString_escape, !append_append; done.
Qed.

Lemma appends_complex c bits : appends (appendComplex c bits) (complexText c bits).
Proof.
  intros enc _. unfold appendComplex, complexText. destruct c as [r i]. cbv zeta. simpl.
  destruct (f64_ge0 i); rewrite !append_append; f_equal; unfold quoted, quote; by rewrite <- ?app_assoc.
Qed.

Lemma appends_float f bits : appends (appendFloat f bits) (floatText f bits).
Proof. intros enc _. unfold appendFloat, floatText. cbv zeta. by repeat case_match. Qed.

Lemma appends_prim p : appends (appendPrim p) (primText p).
Proof.
  destruct p as [b|s|c|c|f|f|k z|s]; simpl.
  - done.
  - apply appends_string. auto.
  - apply appends_complex.
  - apply appends_complex.
  - apply appends_float.
  - apply appends_float.
  - intros enc _. unfold AppendInt_kind. by destruct k.
  - apply appends_string. auto.
Qed.

Lemma valid_verbatim s : Forall verbatim s -> valid (quoted s).
Proof. intros H. by apply valid_string, body_verbatim. Qed.

Lemma valid_float f bits : valid (floatText f bits).
Proof.
  unfold floatText. repeat case_match; try (apply valid_verbatim; repeat constructor; done).
  apply valid_number. by apply doc.
Qed.

Lemma valid_complex c bits : valid (complexText c bits).
Proof.
  apply valid_verbatim. repeat (apply Forall_app; split); try apply doc.
  - destruct (f64_ge0 c.2); repeat constructor.
  - repeat constructor.
Qed.

Lemma valid_prim p : valid (primText p).
Proof.
  destruct p as [[]|s|c|c|f|f|k z|s]; cbn [primText AppendBool_text];
    auto using valid_escaped, valid_complex, valid_float, valid_true, valid_false.
  destruct (signed k); apply valid_number; [apply number_itoa|].
  apply number_uitoa. by apply wrapU_range.
Qed.

(** ** The functions of the configuration *)

Lemma unchanged_append enc t : t <> [] -> unchanged enc (append t (addElementSeparator enc)) = false.
Proof.
  intros Ht. unfold unchanged. apply Z.eqb_neq. simpl. rewrite lenZ_app.
  assert (0 < lenZ t) by (destruct t; [done|]; unfold lenZ; simpl; lia).
  assert (lenZ (buf enc) <= lenZ (buf (addElementSeparator enc))); [|lia].
  unfold addElementSeparator. repeat case_match; simpl; rewrite ?lenZ_app; auto with zap;
    pose proof (lenZ_nonneg [x2c]); pose proof (lenZ_nonneg [x20]); lia.
Qed.

Lemma appends_op op : appends (fun enc => runPrimOp enc op) (opText op).
Proof.
  destruct op as [p|t layout]; [apply appends_prim|].
  intros enc _. simpl. unfold AppendTimeLayout. cbv zeta. by rewrite !append_append.
Qed.

Lemma configOps_atMostOne ops : configOps ops -> atMostOne ops.
Proof. destruct (doc_config doc). intros []; eauto. Qed.

Lemma valid_op ops op : configOps ops -> op ∈ ops -> valid (opText op).
Proof.
  intros Hc Hop. destruct op as [p|t layout]; [apply valid_prim|].
  apply valid_string. by apply (doc_layout doc ops t layout Hc Hop).
Qed.

(** One call of such a function, with the fallback when it appended nothing. *)
Lemma appends_config ops (fallback : jsonEncoder -> jsonEncoder) text :
  configOps ops \/ ops = [] -> appends fallback text -> valid text ->
  appends (fun enc => let enc' := runPrimOps ops enc in
                      if unchanged enc enc' then fallback enc' else enc') (configText ops text) /\
  valid (configText ops text).
Proof.
  intros Hops Hf Hv. destruct ops as [|op ops].
  - split; [|done]. intros enc Hc. simpl. unfold unchanged. rewrite Z.eqb_refl. by apply Hf.
  - destruct Hops as [Hops|]; [|done].
    assert (ops = []) as ->.
    { apply configOps_atMostOne in Hops. unfold atMostOne in Hops. simpl in Hops. destruct ops; [done|simpl in *; lia]. }
    assert (valid (opText op)) as Hvo by (apply (valid_op _ _ Hops); set_solver).
    split; [|done]. intros enc Hc. cbv zeta. change (runPrimOps [op] enc) with (runPrimOp enc op).
    pose proof (appends_op op enc Hc) as E. simpl in E. rewrite E.
    by rewrite unchanged_append by (by apply valid_nonempty).
Qed.

Lemma appends_int z : appends (AppendInt64 z) (itoa z) /\ valid (itoa z).
Proof. split; [done|]. apply valid_number, number_itoa. Qed.

Lemma appends_duration d : appends (AppendDuration d) (durationText cfg d) /\ valid (durationText cfg d).
Proof.
  destruct (appends_int d) as [Hi Hv].
  destruct (appends_config (match EncodeDuration cfg with Some e => e d | None => [] end)
    (AppendInt64 d) (itoa d)) as [Ha Hva]; [|done|done|].
  { destruct (EncodeDuration cfg) eqn:E; [left; by constructor|by right]. }
  split; [|done]. intros enc Hc. etrans; [|exact (Ha enc Hc)]. unfold AppendDuration. rewrite Hc.
  by destruct (EncodeDuration cfg).
Qed.

Lemma appends_time t : appends (AppendTime t) (timeText cfg t) /\ valid (timeText cfg t).
Proof.
  destruct (appends_int (UnixNano t)) as [Hi Hv].
  destruct (appends_config (match EncodeTime cfg with Some e => e t | None => [] end)
    (AppendInt64 (UnixNano t)) (itoa (UnixNano t))) as [Ha Hva]; [|done|done|].
  { destruct (EncodeTime cfg) eqn:E; [left; by constructor|by right]. }
  split; [|done]. intros enc Hc. etrans; [|exact (Ha enc Hc)]. unfold AppendTime. rewrite Hc.
  by destruct (EncodeTime cfg).
Qed.

(** ** Nested values *)

Lemma related_map {S1 S2 T2} (R : S1 -> S2 -> Prop) (Q : S1 -> T2 -> Prop) m1 m2 (g : S2 -> T2) :
  related R m1 m2 -> (forall s1 s2, R s1 s2 -> Q s1 (g s2)) ->
  related Q m1 (let! (e, s2) := m2 in Ret (e, g s2)).
Proof. intros [e s1 s2 H|v] HQ; simpl; constructor. by apply HQ. Qed.

(** The state after a value that renders to [text], from a state that was given
    the separator. *)
Definition appended (enc : jsonEncoder) (text : bytes) (enc' : jsonEncoder) : Prop :=
  config enc' = cfg /\ spaced enc' = sp /\ openNamespaces enc' = openNamespaces enc /\
  buf enc' = buf (addElementSeparator enc) ++ text /\ valid text.

Lemma closeLoop_append n enc : closeLoop n enc = append (replicate n x7d) enc.
Proof.
  revert enc. induction n as [|n IH]; intros enc; simpl; [by rewrite append_nil|].
  by rewrite IH, append_append.
Qed.

Lemma addElementSeparator_keeps enc :
  config (addElementSeparator enc) = config enc /\ spaced (addElementSeparator enc) = spaced enc /\
  openNamespaces (addElementSeparator enc) = openNamespaces enc.
Proof. unfold addElementSeparator. repeat (case_match; try done). Qed.

Lemma valid_JObj ms : Forall valid (map (render sp) ms.*2) -> valid (render sp (JObj ms)).
Proof.
  intros H. simpl. replace (map (fun m => memberText sp (escape m.1, render sp m.2)) ms)
    with (map (memberText sp) (map (fun m => (escape m.1, render sp m.2)) ms)) by (by rewrite map_map).
  apply valid_spaced_object.
  - apply Forall_map, Forall_true. intros m. apply escape_body.
  - assert ((map (fun m => (escape m.1, render sp m.2)) ms).*2 = map (render sp) ms.*2) as ->; [|done].
    clear. induction ms as [|m ms IH]; [done|]. simpl. f_equal. exact IH.
Qed.

Lemma goodEvents_valid es : Forall goodEvent es -> Forall valid (map (render sp) (build es).*2).
Proof.
  induction 1 as [|[k v|k] es He Hes IH]; cbn [build fmap list_fmap map fst snd]; [constructor|..].
  - by constructor.
  - constructor; [by apply valid_JObj|constructor].
Qed.

Lemma AppendArray_related enc m1 m2 :
  relA RA m1 m2 -> config enc = cfg -> spaced enc = sp ->
  related (fun enc' vs => appended enc (render sp (JArr vs)) enc') (AppendArray m1 enc) (m2 []).
Proof.
  intros Hm Hc Hsp. unfold AppendArray. cbv zeta.
  destruct (addElementSeparator_keeps enc) as (Hc' & Hsp' & Hn').
  set (enc1 := append [x5b] (addElementSeparator enc)).
  assert (RA (buf enc1, openNamespaces enc) enc1 []) as H1.
  { unfold RA, enc1. simpl. rewrite app_nil_r, last_snoc, Hc', Hsp', Hn'. auto 10. }
  destruct (Hm _ _ _ H1) as [e s1 s2 (HcA & HspA & HbufA & _ & HnA & Hgood)|v]; simpl; [|constructor].
  constructor. split; [done|]. split; [done|]. split; [done|]. split.
  - simpl. rewrite HbufA. simpl. by rewrite <- !app_assoc.
  - simpl. apply valid_spaced_array. by apply Forall_map.
Qed.

Lemma AppendObject_related enc m1 m2 :
  relO RO m1 m2 -> config enc = cfg -> spaced enc = sp ->
  related (fun enc' es => appended enc (render sp (JObj (build es))) enc') (AppendObject m1 enc) (m2 []).
Proof.
  intros Hm Hc Hsp. unfold AppendObject. cbv zeta.
  set (enc0 := setNamespaces enc 0).
  assert (buf (addElementSeparator enc0) = buf (addElementSeparator enc)) as Hb0.
  { unfold addElementSeparator, enc0. simpl. repeat (case_match; try done). }
  destruct (addElementSeparator_keeps enc0) as (Hc' & Hsp' & Hn').
  set (enc1 := append [x7b] (addElementSeparator enc0)).
  assert (RO (buf enc1, 0) enc1 []) as H1.
  { unfold RO, enc1. simpl. rewrite app_nil_r, last_snoc, Hc', Hsp', Hn'. auto 10. }
  destruct (Hm _ _ _ H1) as [e s1 s2 (HcA & HspA & HbufA & _ & HnA & Hgood)|v]; simpl; [|constructor].
  constructor. unfold closeOpenNamespaces. rewrite closeLoop_append.
  assert (Z.to_nat (openNamespaces (append [x7d] s1)) = opens s2) as -> by (simpl; rewrite HnA; simpl; lia).
  split; [done|]. split; [done|]. split; [done|]. split.
  - simpl. rewrite HbufA. simpl. rewrite Hb0.
    rewrite <- (app_assoc _ [x7d]).
    change ([x7d] ++ replicate (opens s2) x7d) with (replicate (S (opens s2)) x7d).
    rewrite replicate_S_end. rewrite <- !(app_assoc (buf _ ++ _)), (app_assoc (renderEvents sp s2)).
    unfold renderEvents. rewrite render_close. simpl. by rewrite <- !app_assoc.
  - apply valid_JObj. by apply goodEvents_valid.
Qed.

Lemma RO_nested i enc es key v enc' :
  RO i enc es -> appended (addKey key enc) (render sp v) enc' -> RO i enc' (es ++ [Mem key v]).
Proof.
  intros H (Hc & Hsp & Hn & Hbuf & Hv). rewrite sep_after_key, (addKey_RO _ _ _ _ H) in Hbuf.
  eapply (RO_extend i enc es (Mem key v) (openNamespaces enc)); [done|done|simpl; lia|done|done|..].
  - by rewrite Hn, (addKey_RO _ _ _ _ H).
  - rewrite Hbuf. simpl. by rewrite <- 2!app_assoc.
Qed.

Lemma RA_nested i enc vs v enc' :
  RA i enc vs -> appended enc (render sp v) enc' -> RA i enc' (vs ++ [v]).
Proof.
  intros H (Hc & Hsp & Hn & Hbuf & Hv). rewrite (RA_sep _ _ _ H) in Hbuf.
  destruct H as (_ & _ & Hb & Hpre & Hn0 & Hgood).
  split; [done|]. split; [done|]. split; [|split; [done|split; [congruence|]]].
  - rewrite Hbuf. simpl. rewrite Hb, map_app. simpl. rewrite join_snoc.
    destruct vs; simpl; by rewrite <- ?app_assoc.
  - apply Forall_app. auto.
Qed.

(** ** Reflected values *)

Lemma encodeReflected_spec v enc :
  config enc = cfg ->
  exists r, encodeReflected defaultReflectedEncoder v enc =
    (reflectText defaultReflectedEncoder cfg v, setReflectBuf enc r).
Proof.
  intros Hc. unfold encodeReflected, reflectText.
  destruct v; try (exists (reflectBuf enc); by destruct enc).
  all: simpl; rewrite Hc; match goal with |- context [default ?d ?o ?v] => destruct (default d o v) as [? [?|]] end.
  all: by eexists.
Qed.

Lemma valid_reflected v text : reflectText defaultReflectedEncoder cfg v = inl text -> valid text.
Proof.
  unfold reflectText.
  destruct (default defaultReflectedEncoder (NewReflectedEncoder cfg) v) as [w [e|]] eqn:E.
  - destruct v; intros [= <-]; constructor.
  - apply (doc_reflect doc) in E. destruct v; intros [= <-]; try done. constructor.
Qed.

Lemma RO_reflectBuf i enc es r : RO i enc es -> RO i (setReflectBuf enc r) es.
Proof. done. Qed.

Lemma RA_reflectBuf i enc vs r : RA i enc vs -> RA i (setReflectBuf enc r) vs.
Proof. done. Qed.

(** The value of a text, as a function that appends it. *)
Lemma appends_text text : appends (fun enc => append text (addElementSeparator enc)) text.
Proof. done. Qed.

Lemma RO_text i enc es key text :
  RO i enc es -> valid text -> RO i (append text (addKey key enc)) (addMem key text es).
Proof.
  intros H Hv. pose proof (RO_add _ _ _ key _ _ H (appends_text text) Hv) as H'. simpl in H'.
  by rewrite sep_after_key in H'.
Qed.

Lemma addPrim_append key p enc : addPrim key p enc = appendPrim p (addKey key enc).
Proof. destruct p as [| | | | | |[]|]; done. Qed.

(** ** Every method *)

Lemma json_preserved :
  Preserved (E1 := jsonEncoders defaultReflectedEncoder)
            (E2 := treeEncoders defaultReflectedEncoder cfg) RO RA.
Proof.
  split; simpl.
  - intros i key p enc es H. rewrite addPrim_append.
    by apply RO_add; [|apply appends_prim|apply valid_prim].
  - intros i key v enc es H. apply (RO_add _ _ _ key _ _ H); [apply (appends_string AppendString); auto|apply valid_escaped].
  - intros i key d enc es H. apply RO_add; [done|apply appends_duration..].
  - intros i key t enc es H. apply RO_add; [done|apply appends_time..].
  - intros i key v enc es H. unfold AddReflected.
    destruct (encodeReflected_spec v enc) as [r ->]; [apply H|].
    destruct (reflectText _ _ v) as [text|e] eqn:E; simpl; split; try done.
    apply (RO_text i (setReflectBuf enc r)); [done|by eapply valid_reflected].
  - intros i key enc es H. unfold OpenNamespace. rewrite (addKey_RO _ _ _ _ H), append_append.
    eapply (RO_extend i enc es (Open key) (openNamespaces enc + 1)); try done; try apply H.
    simpl. by rewrite <- app_assoc.
  - intros key m1 m2 Hm i enc es H. unfold AddArray. eapply related_map.
    + apply AppendArray_related; [done|..]; rewrite (addKey_RO _ _ _ _ H); apply H.
    + intros s1 vs Ha. by eapply RO_nested.
  - intros key m1 m2 Hm i enc es H. unfold AddObject. eapply related_map.
    + apply AppendObject_related; [done|..]; rewrite (addKey_RO _ _ _ _ H); apply H.
    + intros s1 es' Ha. by eapply RO_nested.
  - intros i p enc vs H. apply RA_add; [done|apply appends_prim|apply valid_prim].
  - intros i d enc vs H. apply RA_add; [done|apply appends_duration..].
  - intros i t enc vs H. apply RA_add; [done|apply appends_time..].
  - intros i v enc vs H. unfold AppendReflected.
    destruct (encodeReflected_spec v enc) as [r ->]; [apply H|].
    destruct (reflectText _ _ v) as [text|e] eqn:E; simpl; split; try done.
    apply (RA_add i (setReflectBuf enc r) vs (fun enc => append text (addElementSeparator enc)) text);
      [done|apply appends_text|by eapply valid_reflected].
  - intros m1 m2 Hm i enc vs H. eapply related_map.
    + apply AppendArray_related; [done|apply H..].
    + intros s1 vs' Ha. by eapply RA_nested.
  - intros m1 m2 Hm i enc vs H. eapply related_map.
    + apply AppendObject_related; [done|apply H..].
    + intros s1 es' Ha. by eapply RA_nested.
Qed.

(** ** Entries *)

Definition levelEvents (ent : Entry.Entry) : list event :=
  match EncodeLevel cfg with
  | Some e =>
      if decide (LevelKey cfg = []) then []
      else addMem (LevelKey cfg)
             (configText (e (Entry.Level ent)) (quoted (escape (Level.String (Entry.Level ent))))) []
  | None => []
  end.

Definition timeEvents (ent : Entry.Entry) : list event :=
  if negb (bool_decide (TimeKey cfg = [])) && negb (IsZero (Entry.Time ent)) then
    addMem (TimeKey cfg) (timeText cfg (Entry.Time ent)) []
  else [].

Definition nameEvents (ent : Entry.Entry) : list event :=
  if negb (bool_decide (Entry.LoggerName ent = [])) && negb (bool_decide (NameKey cfg = [])) then
    addMem (NameKey cfg)
      (configText (default FullNameEncoder (EncodeName cfg) (Entry.LoggerName ent))
                  (quoted (escape (Entry.LoggerName ent)))) []
  else [].

Definition callerEvents (ent : Entry.Entry) : outcome (list event) :=
  if Entry.Defined (Entry.Caller ent) then
    let! es :=
      if decide (CallerKey cfg = []) then Ret []
      else
        match EncodeCaller cfg with
        | None => Panic (str "invalid memory address or nil pointer dereference")
        | Some e => Ret (addMem (CallerKey cfg)
                      (configText (e (Entry.Caller ent)) (quoted (escape (Entry.String (Entry.Caller ent))))) [])
        end in
    Ret (if decide (FunctionKey cfg = []) then es
         else addMem (FunctionKey cfg) (quoted (escape (Entry.Function (Entry.Caller ent)))) es)
  else Ret [].

Definition messageEvents (ent : Entry.Entry) : list event :=
  if decide (MessageKey cfg = []) then []
  else addMem (MessageKey cfg) (quoted (escape (Entry.Message ent))) [].

Definition stackMembers (ent : Entry.Entry) : list (bytes * json) :=
  if negb (bool_decide (Entry.Stack ent = [])) && negb (bool_decide (StacktraceKey cfg = [])) then
    [(StacktraceKey cfg, JText (quoted (escape (Entry.Stack ent))))]
  else [].

(** The members of the object that an entry is logged as: level, time, name, caller,
    function, message, the context with everything after it inside the namespaces
    that it left open, the entry's fields, and the stack trace outside of them. *)
Definition entryMembers (context : list event) (ent : Entry.Entry) (fields : list Field)
    : outcome (list (bytes * json)) :=
  let! caller := callerEvents ent in
  let header := levelEvents ent ++ timeEvents ent ++ nameEvents ent ++ caller ++ messageEvents ent in
  let! (_, es) := @runObj _ _ (treeEncoders defaultReflectedEncoder cfg) (Field.addFields fields)
                    (header ++ context) in
  Ret (build es ++ stackMembers ent).

Lemma RO_config i enc es : RO i enc es -> config enc = cfg.
Proof. by intros [? _]. Qed.

Lemma RO_string i enc es key s :
  RO i enc es -> RO i (AppendString s (addKey key enc)) (addMem key (quoted (escape s)) es).
Proof. intros H. apply RO_add; [done|apply appends_string; auto|apply valid_escaped]. Qed.

(** A header field from a function of the configuration. *)
Lemma RO_configured i enc es key ops s :
  RO i enc es -> configOps ops \/ ops = [] ->
  RO i (let enc := addKey key enc in
        let enc' := runPrimOps ops enc in
        if unchanged enc enc' then AppendString s enc' else enc')
     (addMem key (configText ops (quoted (escape s))) es).
Proof.
  intros H Hops.
  destruct (appends_config ops (AppendString s) (quoted (escape s)) Hops) as [Ha Hv].
  - by apply appends_string; auto.
  - apply valid_escaped.
  - exact (RO_add _ _ _ key _ _ H Ha Hv).
Qed.

Lemma RO_level i enc es ent :
  RO i enc es -> RO i (entryLevel ent enc) (es ++ levelEvents ent).
Proof.
  intros H. unfold entryLevel, levelEvents. rewrite (RO_config _ _ _ H). cbv zeta.
  destruct (EncodeLevel cfg) as [e|] eqn:E; [|by rewrite app_nil_r].
  case_decide; [by rewrite app_nil_r|].
  apply (RO_configured _ _ _ _ (e (Entry.Level ent))); [done|]. left. by constructor.
Qed.

Lemma RO_time i enc es ent :
  RO i enc es -> RO i (entryTime ent enc) (es ++ timeEvents ent).
Proof.
  intros H. unfold entryTime, timeEvents. rewrite (RO_config _ _ _ H).
  destruct (_ && _); [|by rewrite app_nil_r]. apply RO_add; [done|apply appends_time..].
Qed.

Lemma RO_name i enc es ent :
  RO i enc es -> RO i (entryName ent enc) (es ++ nameEvents ent).
Proof.
  intros H. unfold entryName, nameEvents. rewrite (RO_config _ _ _ H). cbv zeta.
  destruct (_ && _); [|by rewrite app_nil_r].
  destruct (EncodeName cfg) as [e|] eqn:E; simpl default.
  - apply (RO_configured _ _ _ _ (e (Entry.LoggerName ent))); [done|]. left. by constructor.
  - unfold FullNameEncoder, appendString. cbn [configText opText primText].
    assert (AppendString (Entry.LoggerName ent) (addKey (NameKey cfg) enc) =
      runPrimOps [PrimOp (PString (Entry.LoggerName ent))] (addKey (NameKey cfg) enc)) as <- by done.
    assert (config (addKey (NameKey cfg) enc) = cfg) as Hc by (rewrite (addKey_RO _ _ _ _ H); apply H).
    rewrite (appends_string AppendString (Entry.LoggerName ent) (or_introl eq_refl) _ Hc) at 1.
    rewrite unchanged_append by done. by apply RO_string.
Qed.

Lemma RO_message i enc es ent :
  RO i enc es -> RO i (entryMessage ent enc) (es ++ messageEvents ent).
Proof.
  intros H. unfold entryMessage, messageEvents. rewrite (RO_config _ _ _ H).
  case_decide; [by rewrite app_nil_r|]. by apply RO_string.
Qed.

Lemma RO_caller i enc es ent :
  RO i enc es ->
  match callerEvents ent with
  | Ret ces => exists enc', entryCaller ent enc = Ret enc' /\ RO i enc' (es ++ ces)
  | Panic v => entryCaller ent enc = Panic v
  | Diverge => False
  end.
Proof.
  intros H. unfold entryCaller, callerEvents. rewrite (RO_config _ _ _ H).
  destruct (Entry.Defined (Entry.Caller ent)); [|exists enc; by rewrite app_nil_r].
  assert (forall enc' es', RO i enc' (es ++ es') -> exists enc'',
    Ret (if decide (FunctionKey cfg = []) then enc'
         else AppendString (Entry.Function (Entry.Caller ent)) (addKey (FunctionKey cfg) enc')) = Ret enc'' /\
    RO i enc'' (es ++ if decide (FunctionKey cfg = []) then es'
         else addMem (FunctionKey cfg) (quoted (escape (Entry.Function (Entry.Caller ent)))) es')) as Hf.
  { intros enc' es' H'. eexists. split; [done|]. case_decide; [done|].
    unfold addMem. rewrite app_assoc. by apply RO_string. }
  destruct (decide (CallerKey cfg = [])); simpl.
  - apply Hf. by rewrite app_nil_r.
  - destruct (EncodeCaller cfg) as [e|] eqn:E; simpl; [|done].
    apply Hf. apply (RO_configured _ _ _ _ (e (Entry.Caller ent))); [done|]. left. by constructor.
Qed.

(** Copying the context behind the header. *)
Lemma RO_context hs ces enc final :
  RO ([x7b], openNamespaces enc) final hs -> opens hs = 0%nat -> RO ([], 0) enc ces ->
  RO ([x7b], 0)
     (if 0 <? lenZ (buf enc) then append (buf enc) (addElementSeparator final) else final) (hs ++ ces).
Proof.
  intros H Hh (_ & _ & Hb & _ & Hn & Hg). simpl in Hb, Hn.
  destruct ces as [|c ces].
  - rewrite Hb. simpl. rewrite app_nil_r. destruct H as (? & ? & ? & ? & Hn' & ?).
    do 4 (split; [done|]). split; [rewrite Hn', Hn; simpl; lia|done].
  - assert (buf enc <> []) as Hne.
    { rewrite Hb. unfold renderEvents. simpl. destruct c; norm; done. }
    rewrite (proj2 (Z.ltb_lt 0 (lenZ (buf enc)))) by (destruct (buf enc); [done|]; unfold lenZ; simpl; lia).
    rewrite (RO_sep _ _ _ H), append_append. destruct H as (Hc & Hs & Hb' & Hp & Hn' & Hg').
    split; [done|]. split; [done|]. split; [|split; [done|split]].
    + simpl buf. rewrite Hb', Hb. simpl fst. rewrite <- app_assoc. f_equal. unfold renderEvents.
      by rewrite renderFrom_app.
    + simpl. rewrite Hn', Hn, opens_app, Hh. simpl. lia.
    + by apply Forall_app.
Qed.

Lemma goodEvents_members ms : Forall goodEvent (members ms) <-> Forall valid (map (render sp) ms.*2).
Proof.
  induction ms as [|m ms IH]; simpl; [by split; constructor|].
  rewrite !Forall_cons. by rewrite IH.
Qed.

Lemma RO_close pre enc es :
  RO (pre, 0) enc es -> RO (pre, 0) (closeOpenNamespaces enc) (members (build es)).
Proof.
  intros (Hc & Hs & Hb & Hp & Hn & Hg). unfold closeOpenNamespaces. rewrite closeLoop_append.
  assert (Z.to_nat (openNamespaces enc) = opens es) as -> by (rewrite Hn; simpl; lia).
  split; [done|]. split; [done|]. split; [|split; [done|split]].
  - simpl buf. rewrite Hb. simpl fst. rewrite <- app_assoc. f_equal.
    rewrite render_members. unfold renderEvents. by rewrite render_close.
  - by rewrite opens_members.
  - by apply goodEvents_members, goodEvents_valid.
Qed.

Lemma valid_members pre enc ms : RO (pre, 0) enc (members ms) -> valid (render sp (JObj ms)).
Proof. intros (_ & _ & _ & _ & _ & Hg). by apply valid_JObj, goodEvents_members. Qed.

Lemma opens_addMem k t es : opens (addMem k t es) = opens es.
Proof. unfold addMem. rewrite opens_app. simpl. lia. Qed.

Lemma opens_header ent ces :
  callerEvents ent = Ret ces ->
  opens (levelEvents ent ++ timeEvents ent ++ nameEvents ent ++ ces ++ messageEvents ent) = 0%nat.
Proof.
  intros Hc. rewrite !opens_app.
  assert (opens ces = 0%nat) as ->.
  { revert Hc. unfold callerEvents.
    repeat (case_match; simpl; try done); intros [= <-]; by rewrite ?opens_addMem. }
  unfold levelEvents, timeEvents, nameEvents, messageEvents.
  repeat case_match; simpl; lia.
Qed.

Lemma RO_stack enc ms ent :
  RO ([x7b], 0) enc (members ms) ->
  RO ([x7b], 0)
    (if negb (bool_decide (Entry.Stack ent = [])) && negb (bool_decide (StacktraceKey (config enc) = []))
     then AddString (StacktraceKey (config enc)) (Entry.Stack ent) enc else enc)
    (members (ms ++ stackMembers ent)).
Proof.
  intros H. rewrite (RO_config _ _ _ H). unfold stackMembers, members.
  destruct (_ && _); [|by rewrite app_nil_r]. rewrite map_app. by apply RO_string.
Qed.

(** The header, the context, the fields and the stack trace. *)
Lemma EncodeEntry_spec enc ces ent fields :
  RO ([], 0) enc ces ->
  match entryMembers ces ent fields with
  | Ret ms => EncodeEntry defaultReflectedEncoder enc ent fields =
                Ret (render sp (JObj ms) ++ LineEnding cfg, None) /\ valid (render sp (JObj ms))
  | Panic v => EncodeEntry defaultReflectedEncoder enc ent fields = Panic v
  | Diverge => False
  end.
Proof.
  intros Henc. unfold EncodeEntry, entryMembers. cbv zeta.
  assert (RO ([x7b], openNamespaces enc) (append [x7b] (clone enc)) []) as H0.
  { destruct Henc as (Hc & Hs & _). unfold RO. simpl. repeat split; auto; lia. }
  apply RO_level with (ent := ent), RO_time with (ent := ent), RO_name with (ent := ent) in H0.
  pose proof (RO_caller _ _ _ ent H0) as Hcall.
  destruct (callerEvents ent) as [cs|v|] eqn:Ec; [|by rewrite Hcall|done].
  destruct Hcall as (f1 & -> & H1). cbn [obind].
  apply RO_message with (ent := ent) in H1. simpl app in H1.
  rewrite <- !app_assoc in H1.
  pose proof (RO_context _ ces enc _ H1 (opens_header ent cs Ec) Henc) as H2.
  destruct (runObj_related RO RA json_preserved (Field.addFields fields) _ _ _ H2)
    as [e final es H3|v]; cbn [obind]; [|done].
  apply RO_close, (RO_stack _ _ ent) in H3. revert H3.
  match goal with |- RO _ ?x _ -> _ => generalize x end. intros enc' H3.
  split; [|by eapply valid_members].
  destruct H3 as (Hc & Hs & Hb & _). simpl buf. by rewrite Hc, Hb, render_members.
Qed.
End refinement.

(** * Theorems *)

Section theorems.
Context {std : GoStd} (defaultReflectedEncoder : ReflectedEncoder).

Lemma RO_new cfg sp :
  RO (config (newJSONEncoder defaultReflectedEncoder cfg sp)) sp ([], 0)
     (newJSONEncoder defaultReflectedEncoder cfg sp) [].
Proof. unfold RO. simpl. repeat split; auto. Qed.

(** C1: a new JSON encoder that was given any context fields encodes any entry with
    any fields, marshalers, namespaces and failing or panicking values included, as
    one line: the rendering of exactly the tree of members that the entry stands for
    ([entryMembers]), which is a valid JSON object, followed by the line ending.  It
    panics exactly when a marshaler (or a missing caller encoder) does.  It relies on
    [Documented]: what the standard library and the reflected encoder print, time layouts
    without quotes, and functions of the configuration that call the encoder at most once. *)
Theorem EncodeEntry_renders cfg sp context ent fields e enc
    (doc : Documented defaultReflectedEncoder (config (newJSONEncoder defaultReflectedEncoder cfg sp)))
    (Hctx : @runObj _ _ (jsonEncoders defaultReflectedEncoder) (Field.addFields context)
              (newJSONEncoder defaultReflectedEncoder cfg sp) = Ret (e, enc)) :
  exists ces,
    @runObj _ _ (treeEncoders defaultReflectedEncoder (config enc)) (Field.addFields context) [] = Ret (e, ces) /\
    match entryMembers defaultReflectedEncoder (config enc) ces ent fields with
    | Ret ms => EncodeEntry defaultReflectedEncoder enc ent fields =
                  Ret (render sp (JObj ms) ++ LineEnding (config enc), None) /\ valid (render sp (JObj ms))
    | Panic v => EncodeEntry defaultReflectedEncoder enc ent fields = Panic v
    | Diverge => False
    end.
Proof.
  pose proof (runObj_related _ _ (json_preserved _ _ sp doc) (Field.addFields context) _ _ _
    (RO_new cfg sp)) as H.
  rewrite Hctx in H. apply related_ret_inv in H as (ces & Ht & HRO).
  assert (config enc = config (newJSONEncoder defaultReflectedEncoder cfg sp)) as Ec by apply HRO.
  exists ces. rewrite Ec. split; [done|]. by apply EncodeEntry_spec.
Qed.
End theorems.

(** The JSON encoder adds no panics of its own, if its reflected encoders' errors
    have a message. *)
Lemma json_transparent {std : GoStd} (d : ReflectedEncoder)
    (Hd : forall cfg v, okErr never (default d (NewReflectedEncoder cfg) v).2) :
  Transparent (jsonEncoders d).
Proof.
  assert (forall v enc, match (encodeReflected d v enc).1 with inl _ => True | inr e => okErr never (Some e) end) as HR.
  { intros v enc. unfold encodeReflected.
    pose proof (Hd (config enc) v) as H. destruct v; try done; simpl;
      destruct (default d (NewReflectedEncoder (config enc)) _) as [? [?|]]; done. }
  split; simpl.
  - intros key v enc. unfold AddReflected. specialize (HR v enc).
    by destruct (encodeReflected d v enc) as [[t|e] enc'].
  - intros P key m enc Hm. unfold AddArray, AppendArray. apply returns_bind; auto.
  - intros P key m enc Hm. unfold AddObject, AppendObject. apply returns_bind; auto.
  - intros v enc. unfold AppendReflected. specialize (HR v enc).
    by destruct (encodeReflected d v enc) as [[t|e] enc'].
  - intros P m enc Hm. unfold AppendArray. apply returns_bind; auto.
  - intros P m enc Hm. unfold AppendObject. apply returns_bind; auto.
Qed.

(** * A configuration *)

Lemma itoa_verbatim i : Forall verbatim (itoa i).
Proof.
  assert (forall b, is_digit b -> verbatim b) as Hd.
  { intros b [d Hd]. destruct b; vm_compute in Hd; try discriminate Hd; by split. }
  destruct (itoa_shape i) as (ds & [-> | ->] & _ & Hds).
  - eapply Forall_impl; eauto.
  - constructor; [by split|]. eapply Forall_impl; eauto.
Qed.

Section demo.
#[local] Existing Instance Level.asciiStd.

(** As encoding/json prints a struct with a large float and a string outside the basic plane
    that was escaped. *)
Definition demoValue : bytes :=
  [x7b; x22; x76; x22; x3a] ++ str "1e+21" ++ [x2c; x22; x73; x22; x3a; x22] ++ str "\ud83d\ude00" ++ [x22; x7d].

Definition demoReflected : ReflectedEncoder := fun v =>
  match v with
  | VNil => (str "null" ++ [x0a], None)
  | _ => (demoValue ++ [x0a], None)
  end.

Lemma demoValue_valid : valid demoValue.
Proof.
  assert (forall b, bool_decide (b ∈ str "0123456789") = true -> is_digit b) as Hd.
  { intros b. destruct b; vm_compute; try discriminate; intros _; by eexists. }
  apply (valid_spaced_object false [(str "v", str "1e+21"); (str "s", quoted (str "\ud83d\ude00"))]).
  - repeat constructor.
  - repeat apply Forall_cons_2; [apply valid_number|apply valid_string|constructor].
    + exists [], (str "1"), [], (str "e+21"). split_and!; try done; [by left| |right; by exists x31, []|by left|right].
      * apply Forall_singleton. by apply Hd.
      * exists x65, [x2b], (str "21"). split_and!; try done; [by left|right; by left|]. repeat apply Forall_cons_2; try done; by apply Hd.
    + repeat (apply body_unicode; [done|]). constructor.
Qed.

Lemma demo_reflect_valid v w : demoReflected v = (w, None) -> valid (trimNewline w).
Proof.
  destruct v; intros [= <-]; first [exact demoValue_valid|exact valid_null].
Qed.

Definition demoConfig : EncoderConfig :=
  mkConfig (str "msg") (str "level") (str "ts") (str "logger") (str "caller") [] (str "stack") false []
    (Some LowercaseLevelEncoder) (Some ISO8601TimeEncoder) (Some NanosDurationEncoder)
    (Some ShortCallerEncoder) None None [].

(** Any configuration of lawful functions and the demonstration's reflection. *)
Lemma demo_documented_of cfg :
  NewReflectedEncoder cfg = None \/ NewReflectedEncoder cfg = Some demoReflected ->
  lawful cfg -> Documented demoReflected cfg.
Proof.
  intros Hr Hl. split; [..|done].
  - intros f bits _ _ _. apply number_itoa.
  - intros f bits. apply itoa_verbatim.
  - intros ops t layout _ _. apply body_verbatim, itoa_verbatim.
  - intros v w. destruct Hr as [-> | ->]; apply demo_reflect_valid.
Qed.

Lemma demo_documented : Documented demoReflected (config (newJSONEncoder demoReflected demoConfig false)).
Proof.
  apply demo_documented_of; [by right|].
  split; simpl; intros f x [= <-]; unfold atMostOne; simpl; lia.
Qed.

Definition demoEntry : Entry.Entry :=
  Entry.mkEntry Level.InfoLevel (mkTime 5 UTC) (str "main") (str "hello") Entry.noCaller [].

(** With a field, a namespace and an error in it as context. *)
Definition demoContext : list Field :=
  [Field.Int (str "n") 7; Field.Namespace (str "ns"); Field.Error (Some (New_error (str "bad")))].

Definition demoEncoder : jsonEncoder :=
  match @runObj _ _ (jsonEncoders demoReflected) (Field.addFields demoContext)
          (newJSONEncoder demoReflected demoConfig false) with
  | Ret (_, enc) => enc
  | _ => newJSONEncoder demoReflected demoConfig false
  end.

(** A slice of booleans, and a struct that is reflected. *)
Definition demoFields : list Field :=
  [Field.Any (str "k") (VSlice TBool [true; false]); Field.Any (str "r") (VOther 1)].

Lemma EncodeEntry_renders_witness :
  exists text, EncodeEntry demoReflected demoEncoder demoEntry demoFields =
      Ret (text ++ [x0a], None) /\ valid text /\
    text = render false (JObj
      [(str "level", JText (quoted (str "info"))); (str "ts", JText (quoted (str "5")));
       (str "logger", JText (quoted (str "main"))); (str "msg", JText (quoted (str "hello")));
       (str "n", JText (str "7"));
       (str "ns", JObj [(str "error", JText (quoted (str "bad")));
                        (str "k", JArr [JText (str "true"); JText (str "false")]);
                        (str "r", JText demoValue)])]).
Proof.
  destruct (EncodeEntry_renders demoReflected demoConfig false demoContext demoEntry
    demoFields None demoEncoder demo_documented eq_refl)
    as (ces & Hces & H).
  vm_compute in Hces. injection Hces as <-.
  eexists. split; [exact (proj1 H)|]. split; [exact (proj2 H)|]. reflexivity.
Defined.
End demo.
End JsonRefinement.
