(* ===== verification/JsonLines.v ===== *)
(** Log files of JSON lines: the JSON encoder (JsonRefinement.v) over a buffered write syncer
    (BufferedWriteSyncer.v), as [ioCore] puts them together. *)

From Stdlib Require Import ZArith Lia.
From S2P Require Import Prelude Strconv GoStd Level WriteSyncer Bufio BufferedWriteSyncer JsonString Encode Field Entry EncoderConfig JsonEncoder JsonTree JsonRefinement ZTest.
From stdpp Require Import base list relations.

Local Open Scope Z_scope.
Local Open Scope zap_scope.

Module JsonLines.
Import Encode JsonTree.

(** * A JSON text is on one line *)

Definition inLine (b : byte) : Prop := b <> x0a.

Lemma no_newline s : Forall inLine s -> x0a ∉ s.
Proof. intros H Hin. rewrite Forall_forall in H. by specialize (H x0a Hin). Qed.

Lemma plain_inLine b : JsonString.plain b = true -> inLine b.
Proof. by intros H ->. Qed.

Lemma hexDigit_inLine b : JsonString.hexDigit b = true -> inLine b.
Proof. by intros H ->. Qed.

Lemma escape_inLine e : e ∈ [x22; x5c; x2f; x62; x66; x6e; x72; x74] -> inLine e.
Proof. intros H ->. apply (bool_decide_eq_true_2 _) in H. vm_compute in H. discriminate H. Qed.

(** The body of a string has no newline. *)
Lemma body_inLine s : JsonString.stringBody s -> Forall inLine s.
Proof.
  induction 1 as [|b s Hb _ IH|e s He _ IH|h1 h2 h3 h4 s Hh _ IH]; [done|..]; repeat apply Forall_cons_2; try done;
    try done.
  - by apply plain_inLine.
  - by apply escape_inLine.
  - cbn in Hh. apply andb_prop in Hh as [Hh _]. by apply hexDigit_inLine.
  - cbn in Hh. apply andb_prop in Hh as [_ [Hh _]%andb_prop]. by apply hexDigit_inLine.
  - cbn in Hh. apply andb_prop in Hh as [_ [_ [Hh _]%andb_prop]%andb_prop]. by apply hexDigit_inLine.
  - cbn in Hh. apply andb_prop in Hh as [_ [_ [_ [Hh _]%andb_prop]%andb_prop]%andb_prop]. by apply hexDigit_inLine.
Qed.

Lemma is_digit_inLine b : Strconv.is_digit b -> inLine b.
Proof. intros [d Hd] ->. by vm_compute in Hd. Qed.

Lemma digits_inLine ds : Forall Strconv.is_digit ds -> Forall inLine ds.
Proof. intros H. eapply Forall_impl; [exact H|]. apply is_digit_inLine. Qed.

Lemma number_inLine s : number s -> Forall inLine s.
Proof.
  intros (sign & int & frac & exp & -> & Hs & Hi & _ & Hf & He). rewrite !Forall_app. split_and!.
  - destruct Hs as [-> | ->]; [done|]. by apply Forall_singleton.
  - by apply digits_inLine.
  - destruct Hf as [-> |(ds & -> & _ & Hd)]; [done|]. apply Forall_cons_2; [done|].
    by apply digits_inLine.
  - destruct He as [-> |(e & pm & ds & -> & He & Hpm & _ & Hd)]; [done|]. apply Forall_cons_2; [|apply Forall_app; split].
    + by destruct He as [-> | ->].
    + destruct Hpm as [-> |[-> | ->]]; [done|..]; by apply Forall_singleton.
    + by apply digits_inLine.
Qed.

Lemma join_inLine sep l : Forall inLine sep -> Forall (Forall inLine) l -> Forall inLine (join sep l).
Proof.
  intros Hs Hl. induction Hl as [|x l Hx Hl IH]; [done|]. destruct l as [|y l]; [done|].
  rewrite join_cons, !Forall_app by done. auto.
Qed.

Lemma bracketed_inLine a s b : inLine a -> inLine b -> Forall inLine s -> Forall inLine ([a] ++ s ++ [b]).
Proof. intros. rewrite !Forall_app, !Forall_singleton. auto. Qed.

Lemma quoted_inLine s : Forall inLine s -> Forall inLine (quoted s).
Proof. by apply bracketed_inLine. Qed.

Lemma blank_inLine w : Forall blank w -> Forall inLine w.
Proof. intros H. eapply Forall_impl; [exact H|]. by intros b [-> | ->]. Qed.

Lemma padded_inLine p : blanks p -> Forall inLine (token p) -> Forall inLine (paddedText p).
Proof. intros [Hl Ht] H. unfold paddedText. rewrite !Forall_app. auto using blank_inLine. Qed.

Lemma pair_inLine m :
  blanks m.1 /\ stringToken m.1 /\ blanks m.2 -> Forall inLine (token m.2) -> Forall inLine (pairText m).
Proof.
  intros (Hk & (body & Hb & Hs) & Hv) H. unfold pairText. rewrite !Forall_app. split_and!.
  - apply padded_inLine; [done|]. rewrite Hb. by apply quoted_inLine, body_inLine.
  - by apply Forall_singleton.
  - by apply padded_inLine.
Qed.

Lemma valid_inLine : forall s, valid s -> Forall inLine s.
Proof.
  fix IH 2. intros s Hs. destruct Hs as [| | |s Hs|body Hb|w Hw|vs Hb Hvs|w Hw|ms Hb Hvs].
  - repeat apply Forall_cons_2; done.
  - repeat apply Forall_cons_2; done.
  - repeat apply Forall_cons_2; done.
  - by apply number_inLine.
  - by apply quoted_inLine, body_inLine.
  - apply bracketed_inLine; [done..|]. by apply blank_inLine.
  - assert (Forall (Forall inLine) (map token vs)) as Hv by (induction Hvs; constructor; auto).
    apply bracketed_inLine; [done..|]. apply join_inLine; [by apply Forall_singleton|]. clear Hvs.
    induction vs as [|v vs IHvs]; [constructor|]. apply Forall_cons in Hb as [? ?], Hv as [? ?].
    constructor; [by apply padded_inLine|auto].
  - apply bracketed_inLine; [done..|]. by apply blank_inLine.
  - assert (Forall (Forall inLine) (map (fun m => token m.2) ms)) as Hv by (induction Hvs; constructor; auto).
    apply bracketed_inLine; [done..|]. apply join_inLine; [by apply Forall_singleton|]. clear Hvs.
    induction ms as [|m ms IHms]; [constructor|]. apply Forall_cons in Hb as [? ?], Hv as [? ?].
    constructor; [by apply pair_inLine|auto].
Qed.

(** * The file *)

Definition terminated (object : bytes) : bytes := object ++ [x0a].

Lemma terminated_lines objects :
  Forall valid objects -> ZTest.Lines (concat (map terminated objects)) = objects.
Proof.
  intros H. apply ZTest.Lines_lines. eapply Forall_impl; [done|]. intros o Ho. by apply no_newline, valid_inLine.
Qed.

Section file.
Context {W : Type} {std : GoStd} {ME : Multierr} (WS : WriteSyncer.WriteSyncer W).
Context (Hok : Bufio.NeverFails (WriteSyncer.Write (W := W) WS)).
Context (d : EncoderConfig.ReflectedEncoder) (cfg : EncoderConfig.EncoderConfig) (sp : bool).

Let root : JsonEncoder.jsonEncoder := JsonEncoder.newJSONEncoder d cfg sp.

(** The encoders of the loggers that [With] derives. *)
Inductive derived : JsonEncoder.jsonEncoder -> Prop :=
| derived_root : derived root
| derived_with enc fields e enc' :
    derived enc ->
    @runObj _ _ (JsonEncoder.jsonEncoders d) (Field.addFields fields) (JsonEncoder.Clone enc) = Ret (e, enc') ->
    derived enc'.

(** What a core with such an encoder writes for an entry. *)
Definition encoded (m : bytes) : Prop :=
  exists enc ent fields, derived enc /\ JsonEncoder.EncodeEntry d enc ent fields = Ret (m, None).

Lemma derived_events enc :
  JsonRefinement.Documented d (JsonEncoder.config root) -> derived enc ->
  exists ces, JsonRefinement.RO (JsonEncoder.config root) sp ([], 0) enc ces.
Proof.
  intros doc. induction 1 as [|enc fields e enc' _ (ces & HRO) Hw]; [exists []; apply JsonRefinement.RO_new|].
  assert (JsonRefinement.RO (JsonEncoder.config root) sp ([], 0) (JsonEncoder.Clone enc) ces) as HC by exact HRO.
  pose proof (runObj_related _ _ (JsonRefinement.json_preserved _ _ sp doc) (Field.addFields fields) _ _ _ HC) as H.
  rewrite Hw in H. apply related_ret_inv in H as (ces' & _ & H). by exists ces'.
Qed.

Lemma encoded_line m :
  JsonRefinement.Documented d (JsonEncoder.config root) -> EncoderConfig.LineEnding (JsonEncoder.config root) = [x0a] ->
  encoded m -> exists object, m = terminated object /\ valid object.
Proof.
  intros doc Hend (enc & ent & fields & Hd & Henc). destruct (derived_events enc doc Hd) as (ces & HRO).
  pose proof (JsonRefinement.EncodeEntry_spec d _ sp doc enc ces ent fields HRO) as Hs.
  destruct (JsonRefinement.entryMembers _ _ _ _ _) as [ms|v|]; [|congruence|done].
  destruct Hs as [Hs Hv]. rewrite Henc in Hs. injection Hs as ->.
  eexists. split; [|exact Hv]. unfold terminated. by rewrite <- Hend.
Qed.

Lemma encoded_lines ms :
  JsonRefinement.Documented d (JsonEncoder.config root) -> EncoderConfig.LineEnding (JsonEncoder.config root) = [x0a] ->
  Forall encoded ms -> exists objects, ms = map terminated objects /\ Forall valid objects.
Proof.
  intros doc Hend. induction 1 as [|m ms Hm _ (objects & -> & Hv)]; [by exists []|].
  destruct (encoded_line m doc Hend Hm) as (o & -> & Ho). exists (o :: objects). by split; [|constructor].
Qed.

(** A log of JSON lines is always whole.  Entries that a JSON encoder has encoded, with any
    context and fields, are written to a buffered syncer by any number of goroutines, while
    it flushes in the background, is synced and stopped; when the file behind it takes
    what it is given, in every reachable state what has been delivered is a sequence of
    complete lines, each of them one valid JSON object,
    and reading it by line gives the objects of the first entries in order; those of the
    other entries are, just so, in the buffer. *)
Theorem json_log_whole_lines (σ : BufferedWriteSyncer.System W) :
  JsonRefinement.Documented d (JsonEncoder.config root) -> EncoderConfig.LineEnding (JsonEncoder.config root) = [x0a] ->
  BufferedWriteSyncer.reachable WS σ -> Forall encoded (map fst (BufferedWriteSyncer.writes σ)) ->
  exists delivered waiting,
    map fst (BufferedWriteSyncer.writes σ) = map terminated (delivered ++ waiting) /\
    Forall valid (delivered ++ waiting) /\
    concat (map Bufio.arg (BufferedWriteSyncer.trace σ)) = concat (map terminated delivered) /\
    ZTest.Lines (concat (map Bufio.arg (BufferedWriteSyncer.trace σ))) = delivered /\
    ZTest.Lines (BufferedWriteSyncer.buffered (BufferedWriteSyncer.bws σ)) = waiting.
Proof.
  intros doc Hend Hr Henc.
  destruct (BufferedWriteSyncer.reachable_whole WS Hok σ Hr) as [_ (groups & rest & Hms & Htr & Hb)].
  destruct (encoded_lines _ doc Hend Henc) as (objects & Ho & Hv). rewrite Ho in Hms.
  apply map_eq_app in Hms as (delivered & waiting & -> & Hd & Hw). exists delivered, waiting.
  apply Forall_app in Hv as [Hvd Hvw].
  assert (concat (map Bufio.arg (BufferedWriteSyncer.trace σ)) = concat (map terminated delivered)) as Hc.
  { rewrite Htr, Hd. clear. induction groups as [|g gs IH]; [done|]. simpl. by rewrite IH, concat_app. }
  rewrite Hc, Hb, <- Hw. split; [done|]. split; [by apply Forall_app|]. split; [done|].
  split; by apply terminated_lines.
Qed.
End file.

(** * Two entries and a small buffer *)

Section demo.
#[local] Existing Instances Level.asciiStd flat_multierr flat_multierr_spec.
Import JsonRefinement BufferedWriteSyncer.

Definition demoLine : bytes :=
  match JsonEncoder.EncodeEntry demoReflected demoEncoder demoEntry [] with
  | Ret (line, _) => line
  | _ => []
  end.

(** The system after one more [Write]. *)
Definition written (m : bytes) (σ : System bytes) : System bytes :=
  match Write (spy memSyncer) (bws σ) m (world σ, trace σ) with
  | Ret ((n, _), s, (w, tr)) => mkSystem s w tr (writes σ ++ [(m, n)]) (stops σ)
  | _ => σ
  end.

Definition demoLog : System bytes := written demoLine (written demoLine (initial 128 0 None [])).

Lemma written_reachable m σ :
  reachable memSyncer σ ->
  match Write (spy memSyncer) (bws σ) m (world σ, trace σ) with Ret _ => true | _ => false end = true ->
  reachable memSyncer (written m σ).
Proof.
  intros (size & int & clock & w0 & H) Hret. exists size, int, clock, w0. eapply rtc_r; [exact H|].
  unfold written. destruct σ as [s w tr ws ss]. cbn [bws world trace writes stops] in *.
  destruct (Write _ s m (w, tr)) as [[[[n e] s'] [w' tr']]| |] eqn:E; [|discriminate Hret..].
  by eapply step_write.
Qed.

Lemma demoLog_reachable : reachable memSyncer demoLog.
Proof.
  apply written_reachable; [apply written_reachable|]; [|vm_compute; reflexivity..].
  exists 128, 0, None, []. apply rtc_refl.
Qed.

Lemma demoLine_encoded : encoded demoReflected demoConfig false demoLine.
Proof.
  exists demoEncoder, demoEntry, []. split; [|vm_compute; reflexivity].
  apply (derived_with _ _ _ (JsonEncoder.newJSONEncoder demoReflected demoConfig false) demoContext None); [apply derived_root|].
  assert (JsonEncoder.Clone (JsonEncoder.newJSONEncoder demoReflected demoConfig false) =
          JsonEncoder.newJSONEncoder demoReflected demoConfig false) as E by reflexivity.
  rewrite E. exact eq_refl.
Qed.

Lemma demoLog_encoded : Forall (encoded demoReflected demoConfig false) (map fst (writes demoLog)).
Proof.
  assert (map fst (writes demoLog) = [demoLine; demoLine]) as E by (vm_compute; reflexivity). rewrite E.
  apply Forall_cons_2; [exact demoLine_encoded|]. apply Forall_singleton. exact demoLine_encoded.
Qed.

(** The second line did not fit, so the first is on disk and the second waits. *)
Lemma demoLog_lines :
  ZTest.Lines (concat (map Bufio.arg (trace demoLog))) = ZTest.Lines demoLine /\
  ZTest.Lines (buffered (bws demoLog)) = ZTest.Lines demoLine /\
  length (ZTest.Lines demoLine) = 1%nat.
Proof. vm_compute. repeat split; reflexivity. Qed.

Lemma json_log_whole_lines_witness :
  exists delivered waiting, length delivered = 1%nat /\ length waiting = 1%nat /\
    Forall valid (delivered ++ waiting) /\
    ZTest.Lines (concat (map Bufio.arg (trace demoLog))) = delivered /\
    ZTest.Lines (buffered (bws demoLog)) = waiting.
Proof.
  destruct (json_log_whole_lines memSyncer memSyncer_never_fails demoReflected demoConfig false demoLog
    demo_documented eq_refl demoLog_reachable demoLog_encoded) as (delivered & waiting & _ & Hv & _ & Hd & Hw).
  destruct demoLog_lines as (E1 & E2 & E3). exists delivered, waiting.
  split; [exact (eq_trans (f_equal length (eq_trans (eq_sym Hd) E1)) E3)|].
  split; [exact (eq_trans (f_equal length (eq_trans (eq_sym Hw) E2)) E3)|].
  exact (conj Hv (conj Hd Hw)).
Defined.
End demo.
End JsonLines.
