(* ===== verification/MemoryEncoder.v ===== *)
(** The in-memory encoder, zapcore/memory_encoder.go.

    [MapObjectEncoder] holds two pointers to Go maps, the outermost one and the one
    of the namespace that is being written, so maps live in a heap that all encoders
    share and a map that is stored as a value is a pointer to it. *)

From Stdlib Require Import ZArith Lia.
From S2P Require Import Prelude GoStd Encode Field.
From stdpp Require Import base list gmap.

Local Open Scope Z_scope.
Local Open Scope zap_scope.

Module MemoryEncoder.
Import Encode.

(** The values that the encoder stores: each keeps its Go type. *)
Inductive mval :=
| MPrim (p : prim)
| MBinary (v : bytes)
| MDuration (d : Z)
| MTime (t : Time)
| MReflected (v : any)
| MSlice (elems : list mval)
| MMap (ref : nat).

Abbreviation gomap := (gmap bytes mval).

Record MapObjectEncoder := mkMapEncoder { Fields : nat; cur : nat }.

(** An object encoder and an array encoder with the heap that they work on. *)
Definition mapState : Type := list gomap * MapObjectEncoder.
Definition sliceState : Type := list gomap * list mval.

Definition NewMapObjectEncoder (h : list gomap) : mapState :=
  let m := length h in (h ++ [∅], mkMapEncoder m m).

(** [m.cur[k] = v]. *)
Definition set (k : bytes) (v : mval) (s : mapState) : mapState :=
  let '(h, m) := s in (alter (<[k := v]>) (cur m) h, m).

Definition AddArray (key : bytes) (v : sliceState -> outcome (error * sliceState)) (s : mapState)
    : outcome (error * mapState) :=
  let '(h, m) := s in
  let! (err, (h, elems)) := v (h, []) in
  Ret (err, set key (MSlice elems) (h, m)).

Definition AddObject (k : bytes) (v : mapState -> outcome (error * mapState)) (s : mapState)
    : outcome (error * mapState) :=
  let '(h, m) := s in
  let '(h, newMap) := NewMapObjectEncoder h in
  let '(h, m) := set k (MMap (Fields newMap)) (h, m) in
  let! (err, (h, _)) := v (h, newMap) in
  Ret (err, (h, m)).

Definition AddBinary (k v : bytes) (s : mapState) : mapState := set k (MBinary v) s.
Definition AddByteString (k v : bytes) (s : mapState) : mapState := set k (MPrim (PString v)) s.
Definition AddDuration (k : bytes) (v : Z) (s : mapState) : mapState := set k (MDuration v) s.
Definition AddTime (k : bytes) (v : Time) (s : mapState) : mapState := set k (MTime v) s.

(** [AddBool] to [AddUintptr]: the value as it is. *)
Definition AddPrim (k : bytes) (p : prim) (s : mapState) : mapState :=
  match p with
  | PByteString v => AddByteString k v s
  | _ => set k (MPrim p) s
  end.

Definition AddReflected (k : bytes) (v : any) (s : mapState) : error * mapState :=
  (None, set k (MReflected v) s).

Definition OpenNamespace (k : bytes) (s : mapState) : mapState :=
  let '(h, m) := s in
  let ns := length h in
  let '(h, m) := set k (MMap ns) (h ++ [∅], m) in
  (h, mkMapEncoder (Fields m) ns).

(** * sliceArrayEncoder *)

Definition push (v : mval) (s : sliceState) : sliceState := let '(h, elems) := s in (h, elems ++ [v]).

Definition AppendArray (v : sliceState -> outcome (error * sliceState)) (s : sliceState)
    : outcome (error * sliceState) :=
  let '(h, elems) := s in
  let! (err, (h, inner)) := v (h, []) in
  Ret (err, push (MSlice inner) (h, elems)).

Definition AppendObject (v : mapState -> outcome (error * mapState)) (s : sliceState)
    : outcome (error * sliceState) :=
  let '(h, elems) := s in
  let '(h, m) := NewMapObjectEncoder h in
  let! (err, (h, m)) := v (h, m) in
  Ret (err, push (MMap (Fields m)) (h, elems)).

Definition AppendReflected (v : any) (s : sliceState) : error * sliceState :=
  (None, push (MReflected v) s).

(** [AppendBool] to [AppendUintptr]. *)
Definition AppendPrim (p : prim) (s : sliceState) : sliceState :=
  match p with
  | PByteString v => push (MPrim (PString v)) s
  | _ => push (MPrim p) s
  end.

Definition AppendDuration (d : Z) (s : sliceState) : sliceState := push (MDuration d) s.
Definition AppendTime (t : Time) (s : sliceState) : sliceState := push (MTime t) s.

Definition mapEncoders : Encoders mapState sliceState := {|
  Encode.AddPrim := AddPrim;
  Encode.AddBinary := AddBinary;
  Encode.AddDuration := AddDuration;
  Encode.AddTime := AddTime;
  Encode.AddReflected := AddReflected;
  Encode.OpenNamespace := OpenNamespace;
  Encode.AddArray := AddArray;
  Encode.AddObject := AddObject;
  Encode.AppendPrim := AppendPrim;
  Encode.AppendDuration := AppendDuration;
  Encode.AppendTime := AppendTime;
  Encode.AppendReflected := AppendReflected;
  Encode.AppendArray := AppendArray;
  Encode.AppendObject := AppendObject
|}.

(** * What a marshaler can touch *)

(** From one state of an encoder to another: the outermost map stays, and only the
    namespace being written and maps allocated since may have changed. *)
Definition frameO (s0 s : mapState) : Prop :=
  Fields s.2 = Fields s0.2 /\ (length s0.1 <= length s.1)%nat /\ (cur s.2 < length s.1)%nat /\
  (cur s.2 = cur s0.2 \/ (length s0.1 <= cur s.2)%nat) /\
  forall r, (r < length s0.1)%nat -> r <> cur s0.2 -> s.1 !! r = s0.1 !! r.

Definition frameA (s0 s : sliceState) : Prop :=
  (length s0.1 <= length s.1)%nat /\ forall r, (r < length s0.1)%nat -> s.1 !! r = s0.1 !! r.

Lemma set_frame s0 s k v : frameO s0 s -> frameO s0 (set k v s).
Proof.
  destruct s as [h m]. intros (HF & Hlen & Hcur & Hc & Hr). unfold set, frameO in *. simpl in *.
  rewrite length_alter. do 4 (split; [done|]). intros r Hr0 Hne.
  rewrite list_lookup_alter_ne; [auto|]. destruct Hc; lia.
Qed.

Lemma frameO_alloc s0 h m x : frameO s0 (h, m) -> frameO s0 (h ++ [x], m).
Proof.
  intros (HF & Hlen & Hcur & Hc & Hr). unfold frameO in *. simpl in *. rewrite length_app. simpl.
  split; [done|]. split; [lia|]. split; [lia|]. split; [done|].
  intros r Hr0 Hne. rewrite lookup_app_l by lia. auto.
Qed.

(** A marshaler that ran on a new encoder leaves everything that existed as it was. *)
Lemma frameO_new h h' m' :
  frameO (NewMapObjectEncoder h) (h', m') ->
  (length h <= length h')%nat /\ forall r, (r < length h)%nat -> h' !! r = h !! r.
Proof.
  intros (_ & Hlen & _ & _ & Hr). simpl in *. rewrite length_app in *. simpl in *.
  split; [lia|]. intros r Hr0. rewrite Hr by lia. by rewrite lookup_app_l.
Qed.

Lemma frameO_step s0 h m h' :
  frameO s0 (h, m) -> (length h <= length h')%nat ->
  (forall r, (r < length h)%nat -> h' !! r = h !! r) -> frameO s0 (h', m).
Proof.
  intros (HF & Hlen & Hcur & Hc & Hr) Hle Hsame. unfold frameO in *. simpl in *.
  split; [done|]. split; [lia|]. split; [lia|]. split; [done|].
  intros r Hr0 Hne. rewrite Hsame by lia. auto.
Qed.

Lemma frameO_nested s0 h1 m h2 m2 n :
  frameO s0 (h1, m) -> frameO (h1, mkMapEncoder n n) (h2, m2) -> (length s0.1 <= n)%nat ->
  frameO s0 (h2, m).
Proof.
  intros (HF & Hlen & Hcur & Hc & Hr) (_ & Hlen2 & _ & _ & Hr2) Hn. unfold frameO in *. simpl in *.
  split; [done|]. split; [lia|]. split; [lia|]. split; [done|].
  intros r Hr0 Hne. rewrite Hr2 by lia. auto.
Qed.

(** The relations for [run_related]: one encoder with itself, related at the state
    that it started from when it is still within its frame. *)
Definition RO (s0 : mapState) (s s' : mapState) : Prop := s = s' /\ frameO s0 s.
Definition RA (s0 : sliceState) (s s' : sliceState) : Prop := s = s' /\ frameA s0 s.

Lemma frameO_refl h m : (cur m < length h)%nat -> frameO (h, m) (h, m).
Proof. unfold frameO. auto 10. Qed.

Lemma frameO_new_refl h : frameO (NewMapObjectEncoder h) (NewMapObjectEncoder h).
Proof. apply frameO_refl. simpl. rewrite length_app. simpl. lia. Qed.

Lemma frameA_refl s : frameA s s.
Proof. by split. Qed.

Lemma frameA_step s0 h elems h' elems' :
  frameA s0 (h, elems) -> (length h <= length h')%nat ->
  (forall r, (r < length h)%nat -> h' !! r = h !! r) -> frameA s0 (h', elems').
Proof.
  intros [Hlen Hr] Hle Hsame. unfold frameA in *. simpl in *. split; [lia|].
  intros r Hr0. rewrite Hsame by lia. auto.
Qed.

Lemma map_preserved : Preserved (E1 := mapEncoders) (E2 := mapEncoders) RO RA.
Proof.
  split; simpl.
  - intros s0 k p s s' [<- H]. split; [done|]. destruct p; by apply set_frame.
  - intros s0 k v s s' [<- H]. split; [done|]. by apply set_frame.
  - intros s0 k v s s' [<- H]. split; [done|]. by apply set_frame.
  - intros s0 k v s s' [<- H]. split; [done|]. by apply set_frame.
  - intros s0 k v s s' [<- H]. split; [done|]. split; [done|]. by apply set_frame.
  - intros s0 k [h m] s' [<- H]. split; [done|]. assert (length s0.1 <= length h)%nat by apply H.
    apply (frameO_alloc _ _ _ ∅), (set_frame _ _ k (MMap (length h))) in H.
    destruct H as (HF & Hlen & Hcur & Hc & Hr). unfold frameO in *. simpl in *.
    rewrite !length_alter, !length_app in *. simpl in *.
    split; [done|]. split; [lia|]. split; [lia|]. split; [by right|done].
  - intros k m1 m2 Hm s0 [h m] s' [<- H]. unfold AddArray.
    destruct (Hm _ _ _ (conj eq_refl (frameA_refl (h, [])))) as [e [h1 es1] s2 [<- [Hl Hr]]|v]; cbn [obind]; [|constructor].
    constructor. split; [done|]. apply set_frame. by eapply frameO_step.
  - intros k m1 m2 Hm s0 [h m] s' [<- H]. unfold AddObject. cbn [NewMapObjectEncoder Fields set].
    assert (length s0.1 <= length h)%nat by apply H.
    apply (frameO_alloc _ _ _ ∅), (set_frame _ _ k (MMap (length h))) in H. cbn [set] in H.
    set (h1 := alter _ _ _) in *.
    assert (length h < length h1)%nat as Hlt.
    { unfold h1. rewrite length_alter, length_app. simpl. lia. }
    destruct (Hm _ _ _ (conj eq_refl (frameO_refl h1 (mkMapEncoder (length h) (length h)) Hlt)))
      as [e [h2 m2'] s2 [<- Hf]|v]; cbn [obind]; [|constructor].
    constructor. split; [done|]. by eapply frameO_nested.
  - intros s0 p [h es] s' [<- H]. split; [done|]. by destruct p; eapply frameA_step.
  - intros s0 p [h es] s' [<- H]. split; [done|]. by eapply frameA_step.
  - intros s0 p [h es] s' [<- H]. split; [done|]. by eapply frameA_step.
  - intros s0 p [h es] s' [<- H]. split; [done|]. split; [done|]. by eapply frameA_step.
  - intros m1 m2 Hm s0 [h es] s' [<- H]. unfold AppendArray.
    destruct (Hm _ _ _ (conj eq_refl (frameA_refl (h, [])))) as [e [h1 es1] s2 [<- [Hl Hr]]|v]; cbn [obind]; [|constructor].
    constructor. split; [done|]. by eapply frameA_step.
  - intros m1 m2 Hm s0 [h es] s' [<- H]. unfold AppendObject.
    pose proof (Hm _ _ _ (conj eq_refl (frameO_new_refl h))) as Hn.
    unfold NewMapObjectEncoder in Hn |- *. cbv zeta in Hn |- *.
    destruct Hn as [e [h1 m'] s2 [<- Hf]|v]; cbn [obind]; [|constructor].
    apply (frameO_new h h1 m') in Hf as [Hl Hr]. constructor. split; [done|]. by eapply frameA_step.
Qed.

(** * Theorems *)

(** C27: adding any fields to a [MapObjectEncoder], through any marshalers, writes only
    to the namespace that is open at that point and to maps made on the way: every
    other map, the ones of enclosing namespaces and of completed objects included,
    keeps its contents, and [Fields] stays the outermost map. *)
Theorem namespaces_isolated h m fields e h' m'
    (Hcur : (cur m < length h)%nat)
    (Hrun : @runObj _ _ mapEncoders (Field.addFields fields) (h, m) = Ret (e, (h', m'))) :
  Fields m' = Fields m /\ (length h <= length h')%nat /\
  (cur m' = cur m \/ (length h <= cur m' < length h')%nat) /\
  forall r, (r < length h)%nat -> r <> cur m -> h' !! r = h !! r.
Proof.
  pose proof (runObj_related _ _ map_preserved (Field.addFields fields) _ _ _
    (conj eq_refl (frameO_refl h m Hcur))) as HR.
  rewrite Hrun in HR. inversion HR as [? ? ? [_ (HF & Hlen & Hc & Hcc & Hr)]|]; subst. simpl in *.
  split; [done|]. split; [done|]. split; [lia|done].
Qed.

(** What was added last under a key of the current namespace is what is found
    there. *)
Lemma set_lookup h m k v :
  (cur m < length h)%nat -> (set k v (h, m)).1 !! cur m ≫= (.!! k) = Some v.
Proof.
  intros Hcur. apply lookup_lt_is_Some in Hcur as [x Hx]. simpl.
  rewrite list_lookup_alter_eq, Hx. simpl. apply lookup_insert_eq.
Qed.

Lemma map_transparent : Transparent mapEncoders.
Proof.
  split; simpl; try done.
  - intros P k m [h me] Hm. unfold AddArray. apply returns_bind; [done|]. by intros e [h' es].
  - intros P k m [h me] Hm. unfold AddObject. cbn [NewMapObjectEncoder Fields set].
    apply returns_bind; [done|]. by intros e [h' m'].
  - intros P m [h es] Hm. unfold AppendArray. apply returns_bind; [done|]. by intros e [h' es'].
  - intros P m [h es] Hm. unfold AppendObject. cbn [NewMapObjectEncoder].
    apply returns_bind; [done|]. by intros e [h' m'].
Qed.

Lemma namespaces_isolated_witness :
  exists h', @runObj _ _ mapEncoders
      (Field.addFields [Field.Namespace (str "inner"); Field.Int (str "a") 2]) ([{[str "a" := MDuration 1]}; ∅], mkMapEncoder 0 1)
      = Ret (None, (h', mkMapEncoder 0 2)) /\
    h' !! 0%nat = Some {[str "a" := MDuration 1]}.
Proof.
  eexists. split; [reflexivity|].
  exact (proj2 (proj2 (proj2 (namespaces_isolated [{[str "a" := MDuration 1]}; ∅] (mkMapEncoder 0 1)
    [Field.Namespace (str "inner"); Field.Int (str "a") 2] None _ (mkMapEncoder 0 2)
    ltac:(vm_compute; lia) eq_refl))) 0%nat ltac:(vm_compute; lia) ltac:(discriminate)).
Defined.
End MemoryEncoder.
