(* ===== verification/ConsoleEncoder.v ===== *)
(** The console encoder, zapcore/console_encoder.go: the entry as plain text and the
    structured context as JSON. *)

From Stdlib Require Import ZArith Lia.
From S2P Require Import Prelude Strconv GoStd Level JsonString Encode Field Entry EncoderConfig JsonEncoder JsonTree JsonRefinement.
From stdpp Require Import base list.

Local Open Scope Z_scope.
Local Open Scope zap_scope.

Module ConsoleEncoder.
Import Strconv Encode EncoderConfig JsonEncoder.

(** A [consoleEncoder] embeds a [*jsonEncoder] and has all its methods. *)
Record consoleEncoder := mkConsole { embedded : jsonEncoder }.

Section encoder.
Context {std : GoStd} (defaultReflectedEncoder : ReflectedEncoder).

Definition NewConsoleEncoder (cfg : EncoderConfig) : consoleEncoder :=
  let cfg := if decide (ConsoleSeparator cfg = []) then setConsoleSeparator cfg [x09] else cfg in
  mkConsole (newJSONEncoder defaultReflectedEncoder cfg true).

Definition Clone (c : consoleEncoder) : consoleEncoder := mkConsole (JsonEncoder.Clone (embedded c)).

(** An element of the [sliceArrayEncoder] that the functions of the configuration
    append to; it has no [AppendTimeLayout], so a layout is formatted to a string. *)
Definition elemOf (op : primop) : prim :=
  match op with
  | PrimOp (PByteString s) => PString s
  | PrimOp p => p
  | TimeLayoutOp t layout => PString (formatTime t layout)
  end.

(** [fmt.Fprint] of an element. *)
Definition Fprint (p : prim) : bytes :=
  match p with
  | PBool b => AppendBool_text b
  | PByteString s | PString s => s
  | PComplex128 c => sprintComplex c 64
  | PComplex64 c => sprintComplex c 32
  | PFloat64 f => sprintFloat f 64
  | PFloat32 f => sprintFloat f 32
  | PInt _ z => itoa z
  end.

(** What is in the slice encoder before the message: time, level, name, caller and
    function. *)
Definition metadata (cfg : EncoderConfig) (ent : Entry.Entry) : list primop :=
  (match EncodeTime cfg with
   | Some e =>
       if negb (bool_decide (TimeKey cfg = [])) && negb (IsZero (Entry.Time ent)) then e (Entry.Time ent) else []
   | None => []
   end) ++
  (match EncodeLevel cfg with
   | Some e => if negb (bool_decide (LevelKey cfg = [])) then e (Entry.Level ent) else []
   | None => []
   end) ++
  (if negb (bool_decide (Entry.LoggerName ent = [])) && negb (bool_decide (NameKey cfg = [])) then
     let nameEncoder := default FullNameEncoder (EncodeName cfg) in nameEncoder (Entry.LoggerName ent)
   else []) ++
  (if Entry.Defined (Entry.Caller ent) then
     (match EncodeCaller cfg with
      | Some e => if negb (bool_decide (CallerKey cfg = [])) then e (Entry.Caller ent) else []
      | None => []
      end) ++
     (if negb (bool_decide (FunctionKey cfg = [])) then
        [PrimOp (PString (Entry.Function (Entry.Caller ent)))]
      else [])
   else []).

(** The loop that prints the elements with separators between them. *)
Fixpoint printElems (sep : bytes) (i : nat) (elems : list prim) (line : bytes) : bytes :=
  match elems with
  | [] => line
  | e :: elems' =>
      let line := if Nat.ltb 0 i then line ++ sep else line in
      printElems sep (S i) elems' (line ++ Fprint e)
  end.

Definition addSeparatorIfNecessary (cfg : EncoderConfig) (line : bytes) : bytes :=
  if 0 <? lenZ line then line ++ ConsoleSeparator cfg else line.

Definition writeContext (c : consoleEncoder) (line : bytes) (extra : list Field) : outcome bytes :=
  let context := JsonEncoder.Clone (embedded c) in
  let! (_, context) := @runObj _ _ (jsonEncoders defaultReflectedEncoder) (Field.addFields extra) context in
  let context := closeOpenNamespaces context in
  if lenZ (buf context) =? 0 then Ret line
  else
    let line := addSeparatorIfNecessary (config (embedded c)) line in
    Ret (line ++ [x7b] ++ buf context ++ [x7d]).

Definition EncodeEntry (c : consoleEncoder) (ent : Entry.Entry) (fields : list Field)
    : outcome (bytes * error) :=
  let cfg := config (embedded c) in
  let elems := map elemOf (metadata cfg ent) in
  let line := printElems (ConsoleSeparator cfg) 0 elems [] in
  let line :=
    if negb (bool_decide (MessageKey cfg = [])) then
      addSeparatorIfNecessary cfg line ++ Entry.Message ent
    else line in
  let! line := writeContext c line fields in
  let line :=
    if negb (bool_decide (Entry.Stack ent = [])) && negb (bool_decide (StacktraceKey cfg = [])) then
      line ++ [x0a] ++ Entry.Stack ent
    else line in
  Ret (line ++ LineEnding cfg, None).
End encoder.

(** * Lemmas *)

Section lemmas.
Context {std : GoStd}.

Lemma printElems_S sep i elems line :
  printElems sep (S i) elems line = line ++ concat (map (fun e => sep ++ Fprint e) elems).
Proof.
  revert i line. induction elems as [|e elems IH]; intros i l; simpl; [by rewrite app_nil_r|].
  rewrite IH. by rewrite <- !app_assoc.
Qed.

Lemma printElems_join sep elems : printElems sep 0 elems [] = JsonTree.join sep (map Fprint elems).
Proof.
  destruct elems as [|e elems]; [done|]. simpl map. rewrite JsonTree.join_concat, map_map.
  cbn [printElems]. by rewrite printElems_S.
Qed.
End lemmas.

(** * Theorems *)

Section theorems.
Context {std : GoStd} (defaultReflectedEncoder : ReflectedEncoder).

(** ** The specification of a line *)

(** The columns before the message, in their order: the key that turns a column on, whether
    the entry has something for it, and what the configured function appends for it. *)
Definition columns (cfg : EncoderConfig) (ent : Entry.Entry) : list (bytes * bool * list primop) :=
  let by_ {A} (f : option (A -> list primop)) (x : A) := match f with Some f => f x | None => [] end in
  let caller := Entry.Caller ent in
  [(TimeKey cfg, negb (IsZero (Entry.Time ent)), by_ (EncodeTime cfg) (Entry.Time ent));
   (LevelKey cfg, true, by_ (EncodeLevel cfg) (Entry.Level ent));
   (NameKey cfg, bool_decide (Entry.LoggerName ent <> []),
    by_ (Some (default FullNameEncoder (EncodeName cfg))) (Entry.LoggerName ent));
   (CallerKey cfg, Entry.Defined caller, by_ (EncodeCaller cfg) caller);
   (FunctionKey cfg, Entry.Defined caller, [PrimOp (PString (Entry.Function caller))])].

Definition shown (c : bytes * bool * list primop) : list primop :=
  if decide (c.1.1 <> [] /\ c.1.2 = true) then c.2 else [].

(** A value as plain text, without quotes or escapes. *)
Definition plain (op : primop) : bytes :=
  match op with
  | PrimOp (PBool true) => str "true"
  | PrimOp (PBool false) => str "false"
  | PrimOp (PByteString s) | PrimOp (PString s) => s
  | PrimOp (PComplex128 c) => sprintComplex c 64
  | PrimOp (PComplex64 c) => sprintComplex c 32
  | PrimOp (PFloat64 f) => sprintFloat f 64
  | PrimOp (PFloat32 f) => sprintFloat f 32
  | PrimOp (PInt _ z) => itoa z
  | TimeLayoutOp t layout => formatTime t layout
  end.

(** Two texts with a separator between them, if there is a first. *)
Definition separated (sep line text : bytes) : bytes :=
  match line with
  | [] => text
  | _ => line ++ sep ++ text
  end.

(** The plain-text part of the line. *)
Definition plainText (cfg : EncoderConfig) (ent : Entry.Entry) : bytes :=
  let line := JsonTree.join (ConsoleSeparator cfg) (map plain (concat (map shown (columns cfg ent)))) in
  if decide (MessageKey cfg = []) then line else separated (ConsoleSeparator cfg) line (Entry.Message ent).

Definition stackText (cfg : EncoderConfig) (ent : Entry.Entry) : bytes :=
  if decide (Entry.Stack ent = [] \/ StacktraceKey cfg = []) then [] else [x0a] ++ Entry.Stack ent.

Lemma shown_if k b ops : shown (k, b, ops) = if negb (bool_decide (k = [])) && b then ops else [].
Proof. unfold shown. cbn. case_bool_decide; case_decide; destruct b; naive_solver. Qed.

Lemma metadata_columns cfg ent : metadata cfg ent = concat (map shown (columns cfg ent)).
Proof.
  unfold metadata, columns. cbn [map concat]. rewrite !shown_if, app_nil_r. f_equal; [|f_equal; [|f_equal]].
  - destruct (EncodeTime cfg); by destruct (_ && _).
  - rewrite andb_true_r. destruct (EncodeLevel cfg); by destruct (negb _).
  - repeat case_bool_decide; simpl; naive_solver.
  - destruct (Entry.Defined _); rewrite ?andb_true_r, ?andb_false_r; [|done]. f_equal. destruct (EncodeCaller cfg); by destruct (negb _).
Qed.

Lemma plain_elem op : Fprint (elemOf op) = plain op.
Proof. by destruct op as [[[]|s|c|c|f|f|k z|s]|t layout]. Qed.

Lemma separated_add cfg line text : addSeparatorIfNecessary cfg line ++ text = separated (ConsoleSeparator cfg) line text.
Proof. unfold addSeparatorIfNecessary. destruct line as [|b line]; [done|]. cbn [separated]. rewrite app_assoc. f_equal. Qed.

(** C28: a console encoder with any context writes an entry as the columns for time, level,
    name, caller and function whose keys are set and which the entry has, as plain text with
    separators between them, and the message; then the context and the fields as one valid
    JSON object (or nothing when there are none); then the stack trace and the line ending.
    It panics only when a marshaler does.  The configuration is [Documented]: its functions
    keep to their contract and a reflected encoder writes JSON. *)
Theorem console_line cfg context ent fields e enc
    (doc : JsonRefinement.Documented defaultReflectedEncoder
             (config (embedded (NewConsoleEncoder defaultReflectedEncoder cfg))))
    (Hctx : @runObj _ _ (jsonEncoders defaultReflectedEncoder) (Field.addFields context)
              (embedded (NewConsoleEncoder defaultReflectedEncoder cfg)) = Ret (e, enc)) :
  match @runObj _ _ (JsonTree.treeEncoders defaultReflectedEncoder (config enc))
          (Field.addFields (context ++ fields)) [] with
  | Ret (_, es) =>
      let object := JsonTree.render true (JsonTree.JObj (JsonTree.build es)) in
      JsonTree.valid object /\
      EncodeEntry defaultReflectedEncoder (mkConsole enc) ent fields =
        Ret ((match es with
              | [] => plainText (config enc) ent
              | _ => separated (ConsoleSeparator (config enc)) (plainText (config enc) ent) object
              end) ++ stackText (config enc) ent ++ LineEnding (config enc), None)
  | Panic v => EncodeEntry defaultReflectedEncoder (mkConsole enc) ent fields = Panic v
  | Diverge => False
  end.
Proof.
  pose proof (runObj_related _ _ (JsonRefinement.json_preserved _ _ true doc) (Field.addFields context) _ _ _
    (JsonRefinement.RO_new defaultReflectedEncoder _ true)) as H.
  unfold NewConsoleEncoder in *. cbn [embedded] in *. rewrite Hctx in H.
  apply related_ret_inv in H as (ces & Ht & HRO).
  match type of doc with JsonRefinement.Documented _ ?c => assert (config enc = c) as Ec by apply HRO end.
  rewrite <- Ec in doc, HRO, Ht. rewrite Field.run_addFields_app, Ht. cbn [obind].
  assert (JsonRefinement.RO (config enc) true ([], 0) (JsonEncoder.Clone enc) ces) as HC by exact HRO.
  unfold EncodeEntry, writeContext. cbn [embedded].
  pose proof (runObj_related _ _ (JsonRefinement.json_preserved _ _ true doc) (Field.addFields fields) _ _ _ HC) as HF.
  destruct HF as [e2 final es HF|v]; cbn [obind]; [|done].
  apply JsonRefinement.RO_close in HF. cbv zeta.
  split; [by eapply JsonRefinement.valid_members|].
  destruct HF as (_ & _ & Hb & _). rewrite JsonTree.render_members in Hb. simpl app in Hb. rewrite Hb.
  rewrite printElems_join, map_map, metadata_columns, (map_ext _ _ plain_elem).
  match goal with |- context [addSeparatorIfNecessary _ ?l ++ Entry.Message ent] => set (meta := l) end.
  assert ((if negb (bool_decide (MessageKey (config enc) = [])) then
    addSeparatorIfNecessary (config enc) meta ++ Entry.Message ent else meta) = plainText (config enc) ent) as ->.
  { unfold plainText. rewrite separated_add. destruct (decide (MessageKey (config enc) = [])) as [Hm|Hm].
    - by rewrite bool_decide_true.
    - by rewrite bool_decide_false. }
  assert (forall line, (if negb (bool_decide (Entry.Stack ent = [])) && negb (bool_decide (StacktraceKey (config enc) = []))
    then line ++ [x0a] ++ Entry.Stack ent else line) ++ LineEnding (config enc) =
    line ++ stackText (config enc) ent ++ LineEnding (config enc)) as Hstack.
  { intros line. unfold stackText. destruct (decide (Entry.Stack ent = [])) as [E1|E1], (decide (StacktraceKey (config enc) = [])) as [E2|E2];
      rewrite ?(bool_decide_true _ E1), ?(bool_decide_false _ E1), ?(bool_decide_true _ E2), ?(bool_decide_false _ E2);
      cbn [negb andb]; [rewrite decide_True by auto; done..|]. rewrite decide_False by tauto. by rewrite <- !app_assoc. }
  destruct es as [|ev es]; [simpl; by rewrite Hstack|]. rewrite (proj2 (Z.eqb_neq _ 0)).
  - cbn [obind]. rewrite Hstack. do 3 f_equal. rewrite <- separated_add. reflexivity.
  - destruct ev; simpl; rewrite JsonTree.join_concat; unfold JsonTree.renderMember, JsonTree.memberText, JsonTree.quoted, lenZ;
      simpl; lia.
Qed.
End theorems.

(** * A configuration *)

Section demo.
Import JsonRefinement.
#[local] Existing Instance Level.asciiStd.

Definition demoConsole : consoleEncoder := NewConsoleEncoder demoReflected demoConfig.

Lemma console_line_witness :
  EncodeEntry demoReflected demoConsole demoEntry [Field.Bool (str "ok") true] =
  Ret (str "5" ++ [x09] ++ str "info" ++ [x09] ++ str "main" ++ [x09] ++ str "hello" ++ [x09] ++
       JsonTree.render true (JsonTree.JObj [(str "ok", JsonTree.JText (str "true"))]) ++ [x0a], None).
Proof.
  assert (Documented demoReflected (config (embedded demoConsole))) as doc.
  { apply demo_documented_of; [by right|].
    split; simpl; intros f x [= <-]; unfold atMostOne; simpl; lia. }
  exact (proj2 (console_line demoReflected demoConfig [] demoEntry [Field.Bool (str "ok") true] None
    (embedded demoConsole) doc eq_refl)).
Defined.
End demo.
End ConsoleEncoder.
