(* ===== verification/Core.v ===== *)
(** Cores and checked entries: zapcore/core.go, zapcore/tee.go, zapcore/hook.go,
    zapcore/lazy_with.go, zapcore/increase_level.go, the core of zapcore/sampler.go, the
    [CheckedEntry] of zapcore/entry.go and the core of zaptest/observer/observer.go.

    A core is its dynamic type with its immutable members; what its methods mutate
    through pointers (lazily built cores, sampling counters, observed logs, atomic
    levels, and the world of files behind the write syncers) is in a [Store].
    Methods are computations in the monad [M] of store transformers that can
    panic. *)

From Stdlib Require Import ZArith Lia.
From S2P Require Import Prelude GoStd Level AtomicLevel WriteSyncer Sampler Encode Field Entry EncoderConfig JsonEncoder ConsoleEncoder.
From stdpp Require Import base list.

Local Open Scope Z_scope.
Local Open Scope zap_scope.

Module Core.
Import Encode.

(** The methods of the types of cores, for unfolding. *)
Create HintDb core_methods.

(** The encoders of the repository, as values of the interface [Encoder]. *)
Inductive Encoder :=
| jsonEncoder (enc : JsonEncoder.jsonEncoder)
| consoleEncoder (enc : ConsoleEncoder.consoleEncoder).

(** The level enablers: a [Level], an [AtomicLevel] or a function
    ([LevelEnablerFunc]). *)
Inductive enabler :=
| enablerLevel (l : Level.Level)
| enablerAtomic (lvl : AtomicLevel.AtomicLevel)
| enablerFunc (f : Level.Level -> bool).

(** * The store *)

Section core.
(** The world behind the write syncers. *)
Context {W : Type}.

Inductive Core : Type :=
| nopCore
| ioCore (enab : enabler) (enc : Encoder) (out : @WriteSyncer.WriteSyncer W)
| multiCore (cores : list Core)
| hooked (core : Core) (funcs : list (Entry.Entry -> W -> error * W))
| lazyWithCore (ref : nat) (originalCore : Core) (fields : list Field)
| levelFilterCore (core : Core) (level : enabler)
| sampler (core : Core) (counts : nat) (p : Sampler.params)
    (hook : Entry.Entry -> Sampler.SamplingDecision -> W -> W)
| contextObserver (enab : enabler) (logs : nat) (context : list Field).

Record LoggedEntry := mkLogged { LEntry : Entry.Entry; Context : list Field }.

(** [lazies] holds the member [core] of each [lazyWithCore]: [None] until its
    [sync.Once] has run. *)
Record Store := mkStore {
  world : W;
  lazies : list (option Core);
  counters : list Sampler.counters;
  logs : list (list LoggedEntry);
  atomics : AtomicLevel.Heap
}.

Definition setWorld (st : Store) (w : W) : Store :=
  mkStore w (lazies st) (counters st) (logs st) (atomics st).
Definition setLazies (st : Store) (l : list (option Core)) : Store :=
  mkStore (world st) l (counters st) (logs st) (atomics st).
Definition setCounters (st : Store) (c : list Sampler.counters) : Store :=
  mkStore (world st) (lazies st) c (logs st) (atomics st).
Definition setLogs (st : Store) (l : list (list LoggedEntry)) : Store :=
  mkStore (world st) (lazies st) (counters st) l (atomics st).
Definition setAtomics (st : Store) (h : AtomicLevel.Heap) : Store :=
  mkStore (world st) (lazies st) (counters st) (logs st) h.

(** * The monad *)

Definition M (A : Type) : Type := Store -> outcome (A * Store).

#[global] Instance M_ret : MRet M := fun A a st => Ret (a, st).
#[global] Instance M_bind : MBind M := fun A B f m st => let! (a, st') := m st in f a st'.

Definition panic {A} (v : bytes) : M A := fun _ => Panic v.
Definition diverge {A} : M A := fun _ => Diverge.
Definition lift {A} (m : outcome A) : M A := fun st => let! a := m in Ret (a, st).
Definition inWorld {A} (f : W -> A * W) : M A := fun st =>
  let '(a, w) := f (world st) in Ret (a, setWorld st w).

(** Loops over the elements of a slice. *)
Section loops.
Context {A B : Type}.

Definition forEach (f : A -> B -> M B) : list A -> B -> M B :=
  fix go l acc :=
    match l with
    | [] => mret acc
    | x :: l' => acc ← f x acc; go l' acc
    end.

Definition mapEach (f : A -> M B) : list A -> M (list B) :=
  fix go l :=
    match l with
    | [] => mret []
    | x :: l' => y ← f x; ys ← go l'; mret (y :: ys)
    end.

Definition anyEach (f : A -> M bool) : list A -> M bool :=
  fix go l :=
    match l with
    | [] => mret false
    | x :: l' => b ← f x; if (b : bool) then mret true else go l'
    end.
End loops.

(** * Level enablers *)

Definition enabler_Enabled (e : enabler) (lvl : Level.Level) : M bool := fun st =>
  match e with
  | enablerLevel l => Ret (Level.Level_Enabled l lvl, st)
  | enablerAtomic a => let! b := AtomicLevel.Enabled_ a lvl (atomics st) in Ret (b, st)
  | enablerFunc f => Ret (f lvl, st)
  end.

(** The loop of [LevelOf] for an enabler without a [Level] method. *)
Definition lowestEnabled (enabled : Level.Level -> M bool) : list Level.Level -> M Level.Level :=
  fix go ls :=
    match ls with
    | [] => mret Level.InvalidLevel
    | l :: ls' => b ← enabled l; if (b : bool) then mret l else go ls'
    end.

Definition enabler_LevelOf (e : enabler) : M Level.Level :=
  match e with
  | enablerAtomic a => fun st => let! l := AtomicLevel.Level_ a (atomics st) in Ret (l, st)
  | _ => lowestEnabled (enabler_Enabled e) Level.levels
  end.

Context {std : GoStd} {ME : Multierr}.

(** The default reflected encoder of the JSON encoder, and [fmt.Sprintf("%+v", ent)]. *)
Context (reflected : EncoderConfig.ReflectedEncoder) (sprintEntry : Entry.Entry -> bytes).

(** * Encoders *)

Definition Clone (enc : Encoder) : Encoder :=
  match enc with
  | jsonEncoder e => jsonEncoder (JsonEncoder.Clone e)
  | consoleEncoder c => consoleEncoder (ConsoleEncoder.Clone c)
  end.

(** [addFields(enc, fields)]. *)
Definition addFields (enc : Encoder) (fields : list Field) : outcome Encoder :=
  match enc with
  | jsonEncoder e =>
      let! (_, e) := @runObj _ _ (JsonEncoder.jsonEncoders reflected) (Field.addFields fields) e in
      Ret (jsonEncoder e)
  | consoleEncoder c =>
      let! (_, e) := @runObj _ _ (JsonEncoder.jsonEncoders reflected) (Field.addFields fields)
                       (ConsoleEncoder.embedded c) in
      Ret (consoleEncoder (ConsoleEncoder.mkConsole e))
  end.

Definition EncodeEntry (enc : Encoder) (ent : Entry.Entry) (fields : list Field) : outcome (bytes * error) :=
  match enc with
  | jsonEncoder e => JsonEncoder.EncodeEntry reflected e ent fields
  | consoleEncoder c => ConsoleEncoder.EncodeEntry reflected c ent fields
  end.

(** * Checked entries *)

(** What ends a call of [Write]: it returns, or the goroutine exits, panics or the
    process exits. *)
Inductive ending := Returns | Goexit | PanicsWith (v : bytes) | Exits (code : Z).

(** What a [CheckWriteHook] can see of the checked entry, its entry and fields. *)
Inductive CheckWriteHook :=
| WriteThenNoop
| WriteThenGoexit
| WriteThenPanic
| WriteThenFatal
| customHook (onWrite : Entry.Entry -> list Field -> W -> ending * W).

Record CheckedEntry := mkChecked {
  entry : Entry.Entry;
  ErrorOutput : option (@WriteSyncer.WriteSyncer W);
  dirty : bool;
  after : option CheckWriteHook;
  cores : list Core;
  before : list (Entry.Entry -> list Field -> Entry.Entry * list Field)
}.

(** [reset], and so [getCheckedEntry]: the pool gives entries that are reset. *)
Definition reset : CheckedEntry := mkChecked Entry.zeroEntry None false None [] [].

(** The checked entry that a method gets when it is called on nil. *)
Definition orNew (ce : option CheckedEntry) (ent : Entry.Entry) : CheckedEntry :=
  match ce with
  | Some ce => ce
  | None => mkChecked ent (ErrorOutput reset) (dirty reset) (after reset) (cores reset) (before reset)
  end.

Definition AddCore (ce : option CheckedEntry) (ent : Entry.Entry) (core : Core) : option CheckedEntry :=
  let ce := orNew ce ent in
  Some (mkChecked (entry ce) (ErrorOutput ce) (dirty ce) (after ce) (cores ce ++ [core]) (before ce)).

Definition Before (ce : option CheckedEntry) (ent : Entry.Entry)
    (hook : Entry.Entry -> list Field -> Entry.Entry * list Field) : option CheckedEntry :=
  let ce := orNew ce ent in
  Some (mkChecked (entry ce) (ErrorOutput ce) (dirty ce) (after ce) (cores ce) (before ce ++ [hook])).

Definition After (ce : option CheckedEntry) (ent : Entry.Entry) (hook : CheckWriteHook)
    : option CheckedEntry :=
  let ce := orNew ce ent in
  Some (mkChecked (entry ce) (ErrorOutput ce) (dirty ce) (Some hook) (cores ce) (before ce)).

Definition Should (ce : option CheckedEntry) (ent : Entry.Entry) (should : CheckWriteHook)
    : option CheckedEntry := After ce ent should.

(** * Cores *)

(** The methods of each type of core, over what they call of the cores it wraps. *)

(** [nopCore]. *)
Definition nopCore_Enabled : M bool := mret false.
Definition nopCore_With : M Core := mret nopCore.
Definition nopCore_Check (ce : option CheckedEntry) : M (option CheckedEntry) := mret ce.
Definition nopCore_Write : M error := mret None.
Definition nopCore_Sync : M error := mret None.

(** [ioCore]. *)
Definition sink_Write (out : @WriteSyncer.WriteSyncer W) (p : bytes) : M (Z * error) :=
  inWorld (WriteSyncer.Write out p).

Definition sink_Sync (out : @WriteSyncer.WriteSyncer W) : M error := inWorld (WriteSyncer.Sync out).

Definition ioCore_Level (enab : enabler) : M Level.Level := enabler_LevelOf enab.

Definition ioCore_clone (enab : enabler) (enc : Encoder) (out : @WriteSyncer.WriteSyncer W) : Core :=
  ioCore enab (Clone enc) out.

Definition ioCore_With (enab : enabler) (enc : Encoder) (out : @WriteSyncer.WriteSyncer W)
    (fields : list Field) : M Core :=
  match ioCore_clone enab enc out with
  | ioCore enab enc out => enc ← lift (addFields enc fields); mret (ioCore enab enc out)
  | c => mret c
  end.

Definition ioCore_Check (c : Core) (enab : enabler) (ent : Entry.Entry) (ce : option CheckedEntry)
    : M (option CheckedEntry) :=
  b ← enabler_Enabled enab (Entry.Level ent);
  if (b : bool) then mret (AddCore ce ent c) else mret ce.

Definition ioCore_Sync (out : @WriteSyncer.WriteSyncer W) : M error := sink_Sync out.

Definition ioCore_Write (enc : Encoder) (out : @WriteSyncer.WriteSyncer W) (ent : Entry.Entry)
    (fields : list Field) : M error :=
  '(buf, err) ← lift (EncodeEntry enc ent fields);
  match err with
  | Some _ => mret err
  | None =>
      '(_, err) ← sink_Write out buf;
      match err with
      | Some _ => mret err
      | None =>
          if Level.ErrorLevel <? Entry.Level ent then _ ← ioCore_Sync out; mret None
          else mret None
      end
  end.

(** [err = multierr.Append(err, f(x))] over a slice. *)
Definition appendErrors {A} (f : A -> M error) (l : list A) : M error :=
  forEach (fun x err => e ← f x; mret (multierr_Append err e)) l None.

(** [multiCore]. *)
Definition multiCore_With (with_ : Core -> M Core) (mc : list Core) : M Core :=
  clone ← mapEach with_ mc; mret (multiCore clone).

Definition multiCore_Level (levelOf : Core -> M Level.Level) (mc : list Core) : M Level.Level :=
  forEach (fun c minLvl => lvl ← levelOf c; mret (if lvl <? minLvl then lvl else minLvl)) mc Level._maxLevel.

Definition multiCore_Enabled (enabled : Core -> M bool) (mc : list Core) : M bool := anyEach enabled mc.

Definition multiCore_Check (check : Core -> option CheckedEntry -> M (option CheckedEntry)) (mc : list Core)
    (ce : option CheckedEntry) : M (option CheckedEntry) := forEach check mc ce.

Definition multiCore_Write (write : Core -> M error) (mc : list Core) : M error := appendErrors write mc.

Definition multiCore_Sync (sync : Core -> M error) (mc : list Core) : M error := appendErrors sync mc.

(** [hooked]. *)
Definition hooked_Level (levelOf : M Level.Level) : M Level.Level := levelOf.

Definition hooked_Check (h : Core) (check : M (option CheckedEntry)) (ent : Entry.Entry)
    (ce : option CheckedEntry) : M (option CheckedEntry) :=
  downstream ← check;
  match downstream with
  | Some _ => mret (AddCore downstream ent h)
  | None => mret ce
  end.

Definition hooked_With (with_ : M Core) (funcs : list (Entry.Entry -> W -> error * W)) : M Core :=
  core ← with_; mret (hooked core funcs).

Definition hooked_Write (funcs : list (Entry.Entry -> W -> error * W)) (ent : Entry.Entry) : M error :=
  appendErrors (fun f => inWorld (f ent)) funcs.

(** [lazyWithCore]; [build] is [originalCore.With(fields)].  A panic of it ends the run of
    the model: that the [sync.Once] counts as done then, and [core] stays nil, is only
    seen by a program that recovers and uses the core again. *)
Definition initOnce (ref : nat) (build : M Core) : M Core := fun st =>
  match lazies st !! ref with
  | None => AtomicLevel.nilDereference
  | Some (Some core) => Ret (core, st)
  | Some None =>
      let! (core, st) := build st in
      Ret (core, setLazies st (<[ref := Some core]> (lazies st)))
  end.

Definition lazyWithCore_With (ref : nat) (build : M Core) (with_ : Core -> M Core) : M Core :=
  core ← initOnce ref build; with_ core.

Definition lazyWithCore_Check (enabled : M bool) (ref : nat) (build : M Core)
    (check : Core -> M (option CheckedEntry)) (ce : option CheckedEntry) : M (option CheckedEntry) :=
  b ← enabled;
  if negb b then mret ce
  else
    core ← initOnce ref build; check core.

Definition lazyWithCore_Enabled (enabled : M bool) : M bool := enabled.

Definition lazyWithCore_Write (ref : nat) (build : M Core) (write : Core -> M error) : M error :=
  core ← initOnce ref build; write core.

Definition lazyWithCore_Sync (ref : nat) (build : M Core) (sync : Core -> M error) : M error :=
  core ← initOnce ref build; sync core.

(** [levelFilterCore]. *)
Definition levelFilterCore_Enabled (level : enabler) (lvl : Level.Level) : M bool := enabler_Enabled level lvl.

Definition levelFilterCore_Level (level : enabler) : M Level.Level := enabler_LevelOf level.

Definition levelFilterCore_With (with_ : M Core) (level : enabler) : M Core :=
  core ← with_; mret (levelFilterCore core level).

Definition levelFilterCore_Check (level : enabler) (check : M (option CheckedEntry)) (ent : Entry.Entry)
    (ce : option CheckedEntry) : M (option CheckedEntry) :=
  b ← levelFilterCore_Enabled level (Entry.Level ent);
  if negb b then mret ce else check.

Definition levelFilterCore_Write (write : M error) : M error := write.

Definition levelFilterCore_Sync (sync : M error) : M error := sync.

(** [sampler]. *)
Definition sampler_Level (levelOf : M Level.Level) : M Level.Level := levelOf.

Definition sampler_With (with_ : M Core) (counts : nat) (p : Sampler.params)
    (hook : Entry.Entry -> Sampler.SamplingDecision -> W -> W) : M Core :=
  core ← with_; mret (sampler core counts p hook).

(** The decision of a sampler on an entry that its core would log. *)
Definition samplerDecision (counts : nat) (p : Sampler.params) (ent : Entry.Entry)
    : M (option Sampler.SamplingDecision) := fun st =>
  match counters st !! counts with
  | None => AtomicLevel.nilDereference
  | Some cs =>
      let! (d, cs) := Sampler.sample p cs (Entry.Level ent) (Entry.Message ent) (Entry.Time ent) in
      Ret (d, setCounters st (<[counts := cs]> (counters st)))
  end.

Definition sampler_Check (enabled : M bool) (counts : nat) (p : Sampler.params)
    (hook : Entry.Entry -> Sampler.SamplingDecision -> W -> W) (check : M (option CheckedEntry))
    (ent : Entry.Entry) (ce : option CheckedEntry) : M (option CheckedEntry) :=
  b ← enabled;
  if negb b then mret ce
  else
    d ← samplerDecision counts p ent;
    match d with
    | Some Sampler.LogDropped =>
        _ ← inWorld (fun w => (tt, hook ent Sampler.LogDropped w)); mret ce
    | Some Sampler.LogSampled =>
        _ ← inWorld (fun w => (tt, hook ent Sampler.LogSampled w)); check
    | None => check
    end.

(** [contextObserver] and [ObservedLogs.add]. *)
Definition addLog (ref : nat) (e : LoggedEntry) : M unit := fun st =>
  match logs st !! ref with
  | None => AtomicLevel.nilDereference
  | Some l => Ret (tt, setLogs st (<[ref := l ++ [e]]> (logs st)))
  end.

Definition contextObserver_Level (enab : enabler) : M Level.Level := enabler_LevelOf enab.

Definition contextObserver_Check (c : Core) (enab : enabler) (ent : Entry.Entry) (ce : option CheckedEntry)
    : M (option CheckedEntry) :=
  b ← enabler_Enabled enab (Entry.Level ent);
  if (b : bool) then mret (AddCore ce ent c) else mret ce.

Definition contextObserver_With (enab : enabler) (logs : nat) (context fields : list Field) : M Core :=
  mret (contextObserver enab logs (context ++ fields)).

Definition contextObserver_Write (ref : nat) (context : list Field) (ent : Entry.Entry) (fields : list Field)
    : M error :=
  _ ← addLog ref (mkLogged ent (context ++ fields)); mret None.

Definition contextObserver_Sync : M error := mret None.

(** Dispatch on the type of the core.  Where a core embeds its [LevelEnabler] or another
    core, the embedded method is called. *)
Fixpoint Enabled (c : Core) (lvl : Level.Level) : M bool :=
  match c with
  | nopCore => nopCore_Enabled
  | ioCore enab _ _ => enabler_Enabled enab lvl
  | multiCore cs => multiCore_Enabled (fun c => Enabled c lvl) cs
  | hooked core _ => Enabled core lvl
  | lazyWithCore _ originalCore _ => lazyWithCore_Enabled (Enabled originalCore lvl)
  | levelFilterCore _ level => levelFilterCore_Enabled level lvl
  | sampler core _ _ _ => Enabled core lvl
  | contextObserver enab _ _ => enabler_Enabled enab lvl
  end.

(** [LevelOf(core)]: [nopCore] and [lazyWithCore] have no [Level] method. *)
Fixpoint LevelOf (c : Core) : M Level.Level :=
  match c with
  | nopCore => lowestEnabled (Enabled nopCore) Level.levels
  | ioCore enab _ _ => ioCore_Level enab
  | multiCore cs => multiCore_Level LevelOf cs
  | hooked core _ => hooked_Level (LevelOf core)
  | lazyWithCore _ _ _ => lowestEnabled (Enabled c) Level.levels
  | levelFilterCore _ level => levelFilterCore_Level level
  | sampler core _ _ _ => sampler_Level (LevelOf core)
  | contextObserver enab _ _ => contextObserver_Level enab
  end.

(** The cores that [With] returns contain no [lazyWithCore], so the core that one holds
    is followed one level down; [depth] is that level. *)
Fixpoint With (depth : nat) : Core -> list Field -> M Core :=
  fix go (c : Core) (fields : list Field) : M Core :=
    match c with
    | nopCore => nopCore_With
    | ioCore enab enc out => ioCore_With enab enc out fields
    | multiCore cs => multiCore_With (fun c => go c fields) cs
    | hooked core funcs => hooked_With (go core fields) funcs
    | lazyWithCore ref originalCore lazyFields =>
        lazyWithCore_With ref (go originalCore lazyFields) (fun core =>
          match depth with
          | O => diverge
          | S depth => With depth core fields
          end)
    | levelFilterCore core level => levelFilterCore_With (go core fields) level
    | sampler core counts p hook => sampler_With (go core fields) counts p hook
    | contextObserver enab logs context => contextObserver_With enab logs context fields
    end.

Fixpoint Check (depth : nat) : Core -> Entry.Entry -> option CheckedEntry -> M (option CheckedEntry) :=
  fix go (c : Core) (ent : Entry.Entry) (ce : option CheckedEntry) : M (option CheckedEntry) :=
    match c with
    | nopCore => nopCore_Check ce
    | ioCore enab _ _ => ioCore_Check c enab ent ce
    | multiCore cs => multiCore_Check (fun c ce => go c ent ce) cs ce
    | hooked core _ => hooked_Check c (go core ent ce) ent ce
    | lazyWithCore ref originalCore lazyFields =>
        lazyWithCore_Check (Enabled originalCore (Entry.Level ent)) ref (With 1 originalCore lazyFields)
          (fun core =>
             match depth with
             | O => diverge
             | S depth => Check depth core ent ce
             end) ce
    | levelFilterCore core level => levelFilterCore_Check level (go core ent ce) ent ce
    | sampler core counts p hook =>
        sampler_Check (Enabled core (Entry.Level ent)) counts p hook (go core ent ce) ent ce
    | contextObserver enab _ _ => contextObserver_Check c enab ent ce
    end.

Fixpoint Write (depth : nat) : Core -> Entry.Entry -> list Field -> M error :=
  fix go (c : Core) (ent : Entry.Entry) (fields : list Field) : M error :=
    match c with
    | nopCore => nopCore_Write
    | ioCore _ enc out => ioCore_Write enc out ent fields
    | multiCore cs => multiCore_Write (fun c => go c ent fields) cs
    | hooked _ funcs => hooked_Write funcs ent
    | lazyWithCore ref originalCore lazyFields =>
        lazyWithCore_Write ref (With 1 originalCore lazyFields) (fun core =>
          match depth with
          | O => diverge
          | S depth => Write depth core ent fields
          end)
    | levelFilterCore core _ => levelFilterCore_Write (go core ent fields)
    | sampler core _ _ _ => go core ent fields
    | contextObserver _ ref context => contextObserver_Write ref context ent fields
    end.

Fixpoint Sync (depth : nat) : Core -> M error :=
  fix go (c : Core) : M error :=
    match c with
    | nopCore => nopCore_Sync
    | ioCore _ _ out => ioCore_Sync out
    | multiCore cs => multiCore_Sync go cs
    | hooked core _ => go core
    | lazyWithCore ref originalCore lazyFields =>
        lazyWithCore_Sync ref (With 1 originalCore lazyFields) (fun core =>
          match depth with
          | O => diverge
          | S depth => Sync depth core
          end)
    | levelFilterCore core _ => levelFilterCore_Sync (go core)
    | sampler core _ _ _ => go core
    | contextObserver _ _ _ => contextObserver_Sync
    end.

(** * Constructors *)

Definition NewNopCore : Core := nopCore.

Definition NewCore (enc : Encoder) (ws : @WriteSyncer.WriteSyncer W) (enab : enabler) : Core :=
  ioCore enab enc ws.

Definition NewTee (cs : list Core) : Core :=
  match cs with
  | [] => NewNopCore
  | [c] => c
  | _ => multiCore cs
  end.

Definition RegisterHooks (core : Core) (hooks : list (Entry.Entry -> W -> error * W)) : Core :=
  hooked core hooks.

Definition NewLazyWith (core : Core) (fields : list Field) : M Core := fun st =>
  Ret (lazyWithCore (length (lazies st)) core fields, setLazies st (lazies st ++ [None])).

(** The loop of [NewIncreaseLevelCore] from the highest level down: the first level
    that would be lowered. *)
Definition lowered (core : Core) (level : enabler) : list Level.Level -> M (option Level.Level) :=
  fix go ls :=
    match ls with
    | [] => mret None
    | l :: ls' =>
        a ← Enabled core l;
        b ← (if (a : bool) then mret false else enabler_Enabled level l);
        if (b : bool) then mret (Some l) else go ls'
    end.

Definition NewIncreaseLevelCore (core : Core) (level : enabler) : M (option Core * error) :=
  bad ← lowered core level (rev Level.levels);
  match bad with
  | Some l =>
      mret (None, Some (New_error (str "invalid increase level, as level " ++ Quote (Level.String l) ++
                                   str " is allowed by increased level, but not by existing core")))
  | None => mret (Some (levelFilterCore core level), None)
  end.

Definition nopSamplingHook : Entry.Entry -> Sampler.SamplingDecision -> W -> W := fun _ _ w => w.

(** [NewSamplerWithOptions]; an option sets the hook. *)
Definition NewSamplerWithOptions (core : Core) (tick first thereafter : Z)
    (hook : option (Entry.Entry -> Sampler.SamplingDecision -> W -> W)) : M Core := fun st =>
  let counts := length (counters st) in
  Ret (sampler core counts (Sampler.newParams tick first thereafter) (default nopSamplingHook hook),
       setCounters st (counters st ++ [Sampler.newCounters])).

Definition NewSampler (core : Core) (tick first thereafter : Z) : M Core :=
  NewSamplerWithOptions core tick first thereafter None.

(** [observer.New]: the core and its logs. *)
Definition NewObserver (enab : enabler) : M (Core * nat) := fun st =>
  let ol := length (logs st) in
  Ret ((contextObserver enab ol [], ol), setLogs st (logs st ++ [[]])).

(** * Writing a checked entry *)

Definition OnWrite (hook : CheckWriteHook) (ce : CheckedEntry) (fields : list Field) : M ending :=
  match hook with
  | WriteThenNoop => mret Returns
  | WriteThenGoexit => mret Goexit
  | WriteThenPanic => mret (PanicsWith (Entry.Message (entry ce)))
  | WriteThenFatal => mret (Exits 1)
  | customHook f => inWorld (f (entry ce) fields)
  end.

(** The pre-write hooks, in order. *)
Definition runBefore (hooks : list (Entry.Entry -> list Field -> Entry.Entry * list Field))
    (ent : Entry.Entry) (fields : list Field) : Entry.Entry * list Field :=
  foldl (fun '(ent, fields) hook => hook ent fields) (ent, fields) hooks.

(** [fmt.Fprintf(out, ...)] and [out.Sync()], with their errors ignored. *)
Definition report (out : @WriteSyncer.WriteSyncer W) (text : bytes) : M unit :=
  _ ← sink_Write out text; _ ← sink_Sync out; mret tt.

Definition setDirty (ce : CheckedEntry) : CheckedEntry :=
  mkChecked (entry ce) (ErrorOutput ce) true (after ce) (cores ce) (before ce).

Definition reuseText (ce : CheckedEntry) : bytes :=
  timeString (Entry.Time (entry ce)) ++ str " Unsafe CheckedEntry re-use near Entry " ++
  sprintEntry (entry ce) ++ str "." ++ [x0a].

Definition writeErrorText (ce : CheckedEntry) (e : err) : bytes :=
  timeString (Entry.Time (entry ce)) ++ str " write error: " ++ Error_text e ++ [x0a].

(** [CheckedEntry.Write]: how the call ends and the checked entry as it goes back to
    the pool. *)
Definition checked_Write (ce : option CheckedEntry) (fields : list Field)
    : M (ending * option CheckedEntry) :=
  match ce with
  | None => mret (Returns, None)
  | Some ce =>
      if dirty ce then
        match ErrorOutput ce with
        | Some out => _ ← report out (reuseText ce); mret (Returns, Some ce)
        | None => mret (Returns, Some ce)
        end
      else
        let ce := setDirty ce in
        let '(ent, fields) := runBefore (before ce) (entry ce) fields in
        err ← appendErrors (fun c => Write 1 c ent fields) (cores ce);
        _ ← match err, ErrorOutput ce with
            | Some e, Some out => report out (writeErrorText ce e)
            | _, _ => mret tt
            end;
        ending ← match after ce with
                 | Some hook => OnWrite hook ce fields
                 | None => mret Returns
                 end;
        mret (ending, Some ce)
  end.
End core.

Arguments Core W : clear implicits.
Arguments Store W : clear implicits.
Arguments CheckedEntry W : clear implicits.
Arguments CheckWriteHook W : clear implicits.
Arguments M W A : clear implicits.

#[export] Hint Unfold nopCore_Enabled nopCore_With nopCore_Check nopCore_Write nopCore_Sync
  ioCore_Check ioCore_Sync multiCore_With multiCore_Enabled multiCore_Check multiCore_Write
  multiCore_Sync hooked_Check hooked_With hooked_Write lazyWithCore_With lazyWithCore_Check
  lazyWithCore_Enabled lazyWithCore_Write lazyWithCore_Sync levelFilterCore_Enabled
  levelFilterCore_With levelFilterCore_Check levelFilterCore_Write levelFilterCore_Sync
  sampler_With sampler_Check contextObserver_Check contextObserver_With contextObserver_Write
  contextObserver_Sync : core_methods.
End Core.
