(* ===== verification/CoreSpec.v ===== *)
(** Properties of the cores of Core.v: their methods always finish, lazily built cores
    are built once and disabled entries cost nothing; with the rules for reasoning about
    computations in the monad of Core.v. *)

From Stdlib Require Import ZArith Lia.
From S2P Require Import Prelude GoStd Level AtomicLevel WriteSyncer Sampler Encode Field Entry EncoderConfig JsonEncoder ConsoleEncoder Core.
From stdpp Require Import base list sets.

Local Open Scope Z_scope.
Local Open Scope zap_scope.

Module CoreSpec.
Import Encode Core.

(** * Encoding finishes *)

Lemma obind_Diverge {A B} (m : outcome A) (f : A -> outcome B) :
  m <> Diverge -> (forall a, f a <> Diverge) -> obind m f <> Diverge.
Proof. destruct m; simpl; auto; done. Qed.

Section encoders.
Context {std : GoStd} (reflected : EncoderConfig.ReflectedEncoder).

Lemma json_same : Preserved (E1 := JsonEncoder.jsonEncoders reflected)
  (E2 := JsonEncoder.jsonEncoders reflected) (I := unit) (J := unit) (fun _ => eq) (fun _ => eq).
Proof.
  assert (forall m1 m2 (enc : JsonEncoder.jsonEncoder), relA (J := unit) (fun _ => eq) m1 m2 -> related eq (m1 enc) (m2 enc)) as Hm.
  { intros m1 m2 enc H. by apply (H tt). }
  split; simpl; intros; subst; try done.
  all: intros [] enc ? ->.
  all: unfold JsonEncoder.AddArray, JsonEncoder.AddObject, JsonEncoder.AppendArray, JsonEncoder.AppendObject; cbv zeta.
  all: eapply related_bind; [by apply Hm|]; intros e s1 ? ->; by constructor.
Qed.

Lemma json_run_total p enc : @runObj _ _ (JsonEncoder.jsonEncoders reflected) p enc <> Diverge.
Proof.
  pose proof (runObj_related _ _ json_same p tt enc enc eq_refl) as H. by destruct H.
Qed.

Lemma addFields_total enc fields : addFields reflected enc fields <> Diverge.
Proof.
  destruct enc as [e|c]; simpl; (apply obind_Diverge; [apply json_run_total|by intros []]).
Qed.

Lemma EncodeEntry_total enc ent fields : EncodeEntry reflected enc ent fields <> Diverge.
Proof.
  destruct enc as [e|c]; simpl.
  - unfold JsonEncoder.EncodeEntry. cbv zeta. apply obind_Diverge.
    + unfold JsonEncoder.entryCaller. destruct (Entry.Defined _); [|done].
      apply obind_Diverge; [|done]. case_decide; [done|]. by case_match.
    + intros final. apply obind_Diverge; [apply json_run_total|by intros []].
  - unfold ConsoleEncoder.EncodeEntry. cbv zeta. apply obind_Diverge; [|done].
    unfold ConsoleEncoder.writeContext. cbv zeta.
    apply obind_Diverge; [apply json_run_total|]. intros [e final]. by case_match.
Qed.
End encoders.

(** * Well-formed cores and stores *)

Section cores.
Context {W : Type}.

(** The induction principle with the cores of a tee. *)
Lemma Core_tree_ind (P : Core W -> Prop) :
  P nopCore -> (forall enab enc out, P (ioCore enab enc out)) ->
  (forall cs, Forall P cs -> P (multiCore cs)) ->
  (forall c fs, P c -> P (hooked c fs)) ->
  (forall ref c fields, P c -> P (lazyWithCore ref c fields)) ->
  (forall c level, P c -> P (levelFilterCore c level)) ->
  (forall c n p hook, P c -> P (sampler c n p hook)) ->
  (forall enab l ctx, P (contextObserver enab l ctx)) ->
  forall c, P c.
Proof.
  intros Hn Hio Hm Hh Hl Hf Hs Ho. fix IH 1. intros [| |cores0| | | | |].
  - done.
  - apply Hio.
  - apply Hm. induction cores0 as [|c cs IHcs]; constructor; [apply IH|apply IHcs].
  - apply Hh, IH.
  - apply Hl, IH.
  - apply Hf, IH.
  - apply Hs, IH.
  - apply Ho.
Qed.

(** The lazy cores of a core are all below a bound, and each wraps older ones only:
    a core is made before the cores that wrap it. *)
Fixpoint below (n : nat) (c : Core W) : Prop :=
  match c with
  | multiCore cs => (fix all cs := match cs with [] => True | c :: cs' => below n c /\ all cs' end) cs
  | hooked c _ | levelFilterCore c _ | sampler c _ _ _ => below n c
  | lazyWithCore ref c _ => (ref < n)%nat /\ below ref c
  | nopCore | ioCore _ _ _ | contextObserver _ _ _ => True
  end.

Definition lazyFree (c : Core W) : Prop := below 0 c.

Lemma below_multi n cs : below n (multiCore cs) <-> Forall (below n) cs.
Proof.
  induction cs as [|c cs IH]; simpl in *; [by split; constructor|].
  rewrite Forall_cons, <- IH. done.
Qed.

Lemma below_mono n m c : (n <= m)%nat -> below n c -> below m c.
Proof.
  intros Hnm. induction c as [| |cs IH| | | | |] using Core_tree_ind; simpl; auto.
  - intros H. apply below_multi in H. apply below_multi.
    rewrite Forall_forall in *. intros x Hx. auto.
  - intros [? ?]. split; [lia|done].
Qed.

(** A store is well formed when the cores that were built lazily contain no lazy
    ones. *)
Definition wfStore (st : Store W) : Prop :=
  forall i c, lazies st !! i = Some (Some c) -> lazyFree c.

(** From one store to a later one: nothing that was built is built again, and
    only the cells below the bound were built. *)
Definition grows (n : nat) (st st' : Store W) : Prop :=
  (forall i c, lazies st !! i = Some (Some c) -> lazies st' !! i = Some (Some c)) /\
  (forall i, (n <= i)%nat -> lazies st' !! i = lazies st !! i) /\
  length (lazies st') = length (lazies st).

(** A computation that finishes or panics, keeps stores well formed and builds lazy
    cores at most once. *)
Definition good {A} (n : nat) (P : A -> Prop) (m : M W A) : Prop :=
  forall st, wfStore st ->
    match m st with
    | Ret (a, st') => wfStore st' /\ P a /\ grows n st st'
    | Panic _ => True
    | Diverge => False
    end.

Lemma grows_refl n st : grows n st st.
Proof. by repeat split. Qed.

Lemma grows_trans n st1 st2 st3 : grows n st1 st2 -> grows n st2 st3 -> grows n st1 st3.
Proof.
  intros (A1 & B1 & C1) (A2 & B2 & C2). split; [auto|]. split; [|congruence].
  intros i Hi. by rewrite B2, B1.
Qed.

Lemma grows_mono n m st st' : (n <= m)%nat -> grows n st st' -> grows m st st'.
Proof. intros Hnm (A & B & C). split; [done|]. split; [|done]. intros i Hi. apply B. lia. Qed.

Lemma good_ret {A} n (P : A -> Prop) a : P a -> good n P (mret a).
Proof. intros H st Hst. split; [done|]. split; [done|apply grows_refl]. Qed.

Lemma good_bind {A B} n (P : A -> Prop) (Q : B -> Prop) m f :
  good n P m -> (forall a, P a -> good n Q (f a)) -> good n Q (m ≫= f).
Proof.
  intros Hm Hf st Hst. unfold mbind, M_bind. specialize (Hm st Hst).
  destruct (m st) as [[a st1]| |]; simpl; [|done..]. destruct Hm as (H1 & HP & Hg1).
  specialize (Hf a HP st1 H1). destruct (f a st1) as [[b st2]| |]; [|done..].
  destruct Hf as (H2 & HQ & Hg2). split; [done|]. split; [done|]. by eapply grows_trans.
Qed.

Lemma good_weaken {A} n m (P Q : A -> Prop) x :
  (n <= m)%nat -> (forall a, P a -> Q a) -> good n P x -> good m Q x.
Proof.
  intros Hnm HPQ H st Hst. specialize (H st Hst). destruct (x st) as [[a st']| |]; [|done..].
  destruct H as (? & ? & ?). split; [done|]. split; [auto|]. by eapply grows_mono.
Qed.

Lemma good_lift {A} n (P : A -> Prop) (x : outcome A) :
  x <> Diverge -> (forall a, x = Ret a -> P a) -> good n P (lift x).
Proof.
  intros Hx HP st Hst. unfold lift. destruct x; simpl; [|done..].
  split; [done|]. split; [auto|apply grows_refl].
Qed.

Lemma good_world {A} n (f : W -> A * W) : good n (fun _ => True) (inWorld f).
Proof.
  intros st Hst. unfold inWorld. destruct (f (world st)) as [a w]. by split.
Qed.

Lemma good_enabler n e l : good n (fun _ => True) (enabler_Enabled (W := W) e l).
Proof.
  intros st Hst. destruct e as [l'|a|f]; simpl; [done| |done].
  unfold AtomicLevel.Enabled_, AtomicLevel.Level_, AtomicLevel.Load. destruct a as [i|]; [|done].
  by destruct (atomics st !! i).
Qed.

Lemma good_forEach {A B} n (P : B -> Prop) (f : A -> B -> M W B) l acc :
  Forall (fun x => forall b, P b -> good n P (f x b)) l -> P acc -> good n P (forEach f l acc).
Proof.
  intros Hl. revert acc. induction Hl as [|x l Hx _ IH]; intros acc Hacc; [by apply good_ret|].
  simpl. eapply good_bind; [by apply Hx|]. auto.
Qed.

Lemma good_mapEach {A B} n (P : B -> Prop) (f : A -> M W B) l :
  Forall (fun x => good n P (f x)) l -> good n (Forall P) (mapEach f l).
Proof.
  induction 1 as [|x l Hx _ IH]; [by apply good_ret; constructor|]. simpl.
  eapply good_bind; [done|]. intros y Hy. eapply good_bind; [done|].
  intros ys Hys. apply good_ret. by constructor.
Qed.

Lemma good_anyEach {A} n (f : A -> M W bool) l :
  Forall (fun x => good n (fun _ => True) (f x)) l -> good n (fun _ => True) (anyEach f l).
Proof.
  induction 1 as [|x l Hx _ IH]; [by apply good_ret|]. simpl.
  eapply good_bind; [done|]. intros [] _; [by apply good_ret|done].
Qed.

Lemma good_Enabled n c l : good n (fun _ => True) (Enabled c l).
Proof.
  induction c as [| |cs IH| | | | |] using Core_tree_ind; simpl; autounfold with core_methods; try done;
    try apply good_enabler; try (by apply good_ret).
  by apply good_anyEach.
Qed.

(** Building the core of cell [ref] from cores older than it. *)
Lemma good_initOnce n ref build :
  (ref < n)%nat -> good ref lazyFree build -> good n lazyFree (initOnce ref build).
Proof.
  intros Hn Hb st Hst. unfold initOnce.
  destruct (lazies st !! ref) as [[c|]|] eqn:E; [|..|done].
  - split; [done|]. split; [by eapply Hst|apply grows_refl].
  - specialize (Hb st Hst). destruct (build st) as [[c st1]| |]; simpl; [|done..].
    destruct Hb as (Hw & Hc & Hg & Hs & Hl).
    assert (lazies st1 !! ref = Some None) as E1 by (by rewrite Hs).
    split; [|split; [done|split; [|split]]].
    + intros i c' Hi. simpl in Hi. destruct (decide (ref = i)) as [<-|Hne].
      * rewrite list_lookup_insert_eq in Hi by (by apply lookup_lt_Some in E1). by simplify_eq.
      * rewrite list_lookup_insert_ne in Hi by done. by eapply Hw.
    + intros i c' Hi. simpl. destruct (decide (ref = i)) as [<-|Hne]; [congruence|].
      rewrite list_lookup_insert_ne by done. auto.
    + intros i Hi. simpl. rewrite list_lookup_insert_ne by lia. apply Hs. lia.
    + simpl. by rewrite length_insert.
Qed.

Context {std : GoStd} {ME : Multierr} (reflected : EncoderConfig.ReflectedEncoder)
  (sprintEntry : Entry.Entry -> bytes).

Lemma good_ioCore_With n enab enc out fields :
  good n lazyFree (ioCore_With (W := W) reflected enab enc out fields).
Proof.
  unfold ioCore_With, ioCore_clone. eapply good_bind.
  - apply (good_lift n (fun _ => True)); [apply addFields_total|done].
  - intros e _. by apply good_ret.
Qed.

(** [With] on cores without lazy ones, at any depth. *)
Lemma good_With_free depth n c fields :
  lazyFree c -> good n lazyFree (With reflected depth c fields).
Proof.
  revert fields.
  induction c as [| |cs IH|c fs IH|ref c lf IH|c level IH|c k p hook IH|] using Core_tree_ind;
    intros fields Hc; destruct depth; simpl; autounfold with core_methods.
  all: try (by apply good_ret); try apply good_ioCore_With; try (by destruct Hc as [Hc _]; lia).
  all: try (eapply good_bind; [by apply IH|]; intros c' Hc'; by apply good_ret).
  all: apply below_multi in Hc; eapply good_bind; [apply (good_mapEach n lazyFree)|].
  all: try (rewrite Forall_forall in *; intros x Hx; by apply IH, Hc).
  all: intros cs' Hcs'; apply good_ret; by apply below_multi.
Qed.

Lemma good_With depth n c fields :
  below n c -> good n lazyFree (With reflected (S depth) c fields).
Proof.
  revert n fields.
  induction c as [| |cs IH|c fs IH|ref c lf IH|c level IH|c k p hook IH|] using Core_tree_ind;
    intros n fields Hc; simpl; autounfold with core_methods.
  - by apply good_ret.
  - apply good_ioCore_With.
  - apply below_multi in Hc. eapply good_bind; [apply (good_mapEach n lazyFree)|].
    + rewrite Forall_forall in *. intros x Hx. by apply IH, Hc.
    + intros cs' Hcs'. apply good_ret. by apply below_multi.
  - eapply good_bind; [by apply IH|]. intros c' Hc'. by apply good_ret.
  - destruct Hc as [Href Hc]. eapply good_bind; [apply good_initOnce; [done|by apply IH]|].
    intros c' Hc'. by apply good_With_free.
  - eapply good_bind; [by apply IH|]. intros c' Hc'. by apply good_ret.
  - eapply good_bind; [by apply IH|]. intros c' Hc'. by apply good_ret.
  - by apply good_ret.
Qed.

(** The cores of a checked entry. *)
Definition ceBelow (n : nat) (ce : option (CheckedEntry W)) : Prop :=
  match ce with
  | Some ce => Forall (below n) (cores ce)
  | None => True
  end.

Lemma ceBelow_AddCore n ce ent c : ceBelow n ce -> below n c -> ceBelow n (AddCore ce ent c).
Proof.
  intros Hce Hc. destruct ce as [ce|]; simpl; [by apply Forall_app; auto|by repeat constructor].
Qed.

Lemma ceBelow_mono n m ce : (n <= m)%nat -> ceBelow n ce -> ceBelow m ce.
Proof.
  intros Hnm. destruct ce as [ce|]; [|done]. simpl. intros H. eapply Forall_impl; [done|].
  intros x. by apply below_mono.
Qed.

Lemma good_samplerDecision n k p ent : good n (fun _ => True) (samplerDecision k p ent).
Proof.
  intros st Hst. unfold samplerDecision. destruct (counters st !! k); [|done].
  unfold Sampler.sample. destruct (_ && _); [|by split].
  unfold Sampler.get. cbv zeta. destruct (_ && _ && _ && _); [|done].
  cbn [obind]. destruct (Sampler.IncCheckReset _ _ _). by split.
Qed.

Lemma lazyFree_below n c : lazyFree c -> below n c.
Proof. apply below_mono. lia. Qed.

(** The step that [Check], [Write] and [Sync] of a lazy core share. *)
Lemma good_lazy {A} n ref c lf (P : A -> Prop) (k : Core W -> M W A) :
  below n (lazyWithCore ref c lf) -> (forall c', lazyFree c' -> good n P (k c')) ->
  good n P (initOnce ref (With reflected 1 c lf) ≫= k).
Proof.
  intros [Href Hc] Hk. eapply good_bind; [|done].
  apply good_initOnce; [done|]. by apply good_With.
Qed.

Lemma good_Check_free depth n c ent ce :
  lazyFree c -> ceBelow n ce -> good n (ceBelow n) (Check reflected depth c ent ce).
Proof.
  revert ce. induction c as [| |cs IH|c fs IH|ref c lf IH|c level IH|c k p hook IH|] using Core_tree_ind;
    intros ce Hc Hce; destruct depth; simpl; autounfold with core_methods.
  all: try (by apply good_ret); try (by destruct Hc as [Hc _]; lia).
  all: try (eapply good_bind; [apply good_enabler|]; intros [] _; apply good_ret; [by apply ceBelow_AddCore|done]).
  all: try (apply below_multi in Hc; apply good_forEach; [|done]; unfold lazyFree in *; rewrite Forall_forall in *; by auto).
  all: try (eapply good_bind; [by apply IH|]; intros [ce'|] Hd; apply good_ret;
            [by apply ceBelow_AddCore; [|apply lazyFree_below]|done]).
  all: try (eapply good_bind; [apply good_enabler|]; intros [] _; simpl; [by apply IH|by apply good_ret]).
  all: eapply good_bind; [apply good_Enabled|]; intros [] _; simpl; [|by apply good_ret].
  all: eapply good_bind; [apply good_samplerDecision|]; intros [[]|] _; try (by apply IH).
  all: eapply good_bind; [apply good_world|]; intros _ _; try (by apply IH); by apply good_ret.
Qed.

Lemma good_Check depth n c ent ce :
  below n c -> ceBelow n ce -> good n (ceBelow n) (Check reflected (S depth) c ent ce).
Proof.
  revert ce. induction c as [| |cs IH|c fs IH|ref c lf IH|c level IH|c k p hook IH|] using Core_tree_ind;
    intros ce Hc Hce; simpl; autounfold with core_methods.
  - by apply good_ret.
  - eapply good_bind; [apply good_enabler|]. intros [] _; apply good_ret; [by apply ceBelow_AddCore|done].
  - apply below_multi in Hc. apply good_forEach; [|done]. rewrite Forall_forall in *. auto.
  - eapply good_bind; [by apply IH|]. intros [ce'|] Hd; apply good_ret; [by apply ceBelow_AddCore|done].
  - eapply good_bind; [apply good_Enabled|]. intros [] _; simpl; [|by apply good_ret].
    eapply good_lazy; [done|]. intros c' Hc'. by apply good_Check_free.
  - eapply good_bind; [apply good_enabler|]. intros [] _; simpl; [by apply IH|by apply good_ret].
  - eapply good_bind; [apply good_Enabled|]. intros [] _; simpl; [|by apply good_ret].
    eapply good_bind; [apply good_samplerDecision|]. intros [[]|] _; try (by apply IH).
    + eapply good_bind; [apply good_world|]. intros _ _. by apply good_ret.
    + eapply good_bind; [apply good_world|]. intros _ _. by apply IH.
  - eapply good_bind; [apply good_enabler|]. intros [] _; apply good_ret; [by apply ceBelow_AddCore|done].
Qed.

Lemma good_appendErrors {A} n (f : A -> M W error) l :
  Forall (fun x => good n (fun _ => True) (f x)) l -> good n (fun _ => True) (appendErrors f l).
Proof.
  intros H. apply good_forEach; [|done]. eapply Forall_impl; [done|]. intros x Hx b _.
  eapply good_bind; [exact Hx|]. intros e _. by apply good_ret.
Qed.

Lemma good_ioCore_Write n enc out ent fields :
  good n (fun _ => True) (ioCore_Write (W := W) reflected enc out ent fields).
Proof.
  unfold ioCore_Write. eapply good_bind.
  - apply (good_lift n (fun _ => True)); [apply EncodeEntry_total|done].
  - intros [buf [e|]] _; [by apply good_ret|]. eapply good_bind; [apply good_world|].
    intros [k [e|]] _; [by apply good_ret|]. destruct (_ <? _); [|by apply good_ret].
    eapply good_bind; [apply good_world|]. intros _ _. by apply good_ret.
Qed.

Lemma good_addLog n ref e : good n (fun _ => True) (addLog ref e).
Proof. intros st Hst. unfold addLog. by destruct (logs st !! ref). Qed.

Lemma good_Write_free depth n c ent fields :
  lazyFree c -> good n (fun _ => True) (Write reflected depth c ent fields).
Proof.
  induction c as [| |cs IH|c fs IH|ref c lf IH|c level IH|c k p hook IH|] using Core_tree_ind;
    intros Hc; destruct depth; simpl; autounfold with core_methods.
  all: try (by apply good_ret); try (by destruct Hc as [Hc _]; lia); try apply good_ioCore_Write; try (by apply IH).
  all: try (apply below_multi in Hc; apply good_appendErrors; unfold lazyFree in *; rewrite Forall_forall in *; by auto).
  all: try (apply good_appendErrors, Forall_true; intros f; apply good_world).
  all: eapply good_bind; [apply good_addLog|]; intros _ _; by apply good_ret.
Qed.

Lemma good_Write depth n c ent fields :
  below n c -> good n (fun _ => True) (Write reflected (S depth) c ent fields).
Proof.
  induction c as [| |cs IH|c fs IH|ref c lf IH|c level IH|c k p hook IH|] using Core_tree_ind;
    intros Hc; simpl; autounfold with core_methods.
  - by apply good_ret.
  - apply good_ioCore_Write.
  - apply below_multi in Hc. apply good_appendErrors. rewrite Forall_forall in *. auto.
  - apply good_appendErrors, Forall_true. intros f. apply good_world.
  - eapply good_lazy; [done|]. intros c' Hc'. by apply good_Write_free.
  - by apply IH.
  - by apply IH.
  - eapply good_bind; [apply good_addLog|]. intros _ _. by apply good_ret.
Qed.

Lemma good_Sync_free depth n c : lazyFree c -> good n (fun _ => True) (Sync reflected depth c).
Proof.
  induction c as [| |cs IH|c fs IH|ref c lf IH|c level IH|c k p hook IH|] using Core_tree_ind;
    intros Hc; destruct depth; simpl; autounfold with core_methods.
  all: try (by apply good_ret); try (by destruct Hc as [Hc _]; lia); try apply good_world; try (by apply IH).
  all: apply below_multi in Hc; apply good_appendErrors; unfold lazyFree in *; rewrite Forall_forall in *; by auto.
Qed.

Lemma good_Sync depth n c : below n c -> good n (fun _ => True) (Sync reflected (S depth) c).
Proof.
  induction c as [| |cs IH|c fs IH|ref c lf IH|c level IH|c k p hook IH|] using Core_tree_ind;
    intros Hc; simpl; autounfold with core_methods; try (by apply good_ret); try apply good_world; try (by apply IH).
  - apply below_multi in Hc. apply good_appendErrors. rewrite Forall_forall in *. auto.
  - eapply good_lazy; [done|]. intros c' Hc'. by apply good_Sync_free.
Qed.

(** * Level checks do not change the store *)

Definition pureAt {A} (m : M W A) : Prop :=
  forall st, (exists a, m st = Ret (a, st)) \/ (exists v, m st = Panic v).

Lemma pure_ret {A} (a : A) : pureAt (mret a).
Proof. intros st. left. by exists a. Qed.

Lemma pure_bind {A B} (m : M W A) (f : A -> M W B) :
  pureAt m -> (forall a, pureAt (f a)) -> pureAt (m ≫= f).
Proof.
  intros Hm Hf st. unfold mbind, M_bind. destruct (Hm st) as [[a E]|[v E]]; rewrite E; [apply Hf|].
  right. by exists v.
Qed.

Lemma pure_enabler e l : pureAt (enabler_Enabled (W := W) e l).
Proof.
  intros st. destruct e as [l'|a|f]; simpl; [left; by eexists| |left; by eexists].
  unfold AtomicLevel.Enabled_, AtomicLevel.Level_, AtomicLevel.Load. destruct a as [i|]; [|right; by eexists].
  destruct (atomics st !! i); [left|right]; by eexists.
Qed.

Lemma pure_Enabled c l : pureAt (Enabled (W := W) c l).
Proof.
  induction c as [| |cs IH| | | | |] using Core_tree_ind; simpl; autounfold with core_methods;
    auto using pure_ret, pure_enabler.
  induction IH as [|c cs Hc _ IHcs]; [apply pure_ret|].
  simpl. apply pure_bind; [done|]. intros []; [apply pure_ret|done].
Qed.

(** The result of a pure computation comes with the store it started from. *)
Lemma pure_store {A} (m : M W A) a st st' : pureAt m -> m st = Ret (a, st') -> st' = st.
Proof. intros Hm E. destruct (Hm st) as [[b E']|[v E']]; rewrite E' in E; by simplify_eq. Qed.

Lemma bind_Ret {A B} (m : M W A) (f : A -> M W B) st b st' :
  (m ≫= f) st = Ret (b, st') -> exists a st1, m st = Ret (a, st1) /\ f a st1 = Ret (b, st').
Proof.
  unfold mbind, M_bind. destruct (m st) as [[a st1]| |]; simpl; [|done..]. eauto.
Qed.

(** [bind_Ret] for a computation that leaves the store alone. *)
Lemma pure_bind_Ret {A B} (m : M W A) (f : A -> M W B) st b st' :
  pureAt m -> (m ≫= f) st = Ret (b, st') -> exists a, m st = Ret (a, st) /\ f a st = Ret (b, st').
Proof.
  intros Hm (a & st1 & E1 & E2)%bind_Ret. rewrite (pure_store m a st st1) in * by done. eauto.
Qed.

Lemma run_bind {A B} (m : M W A) (f : A -> M W B) st a st1 :
  m st = Ret (a, st1) -> (m ≫= f) st = f a st1.
Proof. intros E. unfold mbind, M_bind. by rewrite E. Qed.

(** A disabled entry costs nothing: when no core is enabled at the entry's level,
    [Check] of any core, a tee, hook, sampler, filter or lazy core included, gives no
    checked entry and changes nothing: no counter moves, no lazy field is evaluated,
    nothing is written. *)
Lemma Check_disabled depth (c : Core W) ent st :
  Enabled c (Entry.Level ent) st = Ret (false, st) ->
  Check reflected depth c ent None st = Ret (None, st).
Proof.
  induction c as [| |cs IH|c fs IH|ref c lf IH|c level IH|c k p hook IH|] using Core_tree_ind;
    intros E; destruct depth; cbn [Check Enabled] in *; autounfold with core_methods in *; try done.
  all: try (erewrite run_bind; [|exact E]; done).
  all: try (erewrite run_bind; [|by apply IH]; done).
  all: induction IH as [|c cs Hc _ IHcs]; [done|].
  all: apply (pure_bind_Ret _ _ _ _ _ (pure_Enabled _ _)) in E as ([] & E1 & E2); [done|].
  all: cbn [forEach]; erewrite run_bind; [|by apply Hc]; by apply IHcs.
Qed.
End cores.

(** The methods of a core finish or panic, and leave the store well formed with every
    core that had been built lazily still the one in its cell. *)
Definition finishes {W A} (st : Store W) (r : outcome (A * Store W)) : Prop :=
  match r with
  | Ret (_, st') =>
      wfStore st' /\
      forall i c, lazies st !! i = Some (Some c) -> lazies st' !! i = Some (Some c)
  | Panic _ => True
  | Diverge => False
  end.

Lemma good_finishes {W A} n (P : A -> Prop) (m : M W A) st : good n P m -> wfStore st -> finishes st (m st).
Proof.
  intros Hm Hst. specialize (Hm st Hst). unfold finishes.
  destruct (m st) as [[a st']| |]; [|done..]. by destruct Hm as (? & _ & ? & _).
Qed.

Section theorems.
Context {W : Type} {std : GoStd} {ME : Multierr}.

(** Every method of every core finishes: [With], [Check], [Write] and [Sync] of any
    core whose lazy cores were made in order never run out of depth one, they
    return or a marshaler or an index panics; and a lazy core whose fields have been
    evaluated is never evaluated again, whichever methods run. *)
Theorem core_methods_total reflected (c : Core W) st ent fields ce :
  wfStore st -> below (length (lazies st)) c -> ceBelow (length (lazies st)) ce ->
  finishes st (With reflected 1 c fields st) /\
  finishes st (Check reflected 1 c ent ce st) /\
  finishes st (Write reflected 1 c ent fields st) /\
  finishes st (Sync reflected 1 c st).
Proof.
  intros Hst Hc Hce. split; [|split; [|split]]; (eapply good_finishes; [|done]).
  - by apply good_With.
  - by apply good_Check.
  - by apply good_Write.
  - by apply good_Sync.
Qed.

(** * Lazy fields *)

Context (reflected : EncoderConfig.ReflectedEncoder).

(** A call of a method of a core, and what it returns. *)
Inductive use :=
| UEnabled (l : Level.Level)
| UCheck (ent : Entry.Entry) (ce : option (CheckedEntry W))
| UWith (fields : list Field)
| UWrite (ent : Entry.Entry) (fields : list Field)
| USync.

Inductive answer :=
| AEnabled (b : bool)
| AChecked (ce : option (CheckedEntry W))
| ACore (c : Core W)
| AError (e : error).

Definition runUse (depth : nat) (c : Core W) (u : use) : M W answer :=
  match u with
  | UEnabled l => b ← Enabled c l; mret (AEnabled b)
  | UCheck ent ce => ce ← Check reflected depth c ent ce; mret (AChecked ce)
  | UWith fields => c ← With reflected depth c fields; mret (ACore c)
  | UWrite ent fields => e ← Write reflected depth c ent fields; mret (AError e)
  | USync => e ← Sync reflected depth c; mret (AError e)
  end.

(** The answer that the level of the wrapped core gives alone, if it does. *)
Definition levelAnswer (orig : Core W) (u : use) : M W (option answer) :=
  match u with
  | UEnabled l => b ← Enabled orig l; mret (Some (AEnabled b))
  | UCheck ent ce => b ← Enabled orig (Entry.Level ent); mret (if (b : bool) then None else Some (AChecked ce))
  | UWith _ | UWrite _ _ | USync => mret None
  end.

(** Calls of a core [c] that was built out of [orig]. *)
Fixpoint builtUses (orig c : Core W) (us : list use) : M W (list answer) :=
  match us with
  | [] => mret []
  | u :: us' =>
      early ← levelAnswer orig u;
      a ← match early with Some a => mret a | None => runUse 0 c u end;
      rest ← builtUses orig c us';
      mret (a :: rest)
  end.

Definition keepBuilt (ref : nat) (c : Core W) : M W unit := fun st =>
  Ret ((), setLazies st (<[ref := Some c]> (lazies st))).

(** Calls of a lazy core: nothing is built while the level decides; then the fields are
    added once, the core that gives is kept in the cell [ref], and all further calls are
    calls of it. *)
Fixpoint lazyUses (ref : nat) (orig : Core W) (lf : list Field) (us : list use) : M W (list answer) :=
  match us with
  | [] => mret []
  | u :: us' =>
      early ← levelAnswer orig u;
      match early with
      | Some a => rest ← lazyUses ref orig lf us'; mret (a :: rest)
      | None =>
          c ← With reflected 1 orig lf;
          _ ← keepBuilt ref c;
          a ← runUse 0 c u;
          rest ← builtUses orig c us';
          mret (a :: rest)
      end
  end.

Lemma levelAnswer_pure orig u : pureAt (levelAnswer orig u).
Proof. destruct u; simpl; auto using pure_ret, pure_bind, pure_Enabled. Qed.

(** One call, with the core that the cell holds or gets. *)
Lemma runUse_lazy ref orig lf u st :
  runUse 1 (lazyWithCore ref orig lf) u st =
  (early ← levelAnswer orig u;
   match early with
   | Some a => mret a
   | None => c ← initOnce ref (With reflected 1 orig lf); runUse 0 c u
   end) st.
Proof.
  assert (forall A (m : M W (Core W)) (f : Core W -> M W A) (g : A -> answer),
    (a ← (c ← m; f c); mret (g a)) st = (c ← m; (a ← f c; mret (g a))) st) as Hassoc.
  { intros A m f g. unfold mbind, M_bind. by destruct (m st) as [[c st2]| |]. }
  destruct u as [l|ent ce|fields|ent fields|]; cbn [levelAnswer].
  - cbn. unfold lazyWithCore_Enabled, mbind, M_bind. by destruct (Enabled orig l st) as [[b st1]| |].
  - cbn [runUse]. change (Check reflected 1 (lazyWithCore ref orig lf) ent ce) with
      (b ← Enabled orig (Entry.Level ent); if negb b then mret ce else
         c ← initOnce ref (With reflected 1 orig lf); Check reflected 0 c ent ce).
    clear Hassoc. generalize (Check (W := W) reflected 0), (initOnce ref (With reflected 1 orig lf)). intros f m.
    unfold mbind, M_bind, mret, M_ret. destruct (Enabled orig (Entry.Level ent) st) as [[[] st1]| |]; cbn; [|done..].
    by destruct (m st1) as [[c st2]| |].
  - apply (Hassoc _ _ (fun c => With reflected 0 c fields)).
  - apply (Hassoc _ _ (fun c => Write reflected 0 c ent fields)).
  - apply (Hassoc _ _ (fun c => Sync reflected 0 c)).
Qed.

(** The checked entries that are passed in. *)
Definition useBelow (n : nat) (u : use) : Prop :=
  match u with UCheck _ ce => ceBelow n ce | _ => True end.

Lemma good_runUse_free n c u : lazyFree c -> useBelow n u -> good n (fun _ => True) (runUse 0 c u).
Proof.
  intros Hc Hu. destruct u; cbn [runUse].
  - eapply good_bind; [apply good_Enabled|]. intros. by apply good_ret.
  - eapply good_bind; [by apply good_Check_free|]. intros. by apply good_ret.
  - eapply good_bind; [by apply good_With_free|]. intros. by apply good_ret.
  - eapply good_bind; [by apply good_Write_free|]. intros. by apply good_ret.
  - eapply good_bind; [by apply good_Sync_free|]. intros. by apply good_ret.
Qed.

(** Calls when the cell holds a core: the fields do not matter any more. *)
Lemma uses_built n ref orig lf c us st :
  wfStore st -> lazies st !! ref = Some (Some c) -> Forall (useBelow n) us ->
  mapEach (runUse 1 (lazyWithCore ref orig lf)) us st = builtUses orig c us st.
Proof.
  intros Hst Hc Hus. revert st Hst Hc. induction Hus as [|u us Hu _ IH]; intros st Hst Hc; [done|].
  cbn [mapEach builtUses]. unfold mbind at 1, M_bind at 1. rewrite runUse_lazy.
  unfold mbind, M_bind. destruct (levelAnswer_pure orig u st) as [[early E]|[v E]]; rewrite E; cbn [obind]; [|done].
  destruct early as [a|]; cbn [obind mret M_ret]; [by rewrite IH|].
  unfold initOnce. rewrite Hc. cbn [obind].
  pose proof (good_runUse_free n c u (Hst _ _ Hc) Hu st Hst) as Hg.
  destruct (runUse 0 c u st) as [[a st1]| |]; cbn [obind]; [|done..].
  destruct Hg as (Hst1 & _ & Hk & _). by rewrite IH by auto.
Qed.

Lemma initOnce_build ref (build : M W (Core W)) st :
  lazies st !! ref = Some None -> initOnce ref build st = (c ← build; _ ← keepBuilt ref c; mret c) st.
Proof. intros Hc. unfold initOnce. by rewrite Hc. Qed.

(** Building keeps the core in its cell. *)
Lemma keepBuilt_wf n ref (c : Core W) (st st1 : Store W) :
  lazies st !! ref = Some None -> wfStore st1 -> lazyFree c -> grows n st st1 ->
  let st2 := setLazies st1 (<[ref := Some c]> (lazies st1)) in
  wfStore st2 /\ lazies st2 !! ref = Some (Some c).
Proof.
  intros Hc Hst Hfree (_ & _ & Hlen). apply lookup_lt_Some in Hc. cbn.
  split; [|apply list_lookup_insert_eq; lia].
  intros i c' Hi. simpl in Hi. apply list_lookup_insert_Some in Hi as [(<- & [= <-] & _)|[_ Hi]]; [done|by eapply Hst].
Qed.

Lemma uses_lazy n ref orig lf us st :
  wfStore st -> lazies st !! ref = Some None -> below ref orig -> Forall (useBelow n) us ->
  mapEach (runUse 1 (lazyWithCore ref orig lf)) us st = lazyUses ref orig lf us st.
Proof.
  intros Hst Hc Ho. induction us as [|u us IH]; intros Hus; [done|]. apply Forall_cons in Hus as [Hu Hus].
  cbn [mapEach lazyUses]. unfold mbind at 1, M_bind at 1. rewrite runUse_lazy.
  unfold mbind, M_bind. destruct (levelAnswer_pure orig u st) as [[early E]|[v E]]; rewrite E; cbn [obind]; [|done].
  destruct early as [a|]; cbn [obind mret M_ret]; [by rewrite IH|].
  rewrite (initOnce_build _ _ _ Hc). unfold mbind, M_bind, keepBuilt.
  pose proof (good_With reflected 0 ref orig lf Ho st Hst) as Hw.
  destruct (With reflected 1 orig lf st) as [[c st1]| |]; cbn [obind mret M_ret]; [|done..].
  destruct Hw as (Hst1 & Hfree & Hg). destruct (keepBuilt_wf _ _ _ _ _ Hc Hst1 Hfree Hg) as [Hst2 Hc2].
  set (st2 := setLazies st1 _) in *. pose proof (good_runUse_free n c u Hfree Hu st2 Hst2) as Hr.
  destruct (runUse 0 c u st2) as [[a st3]| |]; cbn [obind]; [|done..].
  destruct Hr as (Hst3 & _ & Hk & _). by rewrite (uses_built n ref orig lf c us) by auto.
Qed.

Lemma good_uses n c us : below n c -> Forall (useBelow n) us -> good n (fun _ => True) (mapEach (runUse 1 c) us).
Proof.
  intros Hc Hus. eapply (good_weaken n n (Forall (fun _ => True))); [done|done|]. apply good_mapEach.
  eapply Forall_impl; [exact Hus|]. intros u Hu. destruct u; cbn [runUse].
  - eapply good_bind; [apply good_Enabled|]. intros. by apply good_ret.
  - eapply good_bind; [by apply good_Check|]. intros. by apply good_ret.
  - eapply good_bind; [by apply good_With|]. intros. by apply good_ret.
  - eapply good_bind; [by apply good_Write|]. intros. by apply good_ret.
  - eapply good_bind; [by apply good_Sync|]. intros. by apply good_ret.
Qed.

(** C15: lazy fields are evaluated once, late.  A lazy core that holds no core yet answers
    any sequence of calls of its methods by its level alone as long as that decides;
    at the first call for which it does not, its fields are added to the wrapped core
    by [With], and that call and all after it are calls of the core this gave, guarded
    by the level.  Once the cell holds a core, the fields of the lazy core play no part
    any more, whatever evaluating them would give now or whether it would panic.  No
    sequence of calls goes on forever. *)
Theorem lazy_fields_once ref orig lf us st :
  wfStore st -> below ref orig -> Forall (useBelow (length (lazies st))) us ->
  match lazies st !! ref with
  | Some None =>
      mapEach (runUse 1 (lazyWithCore ref orig lf)) us st = lazyUses ref orig lf us st /\
      lazyUses ref orig lf us st <> Diverge
  | Some (Some c) =>
      forall lf', mapEach (runUse 1 (lazyWithCore ref orig lf')) us st = builtUses orig c us st /\
                  builtUses orig c us st <> Diverge
  | None => True
  end.
Proof.
  intros Hst Ho Hus. destruct (lazies st !! ref) as [[c|]|] eqn:Hc; [intros lf'| |done].
  all: assert (ref < length (lazies st))%nat as Hlt by by eapply lookup_lt_Some.
  - pose proof (good_uses (length (lazies st)) (lazyWithCore ref orig lf') us (conj Hlt Ho) Hus st Hst) as Hg.
    rewrite (uses_built (length (lazies st)) ref orig lf' c us st) in * by done. split; [done|]. by intros E; rewrite E in Hg.
  - pose proof (good_uses (length (lazies st)) (lazyWithCore ref orig lf) us (conj Hlt Ho) Hus st Hst) as Hg.
    rewrite (uses_lazy (length (lazies st)) ref orig lf us st) in * by done. split; [done|]. by intros E; rewrite E in Hg.
Qed.
End theorems.
End CoreSpec.
