(* ===== verification/CoreDelivery.v ===== *)
(** What the cores of Core.v deliver: the route of an entry through a tree of tees and
    level filters to the observers behind it, the single use of a checked entry, what
    an increased level promises, lazy fields against eager ones, and the behaviour of
    registered hooks behind a tee. *)

From Stdlib Require Import ZArith Lia.
From S2P Require Import Prelude GoStd Level AtomicLevel WriteSyncer Sampler Encode Field Entry EncoderConfig JsonEncoder ConsoleEncoder Core CoreSpec.
From stdpp Require Import base list sets.

Local Open Scope Z_scope.
Local Open Scope zap_scope.

Module CoreDelivery.
Import Encode Core CoreSpec.

Section delivery.
Context {W : Type} {std : GoStd} {ME : Multierr} {MS : MultierrSpec ME}.
Context (reflected : EncoderConfig.ReflectedEncoder) (sprintEntry : Entry.Entry -> bytes).

(** * Routes *)

(** The enabler can be asked: an atomic level has its cell. *)
Definition allocated (st : Store W) (e : enabler) : Prop :=
  match e with
  | enablerAtomic (Some i) => is_Some (atomics st !! i)
  | enablerAtomic None => False
  | _ => True
  end.

Definition on (st : Store W) (e : enabler) (lvl : Level.Level) : bool :=
  match enabler_Enabled e lvl st with
  | Ret (b, _) => b
  | _ => false
  end.

Lemma enabler_on st e lvl : allocated st e -> enabler_Enabled e lvl st = Ret (on st e lvl, st).
Proof.
  unfold on. destruct e as [l|[i|]|f]; simpl; try done. intros [v E].
  unfold AtomicLevel.Enabled_, AtomicLevel.Level_, AtomicLevel.Load. by rewrite E.
Qed.

(** Trees of tees and level filters over cores that write, each of them a [leaf]. *)
Fixpoint wired (leaf : Core W -> Prop) (st : Store W) (c : Core W) : Prop :=
  match c with
  | nopCore => True
  | multiCore cs => (fix all cs := match cs with [] => True | c :: cs' => wired leaf st c /\ all cs' end) cs
  | levelFilterCore c level => allocated st level /\ wired leaf st c
  | ioCore enab _ _ | contextObserver enab _ _ => allocated st enab /\ leaf c
  | _ => False
  end.

(** The leaves that take an entry at [lvl]. *)
Fixpoint outlets (st : Store W) (lvl : Level.Level) (c : Core W) : list (Core W) :=
  match c with
  | multiCore cs => concat (map (outlets st lvl) cs)
  | levelFilterCore c level => if on st level lvl then outlets st lvl c else []
  | ioCore enab _ _ | contextObserver enab _ _ => if on st enab lvl then [c] else []
  | _ => []
  end.

(** Trees over observers of the store. *)
Definition routing (st : Store W) : Core W -> Prop :=
  wired (fun c => match c with contextObserver _ ref _ => (ref < length (logs st))%nat | _ => False end) st.

(** The specification: the observers that an entry at [lvl] reaches, each with its
    context. *)
Fixpoint reached (st : Store W) (lvl : Level.Level) (c : Core W) : list (enabler * nat * list Field) :=
  match c with
  | multiCore cs => concat (map (reached st lvl) cs)
  | levelFilterCore c level => if on st level lvl then reached st lvl c else []
  | contextObserver enab ref ctx => if on st enab lvl then [(enab, ref, ctx)] else []
  | _ => []
  end.

Definition observerOf (o : enabler * nat * list Field) : Core W :=
  contextObserver (o.1.1) (o.1.2) (o.2).

Definition addCores (ent : Entry.Entry) (ce : option (CheckedEntry W)) (cs : list (Core W))
    : option (CheckedEntry W) := foldl (fun ce c => AddCore ce ent c) ce cs.

(** What a delivery does to the logs. *)
Definition deliver (ent : Entry.Entry) (fields : list Field) (os : list (enabler * nat * list Field))
    (l : list (list LoggedEntry)) : list (list LoggedEntry) :=
  foldl (fun l o => alter (fun es => es ++ [mkLogged ent (o.2 ++ fields)]) (o.1.2) l) l os.

Lemma wired_multi leaf st cs : wired leaf st (multiCore cs) <-> Forall (wired leaf st) cs.
Proof.
  induction cs as [|c cs IH]; simpl in *; [by split; constructor|].
  rewrite Forall_cons, <- IH. done.
Qed.

Lemma wired_mono (leaf leaf' : Core W -> Prop) st c :
  (forall c, leaf c -> leaf' c) -> wired leaf st c -> wired leaf' st c.
Proof.
  intros Hl. induction c as [| |cs IH|c fs IH|ref c lf IH|c level IH|c k p hook IH|] using Core_tree_ind; try done.
  - intros [? ?]. split; auto.
  - rewrite !wired_multi, !Forall_forall in *. eauto.
  - intros [? ?]. split; auto.
  - intros [? ?]. split; auto.
Qed.

Lemma routing_multi st cs : routing st (multiCore cs) <-> Forall (routing st) cs.
Proof. apply wired_multi. Qed.

Lemma reached_multi st lvl c cs :
  reached st lvl (multiCore (c :: cs)) = reached st lvl c ++ reached st lvl (multiCore cs).
Proof. done. Qed.

(** [Check] collects the leaves that take the entry, in order. *)
Lemma Check_wired leaf depth (c : Core W) ent ce st :
  wired leaf st c ->
  Check reflected depth c ent ce st = Ret (addCores ent ce (outlets st (Entry.Level ent) c), st).
Proof.
  revert ce. induction c as [| |cs IH|c fs IH|ref c lf IH|c level IH|c k p hook IH|] using Core_tree_ind;
    intros ce Hc; destruct depth; cbn [Check]; autounfold with core_methods; try done.
  all: try (destruct Hc as [Hl Hc]; erewrite run_bind; [|by apply enabler_on];
            cbn [outlets]; destruct (on _ _ _); simpl; [by apply IH|done]).
  all: try (destruct Hc as [Hl Hc]; erewrite run_bind; [|by apply enabler_on];
            cbn [outlets]; by destruct (on _ _ _)).
  all: apply wired_multi in Hc; revert ce Hc; induction IH as [|c cs Hc _ IHcs]; intros ce H; [done|].
  all: apply Forall_cons in H as [H1 H2]; cbn [forEach].
  all: erewrite run_bind; [|by apply Hc]; cbn [outlets map concat]; unfold addCores; rewrite foldl_app; by apply IHcs.
Qed.

Lemma outlets_reached st lvl c : routing st c -> outlets st lvl c = map observerOf (reached st lvl c).
Proof.
  induction c as [| |cs IH|c fs IH|ref c lf IH|c level IH|c k p hook IH|] using Core_tree_ind;
    intros Hc; cbn [outlets reached]; try done.
  - by destruct Hc.
  - apply routing_multi in Hc. induction IH as [|c cs H _ IHcs]; [done|]. apply Forall_cons in Hc as [H1 H2].
    cbn [map concat]. rewrite map_app, H by done. f_equal. by apply IHcs.
  - destruct Hc as [_ Hc]. destruct (on _ _ _); [by apply IH|done].
  - by destruct (on _ _ _).
Qed.

Lemma Check_route depth (c : Core W) ent ce st :
  routing st c ->
  Check reflected depth c ent ce st =
  Ret (addCores ent ce (map observerOf (reached st (Entry.Level ent) c)), st).
Proof. intros H. rewrite <- outlets_reached by done. by eapply Check_wired. Qed.

(** [c'] is [c] with the fields [ws] added to the context of every observer. *)
Definition extends (st : Store W) (ws : list Field) (c c' : Core W) : Prop :=
  routing st c' /\ forall lvl, reached st lvl c' = map (fun o => (o.1, o.2 ++ ws)) (reached st lvl c).

Lemma mapEach_route (go : Core W -> M W (Core W)) ws cs st :
  Forall (fun c => routing st c -> exists c', go c st = Ret (c', st) /\ extends st ws c c') cs ->
  Forall (routing st) cs ->
  exists cs', mapEach go cs st = Ret (cs', st) /\ extends st ws (multiCore cs) (multiCore cs').
Proof.
  induction 1 as [|c cs Hx _ IHcs]; intros Hc; [by exists []|].
  apply Forall_cons in Hc as [H1 H2]. destruct (Hx H1) as (c' & E & Hr & He).
  destruct (IHcs H2) as (cs' & Es & Hrs & Hes). exists (c' :: cs'). cbn [mapEach].
  erewrite run_bind; [|exact E]. erewrite run_bind; [|exact Es]. split; [done|].
  split; [by split|]. intros lvl. by rewrite !reached_multi, He, Hes, map_app.
Qed.

Lemma With_route depth (c : Core W) ws st :
  routing st c ->
  exists c', With reflected depth c ws st = Ret (c', st) /\ extends st ws c c'.
Proof.
  induction c as [| |cs IH|c fs IH|ref c lf IH|c level IH|c k p hook IH|] using Core_tree_ind;
    intros Hc; destruct depth; cbn [With]; autounfold with core_methods; try done.
  all: try (by exists nopCore). all: try (by destruct Hc).
  all: try (destruct Hc as [Hl Hc]; destruct (IH Hc) as (c' & E & Hr & Hx);
            erewrite run_bind; [|exact E]; eexists; split; [done|]; split; [done|];
            intros lvl; cbn [reached]; destruct (on _ _ _); [apply Hx|done]).
  all: try (eexists; split; [done|]; split; [done|]; intros lvl; cbn [reached]; by destruct (on _ _ _)).
  all: apply routing_multi in Hc.
  all: destruct (mapEach_route (fun c => With reflected _ c ws) ws _ st IH Hc) as (cs' & E & Hr & Hx).
  all: erewrite run_bind; [|exact E]; eexists; split; [done|]; done.
Qed.

Lemma setLogs_logs (st : Store W) l : logs (setLogs st l) = l.
Proof. done. Qed.

Lemma setLogs_twice (st : Store W) l l' : setLogs (setLogs st l) l' = setLogs st l'.
Proof. done. Qed.

Lemma reached_in_range st lvl c : routing st c ->
  Forall (fun o => (o.1.2 < length (logs st))%nat) (reached st lvl c).
Proof.
  induction c as [| |cs IH|c fs IH|ref c lf IH|c level IH|c k p hook IH|] using Core_tree_ind;
    intros Hc; try done.
  - apply routing_multi in Hc. induction IH as [|c cs H _ IHcs]; [constructor|].
    apply Forall_cons in Hc as [H1 H2]. rewrite reached_multi. apply Forall_app; auto.
  - destruct Hc as [_ Hc]. simpl. destruct (on _ _ _); [by apply IH|constructor].
  - destruct Hc as [_ Hc]. simpl. destruct (on _ _ _); by repeat constructor.
Qed.

Lemma write_observers ent fields os st :
  Forall (fun o => (o.1.2 < length (logs st))%nat) os ->
  appendErrors (fun c => Write reflected 1 c ent fields) (map observerOf os) st =
  Ret (None, setLogs st (deliver ent fields os (logs st))).
Proof.
  unfold appendErrors. revert st. induction os as [|[[enab ref] ctx] os IH]; intros st Hos.
  { by destruct st. }
  apply Forall_cons in Hos as [Href Hos]. simpl in Href. apply lookup_lt_is_Some_2 in Href as [l E].
  cbn [map forEach observerOf Write fst snd]. unfold contextObserver_Write.
  assert ((e ← addLog ref (mkLogged ent (ctx ++ fields)) ≫= (fun _ => mret None); mret (multierr_Append None e)) st
          = Ret (None, setLogs st (<[ref := l ++ [mkLogged ent (ctx ++ fields)]]> (logs st)))) as E1.
  { unfold mbind, M_bind, addLog. rewrite E. simpl. unfold mret, M_ret. by rewrite Append_nil_l. }
  erewrite run_bind; [|exact E1]. rewrite IH by (simpl; by rewrite length_insert).
  rewrite setLogs_logs, setLogs_twice. unfold deliver. cbn [foldl fst snd].
  rewrite list_insert_alter. do 4 f_equal.
  apply list_alter_ext; [|done]. intros x Hx. by simplify_eq.
Qed.

Lemma cores_addCores ent ce cs :
  addCores ent ce cs =
  match cs with
  | [] => ce
  | _ => Some (mkChecked (entry (orNew ce ent)) (ErrorOutput (orNew ce ent)) (dirty (orNew ce ent))
                 (after (orNew ce ent)) (cores (orNew ce ent) ++ cs) (before (orNew ce ent)))
  end.
Proof.
  revert ce. unfold addCores. induction cs as [|c cs IH]; intros ce; [done|].
  cbn [foldl]. rewrite IH. destruct cs; [done|]. simpl. by rewrite <- app_assoc.
Qed.

(** C12: an entry reaches exactly the observers that its level enables: with fields
    added by [With], checked and written, it is appended once, in the order of the
    tees, to the logs of each observer that is enabled and behind enabled filters,
    with that observer's context, the fields of [With] and those of the call, in this
    order; every other log and everything else in the store stays as it was, and the
    call returns. *)
Theorem log_delivery depth (c : Core W) ws ent fields st :
  routing st c ->
  exists ce,
    (c' ← With reflected depth c ws; ce ← Check reflected depth c' ent None;
     checked_Write reflected sprintEntry ce fields) st =
    Ret (Returns, ce,
         setLogs st (deliver ent fields (map (fun o => (o.1, o.2 ++ ws)) (reached st (Entry.Level ent) c))
                       (logs st))).
Proof.
  intros Hc. destruct (With_route depth c ws st Hc) as (c' & E & Hr & Hx).
  erewrite run_bind; [|exact E]. erewrite run_bind; [|by apply Check_route].
  rewrite cores_addCores. rewrite <- Hx.
  pose proof (reached_in_range st (Entry.Level ent) c' Hr) as Hos.
  pose proof (write_observers ent fields _ st Hos) as Hw.
  destruct (reached st (Entry.Level ent) c') as [|o os]; [exists None; by destruct st|].
  eexists. simpl orNew. cbn [map] in *. unfold checked_Write. cbn [dirty].
  unfold setDirty, runBefore. cbn [entry ErrorOutput after cores before foldl app orNew reset].
  erewrite run_bind; [|exact Hw]. done.
Qed.

(** A checked entry is written once: a second [Write] of the checked entry that
    [Write] gave back runs no core, no pre-write hook and no terminal hook; all it
    does is to report the misuse to the error output, if there is one. *)
Theorem checked_entry_single_use (ce : CheckedEntry W) fields st end1 ce1 st1 fields' :
  checked_Write reflected sprintEntry (Some ce) fields st = Ret (end1, Some ce1, st1) ->
  checked_Write reflected sprintEntry (Some ce1) fields' st1 =
  Ret (Returns, Some ce1,
       match ErrorOutput ce with
       | Some out => setWorld st1 (WriteSyncer.Sync out (WriteSyncer.Write out (reuseText sprintEntry ce) (world st1)).2).2
       | None => st1
       end).
Proof.
  intros E.
  assert (dirty ce1 = true /\ ErrorOutput ce1 = ErrorOutput ce /\ entry ce1 = entry ce) as (Hd & Ho & He).
  { unfold checked_Write in E. destruct (dirty ce) eqn:Ed.
    - destruct (ErrorOutput ce) as [out|] eqn:Eo.
      + apply bind_Ret in E as (u & s1 & _ & E). injection E as _ <- _. done.
      + by injection E as _ <- _.
    - destruct (runBefore _ _ _) as [ent fs]. apply bind_Ret in E as (e & s1 & _ & E).
      apply bind_Ret in E as (u & s2 & _ & E). apply bind_Ret in E as (en & s3 & _ & E).
      by injection E as _ <- _. }
  unfold checked_Write. rewrite Hd, Ho. destruct (ErrorOutput ce) as [out|]; [|done].
  unfold reuseText. rewrite He. unfold report, sink_Write, sink_Sync, inWorld, mbind, M_bind.
  destruct (WriteSyncer.Write out _ _) as [[n e] w]. simpl.
  by destruct (WriteSyncer.Sync out w).
Qed.

(** * Raising the level *)

Lemma elem_of_rev {A} (x : A) l : x ∈ rev l <-> x ∈ l.
Proof. by rewrite !list_elem_of_In, <- in_rev. Qed.

Lemma lowered_spec (core : Core W) level ls st r st' :
  lowered core level ls st = Ret (r, st') ->
  st' = st /\
  match r with
  | Some l => l ∈ ls /\ Enabled core l st = Ret (false, st) /\ enabler_Enabled level l st = Ret (true, st)
  | None => forall l, l ∈ ls -> enabler_Enabled level l st = Ret (true, st) -> Enabled core l st = Ret (true, st)
  end.
Proof.
  induction ls as [|l ls IH]; cbn [lowered]; intros E.
  { injection E as <- <-. split; [done|]. intros l Hl. by apply not_elem_of_nil in Hl. }
  apply (pure_bind_Ret _ _ _ _ _ (pure_Enabled _ _)) in E as (a & Ea & E).
  assert (pureAt (W := W) (if a then mret false else enabler_Enabled level l)) as Hp.
  { destruct a; auto using pure_ret, pure_enabler. }
  apply (pure_bind_Ret _ _ _ _ _ Hp) in E as ([] & Eb & E).
  - injection E as <- <-. split; [done|]. destruct a; [done|]. split; [apply list_elem_of_here|done].
  - destruct (IH E) as [-> H]. split; [done|]. destruct r as [l'|].
    + destruct H. split; [by apply list_elem_of_further|done].
    + intros l' [-> | Hl']%elem_of_cons Hen; [|auto]. destruct a; [done|congruence].
Qed.

(** [NewIncreaseLevelCore] only raises the level: the core it gives is enabled at no
    level at which the given core is not; and it refuses exactly when the new level
    would enable one of the levels that the core has disabled.  In both cases nothing
    in the store changes. *)
Theorem increase_level_never_lowers (core : Core W) level st r st' :
  NewIncreaseLevelCore core level st = Ret (r, st') ->
  st' = st /\
  match r with
  | (Some c', None) =>
      c' = levelFilterCore core level /\
      forall l, l ∈ Level.levels -> Enabled c' l st = Ret (true, st) -> Enabled core l st = Ret (true, st)
  | (None, Some _) =>
      exists l, l ∈ Level.levels /\ Enabled core l st = Ret (false, st) /\
                Enabled (levelFilterCore core level) l st = Ret (true, st)
  | _ => False
  end.
Proof.
  unfold NewIncreaseLevelCore. intros (bad & st1 & E1 & E2)%bind_Ret.
  apply lowered_spec in E1 as [-> H]. destruct bad as [l|].
  - injection E2 as <- <-. split; [done|]. exists l. destruct H as (Hl & ? & ?).
    by rewrite elem_of_rev in Hl.
  - injection E2 as <- <-. split; [done|]. split; [done|]. intros l Hl. apply H. by apply elem_of_rev.
Qed.

(** * Lazy fields *)

(** Lazy fields are eager fields, late: the first [Write] through a [lazyWithCore]
    evaluates its fields once, by [With] on the wrapped core, and writes as the core
    that [With] gives, in which no lazy core is left; from then on the cell holds that core and later writes run it
    directly, without evaluating the fields again. *)
Theorem lazy_write_is_eager ref (c c' : Core W) lf ent fields st st1 :
  wfStore st -> below ref c -> lazies st !! ref = Some None -> With reflected 1 c lf st = Ret (c', st1) ->
  let st1' := setLazies st1 (<[ref := Some c']> (lazies st1)) in
  lazyFree c' /\
  Write reflected 1 (lazyWithCore ref c lf) ent fields st = Write reflected 0 c' ent fields st1' /\
  forall ent' fields',
    Write reflected 1 (lazyWithCore ref c lf) ent' fields' st1' = Write reflected 0 c' ent' fields' st1'.
Proof.
  intros Hst Hc E HW st1'. cbn [Write]. autounfold with core_methods.
  pose proof (good_With reflected 0 ref c lf Hc st Hst) as Hg. rewrite HW in Hg.
  destruct Hg as (_ & Hfree & _ & _ & Hlen).
  assert (ref < length (lazies st1))%nat as Hlt by (rewrite Hlen; by eapply lookup_lt_Some).
  assert (initOnce ref (With reflected 1 c lf) st = Ret (c', st1')) as E1.
  { unfold initOnce. by rewrite E, HW. }
  assert (initOnce ref (With reflected 1 c lf) st1' = Ret (c', st1')) as E2.
  { unfold initOnce, st1'. simpl lazies. by rewrite list_lookup_insert_eq by done. }
  split; [done|]. split; [by erewrite run_bind; [|exact E1]|]. intros ent' fields'. by erewrite run_bind; [|exact E2].
Qed.
End delivery.

(** * Hooks behind a tee *)

(** C38: registered hooks run for entries that their core declined: [hooked.Check] takes
    any non-nil checked entry for its core's agreement, so behind a tee whose earlier
    core has agreed, the hooks of a core that logs nothing at all run when the entry
    is written. *)
Theorem hook_runs_although_declined {W : Type} {std : GoStd} {ME : Multierr} {MS : MultierrSpec ME}
    reflected depth (l : nat) (f : Entry.Entry -> W -> error * W) ent st :
  Check reflected depth nopCore ent None st = Ret (None, st) /\
  Check reflected depth (NewTee [contextObserver (enablerLevel (Entry.Level ent)) l []; RegisterHooks nopCore [f]])
    ent None st =
  Ret (Some (mkChecked ent None false None
         [contextObserver (enablerLevel (Entry.Level ent)) l []; RegisterHooks nopCore [f]] []), st) /\
  forall fields, Write reflected depth (RegisterHooks nopCore [f]) ent fields st =
    Ret ((f ent (world st)).1, setWorld st (f ent (world st)).2).
Proof.
  split; [by destruct depth|]. split.
  - assert (Level.Level_Enabled (Entry.Level ent) (Entry.Level ent) = true) as E.
    { unfold Level.Level_Enabled. apply Z.leb_refl. }
    destruct depth; cbn [NewTee Check RegisterHooks]; autounfold with core_methods; cbn [forEach]; unfold mbind, M_bind, enabler_Enabled;
      rewrite E; done.
  - intros fields. destruct depth; cbn [RegisterHooks Write]; autounfold with core_methods; unfold appendErrors; cbn [forEach];
      unfold mbind, M_bind, inWorld; destruct (f ent (world st)); simpl; by rewrite Append_nil_l.
Qed.

(** * Concrete stores *)

Section demo.
#[local] Existing Instances Level.asciiStd flat_multierr flat_multierr_spec.

Definition nullReflected : EncoderConfig.ReflectedEncoder := fun _ => (str "null", None).

Definition warning : Entry.Entry :=
  Entry.mkEntry Level.WarnLevel zeroTime [] (str "careful") Entry.noCaller [].

(** Two observers, one behind a filter at the level of the atomic level 0. *)
Definition demoStore : Store unit := mkStore tt [None] [] [[]; []] [Level.ErrorLevel].

Definition demoTee : Core unit :=
  NewTee [contextObserver (enablerLevel Level.InfoLevel) 0 [Field.Bool (str "a") true];
          levelFilterCore (contextObserver (enablerLevel Level.DebugLevel) 1 []) (enablerAtomic (Some 0%nat))].

Lemma demo_routing : routing demoStore demoTee.
Proof. repeat split; simpl; eauto; lia. Qed.

Lemma log_delivery_witness : exists ce,
  (c' ← With nullReflected 1 demoTee [Field.Bool (str "b") true]; ce ← Check nullReflected 1 c' warning None;
   checked_Write nullReflected (fun _ => []) ce [Field.Bool (str "c") false]) demoStore =
  Ret (Returns, ce, mkStore tt [None] []
    [[mkLogged warning [Field.Bool (str "a") true; Field.Bool (str "b") true; Field.Bool (str "c") false]]; []]
    [Level.ErrorLevel]).
Proof.
  exact (log_delivery nullReflected (fun _ => []) 1 demoTee [Field.Bool (str "b") true] warning
    [Field.Bool (str "c") false] demoStore demo_routing).
Defined.

Definition demoChecked : CheckedEntry unit :=
  mkChecked warning None false (Some WriteThenPanic) [contextObserver (enablerLevel Level.InfoLevel) 0 []] [].

Lemma checked_entry_single_use_witness :
  exists st1,
    checked_Write nullReflected (fun _ => []) (Some demoChecked) [] demoStore =
      Ret (PanicsWith (str "careful"), Some (setDirty demoChecked), st1) /\
    checked_Write nullReflected (fun _ => []) (Some (setDirty demoChecked)) [] st1 =
      Ret (Returns, Some (setDirty demoChecked), st1).
Proof.
  exists (mkStore tt [None] [] [[mkLogged warning []]; []] [Level.ErrorLevel]). split; [reflexivity|].
  by rewrite (checked_entry_single_use nullReflected (fun _ => []) demoChecked [] demoStore
    (PanicsWith (str "careful")) (setDirty demoChecked) _ []).
Defined.

Lemma increase_level_never_lowers_witness :
  NewIncreaseLevelCore (contextObserver (enablerLevel Level.WarnLevel) 0 []) (enablerLevel Level.ErrorLevel) demoStore =
    Ret (Some (levelFilterCore (contextObserver (enablerLevel Level.WarnLevel) 0 []) (enablerLevel Level.ErrorLevel)),
         None, demoStore) /\
  exists l, l ∈ Level.levels /\ Enabled (contextObserver (enablerLevel Level.WarnLevel) 0 []) l demoStore = Ret (false, demoStore).
Proof.
  split; [reflexivity|].
  destruct (increase_level_never_lowers (contextObserver (enablerLevel Level.WarnLevel) 0 [])
    (enablerLevel Level.DebugLevel) demoStore _ _ eq_refl) as [_ (l & Hl & H & _)].
  by exists l.
Defined.

Lemma lazy_write_is_eager_witness :
  Write nullReflected 1 (lazyWithCore 0 (contextObserver (enablerLevel Level.InfoLevel) 0 []) [Field.Bool (str "a") true])
    warning [] demoStore =
  Write nullReflected 0 (contextObserver (enablerLevel Level.InfoLevel) 0 [Field.Bool (str "a") true]) warning []
    (setLazies demoStore [Some (contextObserver (enablerLevel Level.InfoLevel) 0 [Field.Bool (str "a") true])]).
Proof.
  refine (proj1 (proj2 (lazy_write_is_eager nullReflected 0 (contextObserver (enablerLevel Level.InfoLevel) 0 []) _
    [Field.Bool (str "a") true] warning [] demoStore demoStore _ I eq_refl eq_refl))).
  by intros [|i] c.
Defined.

Lemma core_methods_total_witness :
  finishes demoStore (Write nullReflected 1
    (lazyWithCore 0 (contextObserver (enablerLevel Level.InfoLevel) 0 []) [Field.Bool (str "a") true]) warning [] demoStore).
Proof.
  refine (proj1 (proj2 (proj2 (core_methods_total nullReflected
    (lazyWithCore 0 (contextObserver (enablerLevel Level.InfoLevel) 0 []) [Field.Bool (str "a") true])
    demoStore warning [] None _ _ I)))).
  - by intros [|i] c.
  - split; [simpl; lia|done].
Defined.

(** A level check and a declined entry build nothing; of the two writes, the first
    builds. *)
Lemma lazy_fields_once_witness :
  mapEach (runUse nullReflected 1
    (lazyWithCore 0 (contextObserver (enablerLevel Level.WarnLevel) 0 []) [Field.Bool (str "a") true]))
    [UEnabled Level.InfoLevel; UCheck (Entry.mkEntry Level.InfoLevel zeroTime [] [] Entry.noCaller []) None; UWrite warning []; UWrite warning []; USync]
    demoStore =
  lazyUses nullReflected 0 (contextObserver (enablerLevel Level.WarnLevel) 0 []) [Field.Bool (str "a") true]
    [UEnabled Level.InfoLevel; UCheck (Entry.mkEntry Level.InfoLevel zeroTime [] [] Entry.noCaller []) None; UWrite warning []; UWrite warning []; USync]
    demoStore.
Proof.
  refine (proj1 (lazy_fields_once nullReflected 0 (contextObserver (enablerLevel Level.WarnLevel) 0 [])
    [Field.Bool (str "a") true] _ demoStore _ I _)).
  - by intros [|i] c.
  - by repeat constructor.
Defined.

Example disabled_check_is_free :
  Check nullReflected 1 (hooked (lazyWithCore 0 (levelFilterCore demoTee (enablerLevel Level.FatalLevel)) []) [])
    warning None demoStore = Ret (None, demoStore).
Proof. by apply Check_disabled. Qed.

(** The hook fails, so that running it shows. *)
Lemma hook_runs_although_declined_witness :
  Check nullReflected 1 nopCore warning None demoStore = Ret (None, demoStore) /\
  exists ce, Check nullReflected 1
      (NewTee [contextObserver (enablerLevel Level.WarnLevel) 0 [];
               RegisterHooks nopCore [fun _ w => (Some (New_error (str "hook ran")), w)]]) warning None demoStore =
    Ret (Some ce, demoStore) /\
    Write nullReflected 1 (RegisterHooks nopCore [fun _ w => (Some (New_error (str "hook ran")), w)]) warning [] demoStore =
    Ret (Some (New_error (str "hook ran")), demoStore).
Proof.
  destruct (hook_runs_although_declined nullReflected 1 0 (fun _ (w : unit) => (Some (New_error (str "hook ran")), w))
    warning demoStore) as (H1 & H2 & H3).
  split; [exact H1|]. eexists. split; [exact H2|exact (H3 [])].
Defined.
End demo.
End CoreDelivery.
