(* ===== verification/EntryPool.v ===== *)
(** The reuse of checked entries through their pool, zapcore/entry.go.

    Core.v makes a new [CheckedEntry] whenever a method is called on nil.  The code takes
    one from [_cePool], with whatever its last use left in it, resets it, and [Write] puts
    it back without clearing it, marked as dirty.  Here checked entries are objects of a
    heap, methods take pointers, and the theorem is that clients who do not keep a pointer
    after [Write] do not see the reuse, and that those who do are told. *)

From Stdlib Require Import ZArith Lia.
From S2P Require Import Prelude GoStd Level WriteSyncer Encode Field Entry EncoderConfig Core CoreSpec CoreDelivery.
From stdpp Require Import base list gmap.

Local Open Scope Z_scope.
Local Open Scope zap_scope.

Module EntryPool.
Import Encode Core.

Section pool.
Context {W : Type} {std : GoStd} {ME : Multierr}.
Context (reflected : EncoderConfig.ReflectedEncoder) (sprintEntry : Entry.Entry -> bytes).

Abbreviation preHook := (Entry.Entry -> list Field -> Entry.Entry * list Field).

(** * Objects *)

(** A checked entry in the heap: the elements of its slices may be nil. *)
Record object := mkObject {
  oEntry : Entry.Entry;
  oErrorOutput : option (@WriteSyncer.WriteSyncer W);
  oDirty : bool;
  oAfter : option (CheckWriteHook W);
  oCores : list (option (Core W));
  oBefore : list (option preHook)
}.

(** What the pool makes when it has none: four nil cores. *)
Definition newObject : object := mkObject Entry.zeroEntry None false None (replicate 4 None) [].

(** Every member is cleared; the slices keep their storage and have no elements. *)
Definition reset (o : object) : object :=
  {| oEntry := Entry.zeroEntry; oErrorOutput := None; oDirty := false; oAfter := None;
     oCores := take 0 (map (fun _ => None) (oCores o)); oBefore := take 0 (map (fun _ => None) (oBefore o)) |}.

Definition setEntry (ent : Entry.Entry) (o : object) : object :=
  mkObject ent (oErrorOutput o) (oDirty o) (oAfter o) (oCores o) (oBefore o).
Definition setErrorOutput (out : option (@WriteSyncer.WriteSyncer W)) (o : object) : object :=
  mkObject (oEntry o) out (oDirty o) (oAfter o) (oCores o) (oBefore o).
Definition markDirty (o : object) : object :=
  mkObject (oEntry o) (oErrorOutput o) true (oAfter o) (oCores o) (oBefore o).
Definition setAfter (hook : CheckWriteHook W) (o : object) : object :=
  mkObject (oEntry o) (oErrorOutput o) (oDirty o) (Some hook) (oCores o) (oBefore o).
Definition appendCore (core : Core W) (o : object) : object :=
  mkObject (oEntry o) (oErrorOutput o) (oDirty o) (oAfter o) (oCores o ++ [Some core]) (oBefore o).
Definition appendBefore (hook : preHook) (o : object) : object :=
  mkObject (oEntry o) (oErrorOutput o) (oDirty o) (oAfter o) (oCores o) (oBefore o ++ [Some hook]).

(** * The pool *)

(** All objects, and the pointers that the pool holds. *)
Record Pool := mkPool { heap : list object; free : list nat }.

Definition update (l : nat) (f : object -> object) (p : Pool) : Pool := mkPool (alter f l (heap p)) (free p).

(** [_cePool.Get]: [Some i] takes the [i]th pointer, [None] makes a new object. *)
Definition pool_Get (choice : option nat) (p : Pool) : nat * Pool :=
  match choice ≫= (fun i => (fun l => (i, l)) <$> free p !! i) with
  | Some (i, l) => (l, mkPool (heap p) (delete i (free p)))
  | None => (length (heap p), mkPool (heap p ++ [newObject]) (free p))
  end.

Definition getCheckedEntry (choice : option nat) (p : Pool) : nat * Pool :=
  let '(ce, p) := pool_Get choice p in
  (ce, update ce reset p).

Definition putCheckedEntry (ce : option nat) (p : Pool) : Pool :=
  match ce with
  | None => p
  | Some l => mkPool (heap p) (l :: free p)
  end.

(** * Methods *)

Definition orGet (choice : option nat) (ce : option nat) (ent : Entry.Entry) (p : Pool) : nat * Pool :=
  match ce with
  | None => let '(ce, p) := getCheckedEntry choice p in (ce, update ce (setEntry ent) p)
  | Some ce => (ce, p)
  end.

Definition AddCore (choice : option nat) (ce : option nat) (ent : Entry.Entry) (core : Core W) (p : Pool) : nat * Pool :=
  let '(ce, p) := orGet choice ce ent p in (ce, update ce (appendCore core) p).

Definition Before (choice : option nat) (ce : option nat) (ent : Entry.Entry) (hook : preHook) (p : Pool) : nat * Pool :=
  let '(ce, p) := orGet choice ce ent p in (ce, update ce (appendBefore hook) p).

Definition After (choice : option nat) (ce : option nat) (ent : Entry.Entry) (hook : CheckWriteHook W) (p : Pool) : nat * Pool :=
  let '(ce, p) := orGet choice ce ent p in (ce, update ce (setAfter hook) p).

Definition nilDereference : bytes := str "runtime error: invalid memory address or nil pointer dereference".

(** The loops over the hooks and the cores; a nil element is a nil dereference. *)
Definition runBefore (hooks : list (option preHook)) (ent : Entry.Entry) (fields : list Field)
    : outcome (Entry.Entry * list Field) :=
  foldl (fun r hook =>
           let! (ent, fields) := r in
           match hook with Some hook => Ret (hook ent fields) | None => Panic nilDereference end)
    (Ret (ent, fields)) hooks.

Definition writeCores (cores : list (option (Core W))) (ent : Entry.Entry) (fields : list Field) : M W error :=
  appendErrors (fun c => match c with Some c => Core.Write reflected 1 c ent fields | None => panic nilDereference end) cores.

(** The checked entry that a hook is given. *)
Definition view (o : object) : CheckedEntry W :=
  mkChecked (oEntry o) (oErrorOutput o) (oDirty o) (oAfter o) (omap id (oCores o)) (omap id (oBefore o)).

(** [Write]; the entry is put back only if the hook returns. *)
Definition Write (ce : option nat) (fields : list Field) (p : Pool) : M W (ending * Pool) :=
  match ce with
  | None => mret (Returns, p)
  | Some l =>
      match heap p !! l with
      | None => panic nilDereference
      | Some o =>
          if oDirty o then
            match oErrorOutput o with
            | Some out => _ ← report out (reuseText sprintEntry (view o)); mret (Returns, p)
            | None => mret (Returns, p)
            end
          else
            let p := update l markDirty p in
            '(ent, fields) ← lift (runBefore (oBefore o) (oEntry o) fields);
            err ← writeCores (oCores o) ent fields;
            _ ← match err, oErrorOutput o with
                | Some e, Some out => report out (writeErrorText (view o) e)
                | _, _ => mret tt
                end;
            e ← match oAfter o with
                | Some hook => OnWrite hook (view (markDirty o)) fields
                | None => mret Returns
                end;
            mret (e, match e with Returns => putCheckedEntry (Some l) p | _ => p end)
      end
  end.

(** * Clients *)

(** What cores and loggers do with the checked entry in a variable: [Check] adds cores,
    [Logger.check] assigns the error output and annotations, and after [Write] the
    variable is not used again. *)
Inductive action :=
| doAddCore (h : nat) (ent : Entry.Entry) (core : Core W)
| doBefore (h : nat) (ent : Entry.Entry) (hook : preHook)
| doAfter (h : nat) (ent : Entry.Entry) (hook : CheckWriteHook W)
| doAnnotate (h : nat) (out : option (@WriteSyncer.WriteSyncer W)) (f : Entry.Entry -> Entry.Entry)
| doWrite (h : nat) (fields : list Field).

(** With checked entries as values, as in Core.v. *)
Definition valueStep (a : action) (vs : gmap nat (CheckedEntry W)) : M W (ending * gmap nat (CheckedEntry W)) :=
  match a with
  | doAddCore h ent core => mret (Returns, partial_alter (fun ce => Core.AddCore ce ent core) h vs)
  | doBefore h ent hook => mret (Returns, partial_alter (fun ce => Core.Before ce ent hook) h vs)
  | doAfter h ent hook => mret (Returns, partial_alter (fun ce => Core.After ce ent hook) h vs)
  | doAnnotate h out f =>
      mret (Returns, alter (fun ce => mkChecked (f (entry ce)) out (dirty ce) (after ce) (cores ce) (before ce)) h vs)
  | doWrite h fields => '(e, _) ← checked_Write reflected sprintEntry (vs !! h) fields; mret (e, delete h vs)
  end.

(** With pointers into the heap. *)
Record Clients := mkClients { vars : gmap nat nat; pool : Pool }.

Definition assign (s : Clients) (h : nat) (r : nat * Pool) : Clients := mkClients (<[h := r.1]> (vars s)) r.2.

Definition pointerStep (choice : option nat) (a : action) (s : Clients) : M W (ending * Clients) :=
  match a with
  | doAddCore h ent core => mret (Returns, assign s h (AddCore choice (vars s !! h) ent core (pool s)))
  | doBefore h ent hook => mret (Returns, assign s h (Before choice (vars s !! h) ent hook (pool s)))
  | doAfter h ent hook => mret (Returns, assign s h (After choice (vars s !! h) ent hook (pool s)))
  | doAnnotate h out f =>
      mret (Returns, match vars s !! h with
                     | Some l => mkClients (vars s) (update l (fun o => setEntry (f (oEntry o)) (setErrorOutput out o)) (pool s))
                     | None => s
                     end)
  | doWrite h fields => '(e, p) ← Write (vars s !! h) fields (pool s); mret (e, mkClients (delete h (vars s)) p)
  end.

(** Scripts of actions, of any number of clients in any order, with the choices of the
    pool; the results are how the actions ended. *)
Fixpoint valueRun (script : list (option nat * action)) (vs : gmap nat (CheckedEntry W))
    : M W (list ending * gmap nat (CheckedEntry W)) :=
  match script with
  | [] => mret ([], vs)
  | (_, a) :: script => '(e, vs) ← valueStep a vs; '(es, vs) ← valueRun script vs; mret (e :: es, vs)
  end.

Fixpoint pointerRun (script : list (option nat * action)) (s : Clients) : M W (list ending * Clients) :=
  match script with
  | [] => mret ([], s)
  | (choice, a) :: script => '(e, s) ← pointerStep choice a s; '(es, s) ← pointerRun script s; mret (e :: es, s)
  end.

(** * Reuse does not show *)

Definition store (ce : CheckedEntry W) : object :=
  mkObject (entry ce) (ErrorOutput ce) (dirty ce) (after ce) (map Some (cores ce)) (map Some (before ce)).

(** Each variable points to an object of its own, outside the pool, that holds its value;
    the pool holds each of its pointers once, all to dirty objects. *)
Record agree (vs : gmap nat (CheckedEntry W)) (s : Clients) : Prop := {
  ag_vars : forall h, option_Forall2 (fun ce l => heap (pool s) !! l = Some (store ce) /\ dirty ce = false /\ l ∉ free (pool s))
              (vs !! h) (vars s !! h);
  ag_own : forall h h' l, vars s !! h = Some l -> vars s !! h' = Some l -> h = h';
  ag_free : forall l, l ∈ free (pool s) -> exists o, heap (pool s) !! l = Some o /\ oDirty o = true;
  ag_once : NoDup (free (pool s))
}.

Lemma agree_lookup vs s h ce l : agree vs s -> vs !! h = Some ce -> vars s !! h = Some l ->
  heap (pool s) !! l = Some (store ce) /\ dirty ce = false /\ l ∉ free (pool s).
Proof. intros Ha Hv Hl. pose proof (ag_vars _ _ Ha h) as H. rewrite Hv, Hl in H. by inversion H. Qed.

Lemma agree_value vs s h l : agree vs s -> vars s !! h = Some l -> exists ce, vs !! h = Some ce.
Proof. intros Ha Hl. pose proof (ag_vars _ _ Ha h) as H. rewrite Hl in H. inversion H; subst. by eexists. Qed.

Lemma agree_nil vs s h : agree vs s -> vars s !! h = None -> vs !! h = None.
Proof. intros Ha Hl. pose proof (ag_vars _ _ Ha h) as H. rewrite Hl in H. by inversion H. Qed.

Lemma update_other l l' f (p : Pool) : l <> l' -> heap (update l f p) !! l' = heap p !! l'.
Proof. intros H. by apply list_lookup_alter_ne. Qed.

Lemma update_same l f (p : Pool) : heap (update l f p) !! l = f <$> heap p !! l.
Proof. apply list_lookup_alter_eq. Qed.

(** What the pool hands out is new to the clients, and clear. *)
Lemma getCheckedEntry_fresh choice p l p' :
  NoDup (free p) -> (forall l, l ∈ free p -> exists o, heap p !! l = Some o /\ oDirty o = true) ->
  getCheckedEntry choice p = (l, p') ->
  (l ∈ free p \/ l = length (heap p)) /\ heap p' !! l = Some (store Core.reset) /\ l ∉ free p' /\
  (forall l', l' <> l -> (l' < length (heap p))%nat -> heap p' !! l' = heap p !! l') /\
  (forall l', l' ∈ free p' -> l' ∈ free p) /\ NoDup (free p').
Proof.
  intros Hnd Hf. unfold getCheckedEntry, pool_Get.
  destruct (choice ≫= _) as [[i l0]|] eqn:E; intros [= <- <-]; cbn [free update].
  - destruct choice as [j|]; [|done]. cbn in E. destruct (free p !! j) as [l|] eqn:Ej; [|done]. injection E as <- <-.
    pose proof (list_elem_of_lookup_2 _ _ _ Ej) as Hin. destruct (Hf l Hin) as (o & Ho & _).
    pose proof (delete_Permutation _ _ _ Ej) as Hp. rewrite Hp in Hnd. apply NoDup_cons in Hnd as [Hni Hnd].
    split_and!; [by left| |done| | |done].
    + rewrite update_same. cbn. by rewrite Ho.
    + intros l' Hl' _. by rewrite update_other.
    + intros l' Hl'. rewrite Hp. by right.
  - split_and!; [by right| | | |done|done].
    + rewrite update_same. cbn. by rewrite lookup_app_r, Nat.sub_diag by done.
    + intros Hin. destruct (Hf _ Hin) as (o & Ho & _). apply lookup_lt_Some in Ho. lia.
    + intros l' Hl' Hlt. rewrite update_other by done. cbn. by apply lookup_app_l.
Qed.

Lemma update_agree vs s h ce l f ce' :
  agree vs s -> vs !! h = Some ce -> vars s !! h = Some l -> f (store ce) = store ce' -> dirty ce' = false ->
  agree (<[h := ce']> vs) (mkClients (vars s) (update l f (pool s))).
Proof.
  intros Ha Hv Hl Hf Hd. pose proof (agree_lookup _ _ _ _ _ Ha Hv Hl) as (Ho & _ & Hni). destruct Ha as [Hvars Hown Hfree Hnd].
  constructor; cbn [vars pool free update]; try done.
  - intros h'. destruct (decide (h' = h)) as [->|Hne].
    + rewrite lookup_insert_eq, Hl. constructor. rewrite update_same, Ho. cbn. by rewrite Hf.
    + rewrite lookup_insert_ne by done. specialize (Hvars h'). inversion Hvars as [ce0 l0 (Ho' & Hd' & Hni') E1 E2|]; constructor.
      rewrite update_other; [done|]. intros ->. by destruct Hne; eapply Hown.
  - intros l' Hin. rewrite update_other by (intros ->; done). by apply Hfree.
Qed.

Lemma orGet_agree choice h ent vs s :
  agree vs s -> agree (<[h := orNew (vs !! h) ent]> vs) (assign s h (orGet choice (vars s !! h) ent (pool s))).
Proof.
  intros Ha. destruct (vars s !! h) as [l|] eqn:El; cbn [orGet].
  { destruct (agree_value _ _ _ _ Ha El) as [ce Hce]. unfold assign. cbn [fst snd]. rewrite Hce. cbn [orNew].
    rewrite !insert_id by done. by destruct s. }
  rewrite (agree_nil _ _ _ Ha El). destruct (getCheckedEntry choice (pool s)) as [l p'] eqn:Eg. destruct Ha as [Hvars Hown Hfree Hnd].
  destruct (getCheckedEntry_fresh _ _ _ _ Hnd Hfree Eg) as (Hl & Hnew & Hni & Hsame & Hsub & Hnd').
  assert (forall h' l', vars s !! h' = Some l' -> l' <> l /\ (l' < length (heap (pool s)))%nat) as Hne.
  { intros h' l' E. specialize (Hvars h'). rewrite E in Hvars. inversion Hvars as [ce0 l0 (Ho & _ & Hnf) E1 E2|]; subst.
    apply lookup_lt_Some in Ho. split; [|done]. intros ->. destruct Hl as [Hl| ->]; [done|lia]. }
  assert (agree (<[h := Core.reset]> vs) (mkClients (<[h := l]> (vars s)) p')) as H1.
  { constructor; cbn [vars pool]; try done.
    - intros h'. destruct (decide (h' = h)) as [->|Hh]; [rewrite !lookup_insert_eq; by constructor|].
      rewrite !lookup_insert_ne by done. pose proof (Hvars h') as H.
      inversion H as [ce0 l0 (Ho & Hd & Hnf) E1 E2|]; constructor. destruct (Hne h' l0 (eq_sym E2)).
      rewrite Hsame by done. split_and!; [done..|]. intros Hin. by apply Hnf, Hsub.
    - intros h1 h2 l1 [[<- <-]|[? E1]]%lookup_insert_Some [[<- E2]|[? E2]]%lookup_insert_Some; try done.
      + by destruct (Hne _ _ E2).
      + subst. by destruct (Hne _ _ E1).
      + by eapply Hown.
    - intros l' Hin. destruct (Hfree l' (Hsub l' Hin)) as (o & Ho & Hd). exists o. split; [|done].
      rewrite Hsame; [done|by intros ->|by eapply lookup_lt_Some]. }
  pose proof (update_agree _ _ h Core.reset l (setEntry ent) (orNew None ent) H1 (lookup_insert_eq _ _ _) (lookup_insert_eq _ _ _)
    eq_refl eq_refl) as H2. by rewrite insert_insert_eq in H2.
Qed.

Lemma partial_alter_value {A} (f : option A -> option A) h (m : gmap nat A) v :
  f (m !! h) = Some v -> partial_alter f h m = <[h := v]> m.
Proof.
  intros Hf. apply map_eq. intros h'. destruct (decide (h' = h)) as [->|Hne].
  - by rewrite lookup_partial_alter_eq, lookup_insert_eq.
  - by rewrite lookup_partial_alter_ne, lookup_insert_ne.
Qed.

(** A method that changes an object as its counterpart changes the value. *)
Lemma method_agree choice h ent f g vs s :
  agree vs s -> (forall ce, f (store ce) = store (g ce)) -> (forall ce, dirty (g ce) = dirty ce) ->
  agree (partial_alter (fun ce => Some (g (orNew ce ent))) h vs)
    (assign s h (let '(ce, p) := orGet choice (vars s !! h) ent (pool s) in (ce, update ce f p))).
Proof.
  intros Ha Hf Hd. pose proof (orGet_agree choice h ent vs s Ha) as H. destruct (orGet _ _ _ _) as [l p] eqn:E.
  unfold assign in *. cbn [fst snd] in *.
  pose proof (agree_lookup _ _ h _ l H (lookup_insert_eq _ _ _) (lookup_insert_eq _ _ _)) as (_ & Hdirty & _).
  pose proof (update_agree _ _ h _ l f (g (orNew (vs !! h) ent)) H (lookup_insert_eq _ _ _) (lookup_insert_eq _ _ _)
    (Hf _) ltac:(by rewrite Hd)) as H2. rewrite insert_insert_eq in H2. cbn [vars pool] in H2.
  by rewrite (partial_alter_value _ h vs (g (orNew (vs !! h) ent)) eq_refl).
Qed.

Lemma runBefore_some hooks ent fields : runBefore (map Some hooks) ent fields = Ret (Core.runBefore hooks ent fields).
Proof.
  unfold runBefore, Core.runBefore. generalize (ent, fields) as r. induction hooks as [|hook hooks IH]; intros [e fs]; [done|].
  cbn [map foldl obind]. apply IH.
Qed.

Lemma writeCores_some cores ent fields st :
  writeCores (map Some cores) ent fields st = appendErrors (fun c => Core.Write reflected 1 c ent fields) cores st.
Proof.
  unfold writeCores, appendErrors. generalize (None : error) as err. revert st.
  induction cores as [|c cores IH]; intros st err; [done|]. cbn [map forEach]. unfold mbind, M_bind.
  destruct (Core.Write reflected 1 c ent fields st) as [[e st']| |]; [|done..]. cbn. apply IH.
Qed.

Lemma view_store ce : view (store ce) = ce.
Proof.
  assert (forall A (xs : list A), omap id (map Some xs) = xs) as H.
  { intros A xs. induction xs as [|x xs IH]; [done|]. cbn. by f_equal. }
  destruct ce. unfold view, store. cbn. by rewrite !H.
Qed.

Lemma markDirty_store ce : markDirty (store ce) = store (setDirty ce).
Proof. done. Qed.

(** [Write] of an object does what [Write] of its value does. *)
Lemma Write_store l ce fields p st :
  heap p !! l = Some (store ce) -> dirty ce = false ->
  Write (Some l) fields p st =
  let! ((e, _), st') := checked_Write reflected sprintEntry (Some ce) fields st in
  let p := update l markDirty p in
  Ret ((e, match e with Returns => putCheckedEntry (Some l) p | _ => p end), st').
Proof.
  intros Ho Hd. unfold Write, checked_Write. rewrite Ho, Hd. rewrite markDirty_store, !view_store.
  cbn [store oDirty oBefore oEntry oCores oErrorOutput oAfter setDirty before entry cores ErrorOutput after]. rewrite Hd.
  unfold lift, mbind, M_bind. rewrite runBefore_some. cbn [obind]. destruct (Core.runBefore _ _ _) as [ent fs].
  rewrite writeCores_some. destruct (appendErrors _ _ st) as [[err st1]| |]; cbn [obind]; [|done..].
  change (writeErrorText ce) with (writeErrorText (setDirty ce)). unfold setDirty.
  match goal with |- context [obind (?m st1) _] => destruct (m st1) as [[[] st2]| |]; cbn [obind]; [|done..] end.
  match goal with |- context [obind (?m st2) _] => destruct (m st2) as [[e st3]| |]; cbn [obind]; done end.
Qed.

(** After [Write] the variable is gone, and its object dirty, in the pool or not. *)
Lemma release_agree vs s h ce l (e : ending) :
  agree vs s -> vs !! h = Some ce -> vars s !! h = Some l ->
  agree (delete h vs) (mkClients (delete h (vars s))
    (match e with Returns => putCheckedEntry (Some l) (update l markDirty (pool s)) | _ => update l markDirty (pool s) end)).
Proof.
  intros Ha Hv Hl. pose proof (agree_lookup _ _ _ _ _ Ha Hv Hl) as (Ho & _ & Hni). destruct Ha as [Hvars Hown Hfree Hnd].
  assert (forall p', heap p' = heap (update l markDirty (pool s)) -> (forall l', l' ∈ free p' -> l' = l \/ l' ∈ free (pool s)) ->
    NoDup (free p') -> agree (delete h vs) (mkClients (delete h (vars s)) p')) as H.
  { intros p' Hp Hsub Hnd'. constructor; cbn [vars pool]; try done.
    - intros h'. destruct (decide (h' = h)) as [->|Hh]; [rewrite !lookup_delete_eq; constructor|].
      rewrite !lookup_delete_ne by done. pose proof (Hvars h') as H.
      inversion H as [ce0 l0 (Ho' & Hd' & Hni') E1 E2|]; constructor.
      assert (l0 <> l) as Hne by (intros ->; by destruct Hh; eapply Hown).
      rewrite Hp, update_other by done. split_and!; try done. by intros [?|?]%Hsub.
    - intros h1 h2 l1 [_ E1]%lookup_delete_Some [_ E2]%lookup_delete_Some. by eapply Hown.
    - intros l' Hin. rewrite Hp. destruct (decide (l' = l)) as [->|Hne].
      + rewrite update_same, Ho. by eexists.
      + rewrite update_other by done. destruct (Hsub _ Hin); [done|]. by apply Hfree. }
  destruct e; apply H; cbn [putCheckedEntry free update heap]; try done; try (by right); try (by apply NoDup_cons).
  intros l' [->|?]%elem_of_cons; auto.
Qed.

Lemma step_agree choice a vs s st :
  agree vs s ->
  match valueStep a vs st with
  | Ret ((e, vs'), st') => exists s', pointerStep choice a s st = Ret ((e, s'), st') /\ agree vs' s'
  | Panic v => pointerStep choice a s st = Panic v
  | Diverge => pointerStep choice a s st = Diverge
  end.
Proof.
  intros Ha. destruct a as [h ent core|h ent hook|h ent hook|h out f|h fields]; cbn [valueStep pointerStep].
  - eexists. split; [reflexivity|]. by apply (method_agree choice h ent (appendCore core)
      (fun ce => mkChecked (entry ce) (ErrorOutput ce) (dirty ce) (after ce) (cores ce ++ [core]) (before ce)));
      [|intros ce; unfold store, appendCore; cbn; rewrite map_app|].
  - eexists. split; [reflexivity|]. by apply (method_agree choice h ent (appendBefore hook)
      (fun ce => mkChecked (entry ce) (ErrorOutput ce) (dirty ce) (after ce) (cores ce) (before ce ++ [hook])));
      [|intros ce; unfold store, appendBefore; cbn; rewrite map_app|].
  - eexists. split; [reflexivity|]. by apply (method_agree choice h ent (setAfter hook)
      (fun ce => mkChecked (entry ce) (ErrorOutput ce) (dirty ce) (Some hook) (cores ce) (before ce))).
  - eexists. split; [reflexivity|]. destruct (vars s !! h) as [l|] eqn:El.
    + destruct (agree_value _ _ _ _ Ha El) as [ce Hce]. destruct (agree_lookup _ _ _ _ _ Ha Hce El) as (_ & Hd & _).
      unfold alter, map_alter. erewrite partial_alter_value by (rewrite Hce; reflexivity). by eapply update_agree.
    + rewrite alter_id; [done|]. intros x Hx. by rewrite (agree_nil _ _ _ Ha El) in Hx.
  - destruct (vars s !! h) as [l|] eqn:El.
    + destruct (agree_value _ _ _ _ Ha El) as [ce Hce]. destruct (agree_lookup _ _ _ _ _ Ha Hce El) as (Ho & Hd & _).
      rewrite Hce. unfold mbind, M_bind. rewrite (Write_store l ce) by done.
      destruct (checked_Write _ _ _ _ _) as [[[e ce'] st']| |]; cbn [obind]; [|done..].
      eexists. split; [reflexivity|]. by eapply release_agree.
    + pose proof (agree_nil _ _ _ Ha El) as Hv. rewrite Hv. eexists. split; [reflexivity|].
      rewrite !delete_id by done. by destruct s.
Qed.

Lemma run_agree script vs s st :
  agree vs s ->
  match valueRun script vs st with
  | Ret ((es, vs'), st') => exists s', pointerRun script s st = Ret ((es, s'), st') /\ agree vs' s'
  | Panic v => pointerRun script s st = Panic v
  | Diverge => pointerRun script s st = Diverge
  end.
Proof.
  revert vs s st. induction script as [|[choice a] script IH]; intros vs s st Ha; cbn [valueRun pointerRun].
  { eexists. split; [reflexivity|done]. }
  pose proof (step_agree choice a vs s st Ha) as H. unfold mbind, M_bind.
  destruct (valueStep a vs st) as [[[e vs1] st1]|v|]; cbn [obind]; [|by rewrite H..]. destruct H as (s1 & -> & H1). cbn [obind].
  specialize (IH vs1 s1 st1 H1). destruct (valueRun script vs1 st1) as [[[es vs2] st2]|v|]; cbn [obind]; [|by rewrite IH..].
  destruct IH as (s2 & -> & H2). cbn [obind]. eexists. split; [reflexivity|done].
Qed.

Definition noClients : Clients := mkClients ∅ (mkPool [] []).

Lemma noClients_agree : agree ∅ noClients.
Proof.
  constructor; cbn.
  - intros h. rewrite !lookup_empty. constructor.
  - intros h h' l. by rewrite lookup_empty.
  - intros l H. by apply elem_of_nil in H.
  - constructor.
Qed.

(** C25: the reuse of checked entries does not show.  Whatever clients do with checked
    entries, adding cores and hooks, annotating and writing them, in any order and with
    many in use at once, and whichever entries the pool hands out, each action ends as it
    does when every checked entry is a new value, with the same effects and the same
    panics: cores, hooks and annotations of an earlier use never come back.  And a client
    who keeps a pointer, and calls [Write] again while the entry is in the pool, writes
    nothing to any core and does not put it there twice: the use is reported to the error
    output of the entry, if it has one. *)
Theorem entry_reuse_invisible (script : list (option nat * action)) (st : Store W) :
  match valueRun script ∅ st with
  | Ret ((es, _), st') =>
      exists s, pointerRun script noClients st = Ret ((es, s), st') /\
        forall l fields st, l ∈ free (pool s) -> exists o, heap (pool s) !! l = Some o /\
          Write (Some l) fields (pool s) st =
          match oErrorOutput o with
          | Some out => (_ ← report out (reuseText sprintEntry (view o)); mret (Returns, pool s)) st
          | None => Ret ((Returns, pool s), st)
          end
  | Panic v => pointerRun script noClients st = Panic v
  | Diverge => pointerRun script noClients st = Diverge
  end.
Proof.
  pose proof (run_agree script ∅ noClients st noClients_agree) as H.
  destruct (valueRun script ∅ st) as [[[es vs] st']|v|]; [|done..]. destruct H as (s & Hr & Ha). exists s. split; [done|].
  intros l fields st1 Hin. destruct (ag_free _ _ Ha l Hin) as (o & Ho & Hd). exists o. split; [done|].
  unfold Write. rewrite Ho, Hd. by destruct (oErrorOutput o).
Qed.
End pool.

(** * An entry that is used twice *)

Section demo.
#[local] Existing Instances Level.asciiStd flat_multierr.

(** An error output, and a core that records what is written to it. *)
Definition demoOut : @WriteSyncer.WriteSyncer (list bytes) :=
  WriteSyncer.foreignSyncer (fun p w => ((lenZ p, None), w ++ [p])) (fun w => (None, w)).

Definition demoEntry (msg : bytes) : Entry.Entry :=
  Entry.mkEntry Level.InfoLevel (mkTime 0 UTC) [] msg Entry.noCaller [].

Definition demoCore : Core (list bytes) := contextObserver (enablerLevel Level.InfoLevel) 0 [].

Definition demoReflection : EncoderConfig.ReflectedEncoder := fun _ => ([], None).

(** The first entry has a hook that changes its message; the second is in the same object. *)
Definition demoScript : list (option nat * action (W := list bytes)) :=
  [(None, doAddCore 0 (demoEntry (str "one")) demoCore);
   (None, doBefore 0 (demoEntry (str "one")) (fun ent fields => (demoEntry (str "changed"), fields)));
   (None, doAnnotate 0 (Some demoOut) id);
   (None, doWrite 0 []);
   (Some 0%nat, doAddCore 1 (demoEntry (str "two")) demoCore);
   (None, doWrite 1 [])].

Definition demoStart : Store (list bytes) := mkStore [] [] [] [[]] [].

(** Afterwards there is one object, in the pool, and a further [Write] of it is reported. *)
Lemma entry_reuse_invisible_witness :
  exists es s st,
    pointerRun demoReflection (fun _ => []) demoScript noClients demoStart = Ret ((es, s), st) /\
    map (map (fun e => Entry.Message (LEntry e))) (logs st) = [[str "changed"; str "two"]] /\
    (exists o, heap (pool s) !! 0%nat = Some o).
Proof.
  pose proof (entry_reuse_invisible demoReflection (fun _ => []) demoScript demoStart) as H.
  assert (match valueRun demoReflection (fun _ => []) demoScript ∅ demoStart with
    | Ret (_, st) => map (map (fun e => Entry.Message (LEntry e))) (logs st) | _ => [] end = [[str "changed"; str "two"]]) as Hlogs
    by (vm_compute; reflexivity).
  assert (match pointerRun demoReflection (fun _ => []) demoScript noClients demoStart with
    | Ret ((_, s), _) => free (pool s) | _ => [] end = [0%nat]) as Hfree by (vm_compute; reflexivity).
  destruct (valueRun demoReflection (fun _ => []) demoScript ∅ demoStart) as [[[es vs] st]| |]; try discriminate Hlogs.
  destruct H as (s & Hr & Hstale). rewrite Hr in Hfree. exists es, s, st. split_and!; [exact Hr|exact Hlogs|].
  destruct (Hstale 0%nat [] st) as (o & Ho & _); [rewrite Hfree; left|]. by exists o.
Defined.
End demo.
End EntryPool.
