(* ===== verification/Observer.v ===== *)
(** What tests ask of observed logs: [ObservedLogs] of zaptest/observer/observer.go and
    zaptest/observer/logged_entry.go.  The core that fills the logs is in Core.v.

    A method that only reads is a function of the entries at that time. *)

From Stdlib Require Import ZArith Lia.
From S2P Require Import Prelude GoStd Level AtomicLevel Encode Field FieldTyping Entry MemoryEncoder Core.
From stdpp Require Import base list gmap fin_maps.

Local Open Scope Z_scope.
Local Open Scope zap_scope.

Module Observer.
Import Encode Core.

(** * ObservedLogs *)

Definition Len (o : list LoggedEntry) : Z := lenZ o.

(** [All]: a copy. *)
Definition All (o : list LoggedEntry) : list LoggedEntry := o.

Definition TakeAll {W} (ref : nat) : M W (list LoggedEntry) := fun st =>
  match logs st !! ref with
  | None => AtomicLevel.nilDereference
  | Some l => Ret (l, setLogs st (<[ref := []]> (logs st)))
  end.

Definition AllUntimed (o : list LoggedEntry) : list LoggedEntry :=
  map (fun e =>
    let ent := LEntry e in
    mkLogged (Entry.mkEntry (Entry.Level ent) zeroTime (Entry.LoggerName ent) (Entry.Message ent)
                (Entry.Caller ent) (Entry.Stack ent)) (Context e)) o.

(** The predicate is called on each entry in turn and can panic. *)
Fixpoint Filter (keep : LoggedEntry -> outcome bool) (o : list LoggedEntry) : outcome (list LoggedEntry) :=
  match o with
  | [] => Ret []
  | e :: o' =>
      let! b := keep e in
      let! filtered := Filter keep o' in
      Ret (if b then e :: filtered else filtered)
  end.

Definition FilterLevelExact (level : Level.Level) (o : list LoggedEntry) : outcome (list LoggedEntry) :=
  Filter (fun e => Ret (Entry.Level (LEntry e) =? level)) o.

Definition FilterMessage (msg : bytes) (o : list LoggedEntry) : outcome (list LoggedEntry) :=
  Filter (fun e => Ret (bool_decide (Entry.Message (LEntry e) = msg))) o.

Definition FilterLoggerName (name : bytes) (o : list LoggedEntry) : outcome (list LoggedEntry) :=
  Filter (fun e => Ret (bool_decide (Entry.LoggerName (LEntry e) = name))) o.

Definition FilterMessageSnippet (snippet : bytes) (o : list LoggedEntry) : outcome (list LoggedEntry) :=
  Filter (fun e => Ret (Strings.Contains (Entry.Message (LEntry e)) snippet)) o.

Section equality.
Context (DeepEqual : any -> any -> bool) (structEqual : Field -> Field -> outcome bool).

(** The loop of [FilterField] over the context of an entry. *)
Fixpoint anyEquals (field : Field) (context : list Field) : outcome bool :=
  match context with
  | [] => Ret false
  | ctxField :: context' =>
      let! b := Field.Equals DeepEqual structEqual ctxField field in
      if (b : bool) then Ret true else anyEquals field context'
  end.

Definition FilterField (field : Field) (o : list LoggedEntry) : outcome (list LoggedEntry) :=
  Filter (fun e => anyEquals field (Context e)) o.
End equality.

Definition FilterFieldKey (key : bytes) (o : list LoggedEntry) : outcome (list LoggedEntry) :=
  Filter (fun e => Ret (existsb (fun f => bool_decide (Key f = key)) (Context e))) o.

(** * LoggedEntry *)

(** [ContextMap]: the outermost map of a new map encoder that every field was added to,
    with the heap that it points into. *)
Definition ContextMap (e : LoggedEntry) (h : list MemoryEncoder.gomap)
    : outcome (nat * list MemoryEncoder.gomap) :=
  let encoder := MemoryEncoder.NewMapObjectEncoder h in
  let! (_, (h, encoder)) := @runObj _ _ MemoryEncoder.mapEncoders (Field.addFields (Context e)) encoder in
  Ret (MemoryEncoder.Fields encoder, h).

(** * Lemmas *)

Lemma Filter_pure (keep : LoggedEntry -> bool) o :
  Filter (fun e => Ret (keep e)) o = Ret (filter (fun e => keep e = true) o).
Proof.
  induction o as [|e o IH]; [done|]. simpl. rewrite IH. simpl. rewrite filter_cons.
  destruct (keep e); by case_decide.
Qed.

(** The value that a scalar is stored as. *)
Definition stored (t : scalar) : denote t -> MemoryEncoder.mval :=
  match t with
  | TBool => fun v => MemoryEncoder.MPrim (PBool v)
  | TComplex128 => fun v => MemoryEncoder.MPrim (PComplex128 v)
  | TComplex64 => fun v => MemoryEncoder.MPrim (PComplex64 v)
  | TFloat64 => fun v => MemoryEncoder.MPrim (PFloat64 v)
  | TFloat32 => fun v => MemoryEncoder.MPrim (PFloat32 v)
  | TInt k => fun v => MemoryEncoder.MPrim (PInt (Field.storedKind k) v)
  | TString => fun v => MemoryEncoder.MPrim (PString v)
  | TTime => fun v => MemoryEncoder.MTime v
  | TDuration => fun v => MemoryEncoder.MDuration v
  end.

(** A scalar under a key. *)
Record binding := bindTo { bkey : bytes; btype : scalar; bvalue : denote btype }.

Definition logged (b : binding) : Field := Field.Any (bkey b) (VScalar (btype b) (bvalue b)).

#[local] Existing Instance MemoryEncoder.mapEncoders.

Lemma add_scalar b s :
  Field.wellTyped (btype b) (bvalue b) ->
  runObj (Field.AddTo (logged b)) s = Ret (None, MemoryEncoder.set (bkey b) (stored _ (bvalue b)) s).
Proof.
  intros H. unfold Field.AddTo, logged. rewrite Field.AddTo_scalar, runObj_oseq by done.
  destruct b as [k [| | | | |[]| | |] v]; done.
Qed.

Lemma alter_insert {A} (f : A -> A) i (h : list A) x : h !! i = Some x -> alter f i h = <[i := f x]> h.
Proof.
  intros Hx. apply list_eq. intros j. destruct (decide (i = j)) as [<-|Hne].
  - rewrite list_lookup_alter_eq, Hx, list_lookup_insert_eq; [done|]. by eapply lookup_lt_Some.
  - by rewrite list_lookup_alter_ne, list_lookup_insert_ne.
Qed.

(** Logging under a key again overwrites. *)
Definition overwrite (mp : MemoryEncoder.gomap) (b : binding) : MemoryEncoder.gomap :=
  <[bkey b := stored _ (bvalue b)]> mp.

Lemma add_scalars bs h m mp :
  Forall (fun b => Field.wellTyped (btype b) (bvalue b)) bs ->
  h !! MemoryEncoder.cur m = Some mp ->
  runObj (Field.addFields (map logged bs)) (h, m) =
    Ret (None, (<[MemoryEncoder.cur m := foldl overwrite mp bs]> h, m)).
Proof.
  intros Hbs. revert h mp. induction Hbs as [|b bs Hb _ IH]; intros h mp Hh; simpl.
  - by rewrite list_insert_id.
  - rewrite runObj_oseq, add_scalar by done. cbn [obind MemoryEncoder.set].
    rewrite (alter_insert _ _ _ mp) by done. rewrite (IH _ (overwrite mp b)).
    + by rewrite list_insert_insert_eq.
    + apply list_lookup_insert_eq. by eapply lookup_lt_Some.
Qed.

(** The last binding of a key. *)
Definition lastValue (bs : list binding) (k : bytes) : option MemoryEncoder.mval :=
  foldl (fun r b => if decide (bkey b = k) then Some (stored _ (bvalue b)) else r) None bs.

Lemma overwrite_last bs mp k :
  foldl overwrite mp bs !! k =
  foldl (fun r b => if decide (bkey b = k) then Some (stored _ (bvalue b)) else r) (mp !! k) bs.
Proof.
  revert mp. induction bs as [|b bs IH]; intros mp; [done|]. simpl. rewrite IH. f_equal. unfold overwrite.
  case_decide as E; [subst; apply lookup_insert_eq|by apply lookup_insert_ne].
Qed.

Lemma addFields_safe P fs : Forall (FieldTyping.built P) fs -> safeObj P (Field.addFields fs).
Proof. induction 1; simpl; [done|]. apply safe_oseq; [by apply FieldTyping.built_safe|done]. Qed.

(** The context of an observed entry as a map.  For fields of the constructors, with
    marshalers that do not panic, [ContextMap] returns, with a new map, and changes no map
    that was there; when the fields are scalars, the map has for each key the value, of
    the same type and bits, that was logged under it last, and no other key. *)
Theorem context_map_last_wins e h :
  Forall (FieldTyping.built never) (Context e) ->
  exists h', ContextMap e h = Ret (length h, h') /\
    (forall r, (r < length h)%nat -> h' !! r = h !! r) /\
    forall bs, Forall (fun b => Field.wellTyped (btype b) (bvalue b)) bs -> Context e = map logged bs ->
      exists mp, h' !! length h = Some mp /\ forall k, mp !! k = lastValue bs k.
Proof.
  intros Hb. pose proof (proj1 (run_safe never _ (T := MemoryEncoder.map_transparent)) _ (addFields_safe _ _ Hb)
    (MemoryEncoder.NewMapObjectEncoder h)) as Hr.
  unfold ContextMap. pose proof (runObj_related _ _ MemoryEncoder.map_preserved (Field.addFields (Context e)) _ _ _
    (conj eq_refl (MemoryEncoder.frameO_new_refl h))) as HR.
  destruct (runObj _ _) as [[err [h' enc]]| |] eqn:Erun; [|done..]. cbn [obind].
  inversion HR as [? ? ? [_ Hf] E1 E2|]; subst. pose proof (proj1 Hf) as HF. cbn in HF. rewrite HF.
  apply MemoryEncoder.frameO_new in Hf as [_ Hsame]. exists h'. split; [done|]. split; [done|].
  intros bs Hbs Hctx. rewrite Hctx in Erun. unfold MemoryEncoder.NewMapObjectEncoder in Erun.
  rewrite (add_scalars bs _ _ ∅) in Erun; [|done|by apply list_lookup_middle].
  injection Erun as _ <- _. cbn. eexists. split.
  - apply list_lookup_insert_eq. rewrite length_app. simpl. lia.
  - intros k. by rewrite overwrite_last, lookup_empty.
Qed.

Lemma context_map_last_wins_witness :
  exists h', ContextMap (mkLogged (Entry.mkEntry Level.InfoLevel zeroTime [] [] Entry.noCaller [])
      [Field.Int (str "a") 1; Field.Bool (str "b") true; Field.Int (str "a") 2]) [] = Ret (0%nat, h') /\
    exists mp, h' !! 0%nat = Some mp /\ mp !! str "a" = Some (MemoryEncoder.MPrim (PInt KInt64 2)).
Proof.
  destruct (context_map_last_wins (mkLogged (Entry.mkEntry Level.InfoLevel zeroTime [] [] Entry.noCaller [])
    [Field.Int (str "a") 1; Field.Bool (str "b") true; Field.Int (str "a") 2]) []) as (h' & E & _ & H).
  - apply Forall_cons; split; [by apply (FieldTyping.built_any never (str "a") (VScalar (TInt KInt) 1))|].
    apply Forall_cons; split; [by apply (FieldTyping.built_any never (str "b") (VScalar TBool true))|].
    apply Forall_singleton. by apply (FieldTyping.built_any never (str "a") (VScalar (TInt KInt) 2)).
  - exists h'. split; [exact E|].
    destruct (H [bindTo (str "a") (TInt KInt) 1; bindTo (str "b") TBool true; bindTo (str "a") (TInt KInt) 2])
      as (mp & Hm & Hk).
    + repeat constructor; vm_compute; discriminate.
    + reflexivity.
    + exists mp. split; [exact Hm|]. rewrite Hk. reflexivity.
Defined.

(** Filtering by a field never panics on fields that respect their tags, where [==] does
    not. *)
Lemma anyEquals_typed DeepEqual structEqual field context :
  (forall f g, exists b, structEqual f g = Ret b) ->
  FieldTyping.typed field -> Forall FieldTyping.typed context ->
  exists b, anyEquals DeepEqual structEqual field context = Ret b.
Proof.
  intros Hs Hf Hc. induction Hc as [|f context Hfc _ IH]; simpl; [eexists; reflexivity|].
  assert (exists b, Field.Equals DeepEqual structEqual f field = Ret b) as [b ->].
  { destruct (FieldTyping.Equals_typed DeepEqual structEqual f field Hfc Hf) as [H|E]; [done|].
    rewrite E. apply Hs. }
  simpl. destruct b; [eexists; reflexivity|done].
Qed.
End Observer.
