(* ===== verification/Stacktrace.v ===== *)
(** internal/stacktrace/stack.go: capturing the stack of the calling goroutine and
    printing it.

    A goroutine's stack is the list of its frames, the innermost first, and a
    program counter stands for its frame.  [runtime.Callers] fills as much of the
    slice it is given as there are frames, so a captured stack is the list of its
    frames and the pooled [storage] is its length. *)

From Stdlib Require Import ZArith Lia.
From S2P Require Import Prelude Strconv GoStd.
From stdpp Require Import base list.

Local Open Scope Z_scope.
Local Open Scope zap_scope.

Module Stacktrace.
Import Strconv.

(** [runtime.Frame]. *)
Record Frame := mkFrame {
  PC : Z;
  Function : bytes;
  File : bytes;
  Line : Z
}.

Definition zeroFrame : Frame := mkFrame 0 [] [] 0.

(** A frame of a function of the program, as far as it matters here. *)
Definition frameOf (function : bytes) : Frame := mkFrame 1 function [] 0.

(** [runtime.Callers(skip, pcs)] on a slice of length [room]. *)
Definition Callers (goroutine : list Frame) (skip : Z) (room : nat) : list Frame :=
  take room (drop (Z.to_nat skip) goroutine).

Inductive Depth := First | Full.

#[global] Instance Depth_eq_decision : EqDecision Depth.
Proof. solve_decision. Defined.

(** The loop that doubles the slice until there are fewer frames than room. *)
Fixpoint grow (fuel : nat) (callers : nat -> list Frame) (pcs : nat) (frames : list Frame)
    : outcome (nat * list Frame) :=
  if decide (length frames = pcs) then
    match fuel with
    | O => Diverge
    | S fuel => let pcs := (pcs * 2)%nat in grow fuel callers pcs (callers pcs)
    end
  else Ret (pcs, frames).

(** [Capture] on a [Stack] from the pool with [storage] program counters, called by
    the function on top of [stack]: the storage that the stack keeps and the frames
    that it iterates over. *)
Definition Capture (storage : nat) (stack : list Frame) (skip : Z) (depth : Depth)
    : outcome (nat * list Frame) :=
  let goroutine := frameOf (str "runtime.Callers") :: frameOf (str "stacktrace.Capture") :: stack in
  match depth with
  | First =>
      if decide (storage = 0%nat) then Panic (str "slice bounds out of range")
      else Ret (storage, Callers goroutine (int64 (skip + 2)) 1)
  | Full =>
      grow (S (length goroutine)) (Callers goroutine (int64 (skip + 2))) storage
        (Callers goroutine (int64 (skip + 2)) storage)
  end.

Definition Count (frames : list Frame) : Z := lenZ frames.

(** [Next]: the frame, whether there are more, and the frames left. *)
Definition Next (frames : list Frame) : Frame * bool * list Frame :=
  match frames with
  | [] => (zeroFrame, false, [])
  | frame :: rest => (frame, negb (bool_decide (length rest = 0%nat)), rest)
  end.

Record Formatter := mkFormatter { b : bytes; nonEmpty : bool }.

Definition NewFormatter (b : bytes) : Formatter := mkFormatter b false.

Definition FormatFrame (sf : Formatter) (frame : Frame) : Formatter :=
  mkFormatter
    ((if nonEmpty sf then b sf ++ [x0a] else b sf) ++
     Function frame ++ [x0a] ++ [x09] ++ File frame ++ str ":" ++ itoa (Line frame))
    true.

(** The loop stops at the last frame, which it leaves out. *)
Fixpoint FormatStack (sf : Formatter) (stack : list Frame) : Formatter :=
  match stack with
  | [] => sf
  | _ :: rest =>
      let '(frame, more, _) := Next stack in
      if more then FormatStack (FormatFrame sf frame) rest else sf
  end.

Definition Take (storage : nat) (stack : list Frame) (skip : Z) : outcome bytes :=
  let! (_, frames) := Capture storage (frameOf (str "stacktrace.Take") :: stack) (int64 (skip + 1)) Full in
  Ret (b (FormatStack (NewFormatter []) frames)).

(** * Specification *)

Definition frameText (f : Frame) : bytes :=
  Function f ++ [x0a; x09] ++ File f ++ str ":" ++ itoa (Line f).

Definition joinLines (l : list bytes) : bytes :=
  match l with
  | [] => []
  | x :: l => x ++ concat (map (fun y => [x0a] ++ y) l)
  end.

(** * Lemmas *)

Lemma FormatFrame_text sf f :
  FormatFrame sf f = mkFormatter (b sf ++ (if nonEmpty sf then [x0a] else []) ++ frameText f) true.
Proof. unfold FormatFrame, frameText. destruct (nonEmpty sf); simpl; f_equal; by rewrite <- ?app_assoc. Qed.

Lemma FormatStack_snoc sf fs last :
  FormatStack sf (fs ++ [last]) = foldl FormatFrame sf fs.
Proof.
  revert sf. induction fs as [|f fs IH]; intros sf; [done|]. simpl.
  rewrite bool_decide_false; [apply IH|]. rewrite length_app. simpl. lia.
Qed.

Lemma foldl_FormatFrame_nonEmpty text fs :
  foldl FormatFrame (mkFormatter text true) fs =
  mkFormatter (text ++ concat (map (fun f => [x0a] ++ frameText f) fs)) true.
Proof.
  revert text. induction fs as [|f fs IH]; intros text; simpl; [by rewrite app_nil_r|].
  rewrite FormatFrame_text. simpl. rewrite IH. by rewrite <- app_assoc.
Qed.

Lemma foldl_FormatFrame fs :
  b (foldl FormatFrame (NewFormatter []) fs) = joinLines (map frameText fs).
Proof.
  destruct fs as [|f fs]; [done|]. cbn [foldl]. rewrite FormatFrame_text.
  unfold NewFormatter. cbn [b nonEmpty]. rewrite foldl_FormatFrame_nonEmpty. simpl.
  by rewrite map_map.
Qed.

(** Enough fuel for the doubling: with as much room as [n] doublings give. *)
Lemma grow_complete fuel all pcs :
  (1 <= pcs)%nat -> (length all < pcs * 2 ^ fuel)%nat ->
  exists storage, grow fuel (fun room => take room all) pcs (take pcs all) = Ret (storage, all) /\ (1 <= storage)%nat.
Proof.
  revert pcs. induction fuel as [|fuel IH]; intros pcs H1 H2; simpl; rewrite length_take;
    destruct (decide (pcs `min` length all = pcs)%nat) as [E|E].
  - simpl in H2. lia.
  - exists pcs. rewrite take_ge by lia. done.
  - apply IH; [lia|]. rewrite Nat.pow_succ_r' in H2. lia.
  - exists pcs. rewrite take_ge by lia. done.
Qed.

Lemma pow2_gt n : (n < 2 ^ n)%nat.
Proof. apply Nat.pow_gt_lin_r. lia. Qed.

(** Capturing ends, with the frames from the skipped ones on. *)
Lemma Capture_total storage stack skip depth :
  (1 <= storage)%nat ->
  exists storage', Capture storage stack skip depth =
    Ret (storage', let frames := drop (Z.to_nat (int64 (skip + 2)))
                     (frameOf (str "runtime.Callers") :: frameOf (str "stacktrace.Capture") :: stack) in
                   match depth with First => take 1 frames | Full => frames end) /\ (1 <= storage')%nat.
Proof.
  intros Hs. unfold Capture. cbv zeta. destruct depth.
  - exists storage. rewrite decide_False by lia. done.
  - apply grow_complete; [done|]. rewrite length_drop. cbn [length].
    pose proof (pow2_gt (S (S (S (length stack))))). nia.
Qed.

(** A full capture has every frame from [skip] on, however deep the stack and
    whatever the storage; a first-frame capture has the first of them. *)
Lemma Capture_spec storage stack skip depth :
  (1 <= storage)%nat -> 0 <= skip < 2 ^ 62 ->
  exists storage', Capture storage stack skip depth =
    Ret (storage', match depth with
                   | First => take 1 (drop (Z.to_nat skip) stack)
                   | Full => drop (Z.to_nat skip) stack
                   end) /\ (1 <= storage')%nat.
Proof.
  intros Hs Hk. destruct (Capture_total storage stack skip depth Hs) as (s' & E & H). exists s'. split; [|done].
  rewrite E. assert (int64 (skip + 2) = skip + 2) as -> by (apply wrapS_id; unfold inS; lia).
  by replace (Z.to_nat (skip + 2)) with (S (S (Z.to_nat skip))) by lia.
Qed.

(** A stack trace is complete and capturing it ends: for a stack of any depth and
    whatever storage the pool hands out, [Take] prints every frame above the skipped
    ones in order, one per two lines, except the outermost, which is the runtime's. *)
Theorem Take_prints_all storage stack skip frames outermost :
  (1 <= storage)%nat -> 0 <= skip < 2 ^ 61 ->
  drop (Z.to_nat skip) stack = frames ++ [outermost] ->
  Take storage stack skip = Ret (joinLines (map frameText frames)).
Proof.
  intros Hs Hk Hd. unfold Take.
  assert (int64 (skip + 1) = skip + 1) as -> by (apply wrapS_id; unfold inS; lia).
  destruct (Capture_spec storage (frameOf (str "stacktrace.Take") :: stack) (skip + 1) Full) as (s' & E & _);
    [done|lia|]. rewrite E. cbn [obind].
  replace (Z.to_nat (skip + 1)) with (S (Z.to_nat skip)) by lia. cbn [drop].
  by rewrite Hd, FormatStack_snoc, foldl_FormatFrame.
Qed.

Lemma Take_prints_all_witness :
  Take 1 [mkFrame 1 (str "f") (str "f.go") 3; mkFrame 2 (str "g") (str "g.go") 14; mkFrame 3 (str "main") (str "m.go") 1;
          mkFrame 4 (str "runtime.main") (str "proc.go") 7] 1 =
  Ret (str "g" ++ [x0a; x09] ++ str "g.go:14" ++ [x0a] ++ str "main" ++ [x0a; x09] ++ str "m.go:1").
Proof.
  rewrite (Take_prints_all 1 _ 1 [mkFrame 2 (str "g") (str "g.go") 14; mkFrame 3 (str "main") (str "m.go") 1]
    (mkFrame 4 (str "runtime.main") (str "proc.go") 7)); [reflexivity|lia|lia|reflexivity].
Defined.
End Stacktrace.
