(* ===== verification/Logger.v ===== *)
(** The logger: logger.go and options.go.

    A [Logger] is its members; its methods run in the monad of Core.v.  A logging call
    gets the stack of the goroutine at the call site (innermost frame first) and each
    method of the logger pushes its own frame, so that caller annotation is about the
    frames the program really has. *)

From Stdlib Require Import ZArith Lia.
From S2P Require Import Prelude Strconv GoStd Level AtomicLevel WriteSyncer Encode Field Entry EncoderConfig JsonEncoder ConsoleEncoder Core CoreSpec Stacktrace.
From stdpp Require Import base list.

Local Open Scope Z_scope.
Local Open Scope zap_scope.

Module Logger.
Import Encode Core Stacktrace.

Section logger.
Context {W : Type}.

Record Logger := mkLogger {
  core : Core W;
  development : bool;
  addCaller : bool;
  onPanic : option (CheckWriteHook W);
  onFatal : option (CheckWriteHook W);
  name : bytes;
  errorOutput : option (@WriteSyncer.WriteSyncer W);
  addStack : enabler;
  callerSkip : Z;
  clock : W -> Time * W
}.

(** The assignments to a member. *)
Definition setCore (log : Logger) (c : Core W) : Logger :=
  mkLogger c (development log) (addCaller log) (onPanic log) (onFatal log) (name log)
    (errorOutput log) (addStack log) (callerSkip log) (clock log).
Definition setDevelopment (log : Logger) (d : bool) : Logger :=
  mkLogger (core log) d (addCaller log) (onPanic log) (onFatal log) (name log)
    (errorOutput log) (addStack log) (callerSkip log) (clock log).
Definition setAddCaller (log : Logger) (a : bool) : Logger :=
  mkLogger (core log) (development log) a (onPanic log) (onFatal log) (name log)
    (errorOutput log) (addStack log) (callerSkip log) (clock log).
Definition setOnPanic (log : Logger) (h : option (CheckWriteHook W)) : Logger :=
  mkLogger (core log) (development log) (addCaller log) h (onFatal log) (name log)
    (errorOutput log) (addStack log) (callerSkip log) (clock log).
Definition setOnFatal (log : Logger) (h : option (CheckWriteHook W)) : Logger :=
  mkLogger (core log) (development log) (addCaller log) (onPanic log) h (name log)
    (errorOutput log) (addStack log) (callerSkip log) (clock log).
Definition setName (log : Logger) (n : bytes) : Logger :=
  mkLogger (core log) (development log) (addCaller log) (onPanic log) (onFatal log) n
    (errorOutput log) (addStack log) (callerSkip log) (clock log).
Definition setErrorOutput (log : Logger) (w : option (@WriteSyncer.WriteSyncer W)) : Logger :=
  mkLogger (core log) (development log) (addCaller log) (onPanic log) (onFatal log) (name log)
    w (addStack log) (callerSkip log) (clock log).
Definition setAddStack (log : Logger) (e : enabler) : Logger :=
  mkLogger (core log) (development log) (addCaller log) (onPanic log) (onFatal log) (name log)
    (errorOutput log) e (callerSkip log) (clock log).
Definition setCallerSkip (log : Logger) (k : Z) : Logger :=
  mkLogger (core log) (development log) (addCaller log) (onPanic log) (onFatal log) (name log)
    (errorOutput log) (addStack log) k (clock log).
Definition setClock (log : Logger) (c : W -> Time * W) : Logger :=
  mkLogger (core log) (development log) (addCaller log) (onPanic log) (onFatal log) (name log)
    (errorOutput log) (addStack log) (callerSkip log) c.

(** [clone]: a shallow copy. *)
Definition clone (log : Logger) : Logger := log.

Definition terminalHookOverride (defaultHook : CheckWriteHook W) (override : option (CheckWriteHook W))
    : CheckWriteHook W :=
  match override with
  | None | Some WriteThenNoop => defaultHook
  | Some hook => hook
  end.

Context {std : GoStd} {ME : Multierr}.
Context (reflected : EncoderConfig.ReflectedEncoder) (sprintEntry : Entry.Entry -> bytes).

(** The room of the [Stack] that the pool of internal/stacktrace hands out. *)
Context (storage : nat).

(** [fmt.Fprintf(w, ...)] on an interface value that may be nil. *)
Definition fprint (w : option (@WriteSyncer.WriteSyncer W)) (text : bytes) : M W unit :=
  match w with
  | Some out => _ ← sink_Write out text; mret tt
  | None => panic (str "nil pointer dereference")
  end.

Definition syncOutput (w : option (@WriteSyncer.WriteSyncer W)) : M W unit :=
  match w with
  | Some out => _ ← sink_Sync out; mret tt
  | None => panic (str "nil pointer dereference")
  end.

(** The assignments to a checked entry. *)
Definition withErrorOutput (ce : CheckedEntry W) (w : option (@WriteSyncer.WriteSyncer W)) : CheckedEntry W :=
  mkChecked (entry ce) w (dirty ce) (after ce) (cores ce) (before ce).
Definition withEntry (ce : CheckedEntry W) (ent : Entry.Entry) : CheckedEntry W :=
  mkChecked ent (ErrorOutput ce) (dirty ce) (after ce) (cores ce) (before ce).
Definition withCaller (ent : Entry.Entry) (c : Entry.EntryCaller) : Entry.Entry :=
  Entry.mkEntry (Entry.Level ent) (Entry.Time ent) (Entry.LoggerName ent) (Entry.Message ent) c (Entry.Stack ent).
Definition withStack (ent : Entry.Entry) (s : bytes) : Entry.Entry :=
  Entry.mkEntry (Entry.Level ent) (Entry.Time ent) (Entry.LoggerName ent) (Entry.Message ent) (Entry.Caller ent) s.

Definition callerOf (frame : Frame) : Entry.EntryCaller :=
  Entry.mkCaller (negb (PC frame =? 0)) (PC frame) (File frame) (Line frame) (Function frame).

Definition callerSkipOffset : Z := 2.

(** The terminal behaviour that the level asks for. *)
Definition setTerminal (log : Logger) (ent : Entry.Entry) (ce : option (CheckedEntry W)) : option (CheckedEntry W) :=
  if Entry.Level ent =? Level.PanicLevel then
    After ce ent (terminalHookOverride WriteThenPanic (onPanic log))
  else if Entry.Level ent =? Level.FatalLevel then
    After ce ent (terminalHookOverride WriteThenFatal (onFatal log))
  else if Entry.Level ent =? Level.DPanicLevel then
    if development log then After ce ent (terminalHookOverride WriteThenPanic (onPanic log)) else ce
  else ce.

(** The text of the stack that starts with a frame already taken from it. *)
Definition stackText (frame : Frame) (more : bool) (rest : list Frame) : bytes :=
  let stackfmt := FormatFrame (NewFormatter []) frame in
  b (if more then FormatStack stackfmt rest else stackfmt).

(** The rest of [check], for an entry that will be written. *)
Definition annotate (log : Logger) (ent : Entry.Entry) (ce : CheckedEntry W) (stk : list Frame)
    : M W (CheckedEntry W) :=
  let ce := withErrorOutput ce (errorOutput log) in
  addStack ← enabler_Enabled (addStack log) (Entry.Level (entry ce));
  if negb (addCaller log) && negb addStack then mret ce
  else
    '(_, stack) ← lift (Capture storage (frameOf (str "zap.(*Logger).check") :: stk)
                          (int64 (callerSkip log + callerSkipOffset)) (if (addStack : bool) then Full else First));
    if Count stack =? 0 then
      if addCaller log then
        _ ← fprint (errorOutput log)
              (timeString (In_location (Entry.Time ent) UTC) ++ str " Logger.check error: failed to get caller" ++ [x0a]);
        _ ← syncOutput (errorOutput log);
        mret ce
      else mret ce
    else
      let '(frame, more, rest) := Next stack in
      let ce := if addCaller log then withEntry ce (withCaller (entry ce) (callerOf frame)) else ce in
      mret (if (addStack : bool) then withEntry ce (withStack (entry ce) (stackText frame more rest)) else ce).

(** [check]; the top of [stk] is the method that called it. *)
Definition check (log : Logger) (lvl : Level.Level) (msg : bytes) (stk : list Frame)
    : M W (option (CheckedEntry W)) :=
  skip ← (if lvl <? Level.DPanicLevel then b ← Enabled (core log) lvl; mret (negb b) else mret false);
  if (skip : bool) then mret None
  else
    now ← inWorld (clock log);
    let ent := Entry.mkEntry lvl now (name log) msg Entry.noCaller [] in
    ce ← Core.Check reflected 1 (core log) ent None;
    let willWrite := match ce with Some _ => true | None => false end in
    let ce := setTerminal log ent ce in
    match ce with
    | Some ce' => if willWrite then ce' ← annotate log ent ce' stk; mret (Some ce') else mret ce
    | None => mret ce
    end.

Definition Check (log : Logger) (lvl : Level.Level) (msg : bytes) (stk : list Frame) : M W (option (CheckedEntry W)) :=
  check log lvl msg (frameOf (str "zap.(*Logger).Check") :: stk).

(** [if ce := log.check(lvl, msg); ce != nil { ce.Write(fields...) }]. *)
Definition logAt (log : Logger) (lvl : Level.Level) (msg : bytes) (fields : list Field) (stk : list Frame)
    : M W ending :=
  ce ← check log lvl msg stk;
  match ce with
  | Some _ => '(e, _) ← checked_Write reflected sprintEntry ce fields; mret e
  | None => mret Returns
  end.

Definition Log (log : Logger) (lvl : Level.Level) (msg : bytes) (fields : list Field) (stk : list Frame) : M W ending :=
  logAt log lvl msg fields (frameOf (str "zap.(*Logger).Log") :: stk).
Definition Debug (log : Logger) (msg : bytes) (fields : list Field) (stk : list Frame) : M W ending :=
  logAt log Level.DebugLevel msg fields (frameOf (str "zap.(*Logger).Debug") :: stk).
Definition Info (log : Logger) (msg : bytes) (fields : list Field) (stk : list Frame) : M W ending :=
  logAt log Level.InfoLevel msg fields (frameOf (str "zap.(*Logger).Info") :: stk).
Definition Warn (log : Logger) (msg : bytes) (fields : list Field) (stk : list Frame) : M W ending :=
  logAt log Level.WarnLevel msg fields (frameOf (str "zap.(*Logger).Warn") :: stk).
Definition Error (log : Logger) (msg : bytes) (fields : list Field) (stk : list Frame) : M W ending :=
  logAt log Level.ErrorLevel msg fields (frameOf (str "zap.(*Logger).Error") :: stk).
Definition DPanic (log : Logger) (msg : bytes) (fields : list Field) (stk : list Frame) : M W ending :=
  logAt log Level.DPanicLevel msg fields (frameOf (str "zap.(*Logger).DPanic") :: stk).
Definition Panic (log : Logger) (msg : bytes) (fields : list Field) (stk : list Frame) : M W ending :=
  logAt log Level.PanicLevel msg fields (frameOf (str "zap.(*Logger).Panic") :: stk).
Definition Fatal (log : Logger) (msg : bytes) (fields : list Field) (stk : list Frame) : M W ending :=
  logAt log Level.FatalLevel msg fields (frameOf (str "zap.(*Logger).Fatal") :: stk).

(** * Options *)

Definition Option_ : Type := Logger -> M W Logger.

Definition WrapCore (f : Core W -> M W (Core W)) : Option_ := fun log => c ← f (core log); mret (setCore log c).
Definition Hooks (hooks : list (Entry.Entry -> W -> error * W)) : Option_ := fun log =>
  mret (setCore log (RegisterHooks (core log) hooks)).
Definition Fields (fs : list Field) : Option_ := fun log =>
  c ← Core.With reflected 1 (core log) fs; mret (setCore log c).
Definition ErrorOutput_ (w : option (@WriteSyncer.WriteSyncer W)) : Option_ := fun log => mret (setErrorOutput log w).
Definition Development : Option_ := fun log => mret (setDevelopment log true).
Definition WithCaller (enabled : bool) : Option_ := fun log => mret (setAddCaller log enabled).
Definition AddCaller : Option_ := WithCaller true.
Definition AddCallerSkip (skip : Z) : Option_ := fun log =>
  mret (setCallerSkip log (int64 (callerSkip log + skip))).
Definition AddStacktrace (lvl : enabler) : Option_ := fun log => mret (setAddStack log lvl).
Definition IncreaseLevel (lvl : enabler) : Option_ := fun log =>
  '(c, err) ← NewIncreaseLevelCore (core log) lvl;
  match err, c with
  | Some e, _ =>
      _ ← fprint (errorOutput log) (str "failed to IncreaseLevel: " ++ Error_text e ++ [x0a]); mret log
  | None, Some c => mret (setCore log c)
  | None, None => mret log
  end.
Definition WithPanicHook (hook : option (CheckWriteHook W)) : Option_ := fun log => mret (setOnPanic log hook).
Definition WithFatalHook (hook : option (CheckWriteHook W)) : Option_ := fun log => mret (setOnFatal log hook).
Definition OnFatal (action : CheckWriteHook W) : Option_ := WithFatalHook (Some action).
Definition WithClock (c : W -> Time * W) : Option_ := fun log => mret (setClock log c).

Definition WithOptions (log : Logger) (opts : list Option_) : M W Logger :=
  forEach (fun opt c => opt c) opts (clone log).

(** * Derived loggers *)

Definition Named (log : Logger) (s : bytes) : Logger :=
  if decide (s = []) then log
  else
    let l := clone log in
    if decide (name log = []) then setName l s else setName l (name l ++ str "." ++ s).

Definition With (log : Logger) (fields : list Field) : M W Logger :=
  if decide (length fields = 0%nat) then mret log
  else
    let l := clone log in
    c ← Core.With reflected 1 (core l) fields; mret (setCore l c).

Definition WithLazy (log : Logger) (fields : list Field) : M W Logger :=
  if decide (length fields = 0%nat) then mret log
  else WithOptions log [WrapCore (fun core => NewLazyWith core fields)].

Definition Level_ (log : Logger) : M W Level.Level := LevelOf (core log).
Definition Sync (log : Logger) : M W error := Core.Sync reflected 1 (core log).
Definition Core_ (log : Logger) : Core W := core log.
Definition Name (log : Logger) : bytes := name log.

(** * Constructors *)

(** [os.Stderr], [os.Stdout] and the system clock. *)
Context (stderr stdout : @WriteSyncer.WriteSyncer W) (DefaultClock : W -> Time * W).

Definition NewNop : Logger :=
  mkLogger NewNopCore false false None None [] (Some (WriteSyncer.AddSync WriteSyncer.Discard))
    (enablerLevel (Level.FatalLevel + 1)) 0 DefaultClock.

Definition New (c : option (Core W)) (options : list Option_) : M W Logger :=
  match c with
  | None => mret NewNop
  | Some c =>
      WithOptions (mkLogger c false false None None [] (Some (WriteSyncer.Lock stderr))
                     (enablerLevel (Level.FatalLevel + 1)) 0 DefaultClock) options
  end.

Definition Must (logger : Logger) (err : error) : M W Logger :=
  match err with
  | Some e => panic (Error_text e)
  | None => mret logger
  end.

Definition exampleConfig : EncoderConfig.EncoderConfig :=
  EncoderConfig.mkConfig (str "msg") (str "level") [] (str "logger") [] [] [] false []
    (Some EncoderConfig.LowercaseLevelEncoder) (Some EncoderConfig.ISO8601TimeEncoder)
    (Some EncoderConfig.StringDurationEncoder) None None None [].

Definition NewExample (options : list Option_) : M W Logger :=
  let c := NewCore (jsonEncoder (JsonEncoder.NewJSONEncoder reflected exampleConfig)) stdout
             (enablerLevel Level.DebugLevel) in
  log ← New (Some c) []; WithOptions log options.
End logger.
Arguments Logger W : clear implicits.
Arguments Option_ W : clear implicits.
End Logger.
