(* ===== verification/LoggerSpec.v ===== *)
(** Properties of the logger of Logger.v: how each logging call ends, what a disabled
    call costs, which frame is the caller, and how names are joined. *)

From Stdlib Require Import ZArith Lia.
From S2P Require Import Prelude Strconv GoStd Level AtomicLevel WriteSyncer Encode Field Entry EncoderConfig Core CoreSpec Stacktrace Logger.
From stdpp Require Import base list.

Local Open Scope Z_scope.
Local Open Scope zap_scope.

Module LoggerSpec.
Import Encode Core CoreSpec Stacktrace Logger.

Section logger.
Context {W : Type} {std : GoStd} {ME : Multierr}.
Context (reflected : EncoderConfig.ReflectedEncoder) (sprintEntry : Entry.Entry -> bytes) (storage : nat).

(** * The checked entries of a logger *)

(** Every value that the computation returns satisfies [P]. *)
Definition yields {A} (P : A -> Prop) (m : M W A) : Prop :=
  forall st a st', m st = Ret (a, st') -> P a.

Lemma yields_ret {A} (P : A -> Prop) a : P a -> yields P (mret a).
Proof. intros H st b st' [= <- _]. done. Qed.

Lemma yields_bind {A B} (Q : A -> Prop) (P : B -> Prop) m f :
  yields Q m -> (forall a, Q a -> yields P (f a)) -> yields P (m ≫= f).
Proof. intros Hm Hf st b st' (a & st1 & E1 & E2)%bind_Ret. eapply Hf; [by eapply Hm|done]. Qed.

Lemma yields_any {A} (m : M W A) : yields (fun _ => True) m.
Proof. done. Qed.

Lemma yields_forEach {A B} (P : B -> Prop) (f : A -> B -> M W B) l acc :
  Forall (fun x => forall b, P b -> yields P (f x b)) l -> P acc -> yields P (forEach f l acc).
Proof.
  intros Hl. revert acc. induction Hl as [|x l Hx _ IH]; intros acc Ha; [by apply yields_ret|].
  simpl. eapply yields_bind; [by apply Hx|]. auto.
Qed.

(** A checked entry on which only [AddCore] was called. *)
Definition fresh (ent : Entry.Entry) (ce : option (CheckedEntry W)) : Prop :=
  match ce with
  | Some ce => entry ce = ent /\ dirty ce = false /\ after ce = None /\ before ce = [] /\ cores ce <> []
  | None => True
  end.

Lemma fresh_AddCore ent ce c : fresh ent ce -> fresh ent (AddCore ce ent c).
Proof.
  destruct ce as [ce|]; simpl; [|done]. intros (? & ? & ? & ? & ?). repeat split; try done. by destruct (cores ce).
Qed.

Lemma Check_fresh depth c ent ce : fresh ent ce -> yields (fresh ent) (Core.Check reflected depth c ent ce).
Proof.
  revert c ce. induction depth as [|depth IHd]; intros c;
    induction c as [| |cs IH|c fs IH|ref c lf IH|c level IH|c k p hook IH|] using Core_tree_ind;
    intros ce Hce; cbn [Core.Check]; autounfold with core_methods; try (by apply yields_ret).
  all: try (eapply yields_bind; [apply yields_any|]; intros [] _; by auto using yields_ret, fresh_AddCore).
  all: try (apply yields_forEach; [|done]; eapply Forall_impl; [done|]; by auto).
  all: try (eapply yields_bind; [by apply IH|]; intros [ce'|] Hd; apply yields_ret; [by apply fresh_AddCore|done]).
  all: eapply yields_bind; [apply yields_any|]; intros [] _; cbn [negb]; [|by apply yields_ret]; try (by apply IH).
  all: eapply yields_bind; [apply yields_any|].
  - done.
  - intros [[]|] _; try (by apply IH); eapply yields_bind; [apply yields_any| |apply yields_any|];
      intros _ _; [by apply yields_ret|by apply IH].
  - intros c' _. by apply IHd.
  - intros [[]|] _; try (by apply IH); eapply yields_bind; [apply yields_any| |apply yields_any|];
      intros _ _; [by apply yields_ret|by apply IH].
Qed.

(** * How a call ends *)

(** The hook that a logger runs after an entry at the level, if any. *)
Definition terminal (log : Logger W) (lvl : Level.Level) : option (CheckWriteHook W) :=
  if lvl =? Level.PanicLevel then Some (terminalHookOverride WriteThenPanic (onPanic log))
  else if lvl =? Level.FatalLevel then Some (terminalHookOverride WriteThenFatal (onFatal log))
  else if (lvl =? Level.DPanicLevel) && development log then
    Some (terminalHookOverride WriteThenPanic (onPanic log))
  else None.

(** What a call with that hook and message ends with. *)
Definition endsAs (hook : option (CheckWriteHook W)) (msg : bytes) (e : ending) : Prop :=
  match hook with
  | None | Some WriteThenNoop => e = Returns
  | Some WriteThenGoexit => e = Goexit
  | Some WriteThenPanic => e = PanicsWith msg
  | Some WriteThenFatal => e = Exits 1
  | Some (customHook _) => True
  end.

(** What [check] gives: the terminal hook is set whether or not a core agreed. *)
Definition checkedAs (log : Logger W) (lvl : Level.Level) (msg : bytes) (ce : option (CheckedEntry W)) : Prop :=
  match ce with
  | None => terminal log lvl = None
  | Some ce =>
      dirty ce = false /\ after ce = terminal log lvl /\ before ce = [] /\
      Entry.Message (entry ce) = msg
  end.

Lemma terminal_low log lvl : lvl < Level.DPanicLevel -> terminal log lvl = None.
Proof.
  unfold terminal, Level.DPanicLevel, Level.PanicLevel, Level.FatalLevel. intros H.
  by rewrite !(proj2 (Z.eqb_neq _ _)) by lia.
Qed.

Lemma setTerminal_checkedAs log ent ce :
  fresh ent ce -> checkedAs log (Entry.Level ent) (Entry.Message ent) (setTerminal log ent ce).
Proof.
  unfold setTerminal, terminal, checkedAs. intros Hf.
  assert (forall h, match After ce ent h with
    | Some ce => dirty ce = false /\ after ce = Some h /\ before ce = [] /\ Entry.Message (entry ce) = Entry.Message ent
    | None => False end) as HA.
  { intros h. destruct ce as [ce|]; [|done]. destruct Hf as (<- & Hd & Ha & Hb & _). by repeat split. }
  unfold terminal. destruct (_ =? Level.PanicLevel); [apply HA|]. destruct (_ =? Level.FatalLevel); [apply HA|].
  assert (match ce with Some ce => dirty ce = false /\ after ce = None /\ before ce = [] /\
    Entry.Message (entry ce) = Entry.Message ent | None => True end) as Hn.
  { destruct ce as [ce|]; [|done]. by destruct Hf as (<- & ? & ? & ? & _). }
  destruct (_ =? Level.DPanicLevel); [|by destruct ce]. destruct (development log); [apply HA|by destruct ce].
Qed.

Lemma yields_annotate log lvl msg ent ce stk :
  checkedAs log lvl msg (Some ce) ->
  yields (fun ce' => checkedAs log lvl msg (Some ce')) (annotate storage log ent ce stk).
Proof.
  intros H. unfold annotate. cbv zeta. eapply yields_bind; [apply yields_any|]. intros st _.
  destruct (_ && _); [by apply yields_ret|]. eapply yields_bind; [apply yields_any|]. intros [s stack] _.
  destruct (_ =? 0); [destruct (addCaller log); [|by apply yields_ret]|].
  - do 2 (eapply yields_bind; [apply yields_any|]; intros _ _). by apply yields_ret.
  - destruct (Next stack) as [[frame more] rest]. apply yields_ret. by destruct (addCaller log), st.
Qed.

Lemma yields_check log lvl msg stk : yields (checkedAs log lvl msg) (check reflected storage log lvl msg stk).
Proof.
  unfold check. eapply (yields_bind (fun skip => skip = true -> lvl < Level.DPanicLevel)).
  { destruct (Z.ltb_spec lvl Level.DPanicLevel); [|by apply yields_ret].
    eapply yields_bind; [apply yields_any|]. intros b _. by apply yields_ret. }
  intros [] Hs; [by apply yields_ret, terminal_low, Hs|]. eapply yields_bind; [apply yields_any|]. intros now _.
  cbv zeta. eapply yields_bind; [by apply Check_fresh|]. intros ce Hce.
  pose proof (setTerminal_checkedAs log _ ce Hce) as Ht. cbn [Entry.Level Entry.Message] in Ht.
  destruct (setTerminal _ _ _) as [ce'|]; [|by apply yields_ret]. destruct ce; [|by apply yields_ret].
  eapply yields_bind; [by apply yields_annotate|]. intros ce2 H2. by apply yields_ret.
Qed.

Lemma yields_OnWrite hook ce fields :
  yields (endsAs (Some hook) (Entry.Message (entry ce))) (OnWrite (W := W) hook ce fields).
Proof. destruct hook; try (by apply yields_ret). done. Qed.

Lemma yields_logAt log lvl msg fields stk :
  yields (endsAs (terminal log lvl) msg) (logAt reflected sprintEntry storage log lvl msg fields stk).
Proof.
  unfold logAt. eapply yields_bind; [apply yields_check|]. intros [ce|] H.
  2:{ apply yields_ret. by rewrite H. }
  destruct H as (Hd & Ha & Hb & Hm). unfold checked_Write. rewrite Hd. cbv zeta.
  destruct (runBefore _ _ _) as [ent fs].
  eapply (yields_bind (fun r => endsAs (terminal log lvl) msg r.1)); [|intros [e ce'] He; by apply yields_ret].
  do 2 (eapply yields_bind; [apply yields_any|]; intros ? _).
  eapply (yields_bind (endsAs (terminal log lvl) msg)); [|intros e He; by apply yields_ret].
  rewrite <- Ha, <- Hm. cbn [after setDirty]. destruct (after ce); [|by apply yields_ret].
  apply (yields_OnWrite _ (setDirty ce)).
Qed.

(** * A call finishes *)

Lemma good_panic {A} n (P : A -> Prop) v : good n P (panic (W := W) v).
Proof. by intros st Hst. Qed.

Lemma good_fprint n w text : good n (fun _ => True) (fprint (W := W) w text).
Proof.
  destruct w as [out|]; [|apply good_panic]. eapply good_bind; [apply good_world|]. intros _ _. by apply good_ret.
Qed.

Lemma good_syncOutput n w : good n (fun _ => True) (syncOutput (W := W) w).
Proof.
  destruct w as [out|]; [|apply good_panic]. eapply good_bind; [apply good_world|]. intros _ _. by apply good_ret.
Qed.

Lemma good_annotate n (log : Logger W) ent ce stk :
  (1 <= storage)%nat -> ceBelow n (Some ce) ->
  good n (fun ce' => ceBelow n (Some ce')) (annotate storage log ent ce stk).
Proof.
  intros Hs Hce. unfold annotate. cbv zeta. eapply good_bind; [apply good_enabler|]. intros st _.
  destruct (_ && _); [by apply good_ret|]. eapply (good_bind _ (fun _ => True)).
  { apply good_lift; [|done]. destruct (Capture_total storage (frameOf (str "zap.(*Logger).check") :: stk)
      (int64 (callerSkip log + callerSkipOffset)) (if st then Full else First) Hs) as (s' & E & _).
    by rewrite E. }
  intros [s stack] _. destruct (_ =? 0); [destruct (addCaller log); [|by apply good_ret]|].
  - eapply good_bind; [apply good_fprint|]. intros _ _.
    eapply good_bind; [apply good_syncOutput|]. intros _ _. by apply good_ret.
  - destruct (Next stack) as [[frame more] rest]. apply good_ret. by destruct (addCaller log), st.
Qed.

Lemma ceBelow_setTerminal n log ent (ce : option (CheckedEntry W)) :
  ceBelow n ce -> ceBelow n (setTerminal log ent ce).
Proof.
  intros H. assert (forall h, ceBelow n (After ce ent h)) as HA by (intros h; destruct ce; [exact H|constructor]).
  unfold setTerminal. by repeat case_match.
Qed.

Lemma good_check n (log : Logger W) lvl msg stk :
  (1 <= storage)%nat -> below n (core log) ->
  good n (ceBelow n) (check reflected storage log lvl msg stk).
Proof.
  intros Hs Hc. unfold check. eapply (good_bind _ (fun _ => True)).
  { destruct (_ <? _); [|by apply good_ret]. eapply good_bind; [apply good_Enabled|].
    intros b _. by apply good_ret. }
  intros [] _; [by apply good_ret|]. eapply good_bind; [apply good_world|]. intros now _. cbv zeta.
  eapply good_bind; [by apply good_Check|]. intros ce Hce.
  match goal with |- context [setTerminal log ?ent ce] => pose proof (ceBelow_setTerminal n log ent ce Hce) as Ht end.
  destruct (setTerminal _ _ _) as [ce'|]; [|by apply good_ret]. destruct ce; [|by apply good_ret].
  eapply good_bind; [by apply good_annotate|]. intros ce2 H2. by apply good_ret.
Qed.

Lemma good_checked_Write n ce fields :
  ceBelow n ce -> good n (fun _ => True) (checked_Write (W := W) reflected sprintEntry ce fields).
Proof.
  intros Hce. destruct ce as [ce|]; [|by apply good_ret]. unfold checked_Write.
  assert (forall out text, good n (fun _ => True) (report (W := W) out text)) as Hr.
  { intros out text. do 2 (eapply good_bind; [apply good_world|]; intros _ _). by apply good_ret. }
  destruct (dirty ce).
  { destruct (ErrorOutput ce); [|by apply good_ret]. eapply good_bind; [apply Hr|]. intros _ _. by apply good_ret. }
  cbv zeta. destruct (runBefore _ _ _) as [ent fs]. eapply good_bind.
  { apply good_appendErrors. eapply Forall_impl; [exact Hce|]. intros c Hc. by apply good_Write. }
  intros e _. eapply (good_bind _ (fun _ => True)).
  { destruct e; [|by apply good_ret]. destruct (ErrorOutput _); [apply Hr|by apply good_ret]. }
  intros _ _. eapply (good_bind _ (fun _ => True)); [|intros en _; by apply good_ret].
  destruct (after _) as [[]|]; try (by apply good_ret). apply good_world.
Qed.

Lemma good_logAt n (log : Logger W) lvl msg fields stk :
  (1 <= storage)%nat -> below n (core log) ->
  good n (fun _ => True) (logAt reflected sprintEntry storage log lvl msg fields stk).
Proof.
  intros Hs Hc. unfold logAt. eapply good_bind; [by apply good_check|]. intros [ce|] Hce; [|by apply good_ret].
  eapply good_bind; [by apply good_checked_Write|]. intros [e ce'] _. by apply good_ret.
Qed.

(** A terminal hook that replaces the default cannot be the one that does nothing. *)
Lemma override_ends d o msg e :
  (d = WriteThenPanic \/ d = WriteThenFatal) ->
  endsAs (Some (terminalHookOverride d o)) msg e ->
  match terminalHookOverride d o with customHook _ => True | _ => e <> Returns end.
Proof. intros [-> | ->]; destruct o as [[]|]; simpl; intros H; subst; done. Qed.

(** C9: a logging call ends as its level says, whatever the cores decide: every call on a
    logger finishes (or a marshaler, hook or clock of the caller panics); at Fatal it
    ends the process unless another hook is configured, at Panic, and at DPanic in
    development, it panics with the message, even when the level is disabled, the
    entry is sampled out or every write fails; a nil or no-op hook cannot turn this
    off; at every other level the call returns. *)
Theorem log_call_ending (log : Logger W) lvl msg fields stk st :
  (1 <= storage)%nat -> wfStore st -> below (length (lazies st)) (core log) ->
  match Log reflected sprintEntry storage log lvl msg fields stk st with
  | Ret (e, _) =>
      endsAs (terminal log lvl) msg e /\
      match terminal log lvl with
      | Some (customHook _) => True
      | Some _ => e <> Returns
      | None => lvl <> Level.PanicLevel /\ lvl <> Level.FatalLevel /\ e = Returns
      end
  | Prelude.Panic _ => True
  | Diverge => False
  end.
Proof.
  intros Hs Hst Hc. unfold Log.
  pose proof (good_logAt _ log lvl msg fields (frameOf (str "zap.(*Logger).Log") :: stk) Hs Hc st Hst) as Hg.
  pose proof (yields_logAt log lvl msg fields (frameOf (str "zap.(*Logger).Log") :: stk) st) as Hy.
  destruct (logAt _ _ _ _ _ _ _ _ st) as [[e st']| |]; [|done..].
  specialize (Hy e st' eq_refl). split; [done|]. revert Hy. unfold terminal.
  destruct (Z.eqb_spec lvl Level.PanicLevel) as [|Hp]; [apply override_ends; auto|].
  destruct (Z.eqb_spec lvl Level.FatalLevel) as [|Hf]; [apply override_ends; auto|].
  destruct (_ && _); [apply override_ends; auto|done].
Qed.

(** A disabled call is free: below DPanic, when the core is not enabled, a logging
    call returns at once and changes nothing at all: it does not read the clock, ask
    the sampler, evaluate lazy fields, capture a stack or write. *)
Theorem disabled_log_is_free (log : Logger W) lvl msg fields stk st :
  lvl < Level.DPanicLevel -> Enabled (core log) lvl st = Ret (false, st) ->
  Log reflected sprintEntry storage log lvl msg fields stk st = Ret (Returns, st).
Proof.
  intros Hl He. unfold Log, logAt, check. rewrite (proj2 (Z.ltb_lt _ _) Hl).
  assert ((b ← Enabled (core log) lvl; mret (negb b)) st = Ret (true, st)) as E.
  { by rewrite (run_bind _ _ _ _ _ He). }
  assert (check reflected storage log lvl msg (frameOf (str "zap.(*Logger).Log") :: stk) st = Ret (None, st)) as Ec.
  { unfold check. rewrite (proj2 (Z.ltb_lt _ _) Hl). by rewrite (run_bind _ _ _ _ _ E). }
  unfold check in Ec. rewrite (proj2 (Z.ltb_lt _ _) Hl) in Ec. by rewrite (run_bind _ _ _ _ _ Ec).
Qed.

(** * Annotation *)

Lemma Capture_from c m skipped f stk depth :
  (1 <= storage)%nat -> lenZ skipped < 2 ^ 61 ->
  exists s, Capture storage (c :: m :: skipped ++ f :: stk) (lenZ skipped + 2) depth =
    Ret (s, match depth with First => [f] | Full => f :: stk end).
Proof.
  intros Hs Hl. assert (0 <= lenZ skipped) by (unfold lenZ; lia).
  destruct (Capture_spec storage (c :: m :: skipped ++ f :: stk) (lenZ skipped + 2) depth Hs ltac:(lia)) as (s & E & _).
  exists s. rewrite E. assert (Z.to_nat (lenZ skipped + 2) = S (S (length skipped))) as -> by (unfold lenZ; lia).
  cbn [drop]. rewrite drop_app_length. by destruct depth.
Qed.

Lemma stackText_spec f frames outermost :
  stackText f true (frames ++ [outermost]) = joinLines (map frameText (f :: frames)).
Proof. unfold stackText. by rewrite FormatStack_snoc, <- foldl_FormatFrame. Qed.

(** The annotations of an entry at a call site [f] that the logger's [callerSkip] is
    right about. *)
Definition annotated (log : Logger W) (f : Frame) (stk : list Frame) (stack : bool) (ce : CheckedEntry W) : Prop :=
  ErrorOutput ce = errorOutput log /\
  Entry.Caller (entry ce) = (if addCaller log then callerOf f else Entry.noCaller) /\
  (if stack then forall frames outermost, stk = frames ++ [outermost] ->
      Entry.Stack (entry ce) = joinLines (map frameText (f :: frames))
   else Entry.Stack (entry ce) = []).

Lemma annotate_spec log ent ce m skipped f stk st ce' st' :
  (1 <= storage)%nat -> callerSkip log = lenZ skipped -> lenZ skipped < 2 ^ 61 ->
  Entry.Caller (entry ce) = Entry.noCaller -> Entry.Stack (entry ce) = [] ->
  annotate storage log ent ce (m :: skipped ++ f :: stk) st = Ret (ce', st') ->
  exists stack, enabler_Enabled (addStack log) (Entry.Level (entry ce)) st = Ret (stack, st) /\ st' = st /\
    cores ce' = cores ce /\ annotated log f stk stack ce'.
Proof.
  intros Hs Hk Hlt Hnc Hns E. unfold annotate in E. cbv zeta in E.
  apply (pure_bind_Ret _ _ _ _ _ (pure_enabler _ _)) in E as (stack & E0 & E). exists stack. split; [done|].
  unfold annotated. destruct (negb (addCaller log) && negb stack) eqn:En.
  { apply andb_true_iff in En as [Ec Es]. apply negb_true_iff in Ec, Es. rewrite Ec. subst stack.
    injection E as <- <-. done. }
  apply bind_Ret in E as ([s frames] & st1 & E1 & E). unfold lift in E1.
  assert (int64 (callerSkip log + callerSkipOffset) = lenZ skipped + 2) as Ei.
  { rewrite Hk. apply wrapS_id; [lia|]. unfold inS, callerSkipOffset. unfold lenZ in *. lia. }
  rewrite Ei in E1. destruct (Capture_from (frameOf (str "zap.(*Logger).check")) m skipped f stk
    (if stack then Full else First) Hs Hlt) as (s' & Ec).
  rewrite Ec in E1. injection E1 as <- <- <-.
  assert (forall l, (Count (f :: l) =? 0) = false) as Hcnt.
  { intros l. apply Z.eqb_neq. unfold Count, lenZ. simpl. lia. }
  destruct stack; rewrite Hcnt in E; cbn [Next] in E; injection E as <- <-; (split; [done|]); destruct (addCaller log); try done.
  all: split; [done|]; split; [done|]; split; [done|]; intros frames outermost ->.
  all: cbn [withEntry withStack entry Entry.Stack]; rewrite bool_decide_false by (rewrite length_app; simpl; lia).
  all: apply stackText_spec.
Qed.

Lemma check_annotated (log : Logger W) lvl msg method wrappers f stk st ce st' :
  (1 <= storage)%nat -> callerSkip log = lenZ wrappers -> lenZ wrappers < 2 ^ 61 ->
  check reflected storage log lvl msg (method :: wrappers ++ f :: stk) st = Ret (Some ce, st') ->
  cores ce <> [] ->
  exists stack, enabler_Enabled (addStack log) lvl st' = Ret (stack, st') /\ annotated log f stk stack ce.
Proof.
  intros Hs Hk Hlt E Hne. unfold check in E. apply bind_Ret in E as ([] & st1 & _ & E); [done|].
  apply bind_Ret in E as (now & st2 & _ & E). cbv zeta in E.
  apply bind_Ret in E as (ce0 & st3 & E0 & E).
  pose proof (Check_fresh _ _ _ None I _ _ _ E0) as Hf.
  destruct ce0 as [ce0|].
  - assert (exists ce1, setTerminal log (Entry.mkEntry lvl now (name log) msg Entry.noCaller []) (Some ce0) = Some ce1 /\
      entry ce1 = entry ce0) as (ce1 & Et & He1) by (unfold setTerminal; repeat case_match; eexists; split; reflexivity).
    rewrite Et in E. apply bind_Ret in E as (ce2 & st4 & Ea & E). injection E as <- <-.
    destruct Hf as (He & _). rewrite He in He1.
    destruct (annotate_spec log _ ce1 method wrappers f stk st3 ce2 st4 Hs Hk Hlt
      ltac:(by rewrite He1) ltac:(by rewrite He1) Ea) as (stack & Ee & -> & _ & Ha).
    rewrite He1 in Ee. by exists stack.
  - exfalso. apply Hne. destruct (setTerminal _ _ None) as [ce1|] eqn:Et; [|done]. injection E as <- _.
    revert Et. unfold setTerminal. repeat case_match; try done; by intros [= <-].
Qed.

(** C18: the caller is the call site: an entry that a core will write is annotated with the
    very frame that called the logging method, after as many wrappers as the logger was
    told to skip; its stack trace, if its level asks for one, is the call site's stack
    without the outermost runtime frame; and without the options neither is set. *)
Theorem caller_is_call_site (log : Logger W) lvl msg method wrappers f stk st ce st' :
  (1 <= storage)%nat -> callerSkip log = lenZ wrappers -> lenZ wrappers < 2 ^ 61 ->
  check reflected storage log lvl msg (method :: wrappers ++ f :: stk) st = Ret (Some ce, st') ->
  cores ce <> [] ->
  exists stack, enabler_Enabled (addStack log) lvl st' = Ret (stack, st') /\ annotated log f stk stack ce.
Proof. apply check_annotated. Qed.

(** * Names *)

Definition joinDots (l : list bytes) : bytes :=
  match l with
  | [] => []
  | x :: l => x ++ concat (map (fun y => str "." ++ y) l)
  end.

Definition nonEmptyName (s : bytes) : bool := negb (bool_decide (s = [])).

Lemma joinDots_snoc l s : l <> [] -> joinDots (l ++ [s]) = joinDots l ++ str "." ++ s.
Proof.
  destruct l as [|x l]; [done|]. intros _. simpl. rewrite map_app, concat_app. simpl.
  by rewrite app_nil_r, <- app_assoc.
Qed.

(** Names are paths: naming a logger by any segments, in any number of steps, joins
    the logger's name and the segments with dots, leaving out those that are empty, and
    changes nothing else. *)
Theorem named_joins_segments (log : Logger W) segments :
  foldl Named log segments =
  setName log (joinDots (filter (fun s => nonEmptyName s = true) (name log :: segments))).
Proof.
  induction segments as [|s segments IH] using rev_ind.
  { destruct log as [? ? ? ? ? [|x nm] ? ? ? ?]; [done|]. unfold setName. simpl. by rewrite app_nil_r. }
  rewrite foldl_app, IH. cbn [foldl]. rewrite app_comm_cons, filter_app.
  assert (filter (fun s => nonEmptyName s = true) [s] = if decide (s = []) then [] else [s]) as ->.
  { by destruct s. }
  set (l := filter _ (name log :: segments)). assert (Forall (fun s => s <> []) l) as Hl.
  { apply Forall_forall. intros x Hx. apply list_elem_of_filter in Hx as [Hx _].
    unfold nonEmptyName in Hx. by case_bool_decide. }
  unfold Named. destruct (decide (s = [])); [by rewrite app_nil_r|].
  unfold clone. cbn [name setName]. destruct l as [|x l]; [simpl; by rewrite app_nil_r|].
  apply Forall_cons in Hl as [Hx _]. rewrite joinDots_snoc by done.
  by rewrite decide_False by (destruct x; done).
Qed.
End logger.

(** * A logger *)

Section demo.
#[local] Existing Instances Level.asciiStd flat_multierr.

Definition noReflection : EncoderConfig.ReflectedEncoder := fun _ => (str "null", None).

Definition oneLog : Store unit := mkStore tt [] [] [[]] [].

(** Everything below FatalLevel + 1 is filtered out, callers are annotated, and the
    hook for fatal entries does nothing. *)
Definition quietLogger : Logger unit :=
  mkLogger (levelFilterCore (contextObserver (enablerLevel Level.DebugLevel) 0 []) (enablerLevel 6))
    false true None (Some WriteThenNoop) [] None (enablerLevel Level.ErrorLevel) 0 (fun w => (zeroTime, w)).

Definition loudLogger : Logger unit :=
  setCore quietLogger (contextObserver (enablerLevel Level.DebugLevel) 0 []).

Lemma log_call_ending_witness :
  Log noReflection (fun _ => []) 64 quietLogger Level.FatalLevel (str "over") [] [] oneLog = Ret (Exits 1, oneLog) /\
  endsAs (terminal quietLogger Level.FatalLevel) (str "over") (Exits 1).
Proof.
  pose proof (log_call_ending noReflection (fun _ => []) 64 quietLogger Level.FatalLevel (str "over") [] [] oneLog
    ltac:(lia) ltac:(by intros [|i] c) I) as H.
  assert (Log noReflection (fun _ => []) 64 quietLogger Level.FatalLevel (str "over") [] [] oneLog = Ret (Exits 1, oneLog))
    as E by (vm_compute; reflexivity).
  rewrite E in H. split; [exact E|exact (proj1 H)].
Defined.

Lemma disabled_log_is_free_witness :
  Log noReflection (fun _ => []) 64 quietLogger Level.ErrorLevel (str "hidden") [] [] oneLog = Ret (Returns, oneLog).
Proof. apply disabled_log_is_free; vm_compute; reflexivity. Defined.

Definition site : Frame := mkFrame 7 (str "main.work") (str "work.go") 12.

Lemma caller_is_call_site_witness :
  exists ce,
    check noReflection 64 loudLogger Level.ErrorLevel (str "bad") (frameOf (str "Error") :: [] ++ site ::
      [mkFrame 8 (str "main.main") (str "main.go") 3; mkFrame 9 (str "runtime.main") (str "proc.go") 1]) oneLog =
    Ret (Some ce, oneLog) /\
    Entry.Caller (entry ce) = callerOf site /\
    Entry.Stack (entry ce) = joinLines [frameText site; str "main.main" ++ [x0a; x09] ++ str "main.go:3"].
Proof.
  eexists. split; [vm_compute; reflexivity|].
  edestruct (caller_is_call_site noReflection 64 loudLogger Level.ErrorLevel (str "bad") (frameOf (str "Error")) [] site
    [mkFrame 8 (str "main.main") (str "main.go") 3; mkFrame 9 (str "runtime.main") (str "proc.go") 1] oneLog)
    as (stack & Es & _ & Hc & Hs); [lia|reflexivity|reflexivity|vm_compute; reflexivity|discriminate|].
  vm_compute in Es. injection Es as <-. split; [exact Hc|].
  exact (Hs [mkFrame 8 (str "main.main") (str "main.go") 3] _ eq_refl).
Defined.
End demo.
End LoggerSpec.
