(* ===== verification/LogCall.v ===== *)
(** A whole logging call, from the method of the logger to the outputs and back.

    logger.go, zapcore/entry.go, zapcore/core.go, zapcore/tee.go and
    zapcore/increase_level.go share the work of a call: the level check, the checked entry
    that collects cores, its annotations, the terminal hook, the writes with their combined
    errors.  [callSpec] says in a few lines what a call does to the world; the theorem is
    that the code does this. *)

From Stdlib Require Import ZArith Lia.
From S2P Require Import Prelude Strconv GoStd Level AtomicLevel WriteSyncer Encode Field Entry EncoderConfig JsonEncoder Core CoreSpec CoreDelivery Stacktrace Logger LoggerSpec.
From stdpp Require Import base list.

Local Open Scope Z_scope.
Local Open Scope zap_scope.

Module LogCall.
Import Encode Core CoreSpec CoreDelivery Stacktrace Logger LoggerSpec.

Section call.
Context {W : Type} {std : GoStd} {ME : Multierr}.
Context (reflected : EncoderConfig.ReflectedEncoder) (sprintEntry : Entry.Entry -> bytes) (storage : nat).

(** * The specification *)

(** An encoder with the write syncer it is for. *)
Abbreviation output := (Encoder * @WriteSyncer.WriteSyncer W)%type.

Definition isOutput (c : Core W) : Prop := match c with ioCore _ _ _ => True | _ => False end.

Definition outputOf (c : Core W) : option output :=
  match c with
  | ioCore _ enc out => Some (enc, out)
  | _ => None
  end.

(** The outputs that an entry at [lvl] goes to. *)
Definition outputs (st : Store W) (lvl : Level.Level) (c : Core W) : list output := omap outputOf (outlets st lvl c).

(** Whether the core says that it is enabled. *)
Fixpoint willing (st : Store W) (lvl : Level.Level) (c : Core W) : bool :=
  match c with
  | multiCore cs => existsb (willing st lvl) cs
  | levelFilterCore _ level => on st level lvl
  | ioCore enab _ _ | contextObserver enab _ _ => on st enab lvl
  | _ => false
  end.

(** One output: the line of its encoder is written, and flushed above the error level; or
    the error of the encoder or of the write. *)
Definition writeOne (ent : Entry.Entry) (fields : list Field) (o : output) (w : W) : outcome (error * W) :=
  let! (line, err) := Core.EncodeEntry reflected o.1 ent fields in
  match err with
  | Some _ => Ret (err, w)
  | None =>
      let '((_, err), w) := WriteSyncer.Write o.2 line w in
      match err with
      | Some _ => Ret (err, w)
      | None => Ret (None, if Level.ErrorLevel <? Entry.Level ent then (WriteSyncer.Sync o.2 w).2 else w)
      end
  end.

(** Every output gets the entry, also after one has failed; the errors are combined. *)
Fixpoint writeAll (ent : Entry.Entry) (fields : list Field) (outs : list output) (err : error) (w : W)
    : outcome (error * W) :=
  match outs with
  | [] => Ret (err, w)
  | o :: outs' =>
      let! (e, w) := writeOne ent fields o w in
      writeAll ent fields outs' (multierr_Append err e) w
  end.

(** An error is reported, if there is anywhere to report it to. *)
Definition reported (out : option (@WriteSyncer.WriteSyncer W)) (now : Time) (err : error) (w : W) : W :=
  match err, out with
  | Some e, Some out =>
      (WriteSyncer.Sync out
         (WriteSyncer.Write out (timeString now ++ str " write error: " ++ Error_text e ++ [x0a]) w).2).2
  | _, _ => w
  end.

(** How the call ends. *)
Definition endCall (hook : option (CheckWriteHook W)) (ent : Entry.Entry) (fields : list Field) (w : W) : ending * W :=
  match hook with
  | None | Some WriteThenNoop => (Returns, w)
  | Some WriteThenGoexit => (Goexit, w)
  | Some WriteThenPanic => (PanicsWith (Entry.Message ent), w)
  | Some WriteThenFatal => (Exits 1, w)
  | Some (customHook f) => f ent fields w
  end.

(** An entry that was checked, with the outputs that take it: its annotations are for the
    outputs only. *)
Definition afterCheck (log : Logger W) (outs : list output) (lvl : Level.Level) (now : Time) (msg : bytes)
    (fields : list Field) (caller : Entry.EntryCaller) (stack : bytes) (w : W) : outcome (ending * W) :=
  match outs with
  | [] => Ret (endCall (terminal log lvl) (Entry.mkEntry lvl now (name log) msg Entry.noCaller []) fields w)
  | _ =>
      let ent := Entry.mkEntry lvl now (name log) msg caller stack in
      let! (err, w) := writeAll ent fields outs None w in
      Ret (endCall (terminal log lvl) ent fields (reported (errorOutput log) now err w))
  end.

(** A call at [lvl], with the annotations that an entry from its call site has. *)
Definition callSpec (log : Logger W) (lvl : Level.Level) (msg : bytes) (fields : list Field)
    (caller : Entry.EntryCaller) (stack : bytes) (st : Store W) : outcome (ending * W) :=
  if (lvl <? Level.DPanicLevel) && negb (willing st lvl (core log)) then Ret (Returns, world st)
  else
    let '(now, w) := clock log (world st) in
    afterCheck log (outputs st lvl (core log)) lvl now msg fields caller stack w.

(** * The parts of a call *)

Lemma inWorld_run {A} (f : W -> A * W) (st : Store W) : inWorld f st = Ret ((f (world st)).1, setWorld st (f (world st)).2).
Proof. unfold inWorld. by destruct (f (world st)). Qed.

Lemma setWorld_twice (st : Store W) w w' : setWorld (setWorld st w) w' = setWorld st w'.
Proof. done. Qed.

Lemma setWorld_same (st : Store W) : setWorld st (world st) = st.
Proof. by destruct st. Qed.

(** Of the store, levels depend on the cells of the atomic levels only, and whether they
    can be asked on which cells there are. *)
Lemma allocated_more (st st' : Store W) e :
  (length (atomics st) <= length (atomics st'))%nat -> allocated st e -> allocated st' e.
Proof.
  intros Hle. destruct e as [l|[i|]|f]; [done| |done..]. simpl. intros H%lookup_lt_is_Some. apply lookup_lt_is_Some. lia.
Qed.

Lemma wired_more leaf (st st' : Store W) c :
  (length (atomics st) <= length (atomics st'))%nat -> wired leaf st c -> wired leaf st' c.
Proof.
  intros Hle. induction c as [| |cs IH|c fs IH|ref c lf IH|c level IH|c k p hook IH|] using Core_tree_ind; try done.
  - intros [? ?]. split; [by eapply allocated_more|done].
  - intros Hc. apply wired_multi in Hc. apply wired_multi. rewrite Forall_forall in *. auto.
  - intros [? ?]. split; [by eapply allocated_more|auto].
  - intros [? ?]. split; [by eapply allocated_more|done].
Qed.

Section levels.
Context (st st' : Store W) (same : atomics st' = atomics st).

Lemma on_atomics e lvl : on st' e lvl = on st e lvl.
Proof. unfold on. destruct e as [l|a|f]; [done| |done]. simpl. rewrite same. by destruct (AtomicLevel.Enabled_ _ _ _). Qed.

Lemma outlets_atomics lvl c : outlets st' lvl c = outlets st lvl c.
Proof.
  induction c as [| |cs IH|c fs IH|ref c lf IH|c level IH|c k p hook IH|] using Core_tree_ind; cbn [outlets];
    rewrite ?on_atomics, ?IH; try done.
  f_equal. apply map_ext_in. rewrite Forall_forall in IH. intros c Hc. by apply IH, list_elem_of_In.
Qed.

Lemma willing_atomics lvl c : willing st' lvl c = willing st lvl c.
Proof.
  induction c as [| |cs IH|c fs IH|ref c lf IH|c level IH|c k p hook IH|] using Core_tree_ind; cbn [willing];
    rewrite ?on_atomics; try done.
  induction IH as [|c cs H _ IHcs]; [done|]. cbn [existsb]. by rewrite H, IHcs.
Qed.
End levels.

Lemma Enabled_wired leaf (st : Store W) lvl c : wired leaf st c -> Enabled c lvl st = Ret (willing st lvl c, st).
Proof.
  induction c as [| |cs IH|c fs IH|ref c lf IH|c level IH|c k p hook IH|] using Core_tree_ind; cbn [Enabled willing]; try done.
  - intros [Ha _]. by apply enabler_on.
  - intros Hc. apply wired_multi in Hc. unfold multiCore_Enabled. induction IH as [|c cs H _ IHcs]; [done|].
    apply Forall_cons in Hc as [H1 H2]. cbn [anyEach existsb]. rewrite (run_bind _ _ _ _ _ (H H1)).
    destruct (willing st lvl c); [done|]. by apply IHcs.
  - intros [Ha _]. by apply enabler_on.
  - intros [Ha _]. by apply enabler_on.
Qed.

Lemma outlets_leaf leaf (st : Store W) lvl c : wired leaf st c -> Forall leaf (outlets st lvl c).
Proof.
  induction c as [| |cs IH|c fs IH|ref c lf IH|c level IH|c k p hook IH|] using Core_tree_ind; cbn [outlets]; try done.
  - intros [_ Hl]. destruct (on _ _ _); by repeat constructor.
  - intros Hc. apply wired_multi in Hc. induction IH as [|c cs H _ IHcs]; [constructor|].
    apply Forall_cons in Hc as [H1 H2]. cbn [map concat]. apply Forall_app. auto.
  - intros [_ Hc]. destruct (on _ _ _); [by apply IH|constructor].
  - intros [_ Hl]. destruct (on _ _ _); by repeat constructor.
Qed.

(** A computation that only touches the world, as [spec] says. *)
Definition onWorld {A} (m : M W A) (spec : W -> outcome (A * W)) : Prop :=
  forall st, m st = let! (a, w) := spec (world st) in Ret (a, setWorld st w).

Lemma onWorld_ret {A} (a : A) : onWorld (mret a) (fun w => Ret (a, w)).
Proof. intros st. unfold mret, M_ret. simpl. by rewrite setWorld_same. Qed.

Lemma onWorld_bind {A B} (m : M W A) (f : A -> M W B) s1 s2 :
  onWorld m s1 -> (forall a, onWorld (f a) (s2 a)) ->
  onWorld (m ≫= f) (fun w => let! (a, w) := s1 w in s2 a w).
Proof.
  intros Hm Hf st. unfold mbind, M_bind. rewrite Hm.
  destruct (s1 (world st)) as [[a w]| |]; cbn [obind]; [|done..]. rewrite (Hf a). cbn [world setWorld].
  destruct (s2 a w) as [[b w']| |]; done.
Qed.

Lemma ioCore_Write_run ent fields enc out : onWorld (ioCore_Write reflected enc out ent fields) (writeOne ent fields (enc, out)).
Proof.
  intros st. unfold ioCore_Write, writeOne, ioCore_Sync, sink_Write, sink_Sync, lift, inWorld, mbind, M_bind. cbn [fst snd].
  destruct (Core.EncodeEntry _ _ _ _) as [[line [e|]]| |]; cbn [obind]; [by rewrite setWorld_same| |done..].
  destruct (WriteSyncer.Write out line (world st)) as [[n [e|]] w]; cbn [obind]; [done|].
  destruct (_ <? _); [|done]. cbn. by destruct (WriteSyncer.Sync out w).
Qed.

Lemma appendErrors_run ent fields cs :
  Forall isOutput cs ->
  onWorld (appendErrors (fun c => Core.Write reflected 1 c ent fields) cs) (writeAll ent fields (omap outputOf cs) None).
Proof.
  unfold appendErrors. generalize (None : error) as acc. intros acc Hcs. revert acc.
  induction Hcs as [|c cs Hc _ IH]; intros acc; [apply onWorld_ret|].
  destruct c as [|enab enc out| | | | | |]; try done. cbn [forEach omap list_omap outputOf writeAll Core.Write].
  intros st. unfold mbind, M_bind. rewrite (ioCore_Write_run ent fields enc out st).
  destruct (writeOne ent fields (enc, out) (world st)) as [[e w]| |]; cbn [obind]; [|done..].
  apply (IH (multierr_Append acc e) (setWorld st w)).
Qed.

Lemma report_run out text (st : Store W) :
  report out text st = Ret (tt, setWorld st (WriteSyncer.Sync out (WriteSyncer.Write out text (world st)).2).2).
Proof.
  unfold report, sink_Write, sink_Sync, inWorld, mbind, M_bind.
  destruct (WriteSyncer.Write out text (world st)) as [[n e] w]. cbn. by destruct (WriteSyncer.Sync out w).
Qed.

Lemma OnWrite_run hook ce fields :
  onWorld (match hook with Some hook => OnWrite hook ce fields | None => mret Returns end)
    (fun w => Ret (endCall hook (entry ce) fields w)).
Proof.
  intros st. destruct hook as [[]|]; cbn; by rewrite ?setWorld_same.
Qed.

(** [CheckedEntry.Write] of an entry with outputs. *)
Lemma checked_Write_run ent out hook cs fields (st : Store W) :
  Forall isOutput cs ->
  (let ce := mkChecked ent out false hook cs [] in
   '(e, _) ← checked_Write reflected sprintEntry (Some ce) fields; mret e) st =
  let! (e, w) :=
    (let! (err, w) := writeAll ent fields (omap outputOf cs) None (world st) in
     Ret (endCall hook ent fields (reported out (Entry.Time ent) err w))) in
  Ret (e, setWorld st w).
Proof.
  intros Hcs. cbv zeta. unfold checked_Write, runBefore, mbind, M_bind.
  cbn [dirty setDirty before entry cores ErrorOutput after foldl]. rewrite (appendErrors_run ent fields cs Hcs st).
  destruct (writeAll _ _ _ _ _) as [[err w]| |]; cbn [obind]; [|done..].
  assert (match err, out with
    | Some e, Some o => report o (writeErrorText (setDirty (mkChecked ent out false hook cs [])) e)
    | _, _ => mret tt end (setWorld st w) = Ret (tt, setWorld st (reported out (Entry.Time ent) err w))) as Hr.
  { destruct err as [e|], out as [o|]; try done. by rewrite report_run. }
  unfold setDirty in *. cbn [entry ErrorOutput after cores before dirty] in *. rewrite Hr. cbn [obind].
  pose proof (OnWrite_run hook (mkChecked ent out true hook cs []) fields (setWorld st (reported out (Entry.Time ent) err w))) as Ho.
  rewrite Ho. cbn [world setWorld obind entry]. by destruct (endCall _ _ _ _).
Qed.

(** * Annotations *)

(** On the stack [stk] the logger annotates an entry at [lvl] with these. *)
Definition annotates (log : Logger W) (lvl : Level.Level) (stk : list Frame) (caller : Entry.EntryCaller)
    (stack : bytes) (st : Store W) : Prop :=
  forall now msg out hook cs w,
    annotate storage log (Entry.mkEntry lvl now (name log) msg Entry.noCaller [])
      (mkChecked (Entry.mkEntry lvl now (name log) msg Entry.noCaller []) out false hook cs []) stk (setWorld st w) =
    Ret (mkChecked (Entry.mkEntry lvl now (name log) msg caller stack) (errorOutput log) false hook cs [], setWorld st w).

(** The trace of the frames from [f] on, without the outermost. *)
Definition traceOf (f : Frame) (rest : list Frame) : bytes := joinLines (map frameText (f :: removelast rest)).

Lemma stackText_trace f rest : stackText f (negb (bool_decide (length rest = 0%nat))) rest = traceOf f rest.
Proof.
  unfold traceOf. destruct rest as [|r rest _] using rev_ind.
  - unfold stackText, frameText. simpl. by rewrite app_nil_r.
  - rewrite bool_decide_false by (rewrite length_app; simpl; lia). cbn [negb]. rewrite stackText_spec.
    by rewrite removelast_last.
Qed.

Definition siteCaller (log : Logger W) (f : Frame) : Entry.EntryCaller :=
  if addCaller log then callerOf f else Entry.noCaller.

Definition siteStack (log : Logger W) (lvl : Level.Level) (st : Store W) (f : Frame) (rest : list Frame) : bytes :=
  if on st (addStack log) lvl then traceOf f rest else [].

Lemma annotates_site (log : Logger W) lvl m wrappers f rest (st : Store W) :
  (1 <= storage)%nat -> callerSkip log = lenZ wrappers -> lenZ wrappers < 2 ^ 61 -> allocated st (addStack log) ->
  annotates log lvl (m :: wrappers ++ f :: rest) (siteCaller log f) (siteStack log lvl st f rest) st.
Proof.
  intros Hs Hk Hlt Ha now msg out hook cs w. unfold annotate, siteCaller, siteStack. cbv zeta.
  cbn [withErrorOutput entry Entry.Level].
  rewrite (run_bind _ _ _ _ _ (enabler_on (setWorld st w) (addStack log) lvl (allocated_more st (setWorld st w) _ (le_n _) Ha))).
  rewrite (on_atomics st (setWorld st w) eq_refl). destruct (negb (addCaller log) && negb (on st (addStack log) lvl)) eqn:En.
  { apply andb_true_iff in En as [Ec Es]. apply negb_true_iff in Ec, Es. by rewrite Ec, Es. }
  assert (int64 (callerSkip log + callerSkipOffset) = lenZ wrappers + 2) as ->.
  { rewrite Hk. apply wrapS_id; [lia|]. unfold inS, callerSkipOffset. unfold lenZ in *. lia. }
  destruct (Capture_from storage (frameOf (str "zap.(*Logger).check")) m wrappers f rest
    (if on st (addStack log) lvl then Full else First) Hs Hlt) as (s & Ec).
  unfold lift, mbind at 1, M_bind at 1. rewrite Ec. cbn [obind].
  assert (forall l, (Count (f :: l) =? 0) = false) as Hcnt.
  { intros l. apply Z.eqb_neq. unfold Count, lenZ. simpl. lia. }
  destruct (on st (addStack log) lvl); rewrite Hcnt; cbn [Next].
  - rewrite stackText_trace. by destruct (addCaller log).
  - by destruct (addCaller log).
Qed.

(** No annotations are asked for. *)
Lemma annotates_nothing (log : Logger W) lvl stk (st : Store W) :
  addCaller log = false -> allocated st (addStack log) -> on st (addStack log) lvl = false ->
  annotates log lvl stk Entry.noCaller [] st.
Proof.
  intros Hc Ha Hon now msg out hook cs w. unfold annotate. cbv zeta. cbn [withErrorOutput entry Entry.Level].
  rewrite (run_bind _ _ _ _ _ (enabler_on (setWorld st w) (addStack log) lvl (allocated_more st (setWorld st w) _ (le_n _) Ha))).
  by rewrite (on_atomics st (setWorld st w) eq_refl), Hon, Hc.
Qed.

(** * The call *)

Lemma setTerminal_run (log : Logger W) ent ce :
  setTerminal log ent ce =
  match terminal log (Entry.Level ent) with
  | Some hook => After ce ent hook
  | None => ce
  end.
Proof.
  unfold setTerminal, terminal. destruct (_ =? Level.PanicLevel); [done|]. destruct (_ =? Level.FatalLevel); [done|].
  by destruct (_ =? Level.DPanicLevel), (development log).
Qed.

Lemma skip_run leaf (log : Logger W) lvl (st : Store W) :
  wired leaf st (core log) ->
  (if lvl <? Level.DPanicLevel then b ← Enabled (core log) lvl; mret (negb b) else mret false : M W bool) st =
  Ret ((lvl <? Level.DPanicLevel) && negb (willing st lvl (core log)), st).
Proof.
  intros Hw. destruct (lvl <? Level.DPanicLevel); [|done]. by rewrite (run_bind _ _ _ _ _ (Enabled_wired leaf st lvl _ Hw)).
Qed.

(** What [check] gives to [logAt], when [Check] of the core collected [cs]: nothing, a
    checked entry for the hook only, or one with the cores that will write it. *)
Definition checkedEntry (log : Logger W) (cs : list (Core W)) (lvl : Level.Level) (now : Time) (msg : bytes)
    (caller : Entry.EntryCaller) (stack : bytes) : option (CheckedEntry W) :=
  match cs with
  | [] => match terminal log lvl with
          | Some hook => Some (mkChecked (Entry.mkEntry lvl now (name log) msg Entry.noCaller []) None false
                                 (Some hook) [] [])
          | None => None
          end
  | _ => Some (mkChecked (Entry.mkEntry lvl now (name log) msg caller stack) (errorOutput log) false
                 (terminal log lvl) cs [])
  end.

Lemma check_run (log : Logger W) lvl msg stk caller stack (skip : bool) cs (st st' : Store W) :
  (if lvl <? Level.DPanicLevel then b ← Enabled (core log) lvl; mret (negb b) else mret false : M W bool) st =
    Ret (skip, st) ->
  (let ent := Entry.mkEntry lvl (clock log (world st)).1 (name log) msg Entry.noCaller [] in
   Core.Check reflected 1 (core log) ent None (setWorld st (clock log (world st)).2) = Ret (addCores ent None cs, st')) ->
  annotates log lvl stk caller stack st' ->
  check reflected storage log lvl msg stk st =
  if skip then Ret (None, st) else Ret (checkedEntry log cs lvl (clock log (world st)).1 msg caller stack, st').
Proof.
  intros Hskip Hc Ha. unfold check. rewrite (run_bind _ _ _ _ _ Hskip). destruct skip; [done|].
  rewrite (run_bind _ _ _ _ _ (inWorld_run _ st)). destruct (clock log (world st)) as [now w]. cbn [fst snd] in *. cbv zeta in *.
  set (ent := Entry.mkEntry lvl now (name log) msg Entry.noCaller []) in *.
  rewrite cores_addCores in Hc. rewrite (run_bind _ _ _ _ _ Hc), setTerminal_run. cbn [ent Entry.Level]. fold ent.
  unfold checkedEntry. destruct cs as [|c cs]; [by destruct (terminal log lvl)|].
  assert (forall out hook cs, annotate storage log ent (mkChecked ent out false hook cs []) stk st' =
    Ret (mkChecked (Entry.mkEntry lvl now (name log) msg caller stack) (errorOutput log) false hook cs [], st')) as Ha'.
  { intros out hook cs'. pose proof (Ha now msg out hook cs' (world st')) as H. by rewrite setWorld_same in H. }
  destruct (terminal log lvl) as [hook|]; cbn [After orNew]; by rewrite (run_bind _ _ _ _ _ (Ha' _ _ _)).
Qed.

Lemma logAt_checked (log : Logger W) lvl msg fields stk caller stack (skip : bool) cs (st st' : Store W) :
  (if lvl <? Level.DPanicLevel then b ← Enabled (core log) lvl; mret (negb b) else mret false : M W bool) st =
    Ret (skip, st) ->
  (let ent := Entry.mkEntry lvl (clock log (world st)).1 (name log) msg Entry.noCaller [] in
   Core.Check reflected 1 (core log) ent None (setWorld st (clock log (world st)).2) = Ret (addCores ent None cs, st')) ->
  annotates log lvl stk caller stack st' -> Forall isOutput cs ->
  logAt reflected sprintEntry storage log lvl msg fields stk st =
  if skip then Ret (Returns, st)
  else
    let! (e, w) := afterCheck log (omap outputOf cs) lvl (clock log (world st)).1 msg fields caller stack (world st') in
    Ret (e, setWorld st' w).
Proof.
  intros Hskip Hc Ha Hl. unfold logAt.
  pose proof (check_run log lvl msg stk caller stack skip cs st st' Hskip Hc Ha) as H. destruct skip.
  { by rewrite (run_bind _ _ _ _ _ H). }
  rewrite (run_bind _ _ _ _ _ H). unfold checkedEntry. destruct cs as [|c cs].
  - cbn [omap list_omap afterCheck]. destruct (terminal log lvl) as [hook|]; [|cbn; by rewrite setWorld_same].
    by rewrite (checked_Write_run _ None (Some hook) [] fields st' (Forall_nil_2 _)).
  - rewrite (checked_Write_run _ _ _ (c :: cs) fields st' Hl).
    apply Forall_cons in Hl as [Hc1 _]. by destruct c.
Qed.

Lemma logAt_run (log : Logger W) lvl msg fields stk caller stack (st : Store W) :
  wired isOutput st (core log) -> annotates log lvl stk caller stack st ->
  logAt reflected sprintEntry storage log lvl msg fields stk st =
  let! (e, w) := callSpec log lvl msg fields caller stack st in Ret (e, setWorld st w).
Proof.
  intros Hw Ha.
  rewrite (logAt_checked log lvl msg fields stk caller stack _ (outlets st lvl (core log)) st
    (setWorld st (clock log (world st)).2) (skip_run isOutput log lvl st Hw)).
  - unfold callSpec, outputs. destruct (_ && _); [by cbn; rewrite setWorld_same|]. by destruct (clock log (world st)).
  - cbv zeta. rewrite (Check_wired reflected isOutput) by by apply (wired_more _ st).
    by rewrite (outlets_atomics st (setWorld st (clock log (world st)).2) eq_refl).
  - intros now msg' out hook cs w. rewrite setWorld_twice. apply Ha.
  - by eapply outlets_leaf.
Qed.

(** C6: what a logging call does.  On a logger with any options, over any tree of tees and
    level filters with outputs at its leaves, the code of a call, from the level check to
    the hook at its end, does exactly what [callSpec] says: below DPanic nothing at all
    when the core is not enabled; otherwise the clock is read once, every output that the
    level reaches gets the line its encoder makes of the entry, annotated with the call
    site, in the order of the tees, and is flushed above the error level; an output that
    fails does not keep the entry from the others; all errors together are reported once,
    to the error output; and the call ends as its level and hooks say, whatever failed.
    Only an encoder, so a marshaler, can panic. *)
Theorem log_call_effect (log : Logger W) lvl msg fields wrappers f rest (st : Store W) :
  (1 <= storage)%nat -> callerSkip log = lenZ wrappers -> lenZ wrappers < 2 ^ 61 ->
  wired isOutput st (core log) -> allocated st (addStack log) ->
  Log reflected sprintEntry storage log lvl msg fields (wrappers ++ f :: rest) st =
  let! (e, w) := callSpec log lvl msg fields (siteCaller log f) (siteStack log lvl st f rest) st in
  Ret (e, setWorld st w).
Proof. intros Hs Hk Hlt Hw Ha. apply logAt_run; [done|]. by apply annotates_site. Qed.
End call.

(** * Two outputs, one of them broken *)

Section demo.
#[local] Existing Instances Level.asciiStd flat_multierr.

(** What was written, and where. *)
Definition console : @WriteSyncer.WriteSyncer (list (bytes * bytes)) :=
  WriteSyncer.foreignSyncer (fun p w => ((lenZ p, None), w ++ [(str "console", p)])) (fun w => (None, w)).
Definition journal : @WriteSyncer.WriteSyncer (list (bytes * bytes)) :=
  WriteSyncer.foreignSyncer (fun p w => ((lenZ p, None), w ++ [(str "errors", p)])) (fun w => (None, w)).
Definition broken : @WriteSyncer.WriteSyncer (list (bytes * bytes)) :=
  WriteSyncer.foreignSyncer (fun p w => ((0, Some (New_error (str "disk full"))), w)) (fun w => (None, w)).

Definition demoEncoder : Encoder := jsonEncoder (JsonEncoder.NewJSONEncoder noReflection exampleConfig).

Definition demoCore : Core (list (bytes * bytes)) :=
  multiCore [ioCore (enablerLevel Level.InfoLevel) demoEncoder broken;
             levelFilterCore (ioCore (enablerLevel Level.DebugLevel) demoEncoder console) (enablerLevel Level.WarnLevel)].

Definition demoLogger : Logger (list (bytes * bytes)) :=
  mkLogger demoCore false true None None (str "main") (Some journal) (enablerLevel Level.ErrorLevel) 0
    (fun w => (mkTime 5 UTC, w)).

Definition quiet : Store (list (bytes * bytes)) := mkStore [] [] [] [] [].

Definition q (s : bytes) : bytes := [x22] ++ s ++ [x22].

Definition pair (k v : bytes) : bytes := q k ++ str ":" ++ q v.

Lemma log_call_effect_witness :
  Log noReflection (fun _ => []) 64 demoLogger Level.WarnLevel (str "hot") [Field.String (str "k") (str "v")] [site] quiet =
  Ret (Returns, mkStore
    [(str "console", [x7b] ++ pair (str "level") (str "warn") ++ str "," ++ pair (str "logger") (str "main") ++ str "," ++
        pair (str "msg") (str "hot") ++ str "," ++ pair (str "k") (str "v") ++ [x7d; x0a]);
     (str "errors", str "5 write error: disk full" ++ [x0a])] [] [] [] []).
Proof.
  rewrite (log_call_effect noReflection (fun _ => []) 64 demoLogger Level.WarnLevel (str "hot")
    [Field.String (str "k") (str "v")] [] site [] quiet); [vm_compute; reflexivity|lia|reflexivity|reflexivity|by repeat split|exact I].
Defined.
End demo.
End LogCall.
