(* ===== verification/LogFile.v ===== *)
(** What a log file contains: loggers with JSON encoders, over one buffered syncer.

    This composes the logger (logger.go), the output core (zapcore/core.go), the JSON
    encoder (zapcore/json_encoder.go) and the buffered syncer
    (zapcore/buffered_write_syncer.go).  The world of the loggers is the system of
    BufferedWriteSyncer.v, in which a call of [Write] or [Sync] is one critical section,
    and the flush loop, the ticker, further [Sync]s and [Stop]s run between them. *)

From Stdlib Require Import ZArith Lia.
From S2P Require Import Prelude GoStd Level AtomicLevel WriteSyncer Bufio BufferedWriteSyncer ZTest Encode Field Entry EncoderConfig JsonEncoder JsonTree JsonRefinement JsonLines Core CoreSpec CoreDelivery Stacktrace Logger LoggerSpec LogCall.
From stdpp Require Import base list relations.

Local Open Scope Z_scope.
Local Open Scope zap_scope.

Module LogFile.
Import Encode Core CoreSpec CoreDelivery Stacktrace LogCall.

Section file.
Context {W : Type} {std : GoStd} {ME : Multierr} {MS : MultierrSpec ME} (WS : @WriteSyncer.WriteSyncer W).
Context (Hok : Bufio.NeverFails (WriteSyncer.Write WS)).
Context (d : EncoderConfig.ReflectedEncoder) (cfg : EncoderConfig.EncoderConfig) (sp : bool).
Context (sprintEntry : Entry.Entry -> bytes) (storage : nat).

Abbreviation System := (BufferedWriteSyncer.System W).

Let root : JsonEncoder.jsonEncoder := JsonEncoder.newJSONEncoder d cfg sp.

Let HWS := Bufio.NeverFails_contract _ Hok.

(** * The buffered syncer as the output of loggers *)

Definition fileWrite : @WriteSyncer.WriteFn System := fun p σ =>
  match BufferedWriteSyncer.Write (BufferedWriteSyncer.spy WS) (BufferedWriteSyncer.bws σ) p
          (BufferedWriteSyncer.world σ, BufferedWriteSyncer.trace σ) with
  | Ret ((n, e), s, (w, tr)) =>
      ((n, e), BufferedWriteSyncer.mkSystem s w tr (BufferedWriteSyncer.writes σ ++ [(p, n)]) (BufferedWriteSyncer.stops σ))
  | _ => ((0, None), σ)
  end.

Definition fileSync : @WriteSyncer.SyncFn System := fun σ =>
  let '(e, s, (w, tr)) := BufferedWriteSyncer.Sync (BufferedWriteSyncer.spy WS) (BufferedWriteSyncer.bws σ)
                            (BufferedWriteSyncer.world σ, BufferedWriteSyncer.trace σ) in
  (e, BufferedWriteSyncer.mkSystem s w tr (BufferedWriteSyncer.writes σ) (BufferedWriteSyncer.stops σ)).

Definition logFile : @WriteSyncer.WriteSyncer System := WriteSyncer.foreignSyncer fileWrite fileSync.

(** The syncer runs or can be initialized: its clock gives a ticker. *)
Definition ready (s : BufferedWriteSyncer.BufferedWriteSyncer) : Prop :=
  exists s0 l, BufferedWriteSyncer.ensureLive s = Ret (s0, l).

Definition lives (σ : System) : Prop :=
  BufferedWriteSyncer.reachable WS σ /\ ready (BufferedWriteSyncer.bws σ).

Lemma ready_live s l : BufferedWriteSyncer.live s = Some l -> ready s.
Proof. intros H. exists s, l. unfold BufferedWriteSyncer.ensureLive. by rewrite H. Qed.

Lemma sync_ready s w tr e s' w' tr' :
  BufferedWriteSyncer.Sync (BufferedWriteSyncer.spy WS) s (w, tr) = (e, s', (w', tr')) -> ready s -> ready s'.
Proof.
  intros HS Hr. pose proof (BufferedWriteSyncer.Sync_effect WS HWS s w tr) as H.
  destruct (BufferedWriteSyncer.live s) as [l|].
  - destruct H as (e1 & e2 & b' & w1 & cs & E & _). rewrite HS in E. injection E as _ -> _ _. by eapply ready_live.
  - destruct H as (e2 & w1 & E). rewrite HS in E. by injection E as _ -> _ _.
Qed.

Lemma stop_ready s b s' : BufferedWriteSyncer.stopCritical s = Ret (b, s') -> ready s -> ready s'.
Proof.
  unfold BufferedWriteSyncer.stopCritical. destruct (BufferedWriteSyncer.live s) as [l|]; [|by intros [= _ <-]].
  destruct (BufferedWriteSyncer.stopped s); [by intros [= _ <-]|]. destruct (BufferedWriteSyncer.stop l); [done|].
  intros [= _ <-] _. by eapply ready_live.
Qed.
Lemma write_live s bs w tr r s' wtr :
  BufferedWriteSyncer.Write (BufferedWriteSyncer.spy WS) s bs (w, tr) = Ret (r, s', wtr) ->
  exists l, BufferedWriteSyncer.live s' = Some l.
Proof.
  intros ([s0 l] & _ & H)%obind_Ret_inv.
  assert (forall b w, (let! (r, b', w') := Bufio.Write (WriteSyncer.Write (BufferedWriteSyncer.spy WS)) b bs w in
    Ret (r, BufferedWriteSyncer.setLive s0 (BufferedWriteSyncer.setWriter l b'), w')) = Ret (r, s', wtr) ->
    exists l, BufferedWriteSyncer.live s' = Some l) as Hw.
  { intros b w0 ([[r' b'] w'] & _ & [= _ <- _])%obind_Ret_inv. by eexists. }
  cbv beta iota zeta in H. destruct (_ && _); [|exact (Hw _ _ H)].
  destruct (Bufio.Flush _ _ _) as [[[e|] b] w1]; [|exact (Hw _ _ H)]. injection H as _ <- _. by eexists.
Qed.

Lemma ready_step σ σ' :
  BufferedWriteSyncer.step WS σ σ' -> ready (BufferedWriteSyncer.bws σ) -> ready (BufferedWriteSyncer.bws σ').
Proof.
  destruct 1; cbn [BufferedWriteSyncer.bws BufferedWriteSyncer.withLive];
    try (by intros; eapply ready_live); try (by eapply sync_ready); try (by eapply stop_ready); try done.
  intros _. match goal with H : BufferedWriteSyncer.Write _ _ _ _ = _ |- _ => apply write_live in H as [l Hl] end.
  by eapply ready_live.
Qed.

Lemma lives_step σ σ' : lives σ -> BufferedWriteSyncer.step WS σ σ' -> lives σ'.
Proof.
  intros [(size & int & clock & w & Hr) Hl] Hs. split; [|by eapply ready_step].
  exists size, int, clock, w. by eapply rtc_r.
Qed.

(** A writer that is well and over a file that takes everything takes everything. *)
Lemma write_effect_ok b bs cs n e b' :
  Bufio.werr b = None -> BufferedWriteSyncer.write_effect WS b bs cs n e b' -> e = None.
Proof.
  intros He [e0 He'|He' Hfit|n0 e0 He' Hempty Hlt Hal|cs0 e0 b0 Hne Hav Hf|cs0 b0 Hne Hav Hf|cs0 b0 n0 e0 Hne Hlt Hf Hal];
    try congruence; try (by apply Bufio.allowed_NeverFails in Hal).
  inversion Hf as [| | |? ? ? ? Hal]; subst; [congruence|]. by apply Bufio.allowed_NeverFails in Hal.
Qed.

(** A write to the file is a step of the system, and does not fail. *)
Lemma fileWrite_step p σ :
  lives σ -> exists n σ', fileWrite p σ = ((n, None), σ') /\ BufferedWriteSyncer.step WS σ σ' /\
    BufferedWriteSyncer.writes σ' = BufferedWriteSyncer.writes σ ++ [(p, n)].
Proof.
  intros [Hr (s0 & l & Hl)]. pose proof (BufferedWriteSyncer.reachable_inv WS HWS σ Hr) as Hinv.
  pose proof (BufferedWriteSyncer.reachable_whole WS Hok σ Hr) as [Hh _].
  destruct σ as [s w tr ws ss]. cbn [BufferedWriteSyncer.bws BufferedWriteSyncer.writes] in *.
  destruct (BufferedWriteSyncer.ensureLive_inv _ _ _ _ _ _ _ Hinv Hl) as [Hlive Hinv0].
  unfold BufferedWriteSyncer.inv in Hinv0. cbn in Hinv0. rewrite Hlive in Hinv0. destruct Hinv0 as (Hwf & _).
  assert (Bufio.werr (BufferedWriteSyncer.writer l) = None) as He.
  { unfold BufferedWriteSyncer.ensureLive in Hl. destruct (BufferedWriteSyncer.live s) as [l0|] eqn:E.
    - injection Hl as _ <-. by apply Hh.
    - apply obind_Ret_inv in Hl as (s1 & Hs1 & Hret). apply obind_Ret_inv in Hs1 as (t & _ & [= <-]).
      simpl in Hret. by injection Hret as _ <-. }
  destruct (BufferedWriteSyncer.Write_effect WS HWS s s0 l p w tr Hl Hwf) as (n & e & b' & w1 & cs & HW & Heff).
  apply write_effect_ok in Heff; [subst e|done].
  unfold fileWrite. cbn [BufferedWriteSyncer.bws BufferedWriteSyncer.world BufferedWriteSyncer.trace]. rewrite HW.
  do 2 eexists. split; [reflexivity|]. split; [by eapply BufferedWriteSyncer.step_write|done].
Qed.

Lemma fileSync_step σ :
  BufferedWriteSyncer.step WS σ (fileSync σ).2 /\ BufferedWriteSyncer.writes (fileSync σ).2 = BufferedWriteSyncer.writes σ.
Proof.
  destruct σ as [s w tr ws ss]. unfold fileSync. cbn [BufferedWriteSyncer.bws BufferedWriteSyncer.world BufferedWriteSyncer.trace].
  destruct (BufferedWriteSyncer.Sync _ _ _) as [[e s'] [w' tr']] eqn:E. split; [|done]. by eapply BufferedWriteSyncer.step_sync.
Qed.

(** * Loggers to the file *)

(** The syncer itself, or the syncer behind [Lock]. *)
Definition toFile (out : @WriteSyncer.WriteSyncer System) : Prop :=
  (forall p σ, WriteSyncer.Write out p σ = fileWrite p σ) /\ forall σ, WriteSyncer.Sync out σ = fileSync σ.

Lemma toFile_file : toFile logFile.
Proof. done. Qed.

Lemma toFile_Lock : toFile (WriteSyncer.Lock logFile).
Proof.
  split; intros; cbn.
  - unfold WriteSyncer.locked_Write. by destruct (fileWrite p σ) as [[n e] σ'].
  - unfold WriteSyncer.locked_Sync. by destruct (fileSync σ).
Qed.

(** A hook that does not touch the file. *)
Definition aloof (hook : option (CheckWriteHook System)) : Prop :=
  match hook with
  | Some (customHook f) => forall ent fields σ, (f ent fields σ).2 = σ
  | _ => True
  end.

(** A logger to the file: its encoder is the root encoder with fields that [With] added;
    hooks and clock leave the file alone. *)
Record logsTo (st : Store System) (log : Logger.Logger System) (enab : enabler) (enc : JsonEncoder.jsonEncoder)
    (out : @WriteSyncer.WriteSyncer System) : Prop := {
  lt_core : Logger.core log = ioCore enab (jsonEncoder enc) out;
  lt_out : toFile out;
  lt_enc : JsonLines.derived d cfg sp enc;
  lt_enab : allocated st enab;
  lt_stack : allocated st (Logger.addStack log);
  lt_clock : forall σ, (Logger.clock log σ).2 = σ;
  lt_panic : aloof (Logger.onPanic log);
  lt_fatal : aloof (Logger.onFatal log)
}.

(** [With] gives a logger to the same file. *)
Lemma With_logsTo st log enab enc out fields log' st' :
  logsTo st log enab enc out -> Logger.With d log fields st = Ret (log', st') ->
  st' = st /\ exists enc', logsTo st log' enab enc' out.
Proof.
  intros [Hc Hout Henc He Hs Hk Hp Hf] H. unfold Logger.With in H. destruct (decide _).
  { injection H as <- <-. split; [done|]. exists enc. by constructor. }
  unfold Logger.clone in H. rewrite Hc in H. cbn [Core.With] in H.
  unfold ioCore_With, ioCore_clone, lift, mbind, M_bind in H. cbn [Core.Clone Core.addFields obind] in H.
  destruct (@runObj _ _ (JsonEncoder.jsonEncoders d) (Field.addFields fields) (JsonEncoder.Clone enc))
    as [[e' enc']| |] eqn:Er; cbn in H; [|done..].
  injection H as <- <-. split; [done|]. exists enc'. constructor; try done. by eapply JsonLines.derived_with.
Qed.

Lemma json_no_error enc ent fields line e : JsonEncoder.EncodeEntry d enc ent fields = Ret (line, e) -> e = None.
Proof. intros H. apply obind_Ret_inv in H as (final & _ & H). by apply obind_Ret_inv in H as ([r f] & _ & [= _ <-]). Qed.

(** The line of a call, if its level is enabled. *)
Definition lineOf (log : Logger.Logger System) (lvl : Level.Level) (msg : bytes) (fields : list Field)
    (f : Frame) (rest : list Frame) (st : Store System) : list bytes :=
  match Logger.core log with
  | ioCore enab (jsonEncoder enc) _ =>
      if on st enab lvl then
        match JsonEncoder.EncodeEntry d enc
                (Entry.mkEntry lvl (Logger.clock log (world st)).1 (Logger.name log) msg
                   (siteCaller log f) (siteStack log lvl st f rest)) fields with
        | Ret (line, _) => [line]
        | _ => []
        end
      else []
  | _ => []
  end.

(** The state of the file after [ls] more lines. *)
Definition gained (σ : System) (ls : list bytes) (σ' : System) : Prop :=
  lives σ' /\ map fst (BufferedWriteSyncer.writes σ') = map fst (BufferedWriteSyncer.writes σ) ++ ls.

Lemma endCall_aloof hook ent fields w : aloof hook -> exists e, endCall hook ent fields w = (e, w).
Proof.
  destruct hook as [[| | | |f]|]; intros H; try (eexists; reflexivity). cbn. specialize (H ent fields w).
  destruct (f ent fields w) as [e w']. cbn in H. subst. by eexists.
Qed.

Lemma endCall_standard (log : Logger.Logger System) lvl ent fields w :
  aloof (Logger.onPanic log) -> aloof (Logger.onFatal log) ->
  exists e, endCall (LoggerSpec.terminal log lvl) ent fields w = (e, w).
Proof.
  intros Hp Hf. apply endCall_aloof. unfold LoggerSpec.terminal, Logger.terminalHookOverride.
  repeat case_match; simplify_eq; done.
Qed.

(** A call adds its line. *)
Lemma call_gains log enab enc out lvl msg fields wrappers f rest (st : Store System) e st' :
  (1 <= storage)%nat -> logsTo st log enab enc out -> Logger.callerSkip log = lenZ wrappers -> lenZ wrappers < 2 ^ 61 ->
  lives (world st) ->
  Logger.Log d sprintEntry storage log lvl msg fields (wrappers ++ f :: rest) st = Ret (e, st') ->
  exists σ', st' = setWorld st σ' /\ gained (world st) (lineOf log lvl msg fields f rest st) σ'.
Proof.
  intros Hs [Hc Hout Henc He Hst Hk Hp Hf] Hskip Hlt Hl H.
  assert (wired isOutput st (Logger.core log)) as Hw by (rewrite Hc; by split).
  unfold Logger.Log in H. rewrite (logAt_run d sprintEntry storage log lvl msg fields _ _ _ st Hw
    (annotates_site storage log lvl _ wrappers f rest st Hs Hskip Hlt Hst)) in H.
  apply obind_Ret_inv in H as ([e' w'] & Hspec & [= <- <-]). exists w'. split; [done|].
  unfold callSpec, afterCheck, lineOf, outputs in *. rewrite Hc in *. cbn [willing outlets] in *.
  pose proof (Hk (world st)) as Hclock. destruct (Logger.clock log (world st)) as [now w]. cbn [snd] in Hclock. subst w.
  destruct (on st enab lvl).
  - rewrite andb_false_r in Hspec. cbn [omap list_omap outputOf] in Hspec.
    set (ent := Entry.mkEntry _ _ _ _ _ _) in *.
    apply obind_Ret_inv in Hspec as ([err w] & Hwr & Hend). cbn [writeAll] in Hwr.
    apply obind_Ret_inv in Hwr as ([e1 w1] & Hone & [= <- <-]). unfold writeOne in Hone. cbn [fst snd Core.EncodeEntry] in Hone.
    cbn [fst]. fold ent. destruct (JsonEncoder.EncodeEntry d enc ent fields) as [[line e2]| |] eqn:Ee; [|done..].
    apply json_no_error in Ee. subst e2. cbn [obind] in Hone. rewrite (proj1 Hout) in Hone.
    destruct (fileWrite_step line (world st) Hl) as (n & σ1 & Ew & Hstep & Hws). rewrite Ew in Hone.
    set (σ2 := if Level.ErrorLevel <? Entry.Level ent then (fileSync σ1).2 else σ1).
    assert (lives σ2 /\ BufferedWriteSyncer.writes σ2 = BufferedWriteSyncer.writes σ1) as [Hl2 Hw2].
    { pose proof (lives_step _ _ Hl Hstep) as Hl1. destruct (fileSync_step σ1) as [Hs2 Hw2]. unfold σ2.
      destruct (_ <? _); [split; [by eapply lives_step|done]|done]. }
    rewrite (proj2 Hout) in Hone. change (Ret (None, σ2) = Ret (e1, w1)) in Hone. injection Hone as <- <-.
    rewrite Append_nil_l in Hend. cbn [reported] in Hend.
    destruct (endCall_standard log lvl ent fields σ2 Hp Hf) as [e3 He3]. rewrite He3 in Hend.
    injection Hend as _ <-. split; [done|]. rewrite Hw2, Hws, map_app. done.
  - assert (w' = world st) as ->.
    { destruct (_ && _); [by injection Hspec|]. cbn [omap list_omap] in Hspec.
      match type of Hspec with context [endCall _ ?ent _ _] => destruct (endCall_standard log lvl ent fields (world st) Hp Hf) as [e3 He3] end.
      rewrite He3 in Hspec. by injection Hspec. }
    split; [done|]. by rewrite app_nil_r.
Qed.

(** * Histories *)

(** What happens to the file, and the lines that loggers have logged: a syncer is made;
    loggers log, one call after the other; the flush loop runs, and clients sync and stop
    the syncer; atomic levels change. *)
Inductive history : list bytes -> Store System -> Prop :=
| history_start size interval clock w st :
    world st = BufferedWriteSyncer.initial size interval clock w ->
    ready (BufferedWriteSyncer.fresh size interval clock) -> history [] st
| history_log lines st log enab enc out lvl msg fields wrappers f rest e st' :
    history lines st -> logsTo st log enab enc out ->
    Logger.callerSkip log = lenZ wrappers -> lenZ wrappers < 2 ^ 61 ->
    Logger.Log d sprintEntry storage log lvl msg fields (wrappers ++ f :: rest) st = Ret (e, st') ->
    history (lines ++ lineOf log lvl msg fields f rest st) st'
| history_background lines st σ' :
    history lines st -> BufferedWriteSyncer.step WS (world st) σ' ->
    BufferedWriteSyncer.writes σ' = BufferedWriteSyncer.writes (world st) -> history lines (setWorld st σ')
| history_level lines st levels :
    history lines st -> history lines (setAtomics st levels).

Lemma lineOf_encoded log enab enc out lvl msg fields f rest st :
  logsTo st log enab enc out -> Forall (JsonLines.encoded d cfg sp) (lineOf log lvl msg fields f rest st).
Proof.
  intros H. unfold lineOf. rewrite (lt_core _ _ _ _ _ H). destruct (on st enab lvl); [|constructor].
  destruct (JsonEncoder.EncodeEntry _ _ _ _) as [[line e]| |] eqn:E; [|constructor..].
  apply Forall_singleton. pose proof (json_no_error _ _ _ _ _ E) as ->. do 3 eexists. split; [apply (lt_enc _ _ _ _ _ H)|exact E].
Qed.

Lemma history_gained lines st :
  (1 <= storage)%nat -> history lines st ->
  lives (world st) /\ map fst (BufferedWriteSyncer.writes (world st)) = lines /\ Forall (JsonLines.encoded d cfg sp) lines.
Proof.
  intros Hs. induction 1 as [size int clock w st Hw Hr|lines st log enab enc out lvl msg fields wrappers f rest e st' _
    (Hl & Hm & He) Hlog Hskip Hlt Hcall|lines st σ' _ (Hl & Hm & He) Hstep Hws|lines st levels _ IH].
  - rewrite Hw. split; [|done]. split; [|done]. exists size, int, clock, w. apply rtc_refl.
  - destruct (call_gains _ _ _ _ _ _ _ _ _ _ _ _ _ Hs Hlog Hskip Hlt Hl Hcall) as (σ' & -> & Hl' & Hm').
    split; [done|]. split; [by rewrite <- Hm|]. apply Forall_app. split; [done|]. by eapply lineOf_encoded.
  - split; [by eapply lives_step|]. cbn [world setWorld]. by rewrite Hws.
  - exact IH.
Qed.

(** What is in the file, and what waits in the buffer. *)
Definition fileOf (σ : System) : bytes := concat (map Bufio.arg (BufferedWriteSyncer.trace σ)).
Definition bufferOf (σ : System) : bytes := BufferedWriteSyncer.buffered (BufferedWriteSyncer.bws σ).

Lemma fileSync_empties σ σ' : lives σ -> fileSync σ = (None, σ') -> bufferOf σ' = [].
Proof.
  intros [Hr _] HS. pose proof (BufferedWriteSyncer.reachable_inv WS HWS σ Hr) as Hinv. destruct σ as [s w tr ws ss].
  pose proof (BufferedWriteSyncer.Sync_effect WS HWS s w tr) as H. unfold BufferedWriteSyncer.inv in Hinv.
  unfold fileSync in HS. cbn [BufferedWriteSyncer.bws BufferedWriteSyncer.world BufferedWriteSyncer.trace] in *.
  unfold bufferOf, BufferedWriteSyncer.buffered. destruct (BufferedWriteSyncer.live s) as [l|] eqn:El.
  - destruct H as (e1 & e2 & b' & w1 & cs & E & Hf). rewrite E in HS. injection HS as He <-.
    apply Append_None in He as [-> _]. destruct Hinv as (Hwf & _).
    destruct (Bufio.flush_effect_spec _ _ _ _ _ Hf Hwf) as (_ & _ & _ & _ & Hempty). by apply Hempty.
  - destruct H as (e2 & w1 & E). rewrite E in HS. injection HS as _ <-. cbn. by rewrite El.
Qed.

(** Whole lines in the file and in the buffer. *)
Definition holdsLines (lines : list bytes) (σ : System) : Prop :=
  exists delivered waiting,
    lines = map JsonLines.terminated (delivered ++ waiting) /\ Forall JsonTree.valid (delivered ++ waiting) /\
    fileOf σ = concat (map JsonLines.terminated delivered) /\
    ZTest.Lines (fileOf σ) = delivered /\ ZTest.Lines (bufferOf σ) = waiting.

(** The lines that were written are there, and after a [Sync] that returns nil all of them
    are in the file. *)
Lemma lives_holds lines σ :
  JsonRefinement.Documented d (JsonEncoder.config root) -> EncoderConfig.LineEnding (JsonEncoder.config root) = [x0a] ->
  lives σ -> map fst (BufferedWriteSyncer.writes σ) = lines -> Forall (JsonLines.encoded d cfg sp) lines ->
  holdsLines lines σ /\
  forall σ', fileSync σ = (None, σ') -> fileOf σ' = concat lines /\ bufferOf σ' = [].
Proof.
  intros doc Hend Hl Hm He. assert (forall σ, lives σ -> map fst (BufferedWriteSyncer.writes σ) = lines -> holdsLines lines σ) as Hholds.
  { intros σ0 [Hr _] Hw. rewrite <- Hw in He |- *. exact (JsonLines.json_log_whole_lines WS Hok d cfg sp σ0 doc Hend Hr He). }
  split; [by apply Hholds|]. intros σ' Ef. pose proof (fileSync_empties _ _ Hl Ef) as Hb.
  destruct (fileSync_step σ) as [Hstep Hws]. rewrite Ef in Hstep, Hws. cbn [snd] in *.
  destruct (Hholds σ' ltac:(by eapply lives_step) ltac:(by rewrite Hws)) as (delivered & waiting & -> & _ & Hf & _ & Hw).
  rewrite Hb in Hw. simpl in Hw. subst waiting. by rewrite app_nil_r, Hf.
Qed.

(** The log file is the log.  Loggers with JSON encoders, derived from one another by
    [With] and with any options, log to one buffered syncer, directly or behind [Lock],
    while it flushes in the background, is synced and stopped, and while levels change; the
    file behind it takes what it is given.  At every moment the file is made of the lines
    of the first calls that were enabled, in the order of the calls, each once and whole,
    and each a valid JSON object; the lines of the other enabled calls are in the buffer;
    and a [Sync] of any of the loggers that returns nil leaves all lines in the file. *)
Theorem log_file_is_the_log lines st :
  (1 <= storage)%nat ->
  JsonRefinement.Documented d (JsonEncoder.config root) -> EncoderConfig.LineEnding (JsonEncoder.config root) = [x0a] ->
  history lines st ->
  (exists delivered waiting,
     lines = map JsonLines.terminated (delivered ++ waiting) /\ Forall JsonTree.valid (delivered ++ waiting) /\
     fileOf (world st) = concat (map JsonLines.terminated delivered) /\
     ZTest.Lines (fileOf (world st)) = delivered /\ ZTest.Lines (bufferOf (world st)) = waiting) /\
  forall log enab enc out st',
    logsTo st log enab enc out -> Logger.Sync d log st = Ret (None, st') ->
    fileOf (world st') = concat lines /\ bufferOf (world st') = [].
Proof.
  intros Hs doc Hend Hh. destruct (history_gained lines st Hs Hh) as (Hl & Hm & He).
  destruct (lives_holds lines (world st) doc Hend Hl Hm He) as [Hholds Hsync].
  split; [exact Hholds|]. intros log enab enc out st' Hlog HS.
  unfold Logger.Sync in HS. rewrite (lt_core _ _ _ _ _ Hlog) in HS. cbn [Core.Sync] in HS.
  unfold ioCore_Sync, sink_Sync, inWorld in HS. rewrite (proj2 (lt_out _ _ _ _ _ Hlog)) in HS.
  destruct (fileSync (world st)) as [e σ'] eqn:Ef. injection HS as -> <-. by apply Hsync.
Qed.
End file.

(** * A log *)

Section demo.
#[local] Existing Instances Level.asciiStd flat_multierr flat_multierr_spec.
Import JsonRefinement BufferedWriteSyncer LoggerSpec.

Definition demoOut : @WriteSyncer.WriteSyncer (System bytes) := WriteSyncer.Lock (logFile memSyncer).

(** At the info level, with a clock that stands still. *)
Definition demoLogger : Logger.Logger (System bytes) :=
  Logger.mkLogger (ioCore (enablerLevel Level.InfoLevel) (jsonEncoder (JsonEncoder.newJSONEncoder demoReflected demoConfig false))
      demoOut) false true None None (str "main") None (enablerLevel Level.FatalLevel) 0 (fun σ => (mkTime 5 UTC, σ)).

Definition demoStart : Store (System bytes) := mkStore (initial 128 0 None []) [] [] [] [].

Definition demoCall (lvl : Level.Level) (msg : bytes) (st : Store (System bytes)) : outcome (ending * Store (System bytes)) :=
  Logger.Log demoReflected (fun _ => []) 64 demoLogger lvl msg [] [site] st.

Definition after (r : outcome (ending * Store (System bytes))) : Store (System bytes) :=
  match r with Ret (_, st) => st | _ => demoStart end.

(** A line, a call that is not enabled, and a line. *)
Definition demo1 : Store (System bytes) := after (demoCall Level.InfoLevel (str "one") demoStart).
Definition demo2 : Store (System bytes) := after (demoCall Level.DebugLevel (str "two") demo1).
Definition demo3 : Store (System bytes) := after (demoCall Level.WarnLevel (str "three") demo2).

Definition demoLines : list bytes :=
  lineOf demoReflected demoLogger Level.InfoLevel (str "one") [] site [] demoStart ++
  lineOf demoReflected demoLogger Level.DebugLevel (str "two") [] site [] demo1 ++
  lineOf demoReflected demoLogger Level.WarnLevel (str "three") [] site [] demo2.

Lemma demo_logsTo st : logsTo memSyncer demoReflected demoConfig false st demoLogger (enablerLevel Level.InfoLevel)
  (JsonEncoder.newJSONEncoder demoReflected demoConfig false) demoOut.
Proof. constructor; try done; [apply toFile_Lock|apply JsonLines.derived_root]. Qed.

Lemma demo_call lvl msg st :
  match demoCall lvl msg st with Ret (Returns, _) => true | _ => false end = true ->
  demoCall lvl msg st = Ret (Returns, after (demoCall lvl msg st)).
Proof. by destruct (demoCall lvl msg st) as [[[] st']| |]. Qed.

Lemma demo_history : history memSyncer demoReflected demoConfig false (fun _ => []) 64 demoLines demo3.
Proof.
  assert (forall lines st lvl msg, history memSyncer demoReflected demoConfig false (fun _ => []) 64 lines st ->
    match demoCall lvl msg st with Ret (Returns, _) => true | _ => false end = true ->
    history memSyncer demoReflected demoConfig false (fun _ => []) 64
      (lines ++ lineOf demoReflected demoLogger lvl msg [] site [] st) (after (demoCall lvl msg st))) as Hlog.
  { intros lines st lvl msg Hh Hr. apply (history_log _ _ _ _ _ _ lines st demoLogger _ _ _ lvl msg [] [] site [] Returns _
      Hh (demo_logsTo st) eq_refl eq_refl). exact (demo_call lvl msg st Hr). }
  assert (history memSyncer demoReflected demoConfig false (fun _ => []) 64 [] demoStart) as H0.
  { apply (history_start _ _ _ _ _ _ 128 0 None []); [reflexivity|]. eexists _, _. reflexivity. }
  pose proof (Hlog [] demoStart Level.InfoLevel (str "one") H0 ltac:(vm_compute; reflexivity)) as H1. fold demo1 in H1.
  pose proof (Hlog _ demo1 Level.DebugLevel (str "two") H1 ltac:(vm_compute; reflexivity)) as H2. fold demo2 in H2.
  pose proof (Hlog _ demo2 Level.WarnLevel (str "three") H2 ltac:(vm_compute; reflexivity)) as H3. fold demo3 in H3.
  rewrite <- app_assoc, app_nil_l in H3. exact H3.
Qed.

Lemma log_file_is_the_log_witness :
  (exists delivered waiting, demoLines = map JsonLines.terminated (delivered ++ waiting)) /\
  fileOf (Core.world (after (let! (_, st) := Logger.Sync demoReflected demoLogger demo3 in Ret (Returns, st)))) = concat demoLines /\
  length demoLines = 2%nat.
Proof.
  destruct (log_file_is_the_log memSyncer memSyncer_never_fails demoReflected demoConfig false (fun _ => []) 64 demoLines demo3
    ltac:(lia) demo_documented eq_refl demo_history) as [(delivered & waiting & E & _) Hsync].
  split; [exists delivered, waiting; exact E|]. split; [|vm_compute; reflexivity].
  pose proof (fun st' => Hsync _ _ _ _ st' (demo_logsTo demo3)) as H.
  assert (match Logger.Sync demoReflected demoLogger demo3 with Ret (None, _) => true | _ => false end = true) as Hr
    by (vm_compute; reflexivity).
  destruct (Logger.Sync demoReflected demoLogger demo3) as [[[e|] st']| |]; try discriminate Hr.
  exact (proj1 (H st' eq_refl)).
Defined.
End demo.
End LogFile.
