(* ===== verification/LogWith.v ===== *)
(** [With] and the fields of a call: logging with a logger that has a context is logging with
    the context in front of the call's fields.

    logger.go and zapcore/core.go encode the context once, when [With] is called, and every
    entry of the derived logger copies the encoded bytes.  The theorem is that this
    optimisation does not show, for JSON and console outputs behind tees and level filters. *)

From Stdlib Require Import ZArith Lia.
From S2P Require Import Prelude Strconv GoStd Level AtomicLevel WriteSyncer Encode Field Entry EncoderConfig JsonEncoder JsonTree JsonRefinement JsonLines ConsoleEncoder Core CoreSpec CoreDelivery Stacktrace Logger LoggerSpec LogCall.
From stdpp Require Import base list.

Local Open Scope Z_scope.
Local Open Scope zap_scope.

Module LogWith.
Import Encode.

(** * Encoders *)

Section encoders.
Context {std : GoStd} (d : EncoderConfig.ReflectedEncoder).

(** Building a tree does not look at what is already there. *)
Lemma tree_preserved cfg :
  @Preserved _ _ _ _ (JsonTree.treeEncoders d cfg) (JsonTree.treeEncoders d cfg) _ _
    (fun i s1 s2 => s1 = i ++ s2) (fun j s1 s2 => s1 = j ++ s2).
Proof.
  constructor; simpl; unfold JsonTree.addMem;
    try (intros; subst; rewrite <- ?app_assoc; done).
  all: try (intros; subst; destruct (JsonTree.reflectText _ _ _); simpl; rewrite <- ?app_assoc; done).
  all: intros; intros i s1 s2 ->.
  all: match goal with H : relO _ _ _ |- _ => pose proof (H [] [] [] eq_refl) as Hm
                     | H : relA _ _ _ |- _ => pose proof (H [] [] [] eq_refl) as Hm end.
  all: eapply related_bind; [exact Hm|]; intros e t1 t2 ->; simpl; rewrite <- app_assoc; by constructor.
Qed.

Lemma tree_frame cfg p front es :
  @runObj _ _ (JsonTree.treeEncoders d cfg) p (front ++ es) =
  let! (e, es') := @runObj _ _ (JsonTree.treeEncoders d cfg) p es in Ret (e, front ++ es').
Proof.
  pose proof (runObj_related _ _ (tree_preserved cfg) p front (front ++ es) es eq_refl) as H.
  by destruct H as [e s1 s2 ->|v].
Qed.

Lemma entryMembers_context cfg ces ces' ent fields fields' e :
  @runObj _ _ (JsonTree.treeEncoders d cfg) (Field.addFields fields) ces = Ret (e, ces') ->
  JsonRefinement.entryMembers d cfg ces' ent fields' = JsonRefinement.entryMembers d cfg ces ent (fields ++ fields').
Proof.
  intros H. unfold JsonRefinement.entryMembers. destruct (JsonRefinement.callerEvents _ _) as [cs| |]; cbn [obind]; [|done..].
  cbv zeta. rewrite Field.run_addFields_app. rewrite (tree_frame cfg (Field.addFields fields)), H. done.
Qed.

(** An encoder with a context that [With] put there. *)
Definition sound (enc : JsonEncoder.jsonEncoder) : Prop :=
  exists cfg sp, JsonRefinement.Documented d (JsonEncoder.config (JsonEncoder.newJSONEncoder d cfg sp)) /\
    JsonLines.derived d cfg sp enc.

Definition withFields (fields : list Field) (enc enc' : JsonEncoder.jsonEncoder) : Prop :=
  exists e, @runObj _ _ (JsonEncoder.jsonEncoders d) (Field.addFields fields) (JsonEncoder.Clone enc) = Ret (e, enc').

Lemma sound_with fields enc enc' : sound enc -> withFields fields enc enc' -> sound enc'.
Proof. intros (cfg & sp & doc & Hd) [e H]. exists cfg, sp. split; [done|]. by eapply JsonLines.derived_with. Qed.

(** What the encoder has and what it would have, as trees. *)
Lemma withFields_events fields enc enc' :
  sound enc -> withFields fields enc enc' ->
  exists cfg sp e ces ces', JsonRefinement.Documented d cfg /\
    JsonRefinement.RO cfg sp ([], 0) enc ces /\ JsonRefinement.RO cfg sp ([], 0) enc' ces' /\
    @runObj _ _ (JsonTree.treeEncoders d cfg) (Field.addFields fields) ces = Ret (e, ces').
Proof.
  intros (cfg & sp & doc & Hd) [e Hw]. destruct (JsonLines.derived_events d cfg sp enc doc Hd) as (ces & HRO).
  assert (JsonRefinement.RO (JsonEncoder.config (JsonEncoder.newJSONEncoder d cfg sp)) sp ([], 0) (JsonEncoder.Clone enc) ces)
    as HC by exact HRO.
  pose proof (runObj_related _ _ (JsonRefinement.json_preserved _ _ sp doc) (Field.addFields fields) _ _ _ HC) as H.
  rewrite Hw in H. apply related_ret_inv in H as (ces' & Ht & HRO'). by eexists _, sp, e, ces, ces'.
Qed.

Lemma json_context fields fields' enc enc' ent :
  sound enc -> withFields fields enc enc' ->
  JsonEncoder.EncodeEntry d enc' ent fields' = JsonEncoder.EncodeEntry d enc ent (fields ++ fields').
Proof.
  intros Hs Hw. destruct (withFields_events _ _ _ Hs Hw) as (cfg & sp & e & ces & ces' & doc & HRO & HRO' & Ht).
  pose proof (JsonRefinement.EncodeEntry_spec d cfg sp doc enc ces ent (fields ++ fields') HRO) as H.
  pose proof (JsonRefinement.EncodeEntry_spec d cfg sp doc enc' ces' ent fields' HRO') as H'.
  rewrite (entryMembers_context cfg ces ces' ent fields fields' e Ht) in H'.
  destruct (JsonRefinement.entryMembers _ _ _ _ _) as [ms|v|]; [|by rewrite H, H'|done].
  destruct H as [-> _], H' as [-> _]. done.
Qed.

(** The console encoder's context, after the namespaces are closed. *)
Lemma console_context fields fields' enc enc' ent :
  sound enc -> withFields fields enc enc' ->
  ConsoleEncoder.EncodeEntry d (ConsoleEncoder.mkConsole enc') ent fields' =
  ConsoleEncoder.EncodeEntry d (ConsoleEncoder.mkConsole enc) ent (fields ++ fields').
Proof.
  intros Hs Hw. destruct (withFields_events _ _ _ Hs Hw) as (cfg & sp & e & ces & ces' & doc & HRO & HRO' & Ht).
  assert (JsonRefinement.RO cfg sp ([], 0) (JsonEncoder.Clone enc) ces) as HC by exact HRO.
  assert (JsonRefinement.RO cfg sp ([], 0) (JsonEncoder.Clone enc') ces') as HC' by exact HRO'.
  unfold ConsoleEncoder.EncodeEntry, ConsoleEncoder.writeContext. cbn [ConsoleEncoder.embedded].
  rewrite (JsonRefinement.RO_config _ _ _ _ _ HRO), (JsonRefinement.RO_config _ _ _ _ _ HRO').
  pose proof (runObj_related _ _ (JsonRefinement.json_preserved _ _ sp doc) (Field.addFields (fields ++ fields')) _ _ _ HC) as H.
  pose proof (runObj_related _ _ (JsonRefinement.json_preserved _ _ sp doc) (Field.addFields fields') _ _ _ HC') as H'.
  rewrite (Field.run_addFields_app (E := JsonTree.treeEncoders d cfg)), Ht in H. cbn [obind] in H.
  destruct H as [e1 c1 es HF|v]; inversion H' as [e2 c2 es' HF'|v']; subst; try done.
  cbn [obind]. apply JsonRefinement.RO_close in HF, HF'. cbv zeta.
  destruct HF as (_ & _ & Hb & _), HF' as (_ & _ & Hb' & _). by rewrite Hb, Hb'.
Qed.

End encoders.

(** * Cores *)

Import Core CoreSpec CoreDelivery Stacktrace Logger LoggerSpec LogCall.

Section cores.
Context {W : Type} {std : GoStd} {ME : Multierr}.
Context (d : EncoderConfig.ReflectedEncoder) (sprintEntry : Entry.Entry -> bytes) (storage : nat).

Definition soundEncoder (enc : Encoder) : Prop :=
  match enc with
  | jsonEncoder e => sound d e
  | consoleEncoder c => sound d (ConsoleEncoder.embedded c)
  end.

Definition soundOutput (c : Core W) : Prop :=
  match c with
  | ioCore _ enc _ => soundEncoder enc
  | _ => False
  end.

Lemma addFields_context enc fields enc' :
  soundEncoder enc -> Core.addFields d (Core.Clone enc) fields = Ret enc' ->
  soundEncoder enc' /\ forall ent fields', Core.EncodeEntry d enc' ent fields' = Core.EncodeEntry d enc ent (fields ++ fields').
Proof.
  intros Hs H. destruct enc as [e|[e]]; cbn in H; apply obind_Ret_inv in H as ([err e'] & Hr & [= <-]).
  all: assert (withFields d fields e e') as Hw by by exists err.
  all: split; [exact (sound_with d _ _ _ Hs Hw)|]; intros ent fields'.
  - by apply json_context.
  - by apply console_context.
Qed.

(** [o'] writes to the same place as [o], with the fields [fs] in its context. *)
Definition withContext (fs : list Field) (o o' : Encoder * @WriteSyncer.WriteSyncer W) : Prop :=
  o'.2 = o.2 /\ forall ent fields, Core.EncodeEntry d o'.1 ent fields = Core.EncodeEntry d o.1 ent (fs ++ fields).

(** [c'] is [c] with the context [fs] at every output. *)
Record carries (st : Store W) (fs : list Field) (c c' : Core W) : Prop := {
  carries_wired : wired soundOutput st c';
  carries_willing lvl : willing st lvl c' = willing st lvl c;
  carries_outputs lvl : Forall2 (withContext fs) (outputs st lvl c) (outputs st lvl c')
}.

Lemma outputs_multi (st : Store W) lvl c cs :
  outputs st lvl (multiCore (c :: cs)) = outputs st lvl c ++ outputs st lvl (multiCore cs).
Proof. unfold outputs. cbn [outlets map concat]. by rewrite omap_app. Qed.

Lemma carries_multi st fs c c' cs cs' :
  carries st fs c c' -> carries st fs (multiCore cs) (multiCore cs') ->
  carries st fs (multiCore (c :: cs)) (multiCore (c' :: cs')).
Proof.
  intros [H1 H2 H3] [H4 H5 H6]. constructor.
  - apply wired_multi, Forall_cons_2; [done|]. by apply wired_multi.
  - intros lvl. specialize (H5 lvl). cbn [willing existsb] in *. by rewrite H2, H5.
  - intros lvl. rewrite !outputs_multi. by apply Forall2_app.
Qed.

Lemma ioCore_With_carries enab enc out fields (st : Store W) c' st' :
  wired soundOutput st (ioCore enab enc out) -> ioCore_With d enab enc out fields st = Ret (c', st') ->
  st' = st /\ carries st fields (ioCore enab enc out) c'.
Proof.
  intros [Ha Hs] H. unfold ioCore_With, ioCore_clone, lift, mbind, M_bind in H.
  destruct (Core.addFields d (Core.Clone enc) fields) as [enc'| |] eqn:E; cbn in H; [|done..]. injection H as <- <-.
  destruct (addFields_context _ _ _ Hs E) as [Hs' Hx]. split; [done|]. constructor; [done..|].
  intros lvl. unfold outputs. cbn [outlets]. destruct (on st enab lvl); by repeat constructor.
Qed.

Lemma mapEach_carries (go : Core W -> M W (Core W)) fields cs (st : Store W) cs' st' :
  Forall (fun c => forall c' st', wired soundOutput st c -> go c st = Ret (c', st') ->
                     st' = st /\ carries st fields c c') cs ->
  Forall (wired soundOutput st) cs -> mapEach go cs st = Ret (cs', st') ->
  st' = st /\ carries st fields (multiCore cs) (multiCore cs').
Proof.
  intros IH. revert cs' st'. induction IH as [|c cs Hc _ IHcs]; intros cs' st' Hw H.
  { injection H as <- <-. split; [done|]. constructor; [done..|]. intros lvl. constructor. }
  apply Forall_cons in Hw as [H1 H2]. cbn [mapEach] in H. unfold mbind, M_bind in H.
  apply obind_Ret_inv in H as ([c1 st1] & E1 & H). destruct (Hc _ _ H1 E1) as [-> Hcar].
  apply obind_Ret_inv in H as ([cs1 st2] & E2 & [= <- <-]). destruct (IHcs _ _ H2 E2) as [-> Hcars].
  split; [done|]. by apply carries_multi.
Qed.

Lemma With_carries depth c fields (st : Store W) c' st' :
  wired soundOutput st c -> Core.With d depth c fields st = Ret (c', st') ->
  st' = st /\ carries st fields c c'.
Proof.
  revert c' st'. induction c as [|enab enc out|cs IH|c fs IH|ref c lf IH|c level IH|c k p hook IH|] using Core_tree_ind;
    intros c' st' Hc H; destruct depth; cbn [Core.With] in H; try done.
  all: try (by destruct Hc).
  all: try (by apply ioCore_With_carries in H).
  all: try (injection H as <- <-; split; [done|]; constructor; [done..|]; intros; constructor).
  all: try (apply obind_Ret_inv in H as ([cs1 st1] & E & [= <- <-]); apply wired_multi in Hc;
    exact (mapEach_carries (fun c => Core.With d _ c fields) fields cs st _ _ IH Hc E)).
  all: apply obind_Ret_inv in H as ([c1 st1] & E & [= <- <-]); destruct Hc as [Ha Hc];
    destruct (IH _ _ Hc E) as [-> [H1 H2 H3]]; split; [done|]; constructor; [done..|];
    intros lvl; specialize (H3 lvl); unfold outputs in *; cbn [outlets]; by destruct (on st level lvl).
Qed.

(** * Calls *)

Lemma writeAll_context fs fields outs outs' ent err (w : W) :
  Forall2 (withContext fs) outs outs' ->
  writeAll d ent fields outs' err w = writeAll d ent (fs ++ fields) outs err w.
Proof.
  intros H. revert err w. induction H as [|o o' outs outs' [H2 H1] _ IH]; intros err w; [done|].
  cbn [writeAll]. unfold writeOne. rewrite H1, H2.
  match goal with |- obind ?m _ = obind ?m _ => destruct m as [[e w']| |]; cbn [obind]; [apply IH|done..] end.
Qed.

(** The hooks of the library do not look at the fields. *)
Definition standardHook (hook : option (CheckWriteHook W)) : Prop :=
  match hook with
  | Some (customHook _) => False
  | _ => True
  end.

Lemma endCall_context hook ent fs fields w : standardHook hook -> endCall hook ent fs w = endCall hook ent fields w :> _ * W.
Proof. by destruct hook as [[]|]. Qed.

Lemma callSpec_context (log log' : Logger W) fs fields lvl msg caller stack (st : Store W) :
  carries st fs (core log) (core log') -> standardHook (terminal log lvl) -> terminal log' lvl = terminal log lvl ->
  clock log' = clock log -> name log' = name log -> errorOutput log' = errorOutput log ->
  callSpec d log' lvl msg fields caller stack st = callSpec d log lvl msg (fs ++ fields) caller stack st.
Proof.
  intros [_ Hw Ho] Hh Ht Hc Hn He. unfold callSpec, afterCheck. rewrite Hw, Ht, Hc, Hn, He. destruct (_ && _); [done|].
  destruct (clock log (world st)) as [now w]. specialize (Ho lvl).
  destruct Ho as [|o o' outs outs' H1 H2]; [by rewrite (endCall_context _ _ _ (fs ++ fields))|].
  rewrite (writeAll_context fs fields (o :: outs) (o' :: outs')) by by constructor.
  destruct (writeAll _ _ _ _ _ _) as [[err w']| |]; cbn [obind]; [|done..]. f_equal. by apply endCall_context.
Qed.

Lemma wired_isOutput (st : Store W) c : wired soundOutput st c -> wired isOutput st c.
Proof. apply wired_mono. by intros []. Qed.

(** The call of a logger with the context in its core. *)
Lemma logAt_carries (log : Logger W) c lvl msg fs gs m wrappers f rest (st : Store W) :
  (1 <= storage)%nat -> callerSkip log = lenZ wrappers -> lenZ wrappers < 2 ^ 61 ->
  wired soundOutput st (core log) -> allocated st (addStack log) -> standardHook (terminal log lvl) ->
  carries st fs (core log) c ->
  logAt d sprintEntry storage (setCore log c) lvl msg gs (m :: wrappers ++ f :: rest) st =
  logAt d sprintEntry storage log lvl msg (fs ++ gs) (m :: wrappers ++ f :: rest) st.
Proof.
  intros Hs Hk Hlt Hw Ha Hh Hc.
  pose proof (annotates_site storage log lvl m wrappers f rest st Hs Hk Hlt Ha) as Hn.
  pose proof (annotates_site storage (setCore log c) lvl m wrappers f rest st Hs Hk Hlt Ha) as Hn'.
  rewrite (logAt_run d sprintEntry storage log lvl msg (fs ++ gs) _ _ _ st (wired_isOutput _ _ Hw) Hn).
  rewrite (logAt_run d sprintEntry storage (setCore log c) lvl msg gs _ _ _ st (wired_isOutput _ _ (carries_wired _ _ _ _ Hc)) Hn').
  by rewrite <- (callSpec_context log (setCore log c) fs gs lvl msg _ _ st Hc Hh).
Qed.

(** * Lazy contexts *)

Lemma unwilling_outlets leaf (st : Store W) lvl c : wired leaf st c -> willing st lvl c = false -> outlets st lvl c = [].
Proof.
  induction c as [| |cs IH|c fs IH|ref c lf IH|c level IH|c k p hook IH|] using Core_tree_ind; cbn [willing outlets]; try done.
  - by intros _ ->.
  - intros Hw. apply wired_multi in Hw. induction IH as [|c cs H _ IHcs]; [done|]. apply Forall_cons in Hw as [H1 H2].
    cbn [existsb map concat]. intros [Hc Hcs]%orb_false_iff. by rewrite H, IHcs.
  - by intros _ ->.
  - by intros _ ->.
Qed.

(** [With] of these cores does not use the store. *)
Definition storeless {A} (m : M W A) : Prop := exists r, forall st, m st = let! a := r in Ret (a, st).

Lemma storeless_bind {A B} (m : M W A) (f : A -> M W B) : storeless m -> (forall a, storeless (f a)) -> storeless (m ≫= f).
Proof.
  intros [r Hr] Hf. unfold mbind, M_bind. destruct r as [a|v|].
  - destruct (Hf a) as [r' Hr']. exists r'. intros st. rewrite Hr. apply Hr'.
  - exists (Prelude.Panic v). intros st. by rewrite Hr.
  - exists Diverge. intros st. by rewrite Hr.
Qed.

Lemma storeless_ret {A} (a : A) : storeless (mret a : M W A).
Proof. by exists (Ret a). Qed.

Lemma storeless_mapEach {A B} (f : A -> M W B) l : Forall (fun a => storeless (f a)) l -> storeless (mapEach f l).
Proof.
  induction 1 as [|a l Ha _ IH]; [apply storeless_ret|]. cbn [mapEach].
  apply storeless_bind; [done|]. intros b. apply storeless_bind; [done|]. intros bs. apply storeless_ret.
Qed.

Lemma With_storeless depth c fields (st : Store W) : wired soundOutput st c -> storeless (Core.With d depth c fields).
Proof.
  induction c as [|enab enc out|cs IH|c fs IH|ref c lf IH|c level IH|c k p hook IH|] using Core_tree_ind;
    intros Hc; destruct depth; cbn [Core.With]; try done.
  all: try (by destruct Hc).
  all: try apply storeless_ret.
  all: try (apply storeless_bind; [by exists (Core.addFields d (Core.Clone enc) fields)|intros; apply storeless_ret]).
  all: try (destruct Hc as [_ Hc]; apply storeless_bind; [by apply IH|intros; apply storeless_ret]).
  all: apply storeless_bind; [|intros; apply storeless_ret]; apply wired_multi in Hc; apply storeless_mapEach;
    rewrite Forall_forall in *; auto.
Qed.

Lemma storeless_anywhere {A} (m : M W A) a st st' : storeless m -> m st = Ret (a, st') -> forall st2, m st2 = Ret (a, st2).
Proof. intros [r Hr] H st2. rewrite Hr in *. destruct r; cbn [obind] in *; congruence. Qed.

Lemma carries_atomics (st st' : Store W) fs c c' : atomics st' = atomics st -> carries st fs c c' -> carries st' fs c c'.
Proof.
  intros Ha [H1 H2 H3]. constructor.
  - apply (wired_more _ st); [by rewrite Ha|done].
  - intros lvl. by rewrite !(willing_atomics st st' Ha).
  - intros lvl. unfold outputs. rewrite !(outlets_atomics st st' Ha). apply H3.
Qed.

(** The cell of a lazy core: not yet built, or what [With] builds. *)
Definition cell (ref : nat) (c' : Core W) (st : Store W) : Prop :=
  lazies st !! ref = Some None \/ lazies st !! ref = Some (Some c').

Definition builtCell (ref : nat) (c' : Core W) (st : Store W) : Store W := setLazies st (<[ref := Some c']> (lazies st)).

Lemma cell_built ref c' st : cell ref c' st -> lazies (builtCell ref c' st) !! ref = Some (Some c').
Proof. intros [H|H]; simpl; apply list_lookup_insert_eq; by eapply lookup_lt_Some. Qed.

Lemma initOnce_cell ref build c' st :
  cell ref c' st -> (forall st, build st = Ret (c', st)) -> initOnce ref build st = Ret (c', builtCell ref c' st).
Proof.
  intros Hc Hb. unfold initOnce, builtCell. destruct Hc as [H|H]; rewrite H; [by rewrite Hb|].
  rewrite list_insert_id by done. by destruct st.
Qed.

(** [Check] of a lazy core collects what the built core would. *)
Lemma lazy_Check ref c fs c' ent (st : Store W) :
  wired soundOutput st c -> carries st fs c c' -> cell ref c' st -> (forall st, Core.With d 1 c fs st = Ret (c', st)) ->
  Core.Check d 1 (lazyWithCore ref c fs) ent None st =
  Ret (addCores ent None (outlets st (Entry.Level ent) c'),
       if willing st (Entry.Level ent) c then builtCell ref c' st else st).
Proof.
  intros Hw [Hw' Hwill _] Hc Hb. cbn [Core.Check]. unfold lazyWithCore_Check.
  rewrite (run_bind _ _ _ _ _ (Enabled_wired soundOutput st (Entry.Level ent) c Hw)).
  destruct (willing st (Entry.Level ent) c) eqn:E; cbn [negb].
  - rewrite (run_bind _ _ _ _ _ (initOnce_cell ref _ c' st Hc Hb)).
    pose proof (Check_wired d soundOutput 0 c' ent None (builtCell ref c' st) ltac:(by apply (wired_more _ st))) as H.
    rewrite (outlets_atomics st (builtCell ref c' st) eq_refl) in H. exact H.
  - by rewrite (unwilling_outlets soundOutput st _ c') by (rewrite ?Hwill; done).
Qed.

(** A call of the logger with a lazy core. *)
Lemma logAt_lazy (log : Logger W) ref c' lvl msg fs gs m wrappers f rest (st : Store W) :
  (1 <= storage)%nat -> callerSkip log = lenZ wrappers -> lenZ wrappers < 2 ^ 61 ->
  wired soundOutput st (core log) -> allocated st (addStack log) -> carries st fs (core log) c' ->
  cell ref c' st -> (forall st, Core.With d 1 (core log) fs st = Ret (c', st)) ->
  logAt d sprintEntry storage (setCore log (lazyWithCore ref (core log) fs)) lvl msg gs (m :: wrappers ++ f :: rest) st =
  let! (e, st') := logAt d sprintEntry storage (setCore log c') lvl msg gs (m :: wrappers ++ f :: rest) st in
  Ret (e, if willing st lvl (core log) then builtCell ref c' st' else st').
Proof.
  intros Hs Hk Hlt Hw Ha Hc Hcell Hb. set (lazyLog := setCore log (lazyWithCore ref (core log) fs)).
  assert ((if lvl <? Level.DPanicLevel then b ← Enabled (core lazyLog) lvl; mret (negb b) else mret false : M W bool) st =
    Ret ((lvl <? Level.DPanicLevel) && negb (willing st lvl (core log)), st)) as Hskip by by apply (skip_run soundOutput log).
  set (w := (clock log (world st)).2). set (now := (clock log (world st)).1).
  pose proof (lazy_Check ref (core log) fs c' (Entry.mkEntry lvl now (name log) msg Entry.noCaller []) (setWorld st w)
    ltac:(by apply (wired_more _ st)) (carries_atomics st (setWorld st w) _ _ _ eq_refl Hc) Hcell Hb) as Hcheck.
  cbn [Entry.Level] in Hcheck. rewrite (outlets_atomics st (setWorld st w) eq_refl), (willing_atomics st (setWorld st w) eq_refl) in Hcheck.
  set (st2 := if willing st lvl (core log) then _ else _) in Hcheck.
  assert (atomics st2 = atomics st /\ world st2 = w) as [Hat Hw2] by (subst st2; by destruct (willing _ _ _)).
  assert (allocated st2 (addStack log)) as Ha2 by (apply (allocated_more st); [by rewrite Hat|done]).
  pose proof (annotates_site storage lazyLog lvl m wrappers f rest st2 Hs Hk Hlt Ha2) as Hn.
  pose proof (annotates_site storage (setCore log c') lvl m wrappers f rest st Hs Hk Hlt Ha) as Hn'.
  pose proof (outlets_leaf isOutput st lvl c' (wired_isOutput _ _ (carries_wired _ _ _ _ Hc))) as Hout.
  rewrite (logAt_checked d sprintEntry storage lazyLog lvl msg gs _ _ _ _ _ st st2 Hskip Hcheck Hn Hout).
  rewrite (logAt_run d sprintEntry storage (setCore log c') lvl msg gs _ _ _ st (wired_isOutput _ _ (carries_wired _ _ _ _ Hc)) Hn').
  unfold callSpec, siteStack. rewrite (on_atomics st st2 Hat), Hw2. change (core (setCore log c')) with c'.
  rewrite (carries_willing _ _ _ _ Hc). unfold outputs.
  destruct (willing st lvl (core log)) eqn:Ew; destruct (lvl <? Level.DPanicLevel); cbn [andb negb obind]; [..|by rewrite setWorld_same|].
  all: change (clock lazyLog) with (clock log); change (clock (setCore log c')) with (clock log).
  all: subst now w st2; destruct (clock log (world st)) as [now w]; cbn [fst snd].
  all: change (afterCheck d lazyLog) with (afterCheck d (setCore log c')).
  all: change (siteCaller lazyLog f) with (siteCaller (setCore log c') f); change (addStack lazyLog) with (addStack (setCore log c')).
  all: by destruct (afterCheck _ _ _ _ _ _ _ _ _ _) as [[e w']| |].
Qed.

(** What a call does that can be seen from outside. *)
Definition effect (r : outcome (ending * Store W)) : outcome (ending * W) := let! (e, st) := r in Ret (e, world st).

Lemma logAt_lazy_effect (log : Logger W) ref c' lvl msg fs gs m wrappers f rest (st : Store W) :
  (1 <= storage)%nat -> callerSkip log = lenZ wrappers -> lenZ wrappers < 2 ^ 61 ->
  wired soundOutput st (core log) -> allocated st (addStack log) -> carries st fs (core log) c' ->
  cell ref c' st -> (forall st, Core.With d 1 (core log) fs st = Ret (c', st)) ->
  effect (logAt d sprintEntry storage (setCore log (lazyWithCore ref (core log) fs)) lvl msg gs (m :: wrappers ++ f :: rest) st) =
  effect (logAt d sprintEntry storage (setCore log c') lvl msg gs (m :: wrappers ++ f :: rest) st).
Proof.
  intros. rewrite (logAt_lazy log ref c') by done. unfold effect.
  destruct (logAt _ _ _ (setCore log c') _ _ _ _ _) as [[e st']| |]; cbn [obind]; [|done..]. by destruct (willing _ _ _).
Qed.

(** The states that calls of a logger lead to. *)
Inductive later (log : Logger W) (st : Store W) : Store W -> Prop :=
| later_now : later log st st
| later_call st1 st2 lvl msg gs wrappers f rest e :
    later log st st1 -> callerSkip log = lenZ wrappers -> lenZ wrappers < 2 ^ 61 ->
    Log d sprintEntry storage log lvl msg gs (wrappers ++ f :: rest) st1 = Ret (e, st2) ->
    later log st st2.

Lemma later_cell (log : Logger W) ref c' fs (st0 st st1 : Store W) :
  (1 <= storage)%nat -> wired soundOutput st0 (core log) -> allocated st0 (addStack log) -> carries st0 fs (core log) c' ->
  (forall st, Core.With d 1 (core log) fs st = Ret (c', st)) -> cell ref c' st -> atomics st = atomics st0 ->
  later (setCore log (lazyWithCore ref (core log) fs)) st st1 -> cell ref c' st1 /\ atomics st1 = atomics st0.
Proof.
  intros Hs Hw Ha Hc Hb Hcell Hat. induction 1 as [|st1 st2 lvl msg gs wrappers f rest e _ [IHc IHa] Hk Hlt H]; [done|].
  pose proof (wired_more soundOutput st0 st1 (core log) ltac:(by rewrite IHa) Hw) as Hw1.
  pose proof (allocated_more st0 st1 (addStack log) ltac:(by rewrite IHa) Ha) as Ha1.
  pose proof (carries_atomics st0 st1 _ _ _ IHa Hc) as Hc1.
  unfold Log in H. rewrite (logAt_lazy log ref c') in H by done.
  rewrite (logAt_run d sprintEntry storage (setCore log c') lvl msg gs _ _ _ st1 (wired_isOutput _ _ (carries_wired _ _ _ _ Hc1))
    (annotates_site storage (setCore log c') lvl _ wrappers f rest st1 Hs Hk Hlt Ha1)) in H.
  apply obind_Ret_inv in H as ([e1 st'] & H & [= _ <-]). apply obind_Ret_inv in H as ([e2 w] & _ & [= _ <-]).
  destruct (willing _ _ _); [|done]. split; [|done]. right. by apply (cell_built ref c' (setWorld st1 w)).
Qed.

(** C7: [With] and [WithLazy] are transparent.  Take a logger whose outputs are JSON or
    console encoders, any number of times derived by [With] themselves, behind any tree of
    tees and level filters.  When [With(fs)] returns, it changed nothing, and a call of the
    derived logger with fields [gs] does exactly what the call of the original logger with
    [fs] and [gs] does: to every output and to the error output, panics of marshalers
    included, and with the same ending; though the one has encoded [fs] beforehand, and the
    other encodes them after the entry's own members.  So does a call of the logger that
    [WithLazy(fs)] gives, after any calls of it, whether or not one of them has evaluated
    [fs].  (A custom hook for panics or exits can tell them apart: it is given the fields of
    the call.)  The outputs must be [soundOutput]: what their encoders rely on
    ([Documented]) holds, in particular the reflected encoder writes JSON on one line, and
    their buffers are as the code leaves them. *)
Theorem with_transparent (log log' : Logger W) lvl msg fs gs wrappers f rest (st st' : Store W) :
  (1 <= storage)%nat -> callerSkip log = lenZ wrappers -> lenZ wrappers < 2 ^ 61 ->
  wired soundOutput st (core log) -> allocated st (addStack log) -> standardHook (terminal log lvl) ->
  Logger.With d log fs st = Ret (log', st') ->
  st' = st /\ wired soundOutput st (core log') /\
  Log d sprintEntry storage log' lvl msg gs (wrappers ++ f :: rest) st =
    Log d sprintEntry storage log lvl msg (fs ++ gs) (wrappers ++ f :: rest) st /\
  forall lazyLog st1 st2, Logger.WithLazy log fs st = Ret (lazyLog, st1) -> later lazyLog st1 st2 ->
    effect (Log d sprintEntry storage lazyLog lvl msg gs (wrappers ++ f :: rest) st2) =
    effect (Log d sprintEntry storage log lvl msg (fs ++ gs) (wrappers ++ f :: rest) st2).
Proof.
  intros Hs Hk Hlt Hw Ha Hh H. unfold Logger.With in H. unfold Logger.WithLazy. destruct (decide _) as [Hl|_].
  { injection H as <- <-. destruct fs; [|done]. split_and!; try done. intros lazyLog st1 st2 [= <- <-] _. done. }
  apply obind_Ret_inv in H as ([c' st1] & E & [= <- <-]). pose proof (With_carries 1 _ _ _ _ _ Hw E) as [-> Hc].
  change (core (clone log)) with (core log) in E, Hc.
  split_and!; [done|apply Hc|by apply (logAt_carries log c' lvl msg fs gs)|].
  intros lazyLog st1 st2 [= <- <-] Hlater.
  pose proof (storeless_anywhere _ _ _ _ (With_storeless 1 (core log) fs st Hw) E) as Hb.
  apply (later_cell log (length (lazies st)) c' fs st) in Hlater as [Hcell Hat]; try done; [|left; by apply list_lookup_middle].
  pose proof (wired_more soundOutput st st2 (core log) ltac:(by rewrite Hat) Hw) as Hw2.
  pose proof (allocated_more st st2 (addStack log) ltac:(by rewrite Hat) Ha) as Ha2.
  pose proof (carries_atomics st st2 _ _ _ Hat Hc) as Hc2.
  unfold Log. rewrite <- (logAt_carries log c' lvl msg fs gs) by done.
  rewrite <- (logAt_lazy_effect log (length (lazies st)) c' lvl msg fs gs) by done. done.
Qed.
End cores.

(** * A JSON and a console output *)

Section demo.
#[local] Existing Instances Level.asciiStd flat_multierr.
Import JsonRefinement.

Definition demoTee : Core (list (bytes * bytes)) :=
  multiCore [ioCore (enablerLevel Level.InfoLevel) (jsonEncoder (JsonEncoder.NewJSONEncoder demoReflected demoConfig)) journal;
             levelFilterCore (ioCore (enablerLevel Level.DebugLevel) (consoleEncoder ConsoleEncoder.demoConsole) LogCall.console)
               (enablerLevel Level.WarnLevel)].

Definition demoLogger : Logger (list (bytes * bytes)) :=
  mkLogger demoTee false true None None (str "main") None (enablerLevel Level.ErrorLevel) 0 (fun w => (mkTime 5 UTC, w)).

Lemma demoTee_sound : wired (soundOutput demoReflected) quiet demoTee.
Proof.
  repeat split.
  - exists demoConfig, false. split; [exact demo_documented|apply JsonLines.derived_root].
  - eexists _, true. split; [|apply JsonLines.derived_root]. apply demo_documented_of; [by right|].
    split; simpl; intros f x [= <-]; unfold EncoderConfig.atMostOne; simpl; lia.
Qed.

(** With a namespace left open: the fields of the call go into it. *)
Lemma with_transparent_witness :
  (match Logger.With demoReflected demoLogger demoContext quiet with
  | Ret (log', st') =>
      Log demoReflected (fun _ => []) 64 log' Level.WarnLevel (str "hot") [Field.Bool (str "ok") true] [site] st' =
      Log demoReflected (fun _ => []) 64 demoLogger Level.WarnLevel (str "hot") (demoContext ++ [Field.Bool (str "ok") true])
        [site] quiet
  | _ => False
  end : Prop) /\
  (match Logger.WithLazy demoLogger demoContext quiet with
  | Ret (lazyLog, st1) =>
      effect (Log demoReflected (fun _ => []) 64 lazyLog Level.WarnLevel (str "hot") [Field.Bool (str "ok") true] [site] st1) =
      effect (Log demoReflected (fun _ => []) 64 demoLogger Level.WarnLevel (str "hot")
        (demoContext ++ [Field.Bool (str "ok") true]) [site] st1)
  | _ => False
  end : Prop) /\
  (match Log demoReflected (fun _ => []) 64 demoLogger Level.WarnLevel (str "hot") demoContext [site] quiet with
  | Ret (Returns, st) => map fst (world st) = [str "errors"; str "console"]
  | _ => False
  end : Prop).
Proof.
  apply and_assoc. split; [|vm_compute; reflexivity].
  assert (match Logger.With demoReflected demoLogger demoContext quiet with Ret _ => true | _ => false end = true) as Hr
    by (vm_compute; reflexivity).
  destruct (Logger.With demoReflected demoLogger demoContext quiet) as [[log' st']| |] eqn:E; try discriminate Hr.
  destruct (with_transparent demoReflected (fun _ => []) 64 demoLogger log' Level.WarnLevel (str "hot") demoContext
    [Field.Bool (str "ok") true] [] site [] quiet st' ltac:(lia) eq_refl eq_refl demoTee_sound I I E) as (-> & _ & H & Hlazy).
  split; [exact H|].
  assert (match Logger.WithLazy demoLogger demoContext quiet with Ret _ => true | _ => false end = true) as Hr2
    by (vm_compute; reflexivity).
  destruct (Logger.WithLazy demoLogger demoContext quiet) as [[lazyLog st1]| |]; try discriminate Hr2.
  exact (Hlazy lazyLog st1 st1 eq_refl (later_now _ _ _ _ _)).
Defined.
End demo.
End LogWith.
