(* ===== verification/LogSample.v ===== *)
(** Sampled logging: programs that log through samplers, against the specification by windows.

    A sampler (zapcore/sampler.go) sits between a logger and its outputs; the loggers that
    [With] derives share its counters.  [programSpec] says which calls of a program reach
    the outputs, from the times of the calls alone; the theorem is that the loggers do
    this, with the arrays of counters, the hash of the message and the counters' resets. *)

From Stdlib Require Import ZArith Lia.
From S2P Require Import Prelude Strconv GoStd Level AtomicLevel WriteSyncer Sampler Encode Field Entry EncoderConfig JsonEncoder Core CoreSpec CoreDelivery Stacktrace Logger LoggerSpec LogCall.
From stdpp Require Import base list gmap.

Local Open Scope Z_scope.
Local Open Scope zap_scope.

Module LogSample.
Import Encode Core CoreSpec CoreDelivery Stacktrace Logger LoggerSpec LogCall.

(** The entries that were counted so far, each with the index of its counter and its time. *)
Abbreviation past := (list ((Z * Z) * Z)).

Section sampled.
Context {W : Type} {std : GoStd} {ME : Multierr}.
Context (reflected : EncoderConfig.ReflectedEncoder) (sprintEntry : Entry.Entry -> bytes) (storage : nat).

(** The counters that the loggers share, and the parameters of their sampler. *)
Context (counts : nat) (p : Sampler.params).

(** * The specification *)

(** A call of [Log] from [site], through the functions [wrappers] that the logger is told to skip. *)
Record call := mkCall {
  logger : Logger W;
  level : Level.Level;
  message : bytes;
  fields : list Field;
  wrappers : list Frame;
  site : Frame;
  outer : list Frame
}.

(** The entries of the seven levels are counted, those of one level and hash together. *)
Definition counted (lvl : Level.Level) : bool := (Level._minLevel <=? lvl) && (lvl <=? Level._maxLevel).

Definition slot (lvl : Level.Level) (msg : bytes) : Z * Z :=
  match Sampler.get lvl msg with
  | Ret ij => ij
  | _ => (0, 0)
  end.

Definition timesOf (ij : Z * Z) (ps : past) : list Z := map snd (filter (fun e => e.1 = ij) ps).

(** The sampler in front of [inner]: the outputs it lets the entry to. *)
Definition letThrough (inner : Core W) (hook : Entry.Entry -> Sampler.SamplingDecision -> W -> W) (ent : Entry.Entry)
    (st : Store W) (ps : past) (w : W) : list (Encoder * @WriteSyncer.WriteSyncer W) * past * W :=
  let lvl := Entry.Level ent in
  if negb (willing st lvl inner) then ([], ps, w)
  else if counted lvl then
    let ij := slot lvl (Entry.Message ent) in
    let ps := ps ++ [(ij, UnixNano (Entry.Time ent))] in
    match Sampler.windowDecision p (timesOf ij ps) with
    | Some Sampler.LogDropped => ([], ps, hook ent Sampler.LogDropped w)
    | _ => (outputs st lvl inner, ps, hook ent Sampler.LogSampled w)
    end
  else (outputs st lvl inner, ps, w).

(** One call, through a sampler or not; [st] is for the levels. *)
Definition sampledSpec (c : call) (st : Store W) (ps : past) (w : W) : outcome (ending * past * W) :=
  let log := logger c in
  let lvl := level c in
  match core log with
  | sampler inner _ _ hook =>
      if (lvl <? Level.DPanicLevel) && negb (willing st lvl inner) then Ret (Returns, ps, w)
      else
        let '(now, w) := clock log w in
        let '(outs, ps, w) :=
          letThrough inner hook (Entry.mkEntry lvl now (name log) (message c) Entry.noCaller []) st ps w in
        let! (e, w) := afterCheck reflected log outs lvl now (message c) (fields c)
                         (siteCaller log (site c)) (siteStack log lvl st (site c) (outer c)) w in
        Ret (e, ps, w)
  | _ =>
      let! (e, w) := callSpec reflected log lvl (message c) (fields c)
                       (siteCaller log (site c)) (siteStack log lvl st (site c) (outer c)) (setWorld st w) in
      Ret (e, ps, w)
  end.

(** Programs log and set levels, until a call does not return. *)
Inductive action :=
| Logs (c : call)
| Sets (a : nat) (l : Level.Level).

Definition runCall (c : call) : M W ending :=
  Log reflected sprintEntry storage (logger c) (level c) (message c) (fields c) (wrappers c ++ site c :: outer c).

Definition setLevel (a : nat) (l : Level.Level) : M W unit := fun st =>
  let! h := AtomicLevel.SetLevel (Some a) l (atomics st) in Ret (tt, setAtomics st h).

Fixpoint program (acts : list action) : M W ending :=
  match acts with
  | [] => mret Returns
  | Logs c :: acts' =>
      e ← runCall c;
      match e with
      | Returns => program acts'
      | _ => mret e
      end
  | Sets a l :: acts' => _ ← setLevel a l; program acts'
  end.

Fixpoint programSpec (acts : list action) (st : Store W) (ps : past) (w : W) : outcome (ending * W) :=
  match acts with
  | [] => Ret (Returns, w)
  | Logs c :: acts' =>
      let! (e, ps, w) := sampledSpec c st ps w in
      match e with
      | Returns => programSpec acts' st ps w
      | _ => Ret (e, w)
      end
  | Sets a l :: acts' => programSpec acts' (setAtomics st (<[a := int32 l]> (atomics st))) ps w
  end.

(** * Counters *)

Lemma timesOf_snoc ij ps ij' t :
  timesOf ij (ps ++ [(ij', t)]) = timesOf ij ps ++ (if decide (ij' = ij) then [t] else []).
Proof.
  unfold timesOf. rewrite filter_app, map_app. f_equal. rewrite filter_cons. simpl.
  by destruct (decide (ij' = ij)).
Qed.

(** The counters are those of the entries that were counted. *)
Definition counting (cs : Sampler.counters) (ps : past) : Prop :=
  Forall (fun e => Sampler.representable (Sampler.tick p) e.2) ps /\
  forall ij, Sampler.load cs ij = Sampler.counterAfter p Sampler.zeroCounter (timesOf ij ps).

Lemma timesOf_Forall P ij ps : Forall (fun e => P e.2) ps -> Forall P (timesOf ij ps).
Proof.
  rewrite !Forall_forall. intros H t. unfold timesOf. rewrite list_elem_of_fmap. intros (e & -> & He).
  apply list_elem_of_filter in He as [_ He]. by apply H.
Qed.

Lemma length_timesOf ij ps : lenZ (timesOf ij ps) <= lenZ ps.
Proof. unfold timesOf, lenZ. rewrite length_map. pose proof (length_filter (fun e => e.1 = ij) ps). lia. Qed.

Lemma sample_spec cs ps lvl msg t :
  0 <= Sampler.first p -> counting cs ps -> Sampler.representable (Sampler.tick p) (UnixNano t) -> lenZ ps + 1 < 2 ^ 64 ->
  counted lvl = true ->
  exists cs' dec, Sampler.sample p cs lvl msg t = Ret (Some dec, cs') /\
    counting cs' (ps ++ [(slot lvl msg, UnixNano t)]) /\
    Sampler.windowDecision p (timesOf (slot lvl msg) (ps ++ [(slot lvl msg, UnixNano t)])) = Some dec.
Proof.
  intros Hf [Hrep Hload] Ht Hlen Hl. unfold Sampler.sample. unfold counted in Hl. rewrite Hl.
  apply andb_true_iff in Hl as [H1%Z.leb_le H2%Z.leb_le].
  destruct (Sampler.get_total lvl msg (conj H1 H2)) as [ij Hij]. unfold slot. rewrite Hij. cbn [obind].
  rewrite Hload. set (c := Sampler.counterAfter _ _ _).
  assert (Sampler.IncCheckReset c t (Sampler.tick p) = Sampler.IncCheckReset c (mkTime (UnixNano t) UTC) (Sampler.tick p)) as E.
  { unfold Sampler.IncCheckReset. by rewrite (proj1 (Sampler.representable_UnixNano _ _ Ht)). }
  rewrite E. destruct (Sampler.IncCheckReset c (mkTime (UnixNano t) UTC) (Sampler.tick p)) as [n c'] eqn:Ei.
  eexists _, _. split; [reflexivity|]. rewrite timesOf_snoc, decide_True by done. split.
  - split; [by apply Forall_app; split; [|apply Forall_singleton]|]. intros ij'. rewrite timesOf_snoc.
    unfold Sampler.counterAfter. rewrite foldl_app. fold (Sampler.counterAfter p Sampler.zeroCounter (timesOf ij' ps)).
    rewrite Sampler.load_insert. destruct (decide (ij = ij')) as [<-|Hne]; [|apply Hload]. simpl. fold c. by rewrite Ei.
  - rewrite Sampler.windowDecision_counter; [fold c; by rewrite Ei|done|..].
    + apply Forall_app; split; [by apply timesOf_Forall|by apply Forall_singleton].
    + pose proof (length_timesOf ij ps). unfold lenZ in *. rewrite length_app. simpl. lia.
Qed.

(** * Calls *)

(** The counters, if they are there, after the entries [ps]. *)
Definition tracks (st : Store W) (ps : past) : Prop :=
  forall cs, counters st !! counts = Some cs -> counting cs ps.

(** A call changes the world and the values of counters. *)
Definition unchanged (st st' : Store W) : Prop :=
  atomics st' = atomics st /\ length (counters st') = length (counters st).

(** The part of the sampler in [Check] of a core. *)
Lemma sampled_Check inner hook ent (st : Store W) ps :
  0 <= Sampler.first p -> tracks st ps -> (counts < length (counters st))%nat -> wired isOutput st inner ->
  Sampler.representable (Sampler.tick p) (UnixNano (Entry.Time ent)) -> lenZ ps + 1 < 2 ^ 64 ->
  exists ces ps' st', Core.Check reflected 1 (sampler inner counts p hook) ent None st = Ret (addCores ent None ces, st') /\
    letThrough inner hook ent st ps (world st) = (omap outputOf ces, ps', world st') /\
    Forall isOutput ces /\ unchanged st st' /\ tracks st' ps' /\ lenZ ps' <= lenZ ps + 1.
Proof.
  intros Hf Htr Hcn Hw Ht Hlen. cbn [Core.Check]. unfold sampler_Check, letThrough. cbv zeta.
  rewrite (run_bind _ _ _ _ _ (Enabled_wired isOutput st (Entry.Level ent) inner Hw)).
  destruct (willing st (Entry.Level ent) inner); cbn [negb]; [|exists [], ps, st; split_and!; [done|done|constructor|done|done|lia]].
  apply lookup_lt_is_Some in Hcn as [cs Hcs]. pose proof (Htr cs Hcs) as Hc.
  assert (forall st', atomics st' = atomics st ->
    Core.Check reflected 1 inner ent None st' = Ret (addCores ent None (outlets st (Entry.Level ent) inner), st')) as Hin.
  { intros st' Ha. rewrite (Check_wired reflected isOutput) by (apply (wired_more _ st); [by rewrite Ha|done]).
    by rewrite (outlets_atomics st). }
  pose proof (outlets_leaf isOutput st (Entry.Level ent) inner Hw) as Hleaf.
  assert (forall cs' ps', counting cs' ps' -> forall cs2, <[counts := cs']> (counters st) !! counts = Some cs2 ->
    counting cs2 ps') as Hget.
  { intros cs' ps' Hc' cs2. rewrite list_lookup_insert_eq by (by eapply lookup_lt_Some). by intros [= <-]. }
  assert (forall cs' w, unchanged st (setWorld (setCounters st (<[counts := cs']> (counters st))) w)) as Hun.
  { intros cs' w. split; [done|]. simpl. apply length_insert. }
  destruct (counted (Entry.Level ent)) eqn:El.
  - destruct (sample_spec cs ps (Entry.Level ent) (Entry.Message ent) (Entry.Time ent) Hf Hc Ht Hlen El)
      as (cs' & dec & Hs & Hc' & Hd). rewrite Hd.
    assert (samplerDecision counts p ent st = Ret (Some dec, setCounters st (<[counts := cs']> (counters st)))) as Hdec.
    { unfold samplerDecision. by rewrite Hcs, Hs. }
    rewrite (run_bind _ _ _ _ _ Hdec).
    assert (lenZ (ps ++ [(slot (Entry.Level ent) (Entry.Message ent), UnixNano (Entry.Time ent))]) = lenZ ps + 1) as E
      by (unfold lenZ; rewrite length_app; simpl; lia).
    destruct dec; rewrite (run_bind _ _ _ _ _ (inWorld_run _ _)).
    + eexists [], _, _. split; [reflexivity|]. split; [reflexivity|]. split_and!; [constructor|apply Hun|exact (Hget _ _ Hc')|lia].
    + eexists _, _, _. split; [apply Hin; reflexivity|]. split; [reflexivity|]. split_and!; [done|apply Hun|exact (Hget _ _ Hc')|lia].
  - assert (samplerDecision counts p ent st = Ret (None, setCounters st (<[counts := cs]> (counters st)))) as Hdec.
    { unfold samplerDecision, Sampler.sample. rewrite Hcs. unfold counted in El. by rewrite El. }
    rewrite (run_bind _ _ _ _ _ Hdec). eexists _, _, _. split; [by apply Hin|]. split; [reflexivity|].
    split_and!; [done|apply (Hun cs (world st))|exact (Hget _ _ Hc)|lia].
Qed.

(** The loggers share the sampler, with its clock in range, or have none. *)
Record ready (st : Store W) (c : call) : Prop := {
  ready_skip : callerSkip (logger c) = lenZ (wrappers c);
  ready_depth : lenZ (wrappers c) < 2 ^ 61;
  ready_stack : allocated st (addStack (logger c));
  ready_core : wired isOutput st (core (logger c)) \/
    exists inner hook, core (logger c) = sampler inner counts p hook /\ wired isOutput st inner /\
      (counts < length (counters st))%nat /\
      forall w, Sampler.representable (Sampler.tick p) (UnixNano (clock (logger c) w).1)
}.

Definition possible (st : Store W) (act : action) : Prop :=
  match act with
  | Logs c => ready st c
  | Sets a _ => (a < length (atomics st))%nat
  end.

Lemma possible_same st st' act :
  length (atomics st') = length (atomics st) -> length (counters st') = length (counters st) ->
  possible st act -> possible st' act.
Proof.
  intros Ha Hc. destruct act as [c|a l]; simpl; [|by rewrite Ha]. intros [H1 H2 H3 H4]. constructor; try done.
  - apply (allocated_more st); [by rewrite Ha|done].
  - destruct H4 as [H4|(inner & hook & H4 & Hw & Hn & Ht)].
    + left. apply (wired_more _ st); [by rewrite Ha|done].
    + right. exists inner, hook. rewrite Hc. split_and!; try done. apply (wired_more _ st); [by rewrite Ha|done].
Qed.

(** [r] is what the specification says, and the counters are those of its entries. *)
Definition does (st : Store W) (ps : past) (spec : outcome (ending * past * W)) (r : outcome (ending * Store W)) : Prop :=
  match spec with
  | Ret (e, ps', w') => exists st', r = Ret (e, st') /\ world st' = w' /\ unchanged st st' /\ tracks st' ps' /\
                          lenZ ps' <= lenZ ps + 1
  | Prelude.Panic v => r = Prelude.Panic v
  | Diverge => r = Diverge
  end.

Lemma letThrough_atomics inner hook ent st st' ps w :
  atomics st' = atomics st -> letThrough inner hook ent st' ps w = letThrough inner hook ent st ps w.
Proof.
  intros Ha. unfold letThrough, outputs. by rewrite (willing_atomics st st' Ha), (outlets_atomics st st' Ha).
Qed.

Lemma callSpec_atomics (log : Logger W) lvl msg fields caller stack (st st' : Store W) w :
  atomics st' = atomics st ->
  callSpec reflected log lvl msg fields caller stack (setWorld st' w) = callSpec reflected log lvl msg fields caller stack (setWorld st w).
Proof.
  intros Ha. unfold callSpec, outputs.
  by rewrite (willing_atomics (setWorld st w) (setWorld st' w) Ha), (outlets_atomics (setWorld st w) (setWorld st' w) Ha).
Qed.

Lemma sampledSpec_atomics st st' c ps w : atomics st' = atomics st -> sampledSpec c st' ps w = sampledSpec c st ps w.
Proof.
  intros Ha. unfold sampledSpec, siteStack. rewrite (on_atomics st st' Ha), (callSpec_atomics _ _ _ _ _ _ st st' w Ha).
  destruct (core (logger c)); try done. rewrite (willing_atomics st st' Ha). destruct (_ && _); [done|].
  destruct (clock _ w) as [now w']. by rewrite (letThrough_atomics _ _ _ st st' _ _ Ha).
Qed.

(** A call without a sampler. *)
Lemma plain_call c (st : Store W) ps :
  (1 <= storage)%nat -> ready st c -> wired isOutput st (core (logger c)) -> tracks st ps ->
  does st ps (sampledSpec c st ps (world st)) (runCall c st).
Proof.
  intros Hs [Hskip Hdepth Hst _] Hw Htr. unfold sampledSpec, runCall, Log.
  rewrite (logAt_run reflected sprintEntry storage (logger c) (level c) (message c) (fields c) _ _ _ st Hw
    (annotates_site storage (logger c) (level c) _ (wrappers c) (site c) (outer c) st Hs Hskip Hdepth Hst)).
  rewrite setWorld_same. destruct (core (logger c)); try done.
  all: destruct (callSpec _ _ _ _ _ _ _ _) as [[e w]| |]; cbn [obind does]; [|done..].
  all: exists (setWorld st w); split_and!; [done..|lia].
Qed.

(** A call with one. *)
Lemma sampled_call c inner hook (st : Store W) ps :
  (1 <= storage)%nat -> 0 <= Sampler.first p -> ready st c -> tracks st ps -> lenZ ps + 1 < 2 ^ 64 ->
  core (logger c) = sampler inner counts p hook -> wired isOutput st inner -> (counts < length (counters st))%nat ->
  (forall w, Sampler.representable (Sampler.tick p) (UnixNano (clock (logger c) w).1)) ->
  does st ps (sampledSpec c st ps (world st)) (runCall c st).
Proof.
  intros Hs Hf [Hskip Hdepth Hst _] Htr Hlen Hcore Hw Hn Hclock. unfold sampledSpec, runCall. cbv zeta. rewrite Hcore.
  set (log := logger c) in *. specialize (Hclock (world st)).
  set (ent := Entry.mkEntry (level c) (clock log (world st)).1 (name log) (message c) Entry.noCaller []).
  destruct (sampled_Check inner hook ent (setWorld st (clock log (world st)).2) ps Hf Htr Hn
    ltac:(by apply (wired_more _ st)) Hclock Hlen) as (ces & ps' & st' & Hc & Hlt & Hout & [Ha Hcn] & Htr' & Hl).
  assert ((if level c <? Level.DPanicLevel then b ← Enabled (core log) (level c); mret (negb b) else mret false : M W bool) st =
    Ret ((level c <? Level.DPanicLevel) && negb (willing st (level c) inner), st)) as Hsk.
  { destruct (level c <? Level.DPanicLevel); [|done]. rewrite Hcore. cbn [Enabled].
    by rewrite (run_bind _ _ _ _ _ (Enabled_wired isOutput st (level c) _ Hw)). }
  assert (allocated st' (addStack log)) as Hst' by (apply (allocated_more st); [by rewrite Ha|done]).
  pose proof (annotates_site storage log (level c) (frameOf (str "zap.(*Logger).Log")) (wrappers c) (site c) (outer c) st'
    Hs Hskip Hdepth Hst') as Han.
  rewrite <- Hcore in Hc. unfold Log.
  rewrite (logAt_checked reflected sprintEntry storage log (level c) (message c) (fields c) _ _ _ _ ces st st' Hsk Hc Han Hout).
  destruct (_ && _); [exists st; split_and!; [done..|lia]|].
  rewrite (letThrough_atomics _ _ _ st (setWorld st (clock log (world st)).2) _ _ eq_refl) in Hlt.
  unfold ent in Hlt. cbn [world setWorld] in Hlt. unfold siteStack.
  rewrite (on_atomics st st' Ha). destruct (clock log (world st)) as [now w]. cbn [fst snd] in *. rewrite Hlt.
  destruct (afterCheck _ _ _ _ _ _ _ _ _ _) as [[e w']| |]; cbn [obind does]; [|done..].
  exists (setWorld st' w'). by split_and!.
Qed.

Lemma call_does c (st : Store W) ps :
  (1 <= storage)%nat -> 0 <= Sampler.first p -> ready st c -> tracks st ps -> lenZ ps + 1 < 2 ^ 64 ->
  does st ps (sampledSpec c st ps (world st)) (runCall c st).
Proof.
  intros Hs Hf Hr Htr Hlen. destruct (ready_core _ _ Hr) as [Hw|(inner & hook & Hcore & Hw & Hn & Ht)].
  - by apply plain_call.
  - by eapply sampled_call.
Qed.

(** The same levels, and what is allocated stays. *)
Lemma program_run acts (st0 st : Store W) ps :
  (1 <= storage)%nat -> 0 <= Sampler.first p -> atomics st = atomics st0 -> tracks st ps -> Forall (possible st) acts ->
  lenZ ps + lenZ acts < 2 ^ 64 ->
  (let! (e, st') := program acts st in Ret (e, world st')) = programSpec acts st0 ps (world st).
Proof.
  intros Hs Hf. revert st0 st ps. induction acts as [|act acts IH]; intros st0 st ps Ha Htr Hready Hlen; [done|].
  assert (lenZ (act :: acts) = lenZ acts + 1) as E by (unfold lenZ; simpl; lia). rewrite E in Hlen. pose proof (lenZ_nonneg acts).
  apply Forall_cons in Hready as [Hact Hready]. destruct act as [c|a l]; cbn [program programSpec]; unfold mbind, M_bind.
  - rewrite <- (sampledSpec_atomics st0 st c ps _ Ha).
    pose proof (call_does c st ps Hs Hf Hact Htr ltac:(lia)) as H1. unfold does in H1.
    destruct (sampledSpec c st ps (world st)) as [[[e ps'] w']| |]; cbn [obind]; [|by rewrite H1..].
    destruct H1 as (st' & -> & Hw & [Ha' Hc'] & Htr' & Hl'). cbn [obind]. destruct e; cbn; try by rewrite Hw.
    rewrite (IH st0 st' ps'); [by rewrite Hw|congruence|done| |lia].
    eapply Forall_impl; [exact Hready|]. intros act. apply possible_same; [by rewrite Ha'|done].
  - unfold setLevel, AtomicLevel.SetLevel, AtomicLevel.Store. simpl in Hact. rewrite decide_True by done. cbn [obind].
    apply (IH (setAtomics st0 (<[a := int32 l]> (atomics st0))) (setAtomics st (<[a := int32 l]> (atomics st))) ps); [|done| |lia].
    + by rewrite <- Ha.
    + eapply Forall_impl; [exact Hready|]. intros act. apply possible_same; [apply length_insert|done].
Qed.

(** C8: sampled logging.  A program logs, with any number of loggers of which some share a
    fresh sampler (as those that [With] derives do), over trees of tees, level filters and
    outputs, and sets atomic levels on the way; levels, messages, fields and sampling hooks
    are arbitrary, and so are the clocks, as long as the end of a window that a call opens is
    an [int64] of nanoseconds.  What the calls do, to the outputs, to the error output
    and to the hooks, and how they end, is what [programSpec] says: of the enabled entries
    of one level and one hash of the message, exactly those reach the outputs that the
    windows of their times let through ([windowDecision]: the first N in a tick, and then
    every Mth), whatever is logged in between; an entry that is dropped is not encoded,
    annotated or written, but still ends the call as its level says; an entry that is not
    enabled at the time of the call is not counted. *)
Theorem sampled_logging acts (st : Store W) :
  (1 <= storage)%nat -> 0 <= Sampler.first p ->
  (forall cs, counters st !! counts = Some cs -> cs = Sampler.newCounters) ->
  lenZ acts < 2 ^ 64 -> Forall (possible st) acts ->
  (let! (e, st') := program acts st in Ret (e, world st')) = programSpec acts st [] (world st).
Proof.
  intros Hs Hf Hnew Hlen Hready.
  assert (tracks st []) as Htr by (intros cs ->%Hnew; by repeat split).
  by apply program_run.
Qed.
End sampled.

(** * Two loggers with one sampler *)

Section demo.
#[local] Existing Instances Level.asciiStd flat_multierr.

Definition demoSampled (out : @WriteSyncer.WriteSyncer (list (bytes * bytes))) : Logger (list (bytes * bytes)) :=
  mkLogger (sampler (ioCore (enablerAtomic (Some 0%nat)) demoEncoder out) 0 Sampler.everyThird (fun _ _ w => w))
    false true None None (str "main") None (enablerLevel Level.ErrorLevel) 0 (fun w => (mkTime 5 UTC, w)).

Definition say (out : @WriteSyncer.WriteSyncer (list (bytes * bytes))) (msg : bytes) : action :=
  Logs (mkCall (demoSampled out) Level.InfoLevel msg [] [] LoggerSpec.site []).

(** Eight entries of one message, the first two and every third after them for the
    outputs, with an entry of another message and one that is not enabled between them. *)
Definition demoActions : list action :=
  [say console (str "hot"); Sets 0 Level.WarnLevel; say journal (str "hot"); Sets 0 Level.InfoLevel;
   say console (str "hot"); say journal (str "hot"); say console (str "cold"); say console (str "hot");
   say journal (str "hot"); say console (str "hot"); say console (str "hot"); say journal (str "hot")].

Definition demoCounters : Store (list (bytes * bytes)) := mkStore [] [] [Sampler.newCounters] [] [Level.InfoLevel].

Lemma sampled_logging_witness :
  (let! (e, st') := program noReflection (fun _ => []) 64 demoActions demoCounters in Ret (e, map fst (world st'))) =
  Ret (Returns, [str "console"; str "console"; str "console"; str "errors"; str "errors"]).
Proof.
  assert (Forall (possible 0 Sampler.everyThird demoCounters) demoActions) as Hready.
  { repeat apply Forall_cons_2; [..|by constructor].
    all: try (simpl; lia).
    all: constructor; try done; right; eexists _, _; split_and!; [reflexivity|by repeat econstructor|simpl; lia|done]. }
  pose proof (sampled_logging noReflection (fun _ => []) 64 0 Sampler.everyThird demoActions demoCounters
    ltac:(lia) ltac:(done) ltac:(intros cs [= <-]; reflexivity) ltac:(reflexivity) Hready) as H.
  destruct (program noReflection (fun _ => []) 64 demoActions demoCounters) as [[e st']| |]; cbn [obind] in H |- *.
  - assert (match programSpec noReflection Sampler.everyThird demoActions demoCounters [] [] with
            | Ret (e, w) => Ret (e, map fst w) | _ => Diverge end =
      Ret (Returns, [str "console"; str "console"; str "console"; str "errors"; str "errors"])) as E
      by (vm_compute; reflexivity).
    change (world demoCounters) with (@nil (bytes * bytes)) in H. rewrite <- H in E. exact E.
  - vm_compute in H. discriminate H.
  - vm_compute in H. discriminate H.
Defined.
End demo.
End LogSample.
