(* ===== verification/LogThreads.v ===== *)
(** Goroutines that log at the same time.

    A call of [Log] (logger.go) touches what goroutines share at several moments: it reads
    the levels of its cores, twice each, and the clock; it writes to each output, and
    flushes it; it reports errors.  [advance] takes a call from one such moment to the
    next, and [call_in_steps] says that these steps, taken without interruption, are the
    code of the call.  In a [running] program the steps of any number of goroutines are
    interleaved with one another, with the flush loop of the file they log to
    (zapcore/buffered_write_syncer.go) and with changes of levels (level.go).

    These steps are a specification of the interleavings, not a translation: what the code
    does in each of them is that of LogCall.v and BufferedWriteSyncer.v.  A call under a
    mutex is one step; waiting for a mutex is not modelled. *)

From Stdlib Require Import ZArith Lia.
From S2P Require Import Prelude GoStd Level AtomicLevel WriteSyncer Bufio BufferedWriteSyncer ZTest Encode Field Entry EncoderConfig JsonEncoder JsonTree JsonRefinement JsonLines Core CoreSpec CoreDelivery Stacktrace Logger LoggerSpec LogCall LogFile LogSample.
From stdpp Require Import base list relations.

Local Open Scope Z_scope.
Local Open Scope zap_scope.

Module LogThreads.
Import Encode Core CoreSpec CoreDelivery Stacktrace Logger LoggerSpec LogCall.

Abbreviation logger := LogSample.logger.
Abbreviation level := LogSample.level.
Abbreviation message := LogSample.message.
Abbreviation fields := LogSample.fields.
Abbreviation site := LogSample.site.
Abbreviation outer := LogSample.outer.

Section steps.
Context {W : Type} {std : GoStd} {ME : Multierr}.
Context (reflected : EncoderConfig.ReflectedEncoder) (sprintEntry : Entry.Entry -> bytes) (storage : nat).

Abbreviation call := (LogSample.call (W := W)).
Abbreviation output := (Encoder * @WriteSyncer.WriteSyncer W)%type.

(** * A call, one access to shared state after the other *)

(** Where a call is: which cores [Enabled] and [Check] have still to visit, what [Check] has
    collected, which outputs [Write] has still to write to, and the errors so far. *)
Inductive pc :=
| Asking (todo : list (Core W))
| Timing
| Collecting (now : Time) (todo : list (Core W)) (outs : list output)
| Annotating (now : Time) (outs : list output)
| Writing (ent : Entry.Entry) (outs : list output) (err : error)
| Flushing (ent : Entry.Entry) (out : @WriteSyncer.WriteSyncer W) (outs : list output) (err : error)
| Reporting (ent : Entry.Entry) (err : error)
| ReportFlushing (ent : Entry.Entry) (out : @WriteSyncer.WriteSyncer W)
| Ending (ent : Entry.Entry)
| Ended (e : ending)
| Died (v : bytes).

Definition start (c : call) : pc :=
  if level c <? Level.DPanicLevel then Asking [core (logger c)] else Timing.

(** The entry before and after its annotations. *)
Definition bare (c : call) (now : Time) : Entry.Entry :=
  Entry.mkEntry (level c) now (name (logger c)) (message c) Entry.noCaller [].

Definition annotated (c : call) (now : Time) (stack : bytes) : Entry.Entry :=
  Entry.mkEntry (level c) now (name (logger c)) (message c) (siteCaller (logger c) (site c)) stack.

(** [Enabled]: a tee asks its cores until one says yes, the others read one level. *)
Definition ask (c : call) (todo : list (Core W)) (st : Store W) : pc :=
  match todo with
  | multiCore cs :: todo => Asking (cs ++ todo)
  | levelFilterCore _ enab :: todo | ioCore enab _ _ :: todo =>
      if on st enab (level c) then Timing else Asking todo
  | _ :: todo => Asking todo
  | [] => Ended Returns
  end.

(** [Check]: an output that is enabled is collected. *)
Definition collect (c : call) (now : Time) (todo : list (Core W)) (outs : list output) (st : Store W) : pc :=
  match todo with
  | multiCore cs :: todo => Collecting now (cs ++ todo) outs
  | levelFilterCore core enab :: todo => Collecting now (if on st enab (level c) then core :: todo else todo) outs
  | ioCore enab enc out :: todo => Collecting now todo (if on st enab (level c) then outs ++ [(enc, out)] else outs)
  | _ :: todo => Collecting now todo outs
  | [] => match outs with [] => Ending (bare c now) | _ => Annotating now outs end
  end.

(** One output is written; encoding does not touch what is shared. *)
Definition write (c : call) (ent : Entry.Entry) (o : output) (outs : list output) (err : error) (st : Store W)
    : pc * Store W :=
  match Core.EncodeEntry reflected o.1 ent (fields c) with
  | Ret (_, Some e) => (Writing ent outs (multierr_Append err (Some e)), st)
  | Ret (line, None) =>
      let '((_, e), w) := WriteSyncer.Write o.2 line (world st) in
      (match e with
       | Some _ => Writing ent outs (multierr_Append err e)
       | None => if Level.ErrorLevel <? level c then Flushing ent o.2 outs err else Writing ent outs (multierr_Append err None)
       end, setWorld st w)
  | Prelude.Panic v => (Died v, st)
  | Diverge => (Writing ent (o :: outs) err, st)
  end.

Definition advance (c : call) (p : pc) (st : Store W) : pc * Store W :=
  match p with
  | Asking todo => (ask c todo st, st)
  | Timing => let '(now, w) := clock (logger c) (world st) in (Collecting now [core (logger c)] [], setWorld st w)
  | Collecting now todo outs => (collect c now todo outs st, st)
  | Annotating now outs =>
      (Writing (annotated c now (siteStack (logger c) (level c) st (site c) (outer c))) outs None, st)
  | Writing ent [] err => (Reporting ent err, st)
  | Writing ent (o :: outs) err => write c ent o outs err st
  | Flushing ent out outs err =>
      (Writing ent outs (multierr_Append err None), setWorld st (WriteSyncer.Sync out (world st)).2)
  | Reporting ent err =>
      match err, errorOutput (logger c) with
      | Some e, Some out =>
          (ReportFlushing ent out,
           setWorld st (WriteSyncer.Write out (timeString (Entry.Time ent) ++ str " write error: " ++ Error_text e ++ [x0a])
                          (world st)).2)
      | _, _ => (Ending ent, st)
      end
  | ReportFlushing ent out => (Ending ent, setWorld st (WriteSyncer.Sync out (world st)).2)
  | Ending ent =>
      let '(e, w) := endCall (terminal (logger c) (level c)) ent (fields c) (world st) in (Ended e, setWorld st w)
  | Ended _ | Died _ => (p, st)
  end.

(** The steps of a call that nothing interrupts. *)
Definition moves (c : call) : relation (pc * Store W) := rtc (fun x y => advance c x.1 x.2 = y).

Lemma moves_step c p st p' st' y :
  advance c p st = (p', st') -> moves c (p', st') y -> moves c (p, st) y.
Proof. intros H1 H2. eapply rtc_l; [exact H1|exact H2]. Qed.

Lemma moves_ask c core todo (st : Store W) :
  wired isOutput st core ->
  moves c (Asking (core :: todo), st) (if willing st (level c) core then Timing else Asking todo, st).
Proof.
  revert todo. induction core as [|enab enc out|cs IH|core fs IH|ref core lf IH|core enab IH|core k p hook IH|] using Core_tree_ind;
    intros todo Hw; try done.
  - eapply moves_step; [reflexivity|]. apply rtc_refl.
  - eapply moves_step; [reflexivity|]. apply rtc_refl.
  - apply wired_multi in Hw. eapply moves_step; [reflexivity|]. cbn [ask willing].
    induction IH as [|core cs H _ IHcs]; [apply rtc_refl|]. apply Forall_cons in Hw as [H1 H2].
    cbn [existsb app]. etrans; [by apply H|]. destruct (willing st (level c) core); [apply rtc_refl|]. by apply IHcs.
  - eapply moves_step; [reflexivity|]. apply rtc_refl.
  - by destruct Hw.
Qed.

Lemma moves_collect c now core todo outs (st : Store W) :
  wired isOutput st core ->
  moves c (Collecting now (core :: todo) outs, st) (Collecting now todo (outs ++ outputs st (level c) core), st).
Proof.
  revert todo outs. unfold outputs.
  induction core as [|enab enc out|cs IH|core fs IH|ref core lf IH|core enab IH|core k p hook IH|] using Core_tree_ind;
    intros todo outs Hw; try done; eapply moves_step; try reflexivity; cbn [collect outlets].
  - rewrite app_nil_r. apply rtc_refl.
  - destruct (on st enab (level c)); cbn [omap list_omap outputOf]; rewrite ?app_nil_r; apply rtc_refl.
  - apply wired_multi in Hw. revert outs.
    induction IH as [|core cs H _ IHcs]; intros outs; [cbn; rewrite app_nil_r; apply rtc_refl|].
    apply Forall_cons in Hw as [H1 H2]. cbn [map concat app]. rewrite omap_app, app_assoc.
    etrans; [by apply H|]. by apply IHcs.
  - destruct Hw as [_ Hw]. destruct (on st enab (level c)); [by apply IH|]. cbn. rewrite app_nil_r. apply rtc_refl.
  - by destruct Hw.
Qed.

Lemma moves_write c ent outs err (st : Store W) :
  Entry.Level ent = level c ->
  match writeAll reflected ent (fields c) outs err (world st) with
  | Ret (err', w) => moves c (Writing ent outs err, st) (Reporting ent err', setWorld st w)
  | Prelude.Panic v => exists w, moves c (Writing ent outs err, st) (Died v, setWorld st w)
  | Diverge => False
  end.
Proof.
  intros Hlvl. revert err st. induction outs as [|o outs IH]; intros err st; cbn [writeAll].
  { rewrite setWorld_same. eapply moves_step; [reflexivity|]. apply rtc_refl. }
  assert (forall err' w, moves c (Writing ent (o :: outs) err, st) (Writing ent outs err', setWorld st w) ->
    match writeAll reflected ent (fields c) outs err' w with
    | Ret (err', w) => moves c (Writing ent (o :: outs) err, st) (Reporting ent err', setWorld st w)
    | Prelude.Panic v => exists w, moves c (Writing ent (o :: outs) err, st) (Died v, setWorld st w)
    | Diverge => False
    end) as Hnext.
  { intros err' w Hm. specialize (IH err' (setWorld st w)). cbn [world setWorld] in IH.
    destruct (writeAll _ _ _ _ _ _) as [[err2 w2]|v|]; [by etrans| |done].
    destruct IH as [w2 H2]. exists w2. by etrans. }
  unfold writeOne. destruct (Core.EncodeEntry reflected o.1 ent (fields c)) as [[line [e|]]|v|] eqn:Ee; cbn [obind].
  - apply Hnext. eapply moves_step; [cbn [advance]; unfold write; rewrite Ee; reflexivity|]. rewrite setWorld_same. apply rtc_refl.
  - destruct (WriteSyncer.Write o.2 line (world st)) as [[n [e|]] w] eqn:Ew; cbn [obind]; apply Hnext.
    + eapply moves_step; [cbn [advance]; unfold write; rewrite Ee, Ew; reflexivity|]. apply rtc_refl.
    + rewrite Hlvl. eapply moves_step; [cbn [advance]; unfold write; rewrite Ee, Ew; reflexivity|].
      destruct (_ <? _); [|apply rtc_refl]. eapply moves_step; [reflexivity|]. apply rtc_refl.
  - exists (world st). rewrite setWorld_same. eapply moves_step; [cbn [advance]; unfold write; rewrite Ee; reflexivity|]. apply rtc_refl.
  - by apply CoreSpec.EncodeEntry_total in Ee.
Qed.

Lemma moves_end c ent (st : Store W) e w :
  endCall (terminal (logger c) (level c)) ent (fields c) (world st) = (e, w) ->
  moves c (Ending ent, st) (Ended e, setWorld st w).
Proof. intros H. eapply moves_step; [cbn [advance]; rewrite H; reflexivity|]. apply rtc_refl. Qed.

Lemma moves_report c ent err (st : Store W) :
  moves c (Reporting ent err, st)
    (Ending ent, setWorld st (reported (errorOutput (logger c)) (Entry.Time ent) err (world st))).
Proof.
  unfold reported. destruct err as [e|] eqn:Ee, (errorOutput (logger c)) as [out|] eqn:Eo;
    (eapply moves_step; [cbn [advance]; rewrite ?Eo; reflexivity|]); rewrite ?setWorld_same; try apply rtc_refl.
  eapply moves_step; [reflexivity|]. apply rtc_refl.
Qed.

(** From the reading of the clock on. *)
Lemma moves_checked c (st : Store W) :
  wired isOutput st (core (logger c)) ->
  let '(now, w) := clock (logger c) (world st) in
  match afterCheck reflected (logger c) (outputs st (level c) (core (logger c))) (level c) now (message c) (fields c)
          (siteCaller (logger c) (site c)) (siteStack (logger c) (level c) st (site c) (outer c)) w with
  | Ret (e, w) => moves c (Timing, st) (Ended e, setWorld st w)
  | Prelude.Panic v => exists st', moves c (Timing, st) (Died v, st')
  | Diverge => False
  end.
Proof.
  intros Hw. destruct (clock (logger c) (world st)) as [now w] eqn:Ec.
  assert (moves c (Timing, st) (Collecting now [] (outputs st (level c) (core (logger c))), setWorld st w)) as Hout.
  { eapply moves_step; [cbn [advance]; rewrite Ec; reflexivity|]. etrans; [apply moves_collect|].
    - by apply (wired_more _ st).
    - unfold outputs. rewrite (outlets_atomics st (setWorld st w) eq_refl). apply rtc_refl. }
  unfold afterCheck. destruct (outputs st (level c) (core (logger c))) as [|o outs].
  { destruct (endCall _ _ _ w) as [e w'] eqn:Ee. etrans; [exact Hout|]. eapply moves_step; [reflexivity|].
    rewrite <- (setWorld_twice st w w'). by apply moves_end. }
  set (ent := Entry.mkEntry _ _ _ _ _ _).
  assert (moves c (Timing, st) (Writing ent (o :: outs) None, setWorld st w)) as Hwr.
  { etrans; [exact Hout|]. eapply moves_step; [reflexivity|]. eapply moves_step; [reflexivity|].
    unfold siteStack. rewrite (on_atomics st (setWorld st w) eq_refl). apply rtc_refl. }
  pose proof (moves_write c ent (o :: outs) None (setWorld st w) eq_refl) as H. cbn [world setWorld] in H.
  destruct (writeAll _ _ _ _ _ w) as [[err w']|v|]; cbn [obind]; [| |done].
  - destruct (endCall _ _ _ _) as [e w''] eqn:Ee. etrans; [exact Hwr|]. etrans; [exact H|]. etrans; [apply moves_report|].
    rewrite <- (setWorld_twice st (reported (errorOutput (logger c)) (Entry.Time ent) err w') w''). by apply moves_end.
  - destruct H as [w' H]. eexists. etrans; [exact Hwr|exact H].
Qed.

(** The steps are the code: a call that nothing interrupts ends as [Log] does, in the store
    that [Log] leaves, or dies of the same panic. *)
Theorem call_in_steps (c : call) (st : Store W) :
  (1 <= storage)%nat -> callerSkip (logger c) = lenZ (LogSample.wrappers c) -> lenZ (LogSample.wrappers c) < 2 ^ 61 ->
  wired isOutput st (core (logger c)) -> allocated st (addStack (logger c)) ->
  match Log reflected sprintEntry storage (logger c) (level c) (message c) (fields c)
          (LogSample.wrappers c ++ site c :: outer c) st with
  | Ret (e, st') => moves c (start c, st) (Ended e, st')
  | Prelude.Panic v => exists st', moves c (start c, st) (Died v, st')
  | Diverge => False
  end.
Proof.
  intros Hs Hk Hlt Hw Ha. unfold Log.
  rewrite (logAt_run reflected sprintEntry storage _ _ _ _ _ _ _ st Hw
    (annotates_site storage _ _ _ (LogSample.wrappers c) (site c) (outer c) st Hs Hk Hlt Ha)).
  assert (moves c (start c, st) (if (level c <? Level.DPanicLevel) && negb (willing st (level c) (core (logger c)))
    then Ended Returns else Timing, st)) as Hstart.
  { unfold start. destruct (_ <? _); [|apply rtc_refl]. etrans; [by apply moves_ask|].
    destruct (willing _ _ _); [apply rtc_refl|]. eapply moves_step; [reflexivity|]. apply rtc_refl. }
  unfold callSpec. destruct (_ && _); [cbn; by rewrite setWorld_same|].
  pose proof (moves_checked c st Hw) as H. destruct (clock (logger c) (world st)) as [now w].
  destruct (afterCheck _ _ _ _ _ _ _ _ _ _) as [[e w']|v|]; cbn [obind]; [by etrans| |done].
  destruct H as [st' H]. exists st'. by etrans.
Qed.

Definition ended (p : pc) : bool := match p with Ended _ => true | _ => false end.

(** The call is over: it ended, or it died of the panic of a marshaler, after which
    deferred functions may log. *)
Definition over (p : pc) : bool := match p with Ended _ | Died _ => true | _ => false end.

(** The line that the next step of a call writes. *)
Definition emits (c : call) (p : pc) : list bytes :=
  match p with
  | Writing ent (o :: _) _ =>
      match Core.EncodeEntry reflected o.1 ent (fields c) with
      | Ret (line, None) => [line]
      | _ => []
      end
  | _ => []
  end.

(** * What a call may collect while levels change *)

(** Levels that stay as they are while the program runs: these enablers have one answer. *)
Context (fixed : enabler -> Level.Level -> option bool).

Definition respects (st : Store W) : Prop := forall e lvl b, fixed e lvl = Some b -> on st e lvl = b.

Inductive collects (lvl : Level.Level) : list (Core W) -> list output -> Prop :=
| collects_done : collects lvl [] []
| collects_nop todo outs : collects lvl todo outs -> collects lvl (nopCore :: todo) outs
| collects_tee cs todo outs : collects lvl (cs ++ todo) outs -> collects lvl (multiCore cs :: todo) outs
| collects_pass core enab todo outs :
    fixed enab lvl <> Some false -> collects lvl (core :: todo) outs -> collects lvl (levelFilterCore core enab :: todo) outs
| collects_stop core enab todo outs :
    fixed enab lvl <> Some true -> collects lvl todo outs -> collects lvl (levelFilterCore core enab :: todo) outs
| collects_take enab enc out todo outs :
    fixed enab lvl <> Some false -> collects lvl todo outs -> collects lvl (ioCore enab enc out :: todo) ((enc, out) :: outs)
| collects_leave enab enc out todo outs :
    fixed enab lvl <> Some true -> collects lvl todo outs -> collects lvl (ioCore enab enc out :: todo) outs.

(** While all levels stay as in [st], a call collects the outputs that [callSpec] names. *)
Lemma collects_all_fixed (st : Store W) lvl todo outs :
  (forall e, fixed e lvl = Some (on st e lvl)) -> collects lvl todo outs -> Forall (wired isOutput st) todo ->
  outs = concat (map (outputs st lvl) todo).
Proof.
  intros Hfix. unfold outputs. induction 1 as [|todo outs _ IH|cs todo outs _ IH|core enab todo outs He _ IH|core enab todo outs He _ IH|
    enab enc out todo outs He _ IH|enab enc out todo outs He _ IH]; intros Hw; [done|..];
    apply Forall_cons in Hw as [Hc Hw]; cbn [map concat outlets]; try rewrite Hfix in He.
  - by apply IH.
  - apply wired_multi in Hc. rewrite IH by by apply Forall_app. rewrite map_app, concat_app. f_equal.
    clear. induction cs as [|c cs IH]; [done|]. cbn [map concat]. by rewrite omap_app, IH.
  - destruct (on st enab lvl); [|done]. destruct Hc as [_ Hc]. by rewrite IH by by constructor.
  - destruct (on st enab lvl); [done|]. by apply IH.
  - destruct (on st enab lvl); [|done]. cbn. by rewrite IH.
  - destruct (on st enab lvl); [done|]. by apply IH.
Qed.

(** The lines of a call: the outputs that it collected, or the first of them if it is not
    at its end yet, each got the line that its encoder makes of the entry. *)
Definition stackOf (c : call) (stack : bytes) : Prop :=
  exists b, fixed (addStack (logger c)) (level c) <> Some (negb b) /\ stack = if b : bool then traceOf (site c) (outer c) else [].

Definition writes (c : call) (ent : Entry.Entry) (outs : list output) (ls : list bytes) : Prop :=
  Forall2 (fun (o : output) l => Core.EncodeEntry reflected o.1 ent (fields c) = Ret (l, None)) outs ls.

Definition spoken (c : call) (p : pc) (ls : list bytes) : Prop :=
  ended p = false /\ ls = [] \/
  exists σ stack outs unwritten,
    collects (level c) [core (logger c)] (outs ++ unwritten) /\ (ended p = true -> unwritten = []) /\
    stackOf c stack /\ writes c (annotated c (clock (logger c) σ).1 stack) outs ls.
End steps.

Arguments pc : clear implicits.

Section file.
Context {W : Type} {std : GoStd} {ME : Multierr} {MS : MultierrSpec ME} (WS : @WriteSyncer.WriteSyncer W).
Context (Hok : Bufio.NeverFails (WriteSyncer.Write WS)).
Context (d : EncoderConfig.ReflectedEncoder) (cfg : EncoderConfig.EncoderConfig) (sp : bool).
Context (fixed : enabler -> Level.Level -> option bool).

Abbreviation System := (BufferedWriteSyncer.System W).
Abbreviation call := (LogSample.call (W := System)).
Abbreviation output := (Encoder * @WriteSyncer.WriteSyncer System)%type.

Let root : JsonEncoder.jsonEncoder := JsonEncoder.newJSONEncoder d cfg sp.

(** * Goroutines that log to one file *)

(** An output that encodes to JSON, for the file. *)
Definition fileOutput (o : output) : Prop :=
  (exists enc, o.1 = jsonEncoder enc /\ JsonLines.derived d cfg sp enc) /\ LogFile.toFile WS o.2.

Definition fileLeaf (c : Core System) : Prop := from_option fileOutput False (outputOf c).

(** A call through a logger whose outputs are for the file. *)
Record callable (st : Store System) (c : call) : Prop := {
  ca_core : wired fileLeaf st (core (logger c));
  ca_stack : allocated st (addStack (logger c));
  ca_skip : callerSkip (logger c) = lenZ (LogSample.wrappers c) /\ lenZ (LogSample.wrappers c) < 2 ^ 61;
  ca_clock : forall σ, (clock (logger c) σ).2 = σ;
  ca_panic : LogFile.aloof (onPanic (logger c));
  ca_fatal : LogFile.aloof (onFatal (logger c))
}.

(** The calls that goroutines have begun, each with the point where it is; of a goroutine,
    all but the last are over. *)
Definition goroutine : Type := list (call * pc System).

(** A program runs: it makes a syncer; it starts goroutines; a goroutine begins a call when
    its last one is over; a goroutine goes one step further in its call; the flush loop
    runs, and clients sync and stop the syncer; a level changes.  The lines that were
    written are kept, each with its goroutine. *)
Inductive running : list goroutine -> Store System -> list (nat * bytes) -> Prop :=
| running_start size interval clock w st :
    world st = BufferedWriteSyncer.initial size interval clock w ->
    LogFile.ready (BufferedWriteSyncer.fresh size interval clock) -> respects fixed st -> running [] st []
| running_go gs st events : running gs st events -> running (gs ++ [[]]) st events
| running_call gs st events i g c :
    running gs st events -> gs !! i = Some g -> forallb (fun cp => over cp.2) g = true -> callable st c ->
    running (<[i := g ++ [(c, start c)]]> gs) st events
| running_step gs st events i g c p p' st' :
    running gs st events -> gs !! i = Some (g ++ [(c, p)]) -> advance d c p st = (p', st') ->
    running (<[i := g ++ [(c, p')]]> gs) st' (events ++ map (fun l => (i, l)) (emits d c p))
| running_background gs st events σ' :
    running gs st events -> BufferedWriteSyncer.step WS (world st) σ' ->
    BufferedWriteSyncer.writes σ' = BufferedWriteSyncer.writes (world st) -> running gs (setWorld st σ') events
| running_level gs st events levels :
    running gs st events -> length levels = length (atomics st) -> respects fixed (setAtomics st levels) ->
    running gs (setAtomics st levels) events.

(** The lines of a goroutine. *)
Definition linesOf (i : nat) (events : list (nat * bytes)) : list bytes := map snd (filter (fun e => e.1 = i) events).

(** * The invariant *)

Definition filed (c : Core System) : Prop := exists st, wired fileLeaf st c.

(** What a call has written at each point, and what it will write. *)
Definition wrote (c : call) (ent : Entry.Entry) (outs : list output) (ls : list bytes) : Prop :=
  exists σ stack written,
    ent = annotated c (clock (logger c) σ).1 stack /\ collects fixed (level c) [core (logger c)] (written ++ outs) /\
    stackOf fixed c stack /\ Forall fileOutput outs /\ writes d c ent written ls.

Definition progress (c : call) (p : pc System) (ls : list bytes) : Prop :=
  match p with
  | Asking todo =>
      ls = [] /\ Forall filed todo /\
      forall outs, collects fixed (level c) todo outs -> collects fixed (level c) [core (logger c)] outs
  | Timing => ls = []
  | Collecting now todo outs =>
      ls = [] /\ (exists σ, now = (clock (logger c) σ).1) /\ Forall filed todo /\ Forall fileOutput outs /\
      forall outs', collects fixed (level c) todo outs' -> collects fixed (level c) [core (logger c)] (outs ++ outs')
  | Annotating now outs =>
      ls = [] /\ (exists σ, now = (clock (logger c) σ).1) /\ Forall fileOutput outs /\
      collects fixed (level c) [core (logger c)] outs
  | Writing ent outs err => err = None /\ wrote c ent outs ls
  | Flushing ent out outs err => err = None /\ LogFile.toFile WS out /\ wrote c ent outs ls
  | Reporting ent err => err = None /\ wrote c ent [] ls
  | ReportFlushing _ _ => False
  | Ending _ | Ended _ => spoken d fixed c (Ended Returns) ls
  | Died _ => spoken d fixed c p ls
  end.

Lemma progress_spoken c p ls : progress c p ls -> spoken d fixed c p ls.
Proof.
  assert (forall ent outs p, wrote c ent outs ls -> ended p = false -> spoken d fixed c p ls) as Hw.
  { intros ent outs p0 (σ & stack & written & -> & Hc & Hst & _ & Hls) Hp. right. exists σ, stack, written, outs.
    split_and!; try done. by rewrite Hp. }
  destruct p; cbn [progress]; try (by intros (-> & _); left); try done.
  - by left.
  - intros [_ H]. by eapply Hw.
  - intros (_ & _ & H). by eapply Hw.
  - intros [_ H]. by eapply Hw.
  - intros [[? _]|(σ & stack & outs & un & ? & ? & ? & ?)]; [done|]. right. exists σ, stack, outs, un. by split_and!.
Qed.

Lemma some_stack (c : call) : exists stack, stackOf fixed c stack.
Proof.
  exists (if default false (fixed (addStack (logger c)) (level c)) then traceOf (site c) (outer c) else []).
  eexists. split; [|reflexivity]. by destruct (fixed _ _) as [[]|].
Qed.

(** A call that collected nothing is at its end without a line. *)
Lemma spoken_nothing (σ : System) (c : call) e :
  collects fixed (level c) [core (logger c)] [] -> spoken d fixed c (Ended e) [].
Proof. intros H. destruct (some_stack c) as [stack Hs]. right. exists σ, stack, [], []. split_and!; try done. constructor. Qed.

Lemma filed_inv c :
  filed c ->
  match c with
  | nopCore => True
  | ioCore _ enc out => fileOutput (enc, out)
  | multiCore cs => Forall filed cs
  | levelFilterCore c _ => filed c
  | _ => False
  end.
Proof.
  intros [st H]. destruct c as [|enab enc out|cs|c fs|ref c fs|c enab|c k p hook|enab ref fs]; try done.
  - by destruct H.
  - apply wired_multi in H. eapply Forall_impl; [exact H|]. intros c Hc. by exists st.
  - destruct H. by exists st.
  - by destruct H.
Qed.

Lemma fixed_on (st : Store System) e lvl b : respects fixed st -> on st e lvl = b -> fixed e lvl <> Some (negb b).
Proof. intros H Hon E. apply H in E. rewrite Hon in E. by destruct b. Qed.

(** The steps of [Enabled] and [Check]. *)
Lemma ask_progress c todo ls (st : Store System) :
  respects fixed st -> progress c (Asking todo) ls -> progress c (ask c todo st) ls.
Proof.
  intros Hr (-> & Hf & H). destruct todo as [|core todo]; cbn [ask].
  { apply (spoken_nothing (world st)). apply H. constructor. }
  apply Forall_cons in Hf as [Hc Hf]. apply filed_inv in Hc.
  destruct core as [|enab enc out|cs|core fs|ref core fs|core enab|core k p hook|enab ref fs]; try done.
  - split_and!; try done. intros outs Ho. apply H. by constructor.
  - destruct (on st enab (level c)) eqn:E; [done|]. split_and!; try done. intros outs Ho. apply H, collects_leave; [|done].
    exact (fixed_on _ _ _ _ Hr E).
  - split_and!; [done|by apply Forall_app|]. intros outs Ho. apply H. by constructor.
  - destruct (on st enab (level c)) eqn:E; [done|]. split_and!; try done. intros outs Ho. apply H, collects_stop; [|done].
    exact (fixed_on _ _ _ _ Hr E).
Qed.

Lemma collect_progress c now todo outs ls (st : Store System) :
  respects fixed st -> progress c (Collecting now todo outs) ls -> progress c (collect c now todo outs st) ls.
Proof.
  intros Hr (-> & Hn & Hf & Ho & H). destruct todo as [|core todo]; cbn [collect].
  { specialize (H [] ltac:(constructor)). rewrite app_nil_r in H.
    destruct outs as [|o outs]; [by apply (spoken_nothing (world st) c Returns)|by split_and!]. }
  apply Forall_cons in Hf as [Hc Hf]. apply filed_inv in Hc.
  destruct core as [|enab enc out|cs|core fs|ref core fs|core enab|core k p hook|enab ref fs]; try done.
  - split_and!; try done. intros outs' Ho'. apply H. by constructor.
  - pose proof (fixed_on st enab (level c) _ Hr eq_refl) as He. destruct (on st enab (level c)); split_and!; try done.
    + by apply Forall_app; split; [|apply Forall_singleton].
    + intros outs' Ho'. rewrite <- app_assoc. apply H. by apply collects_take.
    + intros outs' Ho'. apply H. by apply collects_leave.
  - split_and!; try done; [by apply Forall_app|]. intros outs' Ho'. apply H. by constructor.
  - pose proof (fixed_on st enab (level c) _ Hr eq_refl) as He. destruct (on st enab (level c)); split_and!; try done.
    + by constructor.
    + intros outs' Ho'. apply H. by apply collects_pass.
    + intros outs' Ho'. apply H. by apply collects_stop.
Qed.

(** The file after a step: it is alive, and got the line of the step if there was one. *)
Definition filedStep (c : call) (p : pc System) (st st' : Store System) : Prop :=
  atomics st' = atomics st /\ LogFile.gained WS (world st) (emits d c p) (world st') /\
  Forall (JsonLines.encoded d cfg sp) (emits d c p).

Lemma filedStep_same c p (st : Store System) : emits d c p = [] -> LogFile.lives WS (world st) -> filedStep c p st st.
Proof. intros E Hl. unfold filedStep, LogFile.gained. rewrite E, app_nil_r. by split_and!. Qed.

Lemma filedStep_sync c p out (st : Store System) :
  emits d c p = [] -> LogFile.lives WS (world st) -> LogFile.toFile WS out ->
  filedStep c p st (setWorld st (WriteSyncer.Sync out (world st)).2).
Proof.
  intros E Hl [_ Hs]. rewrite Hs. destruct (LogFile.fileSync_step WS (world st)) as [Hstep Hw].
  unfold filedStep, LogFile.gained. rewrite E, app_nil_r. cbn [world setWorld]. rewrite Hw. split_and!; try done.
  by eapply LogFile.lives_step.
Qed.

Lemma write_progress c ent o outs err ls (st st' : Store System) p' :
  LogFile.lives WS (world st) -> progress c (Writing ent (o :: outs) err) ls ->
  write d c ent o outs err st = (p', st') ->
  progress c p' (ls ++ emits d c (Writing ent (o :: outs) err)) /\ filedStep c (Writing ent (o :: outs) err) st st'.
Proof.
  intros Hl (-> & σ & stack & written & -> & Hc & Hst & Hf & Hls). set (ent := annotated _ _ _) in *.
  apply Forall_cons in Hf as [[(enc & Henc & Hder) Hout] Hf]. destruct o as [oe out]. cbn [fst snd] in *. subst oe.
  unfold write, filedStep, LogFile.gained, emits. cbn [fst snd Core.EncodeEntry].
  destruct (JsonEncoder.EncodeEntry d enc ent (fields c)) as [[line e]|v|] eqn:Ee.
  - pose proof (LogFile.json_no_error _ _ _ _ _ _ Ee) as ->.
    destruct (LogFile.fileWrite_step WS Hok line (world st) Hl) as (n & σ' & Ew & Hstep & Hw).
    rewrite (proj1 Hout), Ew. intros [= <- <-].
    assert (wrote c ent outs (ls ++ [line])) as Hwrote.
    { exists σ, stack, (written ++ [(jsonEncoder enc, out)]). rewrite <- app_assoc. split_and!; try done.
      apply Forall2_app; [done|]. constructor; [exact Ee|constructor]. }
    split; [destruct (_ <? _)|].
    + by split_and!.
    + split; [|done]. by rewrite Append_nil_l.
    + split_and!; try done; [by eapply LogFile.lives_step|cbn [world setWorld]; by rewrite Hw, map_app|].
      apply Forall_singleton. do 3 eexists. split; [exact Hder|exact Ee].
  - intros [= <- <-]. rewrite !app_nil_r. split; [|by split_and!]. right. exists σ, stack, written, ((jsonEncoder enc, out) :: outs).
    by split_and!.
  - intros [= <- <-]. rewrite !app_nil_r. split; [|by split_and!]. split; [done|]. exists σ, stack, written. split_and!; try done.
    constructor; [|done]. split; [by exists enc|done].
Qed.

(** Every step keeps a call on its way, and gives the file the line it writes. *)
Lemma advance_progress c p ls (st0 st st' : Store System) p' :
  LogFile.lives WS (world st) -> respects fixed st -> callable st0 c -> progress c p ls -> advance d c p st = (p', st') ->
  progress c p' (ls ++ emits d c p) /\ filedStep c p st st'.
Proof.
  intros Hl Hr [Hcore Hstk _ Hclock Hp Hf] H.
  assert (forall p', emits d c p = [] -> progress c p' ls -> progress c p' (ls ++ emits d c p) /\ filedStep c p st st) as Hsame.
  { intros q E Hq. rewrite E, app_nil_r. split; [done|]. by apply filedStep_same. }
  destruct p as [todo| |now todo outs|now outs|ent [|o outs] err|ent out outs err|ent err|ent out|ent|e|v]; cbn [advance].
  - intros [= <- <-]. apply Hsame; [done|]. by apply ask_progress.
  - pose proof (Hclock (world st)) as Hk. destruct (clock (logger c) (world st)) as [now w] eqn:Ek. cbn [snd] in Hk. subst w.
    intros [= <- <-]. rewrite setWorld_same. apply Hsame; [done|]. cbn [progress] in *. split_and!; try done.
    + exists (world st). by rewrite Ek.
    + apply Forall_singleton. by exists st0.
  - intros [= <- <-]. apply Hsame; [done|]. by apply collect_progress.
  - intros [= <- <-]. apply Hsame; [done|]. destruct H as (-> & [σ ->] & Ho & Hc). split; [done|].
    exists σ, (siteStack (logger c) (level c) st (site c) (outer c)), []. split_and!; try done; [|constructor].
    exists (on st (addStack (logger c)) (level c)). split; [exact (fixed_on _ _ _ _ Hr eq_refl)|done].
  - intros [= <- <-]. by apply Hsame.
  - intros E. by apply (write_progress c ent o outs err ls st st' p').
  - destruct H as (-> & Hto & Hw). intros [= <- <-]. rewrite app_nil_r. split; [|by apply filedStep_sync].
    split; [by rewrite Append_nil_l|done].
  - destruct H as (-> & σ & stack & written & -> & Hc & Hst & _ & Hls). intros [= <- <-]. apply Hsame; [done|].
    right. exists σ, stack, written, []. by split_and!.
  - done.
  - destruct (LogFile.endCall_standard (logger c) (level c) ent (fields c) (world st) Hp Hf) as [e He]. rewrite He.
    intros [= <- <-]. rewrite setWorld_same. by apply Hsame.
  - intros [= <- <-]. by apply Hsame.
  - intros [= <- <-]. by apply Hsame.
Qed.

(** * The invariant of a program *)

Definition onCourse (g : goroutine) (ls : list bytes) : Prop :=
  exists lss, concat lss = ls /\
    Forall2 (fun (cp : call * pc System) l => (exists st0, callable st0 cp.1) /\ progress cp.1 cp.2 l) g lss.

Record sane (gs : list goroutine) (st : Store System) (events : list (nat * bytes)) : Prop := {
  sa_lives : LogFile.lives WS (world st);
  sa_writes : map fst (BufferedWriteSyncer.writes (world st)) = map snd events;
  sa_encoded : Forall (JsonLines.encoded d cfg sp) (map snd events);
  sa_levels : respects fixed st;
  sa_known : Forall (fun e => e.1 < length gs)%nat events;
  sa_course : forall i g, gs !! i = Some g -> onCourse g (linesOf i events)
}.

Lemma linesOf_app i evs evs' : linesOf i (evs ++ evs') = linesOf i evs ++ linesOf i evs'.
Proof. unfold linesOf. by rewrite filter_app, map_app. Qed.

Lemma linesOf_same i ls : linesOf i (map (fun l => (i, l)) ls) = ls.
Proof. unfold linesOf. induction ls as [|l ls IH]; [done|]. cbn [map]. rewrite filter_cons_True by done. cbn. by rewrite IH. Qed.

Lemma linesOf_other i j ls : i <> j -> linesOf j (map (fun l => (i, l)) ls) = [].
Proof. unfold linesOf. intros Hij. induction ls as [|l ls IH]; [done|]. cbn [map]. by rewrite filter_cons_False. Qed.

Lemma linesOf_unknown i evs : Forall (fun e => e.1 < i)%nat evs -> linesOf i evs = [].
Proof.
  unfold linesOf. induction 1 as [|[j l] evs Hj _ IH]; [done|]. rewrite filter_cons_False; [done|]. cbn in *. lia.
Qed.

Lemma respects_atomics (st st' : Store System) : atomics st' = atomics st -> respects fixed st -> respects fixed st'.
Proof. intros E H e lvl b Hb. rewrite (on_atomics st st' E). by apply H. Qed.

Lemma onCourse_step g c p p' ls (st st' : Store System) :
  LogFile.lives WS (world st) -> respects fixed st -> onCourse (g ++ [(c, p)]) ls -> advance d c p st = (p', st') ->
  onCourse (g ++ [(c, p')]) (ls ++ emits d c p) /\ filedStep c p st st'.
Proof.
  intros Hl Hr (lss & <- & H) Ha. apply Forall2_app_inv_l in H as (lss' & lssc & Hg & Hc & ->).
  apply Forall2_cons_inv_l in Hc as (l & ? & [[st0 Hst0] Hc] & ->%Forall2_nil_inv_l & ->). cbn [fst snd] in *.
  destruct (advance_progress c p l st0 st st' p' Hl Hr Hst0 Hc Ha) as [Hp Hs]. split; [|done].
  exists (lss' ++ [l ++ emits d c p]). split; [by rewrite !concat_app; cbn [concat]; rewrite !app_nil_r, app_assoc|].
  apply Forall2_app; [done|]. constructor; [|constructor]. split; [by exists st0|done].
Qed.

Lemma start_progress (st : Store System) c : callable st c -> progress c (start c) [].
Proof.
  intros H. unfold start. destruct (_ <? _); [|done]. split_and!; [done| |done]. apply Forall_singleton. exists st. apply (ca_core _ _ H).
Qed.

Lemma sane_go gs st events : sane gs st events -> sane (gs ++ [[]]) st events.
Proof.
  intros [Hl Hw He Hr Hk Hc]. constructor; try done.
  - eapply Forall_impl; [exact Hk|]. intros e. rewrite length_app. simpl. lia.
  - intros i g [Hg|[Hi Hg]]%lookup_app_Some; [by apply Hc|].
    assert (i = length gs) as ->. { apply lookup_lt_Some in Hg. simpl in Hg. lia. }
    rewrite Nat.sub_diag in Hg. injection Hg as <-. exists []. split; [by rewrite linesOf_unknown|constructor].
Qed.

Lemma sane_call gs st events i g c :
  sane gs st events -> gs !! i = Some g -> callable st c -> sane (<[i := g ++ [(c, start c)]]> gs) st events.
Proof.
  intros [Hl Hw He Hr Hk Hc] Hg Hcall. constructor; try done; [by rewrite length_insert|].
  intros j g' [(<- & <- & _)|[_ Hj]]%list_lookup_insert_Some; [|by apply Hc].
  destruct (Hc _ _ Hg) as (lss & Hlss & H). exists (lss ++ [[]]). split; [by rewrite concat_app; cbn; rewrite app_nil_r|].
  apply Forall2_app; [done|]. constructor; [|constructor]. split; [by exists st|by apply (start_progress st)].
Qed.

Lemma sane_step gs st events i g c p p' st' :
  sane gs st events -> gs !! i = Some (g ++ [(c, p)]) -> advance d c p st = (p', st') ->
  sane (<[i := g ++ [(c, p')]]> gs) st' (events ++ map (fun l => (i, l)) (emits d c p)).
Proof.
  intros [Hl Hw He Hr Hk Hc] Hg Ha.
  destruct (onCourse_step _ _ _ _ _ _ _ Hl Hr (Hc _ _ Hg) Ha) as [Hon (Hat & [Hl' Hw'] & Hem)].
  constructor; try done.
  - rewrite Hw', Hw, map_app. f_equal. rewrite map_map. cbn. by rewrite map_id.
  - rewrite map_app, map_map. cbn. rewrite map_id. by apply Forall_app.
  - by eapply respects_atomics.
  - rewrite length_insert. apply Forall_app. split; [done|]. apply Forall_map, Forall_true. intros l. by eapply lookup_lt_Some.
  - intros j g' [(<- & <- & _)|[Hij Hj]]%list_lookup_insert_Some; rewrite linesOf_app.
    + by rewrite linesOf_same.
    + rewrite linesOf_other, app_nil_r by done. by apply Hc.
Qed.

Lemma running_sane gs st events : running gs st events -> sane gs st events.
Proof.
  induction 1 as [size int clock w st Hw Hready Hr|gs st events _ IH|gs st events i g c _ IH Hg _ Hc|
    gs st events i g c p p' st' _ IH Hg Ha|gs st events σ' _ [Hl Hw He Hr Hk Hc] Hstep Hws|gs st events levels _ [Hl Hw He _ Hk Hc] _ Hr].
  - constructor; try done; rewrite ?Hw; try done. split; [|done]. exists size, int, clock, w. apply rtc_refl.
  - by apply sane_go.
  - by apply sane_call.
  - by eapply sane_step.
  - constructor; try done; [by eapply LogFile.lives_step|cbn [world setWorld]; by rewrite Hws|by apply (respects_atomics st)].
  - by constructor.
Qed.

(** The steps of the scheduler, to run a program with. *)
Definition turn (i : nat) (s : list goroutine * Store System * list (nat * bytes)) : list goroutine * Store System * list (nat * bytes) :=
  let '(gs, st, events) := s in
  match gs !! i with
  | Some g =>
      match last g with
      | Some (c, p) =>
          let '(p', st') := advance d c p st in
          (<[i := removelast g ++ [(c, p')]]> gs, st', events ++ map (fun l => (i, l)) (emits d c p))
      | None => s
      end
  | None => s
  end.

Lemma turns_running schedule gs st events :
  running gs st events ->
  let '(gs', st', events') := foldl (fun s i => turn i s) (gs, st, events) schedule in running gs' st' events'.
Proof.
  revert gs st events. induction schedule as [|i schedule IH]; intros gs st events H; [done|]. cbn [foldl].
  assert (let '(gs', st', events') := turn i (gs, st, events) in running gs' st' events') as H1.
  { unfold turn. destruct (gs !! i) as [g|] eqn:Eg; [|done]. destruct (last g) as [[c p]|] eqn:El; [|done].
    destruct (advance d c p st) as [p' st'] eqn:Ea. apply last_Some in El as [g' ->]. rewrite removelast_last.
    by eapply running_step. }
  destruct (turn i (gs, st, events)) as [[gs' st'] events']. by apply IH.
Qed.

(** C3: goroutines log to one file.  Any number of goroutines make calls, through loggers
    over any trees of tees and level filters whose outputs encode to JSON and write to one
    buffered syncer; the steps of the calls, reading a level, writing a line, flushing it,
    are interleaved in any way with one another, with the flush loop, [Sync]s and [Stop]s
    of the syncer, and with changes of levels.  At every moment the file, and after it the
    buffer, hold the lines that were written, whole, in one order, each a valid JSON
    object; the lines of each goroutine are in the order of its calls; and each call has
    written the lines of its own entry, one for every output that it collected once it has
    ended, for the first of them before, where an output whose levels do not change is
    collected exactly if it is enabled.  A [Sync] that returns nil leaves all lines in the
    file.  The steps of a call are those of the code: from any such moment a call that
    nothing interrupts takes them to the end that [Log] comes to, and leaves what it leaves.
    Assumed is that the file behind the syncer takes what it is given, that lines end in a
    newline, that the clocks and the hooks of the loggers do not touch the file, and that the
    configuration is [Documented]; a write or a flush is one step, under the syncer's mutex. *)
Theorem goroutines_log_to_one_file (sprintEntry : Entry.Entry -> bytes) (storage : nat) gs st events :
  (1 <= storage)%nat ->
  JsonRefinement.Documented d (JsonEncoder.config root) -> EncoderConfig.LineEnding (JsonEncoder.config root) = [x0a] ->
  running gs st events ->
  (exists delivered waiting,
     map snd events = map JsonLines.terminated (delivered ++ waiting) /\ Forall JsonTree.valid (delivered ++ waiting) /\
     LogFile.fileOf (world st) = concat (map JsonLines.terminated delivered) /\
     ZTest.Lines (LogFile.fileOf (world st)) = delivered /\ ZTest.Lines (LogFile.bufferOf (world st)) = waiting) /\
  (forall i g, gs !! i = Some g -> exists lss,
     linesOf i events = concat lss /\ Forall2 (fun (cp : call * pc System) ls => spoken d fixed cp.1 cp.2 ls) g lss) /\
  (forall σ', LogFile.fileSync WS (world st) = (None, σ') ->
     LogFile.fileOf σ' = concat (map snd events) /\ LogFile.bufferOf σ' = []) /\
  (forall c, callable st c ->
     match Log d sprintEntry storage (logger c) (level c) (message c) (fields c)
             (LogSample.wrappers c ++ site c :: outer c) st with
     | Ret (e, st') => moves d c (start c, st) (Ended e, st')
     | Prelude.Panic v => exists st', moves d c (start c, st) (Died v, st')
     | Diverge => False
     end).
Proof.
  intros Hs doc Hend H. destruct (running_sane _ _ _ H) as [Hl Hw He _ _ Hc].
  destruct (LogFile.lives_holds WS Hok d cfg sp _ _ doc Hend Hl Hw He) as [Hholds Hsync]. split_and!; [exact Hholds| |exact Hsync|].
  2: { intros c [Hcore Hstk [Hk Hlt] _ _ _]. apply call_in_steps; try done. eapply wired_mono; [|exact Hcore]. by intros []. }
  intros i g Hg. destruct (Hc _ _ Hg) as (lss & <- & Hlss). exists lss. split; [done|].
  eapply Forall2_impl; [exact Hlss|]. intros [c p] ls [_ Hp]. by apply progress_spoken.
Qed.
End file.

(** * Two goroutines *)

Section demo.
#[local] Existing Instances Level.asciiStd flat_multierr flat_multierr_spec.
Import JsonRefinement.

Definition demoCall (lvl : Level.Level) (msg : bytes) : LogSample.call :=
  LogSample.mkCall LogFile.demoLogger lvl msg [] [] LoggerSpec.site [].

(** Constant levels do not change. *)
Definition constants (e : enabler) (lvl : Level.Level) : option bool :=
  match e with
  | enablerLevel l => Some (Level.Level_Enabled l lvl)
  | _ => None
  end.

Definition demoBegun : list (goroutine (W := bytes)) :=
  [[(demoCall Level.InfoLevel (str "one"), start (demoCall Level.InfoLevel (str "one")))];
   [(demoCall Level.WarnLevel (str "two"), start (demoCall Level.WarnLevel (str "two")))]].

(** The first goroutine is overtaken when it is about to write. *)
Definition demoSchedule : list nat := [0; 0; 0; 1; 0; 0; 1; 1; 1; 1; 1; 1; 1; 1; 0; 0; 0; 0]%nat.

Abbreviation demoEnd := (foldl (fun s i => turn demoReflected i s) (demoBegun, LogFile.demoStart, []) demoSchedule).

Lemma demo_running :
  let '(gs, st, events) := demoEnd in running BufferedWriteSyncer.memSyncer demoReflected demoConfig false constants gs st events.
Proof.
  apply turns_running.
  assert (forall st lvl msg, callable BufferedWriteSyncer.memSyncer demoReflected demoConfig false st (demoCall lvl msg)) as Hc.
  { intros st lvl msg. constructor; try done. split; [done|]. split; [|apply LogFile.toFile_Lock].
    eexists. split; [reflexivity|apply JsonLines.derived_root]. }
  assert (running BufferedWriteSyncer.memSyncer demoReflected demoConfig false constants [[]; []] LogFile.demoStart []) as H0.
  { apply (running_go _ _ _ _ _ [[]]), (running_go _ _ _ _ _ []). apply (running_start _ _ _ _ _ 128 0 None []); [done| |].
    - eexists _, _. reflexivity.
    - intros [l|a|f] lvl b; try done. by intros [= <-]. }
  pose proof (running_call _ _ _ _ _ _ _ _ 0%nat [] _ H0 eq_refl eq_refl (Hc _ Level.InfoLevel (str "one"))) as H1.
  exact (running_call _ _ _ _ _ _ _ _ 1%nat [] _ H1 eq_refl eq_refl (Hc _ Level.WarnLevel (str "two"))).
Qed.

Lemma goroutines_log_to_one_file_witness :
  let '(gs, st, events) := demoEnd in
  map fst events = [1; 0]%nat /\ forallb (forallb (fun cp => ended cp.2)) gs = true /\
  (exists delivered waiting, map snd events = map JsonLines.terminated (delivered ++ waiting)) /\
  (exists lss, linesOf 0 events = concat lss /\ length lss = 1%nat).
Proof.
  pose proof demo_running as H.
  assert (map fst demoEnd.2 = [1; 0]%nat) as E1 by (vm_compute; reflexivity).
  assert (forallb (forallb (fun cp => ended cp.2)) demoEnd.1.1 = true) as E2 by (vm_compute; reflexivity).
  assert (match demoEnd.1.1 !! 0%nat with Some g => length g | None => 0%nat end = 1%nat) as E3 by (vm_compute; reflexivity).
  destruct demoEnd as [[gs st] events]. cbn [fst snd] in *.
  destruct (goroutines_log_to_one_file BufferedWriteSyncer.memSyncer BufferedWriteSyncer.memSyncer_never_fails demoReflected demoConfig false constants (fun _ => []) 64
    gs st events ltac:(lia) demo_documented eq_refl H) as ((delivered & waiting & E & _) & Hlines & _).
  split_and!; [done|done|by exists delivered, waiting|]. destruct (gs !! 0%nat) as [g|] eqn:Eg; [|done].
  destruct (Hlines 0%nat g Eg) as (lss & El & Hf). exists lss. split; [done|]. by rewrite <- (Forall2_length _ _ _ Hf).
Defined.
End demo.
End LogThreads.
