(* ===== verification/Exit.v ===== *)
(** Ending the process, internal/exit/exit.go: [With] calls the function in the package
    variable [_exit], which is [os.Exit] or the recording method of a stub.

    Stubs are cells, so that a method value keeps its receiver.  A computation of a test
    finishes, panics, exits its goroutine or ends the process; in all but the last case
    deferred calls run. *)

From Stdlib Require Import ZArith Lia.
From S2P Require Import Prelude GoStd Level WriteSyncer Encode Field Entry EncoderConfig Core CoreSpec Stacktrace Logger LoggerSpec.
From stdpp Require Import base list.

Local Open Scope Z_scope.
Local Open Scope zap_scope.

Module Exit.
Import Encode Core CoreSpec.

(** A value of [_exit]: [os.Exit] or the method [exit] of a stub. *)
Inductive exitFunc := osExit | stubExit (se : nat).

Record StubbedExit := mkStub { Exited : bool; Code : Z; prev : exitFunc }.

Record State := mkState { _exit : exitFunc; stubs : list StubbedExit }.

Inductive run :=
| Finished (σ : State)
| Panicked (v : bytes) (σ : State)
| Goexited (σ : State)
| Ended (code : Z).

Definition exit (se : nat) (code : Z) (σ : State) : State :=
  mkState (_exit σ) (alter (fun s => mkStub true code (prev s)) se (stubs σ)).

Definition With (code : Z) (σ : State) : run :=
  match _exit σ with
  | osExit => Ended code
  | stubExit se => Finished (exit se code σ)
  end.

Definition Stub (σ : State) : nat * State :=
  let s := length (stubs σ) in
  (s, mkState (stubExit s) (stubs σ ++ [mkStub false 0 (_exit σ)])).

(** A stub that was made has its cell, and [os.Exit] is never the default. *)
Definition Unstub (se : nat) (σ : State) : State :=
  mkState (default osExit (prev <$> stubs σ !! se)) (stubs σ).

(** [WithStub]: the deferred [Unstub] runs unless the process ends. *)
Definition WithStub (f : State -> run) (σ : State) : nat * run :=
  let '(s, σ) := Stub σ in
  (s, match f σ with
      | Finished σ => Finished (Unstub s σ)
      | Panicked v σ => Panicked v (Unstub s σ)
      | Goexited σ => Goexited (Unstub s σ)
      | Ended code => Ended code
      end).

(** * Programs that exit *)

(** What follows an entry that was written: [Exits] is the call of [With]. *)
Definition follow (e : ending) (σ : State) : run :=
  match e with
  | Returns => Finished σ
  | PanicsWith v => Panicked v σ
  | Core.Goexit => Goexited σ
  | Exits code => With code σ
  end.

(** The body of a test: logging calls, by how they end, and nested [WithStub]s. *)
Inductive step := Call (e : ending) | Nested (body : list step).

(** One after the other, until one does not finish. *)
Definition inSequence (one : step -> State -> run) : list step -> State -> run :=
  fix go body σ :=
    match body with
    | [] => Finished σ
    | s :: body' =>
        match one s σ with
        | Finished σ => go body' σ
        | r => r
        end
    end.

Fixpoint runStep (s : step) (σ : State) : run :=
  match s with
  | Call e => follow e σ
  | Nested body => (WithStub (inSequence runStep body) σ).2
  end.

Definition runBody (body : list step) : State -> run := inSequence runStep body.

(** * The specification *)

(** A step after which the body goes on. *)
Fixpoint goesOn (s : step) : bool :=
  match s with
  | Call (Returns | Exits _) => true
  | Call (PanicsWith _ | Core.Goexit) => false
  | Nested body => forallb goesOn body
  end.

(** What the stub of a body records: whether it exits, outside of the bodies nested in
    it, and the last code. *)
Fixpoint observed (body : list step) (seen : bool * Z) : bool * Z :=
  match body with
  | [] => seen
  | s :: body' =>
      let seen := match s with Call (Exits code) => (true, code) | _ => seen end in
      if goesOn s then observed body' seen else seen
  end.

(** The state in which deferred calls have run; none when the process has ended. *)
Definition stateOf (r : run) : option State :=
  match r with
  | Finished σ | Panicked _ σ | Goexited σ => Some σ
  | Ended _ => None
  end.

Definition finished (r : run) : bool := match r with Finished _ => true | _ => false end.

Lemma step_tree_ind (P : step -> Prop) :
  (forall e, P (Call e)) -> (forall body, Forall P body -> P (Nested body)) -> forall s, P s.
Proof.
  intros Hc Hn. fix IH 1. intros [e|body]; [apply Hc|]. apply Hn.
  induction body as [|s body IHb]; constructor; [apply IH|exact IHb].
Qed.

Lemma alter_insert_at {A} (f : A -> A) (l : list A) i x : l !! i = Some x -> alter f i l = <[i := f x]> l.
Proof. revert i. induction l as [|y l IH]; intros [|i] H; simplify_eq/=; [done|]. f_equal. by apply IH. Qed.

(** From a state in which stub [se] stands in: it still does, it has recorded [seen],
    and other stubs are as they were. *)
Definition records (se : nat) (p : exitFunc) (seen : bool * Z) (σ : State) (goes : bool) (r : run) : Prop :=
  finished r = goes /\
  exists σ' more, stateOf r = Some σ' /\ _exit σ' = stubExit se /\
    stubs σ' = <[se := mkStub seen.1 seen.2 p]> (stubs σ) ++ more.

Definition recording (s : step) : Prop := forall se p seen σ,
  _exit σ = stubExit se -> stubs σ !! se = Some (mkStub seen.1 seen.2 p) ->
  records se p (match s with Call (Exits code) => (true, code) | _ => seen end) σ (goesOn s) (runStep s σ).

Lemma recording_body body : Forall recording body -> forall se p seen σ,
  _exit σ = stubExit se -> stubs σ !! se = Some (mkStub seen.1 seen.2 p) ->
  records se p (observed body seen) σ (forallb goesOn body) (runBody body σ).
Proof.
  unfold runBody. induction 1 as [|s body Hs _ IH]; intros se p seen σ He Hse; cbn [observed inSequence forallb].
  { split; [done|]. exists σ, []. by rewrite app_nil_r, list_insert_id. }
  destruct (Hs se p seen σ He Hse) as (Hf & σ' & more & Ho & He' & Hst).
  set (seen' := match s with Call (Exits code) => _ | _ => _ end) in *. rewrite <- Hf.
  destruct (runStep s σ) as [τ|v τ|τ|c]; cbn [finished stateOf andb] in *; [|split; [done|]; by exists σ', more..].
  injection Ho as ->. assert (se < length (stubs σ))%nat as Hlt by (by eapply lookup_lt_Some).
  destruct (IH se p seen' σ' He') as (Hg & τ & more' & Ho & He2 & Hst2).
  { rewrite Hst, lookup_app_l by (by rewrite length_insert). by rewrite list_lookup_insert_eq. }
  split; [done|]. exists τ, (more ++ more'). split; [done|]. split; [done|].
  rewrite Hst2, Hst, insert_app_l by (by rewrite length_insert). by rewrite list_insert_insert_eq, app_assoc.
Qed.

(** A body in a stub of its own leaves the state as it was, but for the new stub. *)
Lemma WithStub_body body σ : Forall recording body ->
  let '(s, r) := WithStub (runBody body) σ in
  s = length (stubs σ) /\ finished r = forallb goesOn body /\
  exists σ' more, stateOf r = Some σ' /\ _exit σ' = _exit σ /\
    stubs σ' = stubs σ ++ mkStub (observed body (false, 0)).1 (observed body (false, 0)).2 (_exit σ) :: more.
Proof.
  intros Hb. unfold WithStub. cbn [Stub].
  set (σ1 := mkState _ (stubs σ ++ _)).
  destruct (recording_body body Hb (length (stubs σ)) (_exit σ) (false, 0) σ1 eq_refl) as (Hf & σ' & more & Ho & He & Hst).
  { by apply list_lookup_middle. }
  split; [done|]. assert (stubs σ' = stubs σ ++
    mkStub (observed body (false, 0)).1 (observed body (false, 0)).2 (_exit σ) :: more) as Hst'.
  { rewrite Hst. simpl. rewrite insert_app_r_alt, Nat.sub_diag by done. simpl. by rewrite <- app_assoc. }
  assert (_exit (Unstub (length (stubs σ)) σ') = _exit σ) as Hu.
  { unfold Unstub. rewrite Hst'. by rewrite list_lookup_middle. }
  destruct (runBody body σ1); simpl in Ho; simplify_eq; simpl in Hf |- *; (split; [done|]); by eexists _, more.
Qed.

Lemma recording_all s : recording s.
Proof.
  induction s as [e|body IH] using step_tree_ind; intros se p seen σ He Hse; cbn [runStep goesOn].
  - destruct e as [| |v|c]; cbn [follow]; try (split; [done|]; exists σ, []; by rewrite app_nil_r, list_insert_id).
    unfold With. rewrite He. split; [done|]. exists (exit se c σ), []. split; [done|]. split; [done|].
    rewrite app_nil_r. exact (alter_insert_at (fun s => mkStub true c (prev s)) _ _ _ Hse).
  - pose proof (WithStub_body body σ IH) as H. unfold runBody in H.
    destruct (WithStub _ σ) as [s r]. destruct H as (_ & Hf & σ' & more & Ho & He' & Hst). split; [done|].
    eexists σ', (_ :: more). split; [done|]. split; [congruence|]. rewrite Hst, list_insert_id by done. done.
Qed.

(** C35: a stubbed exit is contained.  Whatever a body does in [WithStub] (log at any
    level, panic, exit its goroutine, run further bodies in stubs of their own), the
    process does not end; afterwards [_exit] is the function that it was before, also
    when the body panicked; the stub tells whether the body exited and with which code
    last, not counting what inner stubs have caught; and no older stub has changed. *)
Theorem with_stub_contains_exit body σ :
  let '(s, r) := WithStub (runBody body) σ in
  exists σ', stateOf r = Some σ' /\ _exit σ' = _exit σ /\
    take (length (stubs σ)) (stubs σ') = stubs σ /\
    (exists stub, stubs σ' !! s = Some stub /\ (Exited stub, Code stub) = observed body (false, 0)) /\
    finished r = forallb goesOn body.
Proof.
  pose proof (WithStub_body body σ ltac:(apply Forall_forall; intros s _; apply recording_all)) as H.
  destruct (WithStub _ σ) as [s r]. destruct H as (-> & Hf & σ' & more & Ho & He & Hst). exists σ'.
  split; [done|]. split; [done|]. rewrite Hst, take_app_length. split; [done|]. split; [|done].
  eexists. split; [by apply list_lookup_middle|]. simpl. by destruct (observed _ _).
Qed.

(** With the logger: a test sees a fatal call as an exit with code 1, also when the level
    is disabled or the write fails. *)
Lemma fatal_in_stub {W : Type} {std : GoStd} {ME : Multierr} reflected sprintEntry storage (log : Logger.Logger W)
    msg fields stk st e st' σ :
  Logger.onFatal log = None \/ Logger.onFatal log = Some WriteThenNoop ->
  Logger.Log reflected sprintEntry storage log Level.FatalLevel msg fields stk st = Ret (e, st') ->
  WithStub (follow e) σ =
  (length (stubs σ), Finished (mkState (_exit σ) (stubs σ ++ [mkStub true 1 (_exit σ)]))).
Proof.
  intros Hh E. apply LoggerSpec.yields_logAt in E. unfold LoggerSpec.terminal in E. simpl in E.
  assert (e = Exits 1) as -> by (by destruct Hh as [Hh|Hh]; rewrite Hh in E).
  unfold WithStub. cbn. unfold exit, Unstub. simpl. rewrite list_lookup_alter_eq, list_lookup_middle by done.
  rewrite alter_app_r_alt, Nat.sub_diag by done. done.
Qed.
End Exit.
