(* ===== verification/Sugar.v ===== *)
(** The sugared logger, sugar.go.

    The loosely typed arguments are values of [any]; [fmt.Sprintf], [fmt.Sprint] and
    [fmt.Sprintln] on them are the functions [sprintf], [sprint] and [sprintln]. *)

From Stdlib Require Import ZArith Lia.
From S2P Require Import Prelude Strconv GoStd Level AtomicLevel WriteSyncer Encode Field Entry EncoderConfig Core CoreSpec Stacktrace Logger LoggerSpec.
From stdpp Require Import base list.

Local Open Scope Z_scope.
Local Open Scope zap_scope.

Module Sugar.
Import Encode Core Stacktrace.

Definition _oddNumberErrMsg : bytes := str "Ignored key without a value.".
Definition _nonStringKeyErrMsg : bytes := str "Ignored key-value pairs with non-string keys.".
Definition _multipleErrMsg : bytes := str "Multiple errors without a key.".

Section sugar.
Context {W : Type} {std : GoStd} {ME : Multierr}.
Context (reflected : EncoderConfig.ReflectedEncoder) (sprintEntry : Entry.Entry -> bytes) (storage : nat).
Context (sprintf : bytes -> list any -> bytes) (sprint sprintln : list any -> bytes).

Record SugaredLogger := mkSugared { base : Logger.Logger W }.

(** [Logger.Sugar] and back. *)
Definition Sugar (log : Logger.Logger W) : SugaredLogger :=
  let core := Logger.clone log in
  mkSugared (Logger.setCallerSkip core (int64 (Logger.callerSkip core + 2))).

Definition Desugar (s : SugaredLogger) : Logger.Logger W :=
  let base := Logger.clone (base s) in
  Logger.setCallerSkip base (int64 (Logger.callerSkip base - 2)).

Definition Named (s : SugaredLogger) (name : bytes) : SugaredLogger := mkSugared (Logger.Named (base s) name).

Definition WithOptions (s : SugaredLogger) (opts : list (Logger.Option_ W)) : M W SugaredLogger :=
  base ← forEach (fun opt b => opt b) opts (Logger.clone (base s)); mret (mkSugared base).

Definition Level_ (s : SugaredLogger) : M W Level.Level := LevelOf (Logger.core (base s)).

(** * Messages *)

Definition getMessage (template : bytes) (fmtArgs : list any) : bytes :=
  if decide (length fmtArgs = 0%nat) then template
  else if decide (template <> []) then sprintf template fmtArgs
  else
    match fmtArgs with
    | [VScalar TString s] => s
    | _ => sprint fmtArgs
    end.

(** [msg[:len(msg)-1]]. *)
Definition getMessageln (fmtArgs : list any) : outcome bytes :=
  let msg := sprintln fmtArgs in
  if decide (msg = []) then Panic (str "slice bounds out of range")
  else Ret (take (length msg - 1) msg).

(** * Key-value pairs *)

Record invalidPair := mkInvalid { position : Z; key : any; value : any }.

Definition MarshalLogObject (p : invalidPair) : ObjProg :=
  OCall (OPrim (str "position") (PInt KInt64 (position p))) (fun _ =>
    oseq (Field.AddTo (Field.Any (str "key") (key p))) (fun _ =>
      oseq (Field.AddTo (Field.Any (str "value") (value p))) (fun _ => ODone None))).

Definition MarshalLogArray (ps : list invalidPair) : ArrProg :=
  (fix go ps err :=
     match ps with
     | [] => ADone err
     | p :: ps' => ACall (AObject (MarshalLogObject p)) (fun e => go ps' (multierr_Append err e))
     end) ps None.

(** A diagnostic of [sweetenFields], which is on top of [stk]. *)
Definition complain (s : SugaredLogger) (msg : bytes) (f : Field) (stk : list Frame) : M W unit :=
  _ ← Logger.Error reflected sprintEntry storage (base s) msg [f] stk; mret tt.

(** The loop from index [i]. *)
Fixpoint sweetenLoop (s : SugaredLogger) (stk : list Frame) (i : Z) (args : list any)
    (fields : list Field) (invalid : list invalidPair) (seenError : bool)
    : M W (list Field * list invalidPair) :=
  match args with
  | [] => mret (fields, invalid)
  | VField f :: args' => sweetenLoop s stk (i + 1) args' (fields ++ [f]) invalid seenError
  | VError e :: args' =>
      if negb seenError then
        sweetenLoop s stk (i + 1) args' (fields ++ [Field.Error (Some e)]) invalid true
      else
        _ ← complain s _multipleErrMsg (Field.Error (Some e)) stk;
        sweetenLoop s stk (i + 1) args' fields invalid seenError
  | [arg] =>
      _ ← complain s _oddNumberErrMsg (Field.Any (str "ignored") arg) stk; mret (fields, invalid)
  | key :: val :: args' =>
      match key with
      | VScalar TString keyStr =>
          sweetenLoop s stk (i + 2) args' (fields ++ [Field.Any keyStr val]) invalid seenError
      | _ => sweetenLoop s stk (i + 2) args' fields (invalid ++ [mkInvalid i key val]) seenError
      end
  end.

(** [sweetenFields], called by the function on top of [stk]. *)
Definition sweetenFields (s : SugaredLogger) (args : list any) (stk : list Frame) : M W (list Field) :=
  if decide (length args = 0%nat) then mret []
  else
    let stk := frameOf (str "zap.(*SugaredLogger).sweetenFields") :: stk in
    '(fields, invalid) ← sweetenLoop s stk 0 args [] [] false;
    if 0 <? lenZ invalid then
      _ ← complain s _nonStringKeyErrMsg (Field.Array (str "invalid") (MarshalLogArray invalid)) stk;
      mret fields
    else mret fields.

Definition With (s : SugaredLogger) (args : list any) (stk : list Frame) : M W SugaredLogger :=
  fields ← sweetenFields s args (frameOf (str "zap.(*SugaredLogger).With") :: stk);
  base ← Logger.With reflected (base s) fields; mret (mkSugared base).

Definition WithLazy (s : SugaredLogger) (args : list any) (stk : list Frame) : M W SugaredLogger :=
  fields ← sweetenFields s args (frameOf (str "zap.(*SugaredLogger).WithLazy") :: stk);
  base ← Logger.WithLazy (base s) fields; mret (mkSugared base).

(** * Logging *)

Definition disabled (s : SugaredLogger) (lvl : Level.Level) : M W bool :=
  if lvl <? Level.DPanicLevel then b ← Enabled (Logger.Core_ (base s)) lvl; mret (negb b) else mret false.

(** [if ce := s.base.Check(lvl, msg); ce != nil { ce.Write(s.sweetenFields(context)...) }]. *)
Definition checkAndWrite (s : SugaredLogger) (lvl : Level.Level) (msg : bytes) (context : list any)
    (stk : list Frame) : M W ending :=
  ce ← Logger.Check reflected storage (base s) lvl msg stk;
  match ce with
  | Some _ =>
      fields ← sweetenFields s context stk;
      '(e, _) ← checked_Write reflected sprintEntry ce fields; mret e
  | None => mret Returns
  end.

Definition log (s : SugaredLogger) (lvl : Level.Level) (template : bytes) (fmtArgs context : list any)
    (stk : list Frame) : M W ending :=
  skip ← disabled s lvl;
  if (skip : bool) then mret Returns
  else
    checkAndWrite s lvl (getMessage template fmtArgs) context (frameOf (str "zap.(*SugaredLogger).log") :: stk).

Definition logln (s : SugaredLogger) (lvl : Level.Level) (fmtArgs context : list any) (stk : list Frame)
    : M W ending :=
  skip ← disabled s lvl;
  if (skip : bool) then mret Returns
  else
    msg ← lift (getMessageln fmtArgs);
    checkAndWrite s lvl msg context (frameOf (str "zap.(*SugaredLogger).logln") :: stk).

Definition method (name : bytes) : Frame := frameOf (str "zap.(*SugaredLogger)." ++ name).

Definition Log (s : SugaredLogger) (lvl : Level.Level) (args : list any) (stk : list Frame) : M W ending :=
  log s lvl [] args [] (method (str "Log") :: stk).
Definition Debug (s : SugaredLogger) (args : list any) (stk : list Frame) : M W ending :=
  log s Level.DebugLevel [] args [] (method (str "Debug") :: stk).
Definition Info (s : SugaredLogger) (args : list any) (stk : list Frame) : M W ending :=
  log s Level.InfoLevel [] args [] (method (str "Info") :: stk).
Definition Warn (s : SugaredLogger) (args : list any) (stk : list Frame) : M W ending :=
  log s Level.WarnLevel [] args [] (method (str "Warn") :: stk).
Definition Error (s : SugaredLogger) (args : list any) (stk : list Frame) : M W ending :=
  log s Level.ErrorLevel [] args [] (method (str "Error") :: stk).
Definition DPanic (s : SugaredLogger) (args : list any) (stk : list Frame) : M W ending :=
  log s Level.DPanicLevel [] args [] (method (str "DPanic") :: stk).
Definition Panic (s : SugaredLogger) (args : list any) (stk : list Frame) : M W ending :=
  log s Level.PanicLevel [] args [] (method (str "Panic") :: stk).
Definition Fatal (s : SugaredLogger) (args : list any) (stk : list Frame) : M W ending :=
  log s Level.FatalLevel [] args [] (method (str "Fatal") :: stk).

Definition Logf (s : SugaredLogger) (lvl : Level.Level) (template : bytes) (args : list any) (stk : list Frame) : M W ending :=
  log s lvl template args [] (method (str "Logf") :: stk).
Definition Debugf (s : SugaredLogger) (template : bytes) (args : list any) (stk : list Frame) : M W ending :=
  log s Level.DebugLevel template args [] (method (str "Debugf") :: stk).
Definition Infof (s : SugaredLogger) (template : bytes) (args : list any) (stk : list Frame) : M W ending :=
  log s Level.InfoLevel template args [] (method (str "Infof") :: stk).
Definition Warnf (s : SugaredLogger) (template : bytes) (args : list any) (stk : list Frame) : M W ending :=
  log s Level.WarnLevel template args [] (method (str "Warnf") :: stk).
Definition Errorf (s : SugaredLogger) (template : bytes) (args : list any) (stk : list Frame) : M W ending :=
  log s Level.ErrorLevel template args [] (method (str "Errorf") :: stk).
Definition DPanicf (s : SugaredLogger) (template : bytes) (args : list any) (stk : list Frame) : M W ending :=
  log s Level.DPanicLevel template args [] (method (str "DPanicf") :: stk).
Definition Panicf (s : SugaredLogger) (template : bytes) (args : list any) (stk : list Frame) : M W ending :=
  log s Level.PanicLevel template args [] (method (str "Panicf") :: stk).
Definition Fatalf (s : SugaredLogger) (template : bytes) (args : list any) (stk : list Frame) : M W ending :=
  log s Level.FatalLevel template args [] (method (str "Fatalf") :: stk).

Definition Logw (s : SugaredLogger) (lvl : Level.Level) (msg : bytes) (keysAndValues : list any) (stk : list Frame) : M W ending :=
  log s lvl msg [] keysAndValues (method (str "Logw") :: stk).
Definition Debugw (s : SugaredLogger) (msg : bytes) (keysAndValues : list any) (stk : list Frame) : M W ending :=
  log s Level.DebugLevel msg [] keysAndValues (method (str "Debugw") :: stk).
Definition Infow (s : SugaredLogger) (msg : bytes) (keysAndValues : list any) (stk : list Frame) : M W ending :=
  log s Level.InfoLevel msg [] keysAndValues (method (str "Infow") :: stk).
Definition Warnw (s : SugaredLogger) (msg : bytes) (keysAndValues : list any) (stk : list Frame) : M W ending :=
  log s Level.WarnLevel msg [] keysAndValues (method (str "Warnw") :: stk).
Definition Errorw (s : SugaredLogger) (msg : bytes) (keysAndValues : list any) (stk : list Frame) : M W ending :=
  log s Level.ErrorLevel msg [] keysAndValues (method (str "Errorw") :: stk).
Definition DPanicw (s : SugaredLogger) (msg : bytes) (keysAndValues : list any) (stk : list Frame) : M W ending :=
  log s Level.DPanicLevel msg [] keysAndValues (method (str "DPanicw") :: stk).
Definition Panicw (s : SugaredLogger) (msg : bytes) (keysAndValues : list any) (stk : list Frame) : M W ending :=
  log s Level.PanicLevel msg [] keysAndValues (method (str "Panicw") :: stk).
Definition Fatalw (s : SugaredLogger) (msg : bytes) (keysAndValues : list any) (stk : list Frame) : M W ending :=
  log s Level.FatalLevel msg [] keysAndValues (method (str "Fatalw") :: stk).

Definition Logln (s : SugaredLogger) (lvl : Level.Level) (args : list any) (stk : list Frame) : M W ending :=
  logln s lvl args [] (method (str "Logln") :: stk).
Definition Debugln (s : SugaredLogger) (args : list any) (stk : list Frame) : M W ending :=
  logln s Level.DebugLevel args [] (method (str "Debugln") :: stk).
Definition Infoln (s : SugaredLogger) (args : list any) (stk : list Frame) : M W ending :=
  logln s Level.InfoLevel args [] (method (str "Infoln") :: stk).
Definition Warnln (s : SugaredLogger) (args : list any) (stk : list Frame) : M W ending :=
  logln s Level.WarnLevel args [] (method (str "Warnln") :: stk).
Definition Errorln (s : SugaredLogger) (args : list any) (stk : list Frame) : M W ending :=
  logln s Level.ErrorLevel args [] (method (str "Errorln") :: stk).
Definition DPanicln (s : SugaredLogger) (args : list any) (stk : list Frame) : M W ending :=
  logln s Level.DPanicLevel args [] (method (str "DPanicln") :: stk).
Definition Panicln (s : SugaredLogger) (args : list any) (stk : list Frame) : M W ending :=
  logln s Level.PanicLevel args [] (method (str "Panicln") :: stk).
Definition Fatalln (s : SugaredLogger) (args : list any) (stk : list Frame) : M W ending :=
  logln s Level.FatalLevel args [] (method (str "Fatalln") :: stk).

Definition Sync (s : SugaredLogger) : M W error := Logger.Sync reflected (base s).
End sugar.
Arguments SugaredLogger W : clear implicits.
End Sugar.
