(* ===== verification/SugarSpec.v ===== *)
(** Properties of the sugared logger of Sugar.v: on well-formed arguments it logs what
    the logger does, from the right call site; what its own diagnostics report. *)

From Stdlib Require Import ZArith Lia.
From S2P Require Import Prelude Strconv GoStd Level AtomicLevel WriteSyncer Encode Field Entry EncoderConfig Core CoreSpec Stacktrace Logger LoggerSpec CoreDelivery LogCall Sugar.
From stdpp Require Import base list.

Local Open Scope Z_scope.
Local Open Scope zap_scope.

Module SugarSpec.
Import Encode Core CoreSpec Stacktrace Sugar.

(** * Well-formed arguments *)

Inductive item :=
| IField (f : Field)
| IError (e : err)
| IPair (key : bytes) (val : any).

Definition argsOf (it : item) : list any :=
  match it with
  | IField f => [VField f]
  | IError e => [VError e]
  | IPair k v => [VScalar TString k; v]
  end.

Definition fieldOf (it : item) : Field :=
  match it with
  | IField f => f
  | IError e => Field.Error (Some e)
  | IPair k v => Field.Any k v
  end.

Definition isError (it : item) : bool := match it with IError _ => true | _ => false end.

Definition errors (its : list item) : nat := length (List.filter isError its).

Section sugar.
Context {W : Type} {std : GoStd} {ME : Multierr}.
Context (reflected : EncoderConfig.ReflectedEncoder) (sprintEntry : Entry.Entry -> bytes) (storage : nat).
Context (sprintf : bytes -> list any -> bytes) (sprint sprintln : list any -> bytes).

Lemma sweetenLoop_items (s : SugaredLogger W) stk i its fields invalid (seen : bool) st :
  (errors its <= if seen then 0 else 1)%nat ->
  sweetenLoop reflected sprintEntry storage s stk i (concat (map argsOf its)) fields invalid seen st =
  Ret (fields ++ map fieldOf its, invalid, st).
Proof.
  revert i fields invalid seen. induction its as [|it its IH]; intros i fields invalid seen He.
  { cbn [map concat sweetenLoop]. by rewrite app_nil_r. }
  destruct it as [f|e|k v]; cbn [map concat argsOf app sweetenLoop fieldOf] in *.
  - rewrite IH by done. by rewrite <- app_assoc.
  - unfold errors in He. simpl in He. destruct seen; [lia|]. cbn [negb]. rewrite IH by (unfold errors; lia).
    by rewrite <- app_assoc.
  - rewrite IH by done. by rewrite <- app_assoc.
Qed.

Lemma sweetenFields_items (s : SugaredLogger W) its stk st :
  (errors its <= 1)%nat ->
  sweetenFields reflected sprintEntry storage s (concat (map argsOf its)) stk st = Ret (map fieldOf its, st).
Proof.
  intros He. unfold sweetenFields. destruct (decide _) as [E|_].
  { destruct its as [|[]]; done. }
  cbv zeta. erewrite run_bind; [|by apply (sweetenLoop_items s _ 0 its [] [] false)]. done.
Qed.

(** A sugared call with well-formed arguments is a call of the logger it wraps, with the
    message and the fields, from the frames of [Check] and [log]. *)
Lemma log_is_logAt (s : SugaredLogger W) lvl template fmtArgs its stk st :
  (errors its <= 1)%nat ->
  log reflected sprintEntry storage sprintf sprint s lvl template fmtArgs (concat (map argsOf its)) stk st =
  Logger.logAt reflected sprintEntry storage (base s) lvl (getMessage sprintf sprint template fmtArgs) (map fieldOf its)
    (frameOf (str "zap.(*Logger).Check") :: frameOf (str "zap.(*SugaredLogger).log") :: stk) st.
Proof.
  intros He. unfold log. unfold mbind at 1, M_bind at 1. set (msg := getMessage _ _ _ _).
  assert (forall st, checkAndWrite reflected sprintEntry storage s lvl msg (concat (map argsOf its))
    (frameOf (str "zap.(*SugaredLogger).log") :: stk) st =
    Logger.logAt reflected sprintEntry storage (base s) lvl msg (map fieldOf its)
      (frameOf (str "zap.(*Logger).Check") :: frameOf (str "zap.(*SugaredLogger).log") :: stk) st) as Hw.
  { intros st0. unfold checkAndWrite, Logger.logAt, Logger.Check. unfold mbind, M_bind.
    destruct (Logger.check _ _ _ _ _ _ st0) as [[[ce|] st1]| |]; cbn [obind]; try done.
    by rewrite sweetenFields_items. }
  unfold disabled, Logger.Core_. destruct (Z.ltb_spec lvl Level.DPanicLevel) as [Hl|Hl]; [|by rewrite <- Hw].
  destruct (pure_Enabled (Logger.core (base s)) lvl st) as [[b E]|[v E]].
  - rewrite (run_bind _ _ _ _ _ E). cbn [obind mret M_ret]. destruct b; [by rewrite <- Hw|].
    unfold Logger.logAt, Logger.check. rewrite (proj2 (Z.ltb_lt _ _) Hl).
    unfold mbind, M_bind. by rewrite E.
  - unfold Logger.logAt, Logger.check. rewrite (proj2 (Z.ltb_lt _ _) Hl).
    unfold mbind, M_bind. by rewrite E.
Qed.

(** C19: the sugared logger is the logger: with any mix of typed fields, string keys with
    values and at most one bare error, [Logw] logs exactly what the logger it wraps
    would log with the corresponding fields in the same order, and adds no diagnostic;
    it calls the logger three frames below its caller. *)
Theorem sugar_logs_as_logger (s : SugaredLogger W) lvl msg its stk st :
  (errors its <= 1)%nat ->
  Logw reflected sprintEntry storage sprintf sprint s lvl msg (concat (map argsOf its)) stk st =
  Logger.logAt reflected sprintEntry storage (base s) lvl msg (map fieldOf its)
    (frameOf (str "zap.(*Logger).Check") :: frameOf (str "zap.(*SugaredLogger).log") ::
     frameOf (str "zap.(*SugaredLogger).Logw") :: stk) st.
Proof. intros He. by apply log_is_logAt. Qed.

Lemma Sugar_callerSkip (log : Logger.Logger W) (wrappers : list Frame) :
  Logger.callerSkip log = lenZ wrappers -> lenZ wrappers < 2 ^ 60 ->
  Logger.callerSkip (base (Sugar log)) = lenZ wrappers + 2.
Proof.
  intros Hk Hl. simpl. unfold Logger.clone. rewrite Hk. apply wrapS_id; [lia|]. unfold inS, lenZ in *. lia.
Qed.

(** The caller of a sugared call is its call site: the two frames that [Sugar] adds to
    the skipped ones are those of the sugared logger, so an entry that a core will
    write is annotated with the frame that called [Logw], after the wrappers that the
    logger was told about, with its stack. *)
Theorem sugar_caller_is_call_site (log : Logger.Logger W) lvl msg wrappers f stk st ce st' :
  (1 <= storage)%nat -> Logger.callerSkip log = lenZ wrappers -> lenZ wrappers < 2 ^ 60 ->
  Logger.Check reflected storage (base (Sugar log)) lvl msg
    (frameOf (str "zap.(*SugaredLogger).log") :: method (str "Logw") :: wrappers ++ f :: stk) st = Ret (Some ce, st') ->
  cores ce <> [] ->
  exists stack, LoggerSpec.annotated (base (Sugar log)) f stk stack ce.
Proof.
  intros Hs Hk Hl E Hne.
  destruct (LoggerSpec.check_annotated reflected storage (base (Sugar log)) lvl msg (frameOf (str "zap.(*Logger).Check"))
    (frameOf (str "zap.(*SugaredLogger).log") :: method (str "Logw") :: wrappers) f stk st ce st' Hs)
    as (stack & _ & H); [|unfold lenZ in *; simpl; lia|done|done|by exists stack].
  rewrite (Sugar_callerSkip log wrappers) by done. unfold lenZ. simpl. lia.
Qed.

(** * Diagnostics *)

Context {MES : MultierrSpec ME}.

(** A logger over one observer, which checks an entry that the observer takes. *)
Lemma check_observed (log : Logger.Logger W) l ref ctx lvl msg m wrappers f rest st :
  (1 <= storage)%nat -> Logger.core log = contextObserver (enablerLevel l) ref ctx -> l <= lvl < Level.DPanicLevel ->
  Logger.callerSkip log = lenZ wrappers -> lenZ wrappers < 2 ^ 61 -> CoreDelivery.allocated st (Logger.addStack log) ->
  exists now w stack,
    Logger.check reflected storage log lvl msg (m :: wrappers ++ f :: rest) st =
    Ret (Some (mkChecked (Entry.mkEntry lvl now (Logger.name log) msg (LogCall.siteCaller log f) stack)
                 (Logger.errorOutput log) false None [Logger.core log] []), setWorld st w).
Proof.
  intros Hs Hc [Hl Hd] Hk Hlt Ha. eexists _, _, _.
  rewrite (LogCall.check_run reflected storage log lvl msg _ (LogCall.siteCaller log f)
    (LogCall.siteStack log lvl st f rest) false [Logger.core log] st (setWorld st (Logger.clock log (world st)).2)).
  - unfold LogCall.checkedEntry. by rewrite (LoggerSpec.terminal_low log lvl Hd).
  - rewrite (proj2 (Z.ltb_lt _ _) Hd), Hc. unfold mbind, M_bind. cbn.
    unfold Level.Level_Enabled. by rewrite (proj2 (Z.leb_le _ _) Hl).
  - cbv zeta. rewrite Hc. cbn [Check]. unfold contextObserver_Check, mbind, M_bind. cbn.
    unfold Level.Level_Enabled. by rewrite (proj2 (Z.leb_le _ _) Hl).
  - intros now msg' out hook cs w. rewrite LogCall.setWorld_twice. by apply LogCall.annotates_site.
Qed.

(** The entry, written. *)
Lemma write_observed ent out enab ref ctx fields l (st : Store W) :
  logs st !! ref = Some l ->
  exists ce, checked_Write reflected sprintEntry
      (Some (mkChecked ent out false None [contextObserver enab ref ctx] [])) fields st =
    Ret ((Returns, ce), setLogs st (<[ref := l ++ [mkLogged ent (ctx ++ fields)]]> (logs st))).
Proof.
  intros Hl. eexists. cbn -[mbind]. unfold appendErrors, forEach, contextObserver_Write, addLog.
  unfold mbind, M_bind. cbn. rewrite Hl. cbn. by rewrite Append_nil_l.
Qed.

Lemma log_observed (s : SugaredLogger W) l ref ctx lvl template fmtArgs context stk st :
  Logger.core (base s) = contextObserver (enablerLevel l) ref ctx -> l <= lvl < Level.DPanicLevel ->
  Sugar.log reflected sprintEntry storage sprintf sprint s lvl template fmtArgs context stk st =
  checkAndWrite reflected sprintEntry storage s lvl (getMessage sprintf sprint template fmtArgs) context
    (frameOf (str "zap.(*SugaredLogger).log") :: stk) st.
Proof.
  intros Hc [Hl Hd]. unfold Sugar.log, disabled, Logger.Core_. rewrite (proj2 (Z.ltb_lt _ _) Hd), Hc.
  unfold mbind at 1, M_bind at 1. unfold mbind at 1, M_bind at 1. cbn.
  unfold Level.Level_Enabled. by rewrite (proj2 (Z.leb_le _ _) Hl).
Qed.

(** A diagnostic of [sweetenFields] is an entry of its own. *)
Lemma complain_observed (s : SugaredLogger W) l ref ctx msg f g h k rest recorded st :
  (1 <= storage)%nat -> Logger.core (base s) = contextObserver (enablerLevel l) ref ctx -> l <= Level.ErrorLevel ->
  Logger.callerSkip (base s) = 2 -> CoreDelivery.allocated st (Logger.addStack (base s)) -> logs st !! ref = Some recorded ->
  exists now w stack,
    complain reflected sprintEntry storage s msg f (g :: h :: k :: rest) st =
    Ret (tt, setLogs (setWorld st w) (<[ref := recorded ++
      [mkLogged (Entry.mkEntry Level.ErrorLevel now (Logger.name (base s)) msg (LogCall.siteCaller (base s) k) stack)
         (ctx ++ [f])]]> (logs st))).
Proof.
  intros Hs Hc Hl Hk Ha Hr.
  destruct (check_observed (base s) l ref ctx Level.ErrorLevel msg (frameOf (str "zap.(*Logger).Error")) [g; h] k rest st)
    as (now & w & stack & E); try done.
  exists now, w, stack. unfold complain, Logger.Error, Logger.logAt.
  destruct (write_observed (Entry.mkEntry Level.ErrorLevel now (Logger.name (base s)) msg
    (LogCall.siteCaller (base s) k) stack) (Logger.errorOutput (base s)) (enablerLevel l) ref ctx [f] recorded
    (setWorld st w) Hr) as (ce & Ew).
  cbn [app] in E. unfold mbind, M_bind. rewrite E. cbn [obind]. rewrite Hc, Ew. done.
Qed.

(** A last argument that is neither a field nor an error. *)
Definition dangling (key : any) : Prop := match key with VField _ | VError _ => False | _ => True end.

Lemma sweetenLoop_dangling (s : SugaredLogger W) stk i its key fields invalid (seen : bool) st :
  (errors its <= if seen then 0 else 1)%nat -> dangling key ->
  sweetenLoop reflected sprintEntry storage s stk i (concat (map argsOf its) ++ [key]) fields invalid seen st =
  (_ ← complain reflected sprintEntry storage s _oddNumberErrMsg (Field.Any (str "ignored") key) stk;
   mret (fields ++ map fieldOf its, invalid)) st.
Proof.
  intros He Hd. revert i fields invalid seen He. induction its as [|it its IH]; intros i fields invalid seen He.
  { cbn [map concat app]. rewrite app_nil_r. by destruct key. }
  destruct it as [f|e|k v]; cbn [map concat argsOf app sweetenLoop fieldOf] in *.
  - rewrite IH by done. by rewrite <- app_assoc.
  - unfold errors in He. simpl in He. destruct seen; [lia|]. cbn [negb]. rewrite IH by (unfold errors; lia).
    by rewrite <- app_assoc.
  - rewrite IH by done. by rewrite <- app_assoc.
Qed.

Lemma sweetenFields_dangling (s : SugaredLogger W) its key stk st :
  (errors its <= 1)%nat -> dangling key ->
  sweetenFields reflected sprintEntry storage s (concat (map argsOf its) ++ [key]) stk st =
  (_ ← complain reflected sprintEntry storage s _oddNumberErrMsg (Field.Any (str "ignored") key)
         (frameOf (str "zap.(*SugaredLogger).sweetenFields") :: stk);
   mret (map fieldOf its)) st.
Proof.
  intros He Hd. unfold sweetenFields. rewrite decide_False by (rewrite length_app; simpl; lia). cbv zeta.
  unfold mbind at 1, M_bind at 1. rewrite (sweetenLoop_dangling s _ 0 its key [] [] false) by done.
  unfold mbind, M_bind. by destruct (complain _ _ _ _ _ _ _ _) as [[[] st1]| |].
Qed.

(** C39: the diagnostics of the sugared logger name the wrong caller.  When the arguments of
    [Logw] end with a key without a value, a logger that is annotated with callers records
    two entries: the error about the ignored key, whose caller is the frame of [Logw]
    itself, in sugar.go, and the entry asked for, whose caller is the frame that called
    [Logw]. *)
Theorem diagnostic_caller_is_sugar (log : Logger.Logger W) l ref ctx lvl msg its key f stk recorded st :
  (1 <= storage)%nat -> Logger.callerSkip log = 0 -> Logger.addCaller log = true ->
  Logger.core log = contextObserver (enablerLevel l) ref ctx -> l <= lvl < Level.DPanicLevel -> l <= Level.ErrorLevel ->
  CoreDelivery.allocated st (Logger.addStack log) -> logs st !! ref = Some recorded ->
  (errors its <= 1)%nat -> dangling key ->
  exists st' diagnostic ent,
    Logw reflected sprintEntry storage sprintf sprint (Sugar log) lvl msg (concat (map argsOf its) ++ [key]) (f :: stk) st =
      Ret (Returns, st') /\
    logs st' !! ref = Some (recorded ++ [mkLogged diagnostic (ctx ++ [Field.Any (str "ignored") key]);
                                         mkLogged ent (ctx ++ map fieldOf its)]) /\
    Entry.Message diagnostic = _oddNumberErrMsg /\ Entry.Level diagnostic = Level.ErrorLevel /\
    Entry.Caller diagnostic = Logger.callerOf (method (str "Logw")) /\
    Entry.Message ent = msg /\ Entry.Level ent = lvl /\ Entry.Caller ent = Logger.callerOf f.
Proof.
  intros Hs Hk Hadd Hc Hlvl Hle Ha Hr He Hd. set (s := Sugar log).
  assert (Logger.callerSkip (base s) = 2) as Hk2 by by apply (Sugar_callerSkip log []).
  destruct (check_observed (base s) l ref ctx lvl msg (frameOf (str "zap.(*Logger).Check"))
    [frameOf (str "zap.(*SugaredLogger).log"); method (str "Logw")] f stk st) as (now & w & stack & E); try done.
  destruct (complain_observed s l ref ctx _oddNumberErrMsg (Field.Any (str "ignored") key)
    (frameOf (str "zap.(*SugaredLogger).sweetenFields")) (frameOf (str "zap.(*SugaredLogger).log"))
    (method (str "Logw")) (f :: stk) recorded (setWorld st w)) as (now' & w' & stack' & E'); try done.
  set (st1 := setLogs _ _) in E'.
  destruct (write_observed (Entry.mkEntry lvl now (Logger.name (base s)) msg (LogCall.siteCaller (base s) f) stack)
    (Logger.errorOutput (base s)) (enablerLevel l) ref ctx (map fieldOf its)
    (recorded ++ [mkLogged (Entry.mkEntry Level.ErrorLevel now' (Logger.name (base s)) _oddNumberErrMsg
       (LogCall.siteCaller (base s) (method (str "Logw"))) stack') (ctx ++ [Field.Any (str "ignored") key])]) st1)
    as (ce & Ew).
  { apply list_lookup_insert_eq. by eapply lookup_lt_Some. }
  eexists _, _, _. split.
  - unfold Logw. rewrite (log_observed s l ref ctx) by done. unfold checkAndWrite, Logger.Check, getMessage.
    cbn [app] in E. cbn [length decide]. rewrite (run_bind _ _ _ _ _ E).
    unfold mbind at 1, M_bind at 1. rewrite (sweetenFields_dangling s its key) by done.
    rewrite (run_bind _ _ _ _ _ E'). cbn [obind mret M_ret].
    rewrite (Hc : Logger.core (base s) = _). unfold mbind, M_bind. rewrite Ew. done.
  - assert (forall g, LogCall.siteCaller (base s) g = Logger.callerOf g) as Hsc.
    { intros g. unfold LogCall.siteCaller, s. simpl. unfold Logger.clone. by rewrite Hadd. }
    cbn. rewrite list_insert_insert_eq, list_lookup_insert_eq by (by eapply lookup_lt_Some). rewrite <- app_assoc.
    split; [done|]. split_and!; try done; apply Hsc.
Qed.
End sugar.

(** * A sugared logger *)

Section demo.
Import LoggerSpec.
#[local] Existing Instances Level.asciiStd flat_multierr flat_multierr_spec.

Definition sugared : SugaredLogger unit := Sugar loudLogger.

Lemma sugar_logs_as_logger_witness :
  exists st',
    Logw noReflection (fun _ => []) 64 (fun t _ => t) (fun _ => []) sugared Level.InfoLevel (str "m")
      [VField (Field.Bool (str "a") true); VScalar TString (str "k"); VNil; VError (New_error (str "e"))] [site] oneLog =
    Ret (Returns, st') /\
    map Context (concat (logs st')) =
      [[Field.Bool (str "a") true; Field.Any (str "k") VNil; Field.Error (Some (New_error (str "e")))]].
Proof.
  exists (mkStore tt [] [] [[mkLogged (Entry.mkEntry Level.InfoLevel zeroTime [] (str "m") (Logger.callerOf site) [])
    [Field.Bool (str "a") true; Field.Any (str "k") VNil; Field.Error (Some (New_error (str "e")))]]] []).
  split; [|reflexivity].
  refine (eq_trans (sugar_logs_as_logger noReflection (fun _ => []) 64 (fun t _ => t) (fun _ => []) sugared Level.InfoLevel
    (str "m") [IField (Field.Bool (str "a") true); IPair (str "k") VNil; IError (New_error (str "e"))] [site] oneLog _) _);
    [vm_compute; lia|vm_compute; reflexivity].
Defined.

Lemma sugar_caller_is_call_site_witness :
  exists ce,
    Logger.Check noReflection 64 (base sugared) Level.InfoLevel (str "m")
      (frameOf (str "zap.(*SugaredLogger).log") :: method (str "Logw") :: [] ++ site :: []) oneLog = Ret (Some ce, oneLog) /\
    Entry.Caller (entry ce) = Logger.callerOf site.
Proof.
  eexists. split; [vm_compute; reflexivity|].
  edestruct (sugar_caller_is_call_site noReflection 64 loudLogger Level.InfoLevel (str "m") [] site [] oneLog)
    as (stack & _ & Hc & _); [lia|reflexivity|reflexivity|vm_compute; reflexivity|discriminate|exact Hc].
Defined.

Lemma diagnostic_caller_is_sugar_witness :
  exists st' diagnostic ent,
    Logw noReflection (fun _ => []) 64 (fun t _ => t) (fun _ => []) sugared Level.InfoLevel (str "m")
      [VScalar TString (str "k"); VNil; VScalar TString (str "odd")] [site] oneLog = Ret (Returns, st') /\
    logs st' = [[mkLogged diagnostic [Field.Any (str "ignored") (VScalar TString (str "odd"))];
                 mkLogged ent [Field.Any (str "k") VNil]]] /\
    Entry.Caller diagnostic = Logger.callerOf (method (str "Logw")) /\ Entry.Caller ent = Logger.callerOf site.
Proof.
  destruct (diagnostic_caller_is_sugar noReflection (fun _ => []) 64 (fun t _ => t) (fun _ => []) loudLogger
    Level.DebugLevel 0 [] Level.InfoLevel (str "m") [IPair (str "k") VNil] (VScalar TString (str "odd")) site [] [] oneLog)
    as (st' & diagnostic & ent & E & H & _ & _ & H1 & _ & _ & H2); try done; try (vm_compute; lia).
  exists st', diagnostic, ent. split; [exact E|]. split; [|by split]. vm_compute in E. injection E as <-.
  vm_compute in H. injection H as <- <-. reflexivity.
Defined.
End demo.
End SugarSpec.
