(* ===== verification/Grpc.v ===== *)
(** zapgrpc/zapgrpc.go: a logger for grpclog, over the sugared logger.

    A method value such as [logger.delegate.Info] is the method on its receiver.  The
    methods get the stack of their caller and push their own frames. *)

From Stdlib Require Import ZArith Lia.
From S2P Require Import Prelude GoStd Level AtomicLevel WriteSyncer Encode Field Entry EncoderConfig Core CoreSpec Stacktrace Logger LoggerSpec Sugar SugarSpec.
From stdpp Require Import base list.

Local Open Scope Z_scope.
Local Open Scope zap_scope.

Module Grpc.
Import Encode Core CoreSpec Stacktrace.

Definition grpcLvlInfo : Z := 0.
Definition grpcLvlWarn : Z := 1.
Definition grpcLvlError : Z := 2.
Definition grpcLvlFatal : Z := 3.

(** A missing key of the map gives the zero level, [InfoLevel]. *)
Definition _grpcToZapLevel (level : Z) : Level.Level :=
  if level =? grpcLvlInfo then Level.InfoLevel
  else if level =? grpcLvlWarn then Level.WarnLevel
  else if level =? grpcLvlError then Level.ErrorLevel
  else if level =? grpcLvlFatal then Level.FatalLevel
  else 0.

Section grpc.
Context {W : Type} {std : GoStd} {ME : Multierr}.
Context (reflected : EncoderConfig.ReflectedEncoder) (sprintEntry : Entry.Entry -> bytes) (storage : nat).
Context (sprintf : bytes -> list any -> bytes) (sprint fmt_Sprintln : list any -> bytes).

(** * Printers *)

Record printer := mkPrinter {
  enab : Core W;
  level : Level.Level;
  print : list any -> list Frame -> M W ending;
  printf : bytes -> list any -> list Frame -> M W ending
}.

Definition sprintln (args : list any) : outcome bytes :=
  let s := fmt_Sprintln args in
  if decide (s = []) then Panic (str "slice bounds out of range") else Ret (take (length s - 1) s).

Definition printerFrame (name : bytes) : Frame := frameOf (str "zapgrpc.(*printer)." ++ name).

Definition printer_Print (v : printer) (args : list any) (stk : list Frame) : M W ending :=
  print v args (printerFrame (str "Print") :: stk).

Definition printer_Printf (v : printer) (format : bytes) (args : list any) (stk : list Frame) : M W ending :=
  printf v format args (printerFrame (str "Printf") :: stk).

Definition printer_Println (v : printer) (args : list any) (stk : list Frame) : M W ending :=
  b ← Enabled (enab v) (level v);
  if (b : bool) then
    s ← lift (sprintln args);
    print v [VScalar TString s] (printerFrame (str "Println") :: stk)
  else mret Returns.

(** * Logger *)

Record Logger := mkLogger {
  delegate : Sugar.SugaredLogger W;
  levelEnabler : Core W;
  print_ : printer;
  fatal : printer
}.

Definition Option_ : Type := Logger -> Logger.

Definition WithDebug : Option_ := fun logger =>
  mkLogger (delegate logger) (levelEnabler logger)
    (mkPrinter (levelEnabler logger) Level.DebugLevel
       (Sugar.Debug reflected sprintEntry storage sprintf sprint (delegate logger))
       (Sugar.Debugf reflected sprintEntry storage sprintf sprint (delegate logger)))
    (fatal logger).

Definition withWarn : Option_ := fun logger =>
  mkLogger (delegate logger) (levelEnabler logger) (print_ logger)
    (mkPrinter (levelEnabler logger) Level.WarnLevel
       (Sugar.Warn reflected sprintEntry storage sprintf sprint (delegate logger))
       (Sugar.Warnf reflected sprintEntry storage sprintf sprint (delegate logger))).

Definition NewLogger (l : Logger.Logger W) (options : list Option_) : Logger :=
  let delegate := Sugar.Sugar l in
  let levelEnabler := Logger.Core_ l in
  let logger :=
    mkLogger delegate levelEnabler
      (mkPrinter levelEnabler Level.InfoLevel
         (Sugar.Info reflected sprintEntry storage sprintf sprint delegate)
         (Sugar.Infof reflected sprintEntry storage sprintf sprint delegate))
      (mkPrinter levelEnabler Level.FatalLevel
         (Sugar.Fatal reflected sprintEntry storage sprintf sprint delegate)
         (Sugar.Fatalf reflected sprintEntry storage sprintf sprint delegate)) in
  foldl (fun logger option => option logger) logger options.

Definition method (name : bytes) : Frame := frameOf (str "zapgrpc.(*Logger)." ++ name).

Definition Print (l : Logger) (args : list any) (stk : list Frame) : M W ending :=
  printer_Print (print_ l) args (method (str "Print") :: stk).
Definition Printf (l : Logger) (format : bytes) (args : list any) (stk : list Frame) : M W ending :=
  printer_Printf (print_ l) format args (method (str "Printf") :: stk).
Definition Println (l : Logger) (args : list any) (stk : list Frame) : M W ending :=
  printer_Println (print_ l) args (method (str "Println") :: stk).

Definition Info (l : Logger) (args : list any) (stk : list Frame) : M W ending :=
  Sugar.Info reflected sprintEntry storage sprintf sprint (delegate l) args (method (str "Info") :: stk).
Definition Infoln (l : Logger) (args : list any) (stk : list Frame) : M W ending :=
  b ← Enabled (levelEnabler l) Level.InfoLevel;
  if (b : bool) then
    s ← lift (sprintln args);
    Sugar.Info reflected sprintEntry storage sprintf sprint (delegate l) [VScalar TString s]
      (method (str "Infoln") :: stk)
  else mret Returns.
Definition Infof (l : Logger) (format : bytes) (args : list any) (stk : list Frame) : M W ending :=
  Sugar.Infof reflected sprintEntry storage sprintf sprint (delegate l) format args (method (str "Infof") :: stk).

Definition Warning (l : Logger) (args : list any) (stk : list Frame) : M W ending :=
  Sugar.Warn reflected sprintEntry storage sprintf sprint (delegate l) args (method (str "Warning") :: stk).
Definition Warningln (l : Logger) (args : list any) (stk : list Frame) : M W ending :=
  b ← Enabled (levelEnabler l) Level.WarnLevel;
  if (b : bool) then
    s ← lift (sprintln args);
    Sugar.Warn reflected sprintEntry storage sprintf sprint (delegate l) [VScalar TString s]
      (method (str "Warningln") :: stk)
  else mret Returns.
Definition Warningf (l : Logger) (format : bytes) (args : list any) (stk : list Frame) : M W ending :=
  Sugar.Warnf reflected sprintEntry storage sprintf sprint (delegate l) format args (method (str "Warningf") :: stk).

Definition Error (l : Logger) (args : list any) (stk : list Frame) : M W ending :=
  Sugar.Error reflected sprintEntry storage sprintf sprint (delegate l) args (method (str "Error") :: stk).
Definition Errorln (l : Logger) (args : list any) (stk : list Frame) : M W ending :=
  b ← Enabled (levelEnabler l) Level.ErrorLevel;
  if (b : bool) then
    s ← lift (sprintln args);
    Sugar.Error reflected sprintEntry storage sprintf sprint (delegate l) [VScalar TString s]
      (method (str "Errorln") :: stk)
  else mret Returns.
Definition Errorf (l : Logger) (format : bytes) (args : list any) (stk : list Frame) : M W ending :=
  Sugar.Errorf reflected sprintEntry storage sprintf sprint (delegate l) format args (method (str "Errorf") :: stk).

Definition Fatal (l : Logger) (args : list any) (stk : list Frame) : M W ending :=
  printer_Print (fatal l) args (method (str "Fatal") :: stk).
Definition Fatalln (l : Logger) (args : list any) (stk : list Frame) : M W ending :=
  printer_Println (fatal l) args (method (str "Fatalln") :: stk).
Definition Fatalf (l : Logger) (format : bytes) (args : list any) (stk : list Frame) : M W ending :=
  printer_Printf (fatal l) format args (method (str "Fatalf") :: stk).

Definition V (l : Logger) (level : Z) : M W bool := Enabled (levelEnabler l) (_grpcToZapLevel level).

(** * Specification *)

(** The four severities of grpclog, and the printing methods of its first version. *)
Inductive severity := SInfo | SWarning | SError | SFatal | SPrint.

Inductive option_ := OptDebug | OptWarn.

Definition optionOf (o : option_) : Option_ := match o with OptDebug => WithDebug | OptWarn => withWarn end.

Inductive style := AsPrint | AsPrintln | AsPrintf (format : bytes).

(** [WithDebug] lowers what is printed, [withWarn] what is fatal. *)
Definition debugs (opts : list option_) : bool := existsb (fun o => match o with OptDebug => true | OptWarn => false end) opts.
Definition warns (opts : list option_) : bool := existsb (fun o => match o with OptWarn => true | OptDebug => false end) opts.

Definition levelOf (opts : list option_) (sev : severity) : Level.Level :=
  match sev with
  | SInfo => Level.InfoLevel
  | SWarning => Level.WarnLevel
  | SError => Level.ErrorLevel
  | SFatal => if warns opts then Level.WarnLevel else Level.FatalLevel
  | SPrint => if debugs opts then Level.DebugLevel else Level.InfoLevel
  end.

(** The method of a severity in a style. *)
Definition call (l : Logger) (sev : severity) (sty : style) (args : list any) (stk : list Frame) : M W ending :=
  match sev, sty with
  | SInfo, AsPrint => Info l args stk
  | SInfo, AsPrintln => Infoln l args stk
  | SInfo, AsPrintf format => Infof l format args stk
  | SWarning, AsPrint => Warning l args stk
  | SWarning, AsPrintln => Warningln l args stk
  | SWarning, AsPrintf format => Warningf l format args stk
  | SError, AsPrint => Error l args stk
  | SError, AsPrintln => Errorln l args stk
  | SError, AsPrintf format => Errorf l format args stk
  | SFatal, AsPrint => Fatal l args stk
  | SFatal, AsPrintln => Fatalln l args stk
  | SFatal, AsPrintf format => Fatalf l format args stk
  | SPrint, AsPrint => Print l args stk
  | SPrint, AsPrintln => Println l args stk
  | SPrint, AsPrintf format => Printf l format args stk
  end.

Definition textOf (sty : style) (args : list any) : bytes :=
  match sty with
  | AsPrint => Sugar.getMessage sprintf sprint [] args
  | AsPrintln => take (length (fmt_Sprintln args) - 1) (fmt_Sprintln args)
  | AsPrintf format => Sugar.getMessage sprintf sprint format args
  end.

Definition logMessage (log : Logger.Logger W) (lvl : Level.Level) (msg : bytes) (stk : list Frame) : M W ending :=
  Logger.logAt reflected sprintEntry storage (Sugar.base (Sugar.Sugar log)) lvl msg [] stk.

(** Asking first whether the level is enabled changes nothing below DPanic. *)
Lemma enabled_guard (log : Logger.Logger W) lvl msg stk st :
  lvl < Level.DPanicLevel ->
  (b ← Enabled (Logger.Core_ log) lvl; if (b : bool) then logMessage log lvl msg stk else mret Returns) st =
  logMessage log lvl msg stk st.
Proof.
  intros Hl. unfold logMessage, Logger.logAt, Logger.check, Logger.Core_.
  destruct (pure_Enabled (Logger.core log) lvl st) as [[b E]|[v E]].
  - rewrite (run_bind _ _ _ _ _ E). destruct b; [done|]. rewrite (proj2 (Z.ltb_lt _ _) Hl).
    unfold mbind, M_bind. simpl. unfold Logger.clone. by rewrite E.
  - rewrite (proj2 (Z.ltb_lt _ _) Hl). unfold mbind, M_bind. simpl. unfold Logger.clone. by rewrite E.
Qed.

Lemma sugar_log (log : Logger.Logger W) lvl template args stk st :
  Sugar.log reflected sprintEntry storage sprintf sprint (Sugar.Sugar log) lvl template args [] stk st =
  logMessage log lvl (Sugar.getMessage sprintf sprint template args)
    (frameOf (str "zap.(*Logger).Check") :: frameOf (str "zap.(*SugaredLogger).log") :: stk) st.
Proof.
  pose proof (SugarSpec.log_is_logAt reflected sprintEntry storage sprintf sprint (Sugar.Sugar log) lvl template args []
    stk st (Nat.le_0_l 1)) as H. cbn [map concat] in H. exact H.
Qed.

(** A line is logged as one string. *)
Lemma sugar_log_line (log : Logger.Logger W) lvl args stk st :
  fmt_Sprintln args <> [] ->
  (s ← lift (sprintln args);
   Sugar.log reflected sprintEntry storage sprintf sprint (Sugar.Sugar log) lvl [] [VScalar TString s] [] stk) st =
  logMessage log lvl (textOf AsPrintln args)
    (frameOf (str "zap.(*Logger).Check") :: frameOf (str "zap.(*SugaredLogger).log") :: stk) st.
Proof.
  intros Hs. unfold sprintln. rewrite decide_False by done.
  apply (sugar_log log lvl [] [VScalar TString (take (length (fmt_Sprintln args) - 1) (fmt_Sprintln args))]).
Qed.

Lemma guarded_line (log : Logger.Logger W) lvl args stk st :
  fmt_Sprintln args <> [] ->
  (b ← Enabled (Logger.Core_ log) lvl;
   if (b : bool) then
     s ← lift (sprintln args);
     Sugar.log reflected sprintEntry storage sprintf sprint (Sugar.Sugar log) lvl [] [VScalar TString s] [] stk
   else mret Returns) st =
  (b ← Enabled (Logger.Core_ log) lvl;
   if (b : bool) then
     logMessage log lvl (textOf AsPrintln args)
       (frameOf (str "zap.(*Logger).Check") :: frameOf (str "zap.(*SugaredLogger).log") :: stk)
   else mret Returns) st.
Proof.
  intros Hs. unfold mbind at 1 3, M_bind at 1 3.
  destruct (Enabled (Logger.Core_ log) lvl st) as [[[] st1]| |]; cbn [obind]; try done. by apply sugar_log_line.
Qed.

(** The printers that the options leave. *)
Definition printPrinter (log : Logger.Logger W) (debug : bool) : printer :=
  let d := Sugar.Sugar log in
  if debug then mkPrinter (Logger.Core_ log) Level.DebugLevel
    (Sugar.Debug reflected sprintEntry storage sprintf sprint d) (Sugar.Debugf reflected sprintEntry storage sprintf sprint d)
  else mkPrinter (Logger.Core_ log) Level.InfoLevel
    (Sugar.Info reflected sprintEntry storage sprintf sprint d) (Sugar.Infof reflected sprintEntry storage sprintf sprint d).

Definition fatalPrinter (log : Logger.Logger W) (warn : bool) : printer :=
  let d := Sugar.Sugar log in
  if warn then mkPrinter (Logger.Core_ log) Level.WarnLevel
    (Sugar.Warn reflected sprintEntry storage sprintf sprint d) (Sugar.Warnf reflected sprintEntry storage sprintf sprint d)
  else mkPrinter (Logger.Core_ log) Level.FatalLevel
    (Sugar.Fatal reflected sprintEntry storage sprintf sprint d) (Sugar.Fatalf reflected sprintEntry storage sprintf sprint d).

Lemma NewLogger_options log opts :
  NewLogger log (map optionOf opts) =
  mkLogger (Sugar.Sugar log) (Logger.Core_ log) (printPrinter log (debugs opts)) (fatalPrinter log (warns opts)).
Proof.
  unfold NewLogger. induction opts as [|o opts IH] using rev_ind; [done|].
  rewrite map_app, foldl_app, IH. unfold debugs, warns. rewrite !existsb_app. simpl. rewrite !orb_false_r.
  destruct o; simpl; by rewrite ?orb_true_r, ?orb_false_r.
Qed.

(** The frames of the adapter, above the caller's. *)
Definition adapterFrames (opts : list option_) (sev : severity) (sty : style) : list Frame :=
  let method_ (name : bytes) :=
    [Sugar.method (match sty with AsPrintf _ => name ++ str "f" | _ => name end)] in
  let named (name : bytes) :=
    [method (match sty with AsPrint => name | AsPrintln => name ++ str "ln" | AsPrintf _ => name ++ str "f" end)] in
  let printed := [printerFrame (match sty with AsPrint => str "Print" | AsPrintln => str "Println" | AsPrintf _ => str "Printf" end)] in
  [frameOf (str "zap.(*Logger).Check"); frameOf (str "zap.(*SugaredLogger).log")] ++
  match sev with
  | SInfo => method_ (str "Info") ++ named (str "Info")
  | SWarning => method_ (str "Warn") ++ named (str "Warning")
  | SError => method_ (str "Error") ++ named (str "Error")
  | SFatal => method_ (if warns opts then str "Warn" else str "Fatal") ++ printed ++ named (str "Fatal")
  | SPrint => method_ (if debugs opts then str "Debug" else str "Info") ++ printed ++ named (str "Print")
  end.

(** C33: the gRPC adapter logs as the logger it wraps.  Each method of it, the printing
    methods of the first API included, logs one entry at the level of its severity, with
    the text that the function of fmt it is named after gives, without the newline of
    [Sprintln], and no fields; with [WithDebug] what is printed is logged at Debug, and
    with [withWarn] what is fatal at Warn.  The fatal methods end as the logger does at
    Fatal, with one exception: [Fatalln] returns without ending the process when the core
    is not enabled at Fatal, while [Fatal] and [Fatalf] do not. *)
Theorem grpc_logs_as_zap (log : Logger.Logger W) opts sev sty args stk st :
  fmt_Sprintln args <> [] ->
  let lvl := levelOf opts sev in
  let logs := logMessage log lvl (textOf sty args) (adapterFrames opts sev sty ++ stk) in
  call (NewLogger log (map optionOf opts)) sev sty args stk st =
  match sty with
  | AsPrintln =>
      if lvl =? Level.FatalLevel then
        (b ← Enabled (Logger.core log) Level.FatalLevel; if (b : bool) then logs else mret Returns) st
      else logs st
  | _ => logs st
  end.
Proof.
  intros Hs. cbv zeta. rewrite NewLogger_options. unfold levelOf, adapterFrames, printPrinter, fatalPrinter.
  unfold call, Info, Infoln, Infof, Warning, Warningln, Warningf, Error, Errorln, Errorf, Fatal, Fatalln, Fatalf,
    Print, Println, Printf, printer_Print, printer_Println, printer_Printf.
  unfold Sugar.Debug, Sugar.Debugf, Sugar.Info, Sugar.Infof, Sugar.Warn, Sugar.Warnf, Sugar.Error, Sugar.Errorf,
    Sugar.Fatal, Sugar.Fatalf.
  destruct sev, sty; try (destruct (warns opts)); try (destruct (debugs opts));
    cbn [delegate levelEnabler print_ fatal enab level print printf];
    rewrite ?sugar_log, ?guarded_line by done; try reflexivity; by apply enabled_guard.
Qed.
End grpc.
Arguments Logger W : clear implicits.

Section demo.
Import LoggerSpec.
#[local] Existing Instances Level.asciiStd flat_multierr.

(** A core that is off: [Fatal] exits, [Fatalln] returns. *)
Definition quietLogger : Logger.Logger unit := Logger.setCore loudLogger nopCore.

Lemma grpc_logs_as_zap_witness :
  let new opts := NewLogger noReflection (fun _ => []) 64 (fun t _ => t) (fun _ => []) quietLogger
    (map (optionOf noReflection (fun _ => []) 64 (fun t _ => t) (fun _ => [])) opts) in
  let run opts sev sty := call noReflection (fun _ => []) 64 (fun t _ => t) (fun _ => []) (fun _ => [x0a])
    (new opts) sev sty [] [site] oneLog in
  run [] SFatal AsPrint = Ret (Exits 1, oneLog) /\ run [] SFatal AsPrintln = Ret (Returns, oneLog) /\
  run [OptDebug; OptWarn] SFatal AsPrint = Ret (Returns, oneLog).
Proof.
  cbv zeta. split; [|split].
  all: rewrite (grpc_logs_as_zap noReflection (fun _ => []) 64 (fun t _ => t) (fun _ => []) (fun _ => [x0a]) quietLogger)
    by discriminate.
  all: vm_compute; reflexivity.
Defined.
End demo.
End Grpc.
