(* ===== verification/ZapIO.v ===== *)
(** zapio/writer.go: an [io.Writer] that logs what is written to it, line by line.

    The methods get the stack of their caller, push their own frames and return how
    the call ended: a logger at a terminal level does not come back, and then nothing
    that follows in the method runs. *)

From Stdlib Require Import ZArith Lia.
From S2P Require Import Prelude Strconv GoStd Level AtomicLevel WriteSyncer Encode Field Entry EncoderConfig Core CoreSpec Stacktrace Logger LoggerSpec.
From stdpp Require Import base list.

Local Open Scope Z_scope.
Local Open Scope zap_scope.

Module ZapIO.
Import Encode Core CoreSpec Stacktrace LoggerSpec.

Section writer.
Context {W : Type} {std : GoStd} {ME : Multierr}.
Context (reflected : EncoderConfig.ReflectedEncoder) (sprintEntry : Entry.Entry -> bytes) (storage : nat).

Record Writer := mkWriter { Log : Logger.Logger W; Level_ : Level.Level; buff : bytes }.

Definition setBuff (w : Writer) (b : bytes) : Writer := mkWriter (Log w) (Level_ w) b.

Definition newline : byte := x0a.

(** [bytes.IndexByte(s, c)]; [None] is -1. *)
Fixpoint IndexByte (s : bytes) (c : byte) : option nat :=
  match s with
  | [] => None
  | b :: s' => if decide (b = c) then Some 0%nat else option_map S (IndexByte s' c)
  end.

Definition log (w : Writer) (b : bytes) (stk : list Frame) : M W ending :=
  ce ← Logger.Check reflected storage (Log w) (Level_ w) b (frameOf (str "zapio.(*Writer).log") :: stk);
  match ce with
  | Some _ => '(e, _) ← checked_Write reflected sprintEntry ce []; mret e
  | None => mret Returns
  end.

Definition flush (w : Writer) (allowEmpty : bool) (stk : list Frame) : M W (ending * Writer) :=
  e ← (if allowEmpty || (0 <? lenZ (buff w))
       then log w (buff w) (frameOf (str "zapio.(*Writer).flush") :: stk)
       else mret Returns);
  mret (e, match e with Returns => setBuff w [] | _ => w end).

(** The ending, the writer and the bytes that are left. *)
Definition writeLine (w : Writer) (line : bytes) (stk : list Frame) : M W (ending * Writer * bytes) :=
  let stk := frameOf (str "zapio.(*Writer).writeLine") :: stk in
  match IndexByte line newline with
  | None => mret (Returns, setBuff w (buff w ++ line), [])
  | Some idx =>
      let remaining := drop (S idx) line in
      let line := take idx line in
      if lenZ (buff w) =? 0 then
        e ← log w line stk; mret (e, w, remaining)
      else
        '(e, w) ← flush (setBuff w (buff w ++ line)) true stk; mret (e, w, remaining)
  end.

(** The loop of [Write]; a line takes at least one byte. *)
Fixpoint writeLines (fuel : nat) (w : Writer) (bs : bytes) (stk : list Frame) : M W (ending * Writer) :=
  if lenZ bs =? 0 then mret (Returns, w)
  else
    match fuel with
    | O => diverge
    | S fuel =>
        '(e, w, bs) ← writeLine w bs stk;
        match e with
        | Returns => writeLines fuel w bs stk
        | _ => mret (e, w)
        end
    end.

Definition Write (w : Writer) (bs : bytes) (stk : list Frame) : M W (ending * (Z * error) * Writer) :=
  b ← Enabled (Logger.Core_ (Log w)) (Level_ w);
  if negb b then mret (Returns, (lenZ bs, None), w)
  else
    let n := lenZ bs in
    '(e, w) ← writeLines (length bs) w bs (frameOf (str "zapio.(*Writer).Write") :: stk);
    mret (e, (n, None), w).

Definition Sync (w : Writer) (stk : list Frame) : M W (ending * error * Writer) :=
  '(e, w) ← flush w false (frameOf (str "zapio.(*Writer).Sync") :: stk); mret (e, None, w).

Definition Close (w : Writer) (stk : list Frame) : M W (ending * error * Writer) :=
  Sync w (frameOf (str "zapio.(*Writer).Close") :: stk).

(** * Specification *)

(** The pieces of a text between newlines, and what follows the last one. *)
Fixpoint splitLines (s : bytes) : list bytes * bytes :=
  match s with
  | [] => ([], [])
  | b :: s' =>
      let '(ls, last) := splitLines s' in
      if decide (b = newline) then ([] :: ls, last)
      else match ls with [] => ([], b :: last) | l :: ls => ((b :: l) :: ls, last) end
  end.

(** The messages of a text: its lines, the last one also without a newline. *)
Definition messages (s : bytes) : list bytes :=
  let '(ls, last) := splitLines s in if decide (last = []) then ls else ls ++ [last].

(** Messages logged one after the other, each from its call site. *)
Fixpoint logEach (w : Writer) (sites : list (bytes * list Frame)) : M W unit :=
  match sites with
  | [] => mret tt
  | (m, stk) :: sites' => _ ← log w m stk; logEach w sites'
  end.

(** A client that writes the chunks and closes the writer. *)
Fixpoint writeAll (w : Writer) (chunks : list bytes) (stk : list Frame) : M W unit :=
  match chunks with
  | [] => _ ← Close w stk; mret tt
  | c :: chunks' => '(_, _, w) ← Write w c stk; writeAll w chunks' stk
  end.

(** * Lemmas *)

(** Computations that do the same from every store. *)
#[local] Instance M_equiv {A} : Equiv (M W A) := fun m1 m2 => forall st, m1 st = m2 st.

#[local] Instance M_equivalence {A} : Equivalence (≡@{M W A}).
Proof. split; [by intros m st|intros m1 m2 H st; by rewrite H|intros m1 m2 m3 H1 H2 st; by rewrite H1, H2]. Qed.

Lemma bind_equiv {A B} (m1 m2 : M W A) (f1 f2 : A -> M W B) :
  m1 ≡ m2 -> (forall a, f1 a ≡ f2 a) -> (m1 ≫= f1) ≡ (m2 ≫= f2).
Proof.
  intros Hm Hf st. unfold mbind, M_bind. rewrite Hm. destruct (m2 st) as [[a st']| |]; simpl; [apply Hf|done..].
Qed.

Lemma bind_assoc {A B C} (m : M W A) (f : A -> M W B) (g : B -> M W C) :
  ((m ≫= f) ≫= g) ≡ (m ≫= fun a => f a ≫= g).
Proof. intros st. unfold mbind, M_bind. by destruct (m st) as [[a st']| |]. Qed.

(** A computation that only ever returns [a]. *)
Lemma bind_yields {A B} (a : A) (m : M W A) (f : A -> M W B) :
  yields (fun x => x = a) m -> (m ≫= f) ≡ (m ≫= fun _ => f a).
Proof.
  intros Hm st. unfold mbind, M_bind. destruct (m st) as [[x st']| |] eqn:E; simpl; [|done..].
  by rewrite (Hm _ _ _ E).
Qed.

Lemma IndexByte_None s c : IndexByte s c = None -> c ∉ s.
Proof.
  induction s as [|b s IH]; simpl; [intros _ H; by apply not_elem_of_nil in H|].
  case_decide; [done|]. destruct (IndexByte s c); [done|]. intros _. apply not_elem_of_cons. split; [congruence|auto].
Qed.

Lemma IndexByte_Some s c i : IndexByte s c = Some i -> s = take i s ++ c :: drop (S i) s /\ c ∉ take i s.
Proof.
  revert i. induction s as [|b s IH]; intros i; simpl; [done|]. case_decide as Hb.
  - intros [= <-]. subst. split; [done|]. apply not_elem_of_nil.
  - destruct (IndexByte s c) as [j|]; [|done]. intros [= <-]. destruct (IH j eq_refl) as [E Hn]. simpl.
    split; [by f_equal|]. apply not_elem_of_cons. split; [congruence|done].
Qed.

Lemma splitLines_none s : newline ∉ s -> splitLines s = ([], s).
Proof.
  induction s as [|b s IH]; [done|]. intros [Hb Hs]%not_elem_of_cons. simpl. rewrite IH by done.
  by rewrite decide_False by congruence.
Qed.

Lemma splitLines_line l r : newline ∉ l ->
  splitLines (l ++ newline :: r) = (l :: (splitLines r).1, (splitLines r).2).
Proof.
  induction l as [|b l IH]; intros Hl; simpl.
  - by destruct (splitLines r).
  - apply not_elem_of_cons in Hl as [Hb Hl]. rewrite (IH Hl). by rewrite decide_False by congruence.
Qed.

(** A writer whose logger is enabled and comes back. *)
Context (w : Writer).
Context (enabled : forall st, Enabled (Logger.core (Log w)) (Level_ w) st = Ret (true, st)).
Context (returns : terminal (Log w) (Level_ w) = None).

Lemma log_returns m stk : yields (fun e => e = Returns) (log w m stk).
Proof.
  intros st e st' E. apply (yields_logAt reflected sprintEntry storage) in E. by rewrite returns in E.
Qed.

Lemma writeLine_spec b l r stk :
  newline ∉ l -> exists site,
  writeLine (setBuff w b) (l ++ newline :: r) stk ≡ (_ ← log w (b ++ l) site; mret (Returns, setBuff w [], r)).
Proof.
  intros Hl. unfold writeLine.
  destruct (IndexByte (l ++ newline :: r) newline) as [i|] eqn:Ei.
  2:{ apply IndexByte_None in Ei. exfalso. apply Ei. apply elem_of_app. right. apply list_elem_of_here. }
  apply IndexByte_Some in Ei as [E Hn].
  assert (take i (l ++ newline :: r) = l /\ drop (S i) (l ++ newline :: r) = r) as [-> ->].
  { revert i E Hn. induction l as [|x l IH]; intros [|i] E Hn; simpl in *.
    - done.
    - exfalso. apply Hn. apply list_elem_of_here.
    - exfalso. injection E as ->. apply Hl, list_elem_of_here.
    - apply not_elem_of_cons in Hl as [_ Hl]. apply not_elem_of_cons in Hn as [_ Hn]. injection E as E.
      destruct (IH Hl i E Hn) as [H1 H2]. by rewrite H1, H2. }
  cbv zeta. destruct b as [|x b].
  - eexists. cbn [buff setBuff lenZ length Z.of_nat Z.eqb app].
    etransitivity; [apply (bind_yields Returns), log_returns|done].
  - eexists. rewrite (proj2 (Z.eqb_neq _ _)) by (unfold lenZ; simpl; lia). unfold flush.
    cbn [buff setBuff orb]. etransitivity; [apply bind_assoc|].
    etransitivity; [apply (bind_yields Returns), log_returns|done].
Qed.

Lemma writeLines_spec fuel b bs stk :
  newline ∉ b -> (length bs <= fuel)%nat -> exists sites,
  map fst sites = (splitLines (b ++ bs)).1 /\
  writeLines fuel (setBuff w b) bs stk ≡
    (_ ← logEach w sites; mret (Returns, setBuff w (splitLines (b ++ bs)).2)).
Proof.
  revert b bs. induction fuel as [|fuel IH]; intros b bs Hb Hlen.
  { destruct bs; [|simpl in Hlen; lia]. exists []. rewrite app_nil_r, splitLines_none by done. done. }
  destruct bs as [|x bs].
  { exists []. rewrite app_nil_r, splitLines_none by done. done. }
  cbn [writeLines]. rewrite (proj2 (Z.eqb_neq _ _)) by (unfold lenZ; simpl; lia).
  destruct (IndexByte (x :: bs) newline) as [i|] eqn:Ei.
  - destruct (IndexByte_Some _ _ _ Ei) as [E Hn]. set (l := take i (x :: bs)) in *. set (r := drop (S i) (x :: bs)) in *.
    rewrite E. destruct (writeLine_spec b l r stk Hn) as (site & Hw).
    assert (length r <= fuel)%nat as Hr.
    { pose proof (f_equal length E) as Hlen'. rewrite length_app in Hlen'. simpl in *. lia. }
    destruct (IH [] r (not_elem_of_nil _) Hr) as (sites & Hs & HW).
    exists ((b ++ l, site) :: sites). rewrite app_assoc.
    rewrite splitLines_line by (by apply not_elem_of_app).
    split; [simpl; by rewrite Hs|]. cbn [logEach].
    etransitivity; [apply (bind_equiv _ _ _ _ Hw (fun _ => reflexivity _))|].
    etransitivity; [apply bind_assoc|]. symmetry. etransitivity; [apply bind_assoc|]. symmetry.
    apply bind_equiv; [done|]. intros e. exact HW.
  - exists []. pose proof (IndexByte_None _ _ Ei) as Hn.
    rewrite splitLines_none by (by apply not_elem_of_app). split; [done|].
    unfold writeLine. rewrite Ei. intros st. unfold mbind, M_bind. simpl. by destruct fuel.
Qed.

Lemma logEach_app s1 s2 : logEach w (s1 ++ s2) ≡ (_ ← logEach w s1; logEach w s2).
Proof.
  induction s1 as [|[m stk] s1 IH]; [done|]. cbn [logEach app].
  symmetry. etransitivity; [apply bind_assoc|]. symmetry. by apply bind_equiv.
Qed.

Lemma splitLines_last s : newline ∉ (splitLines s).2.
Proof.
  induction s as [|b s IH]; simpl; [apply not_elem_of_nil|]. destruct (splitLines s) as [[|l ls] last]; simpl in *;
    case_decide; simpl; try done. apply not_elem_of_cons. split; [congruence|done].
Qed.

Lemma splitLines_app s t :
  splitLines (s ++ t) =
  ((splitLines s).1 ++ (splitLines ((splitLines s).2 ++ t)).1, (splitLines ((splitLines s).2 ++ t)).2).
Proof.
  induction s as [|b s IH]; simpl; [by destruct (splitLines t)|]. rewrite IH.
  destruct (splitLines s) as [ls last] eqn:E. simpl. case_decide as Hb; [done|].
  destruct ls as [|l ls]; simpl; [|done].
  destruct (splitLines (last ++ t)) as [[|l' ls'] last'] eqn:E2; simpl; by rewrite decide_False.
Qed.

Lemma Write_spec b bs stk :
  newline ∉ b -> exists sites,
  map fst sites = (splitLines (b ++ bs)).1 /\
  Write (setBuff w b) bs stk ≡
    (_ ← logEach w sites; mret (Returns, (lenZ bs, None), setBuff w (splitLines (b ++ bs)).2)).
Proof.
  intros Hb. destruct (writeLines_spec (length bs) b bs (frameOf (str "zapio.(*Writer).Write") :: stk) Hb)
    as (sites & Hs & HW); [done|]. exists sites. split; [done|].
  intros st. unfold Write, Logger.Core_. rewrite (run_bind _ _ _ _ _ (enabled st)). cbn [negb]. cbv zeta.
  rewrite (bind_equiv _ _ _ (fun '(e, w) => mret (e, (lenZ bs, None), w)) HW (fun _ => reflexivity _) st).
  by rewrite bind_assoc.
Qed.

Lemma writeAll_spec b chunks stk :
  newline ∉ b -> exists sites,
  map fst sites = messages (b ++ concat chunks) /\ writeAll (setBuff w b) chunks stk ≡ logEach w sites.
Proof.
  revert b. induction chunks as [|c chunks IH]; intros b Hb; cbn [writeAll concat].
  - rewrite app_nil_r. unfold messages. rewrite splitLines_none by done. unfold Close, Sync, flush.
    destruct b as [|x b].
    + exists []. split; [done|]. by intros st.
    + exists [(x :: b, frameOf (str "zapio.(*Writer).flush") :: frameOf (str "zapio.(*Writer).Sync") ::
                     frameOf (str "zapio.(*Writer).Close") :: stk)].
      split; [done|]. intros st. cbn [buff setBuff orb logEach].
      rewrite (proj2 (Z.ltb_lt _ _)) by (unfold lenZ; simpl; lia).
      change (log (setBuff w (x :: b))) with (log w). unfold mbind, M_bind.
      by destruct (log w (x :: b) _ st) as [[e st']| |].
  - destruct (Write_spec b c stk Hb) as (s1 & Hs1 & HW).
    destruct (IH (splitLines (b ++ c)).2 (splitLines_last _)) as (s2 & Hs2 & HR).
    exists (s1 ++ s2). rewrite map_app, Hs1, Hs2. rewrite app_assoc. unfold messages.
    rewrite (splitLines_app (b ++ c)). split.
    + destruct (splitLines ((splitLines (b ++ c)).2 ++ concat chunks)) as [ls last]. simpl.
      case_decide; [done|]. by rewrite app_assoc.
    + etransitivity; [apply (bind_equiv _ _ _ _ HW (fun _ => reflexivity _))|].
      etransitivity; [apply bind_assoc|]. symmetry. etransitivity; [apply logEach_app|]. symmetry.
      apply bind_equiv; [done|]. intros []. exact HR.
Qed.

(** C21: a [zapio.Writer] logs the lines of the stream, however it is chunked: for a logger
    that is enabled at a level that returns, writing any chunks to an empty writer and
    closing it logs, one after the other and nothing else, the lines of the chunks put
    together, empty lines included, and the last line also when it has no newline. *)
Theorem writer_logs_lines chunks stk :
  buff w = [] ->
  exists sites, map fst sites = messages (concat chunks) /\
    forall st, writeAll w chunks stk st = logEach w sites st.
Proof.
  intros Hb. destruct (writeAll_spec [] chunks stk (not_elem_of_nil _)) as (sites & Hs & HW).
  exists sites. split; [done|]. intros st. rewrite <- HW. destruct w. simpl in Hb. by subst.
Qed.
End writer.
Arguments Writer W : clear implicits.

(** * A writer *)

Section demo.
#[local] Existing Instances Level.asciiStd flat_multierr.

Definition demoWriter : Writer unit := mkWriter loudLogger Level.InfoLevel [].

Lemma writer_logs_lines_witness :
  exists sites,
    map fst sites = [str "one"; str "two"; []; str "three"] /\
    writeAll noReflection (fun _ => []) 64 demoWriter
      [str "one" ++ [x0a] ++ str "tw"; str "o" ++ [x0a; x0a] ++ str "thr"; str "ee"] [site] oneLog =
    logEach noReflection (fun _ => []) 64 demoWriter sites oneLog.
Proof.
  destruct (writer_logs_lines noReflection (fun _ => []) 64 demoWriter (fun _ => eq_refl) eq_refl
    [str "one" ++ [x0a] ++ str "tw"; str "o" ++ [x0a; x0a] ++ str "thr"; str "ee"] [site] eq_refl) as (sites & Hs & H).
  exists sites. split; [exact Hs|exact (H oneLog)].
Defined.
End demo.
End ZapIO.
