(* ===== verification/Sink.v ===== *)
(** Sinks and encoders by name: sink.go, [Open] and [open] of writer.go, and encoder.go.

    The world [W] is the file system and whatever the factories of sinks touch.
    [url.Parse] and [os.OpenFile] are parameters; a parsed URL is the parts of it that
    the code reads.  Paths are those of Unix: absolute when they start with a slash. *)

From Stdlib Require Import ZArith Lia.
From S2P Require Import Prelude GoStd Level WriteSyncer Encode EncoderConfig JsonEncoder ConsoleEncoder Core.
From stdpp Require Import base list.

Local Open Scope Z_scope.
Local Open Scope zap_scope.

Module Sink.
Import WriteSyncer.

(** What the code reads of a [url.URL].  [StringWith s] is its [String()] with [s] in the
    place of its scheme. *)
Record URL := mkURL {
  Scheme : bytes;
  hasUser : bool;
  Fragment : bytes;
  RawQuery : bytes;
  Port : bytes;
  Hostname : bytes;
  Path : bytes;
  StringWith : bytes -> bytes
}.

Definition URL_String (u : URL) : bytes := StringWith u (Scheme u).

Definition setScheme (u : URL) (s : bytes) : URL :=
  mkURL s (hasUser u) (Fragment u) (RawQuery u) (Port u) (Hostname u) (Path u) (StringWith u).

Definition schemeFile : bytes := str "file".

Section sinks.
Context {W : Type} {std : GoStd} {ME : Multierr}.

(** [url.Parse], [os.OpenFile] with the flags and mode of the code, and the standard
    streams. *)
Context (Parse : bytes -> URL + err).
Context (stdout stderr : @WriteSyncer W).

(** A [Sink]: a [WriteSyncer] that can be closed. *)
Record Sink := mkSink { syncer : @WriteSyncer W; Close : W -> error * W }.

Definition nopCloserSink (ws : @WriteSyncer W) : Sink := mkSink ws (fun w => (None, w)).

(** A call that gives a sink or an error. *)
Definition opening : Type := W -> (Sink + err) * W.

Record sinkRegistry := mkRegistry {
  factories : list (bytes * (URL -> opening));
  openFile : bytes -> opening
}.

(** [m[k]] of a map whose keys are all different. *)
Fixpoint lookupKey {A} (m : list (bytes * A)) (k : bytes) : option A :=
  match m with
  | [] => None
  | (k', v) :: m' => if decide (k' = k) then Some v else lookupKey m' k
  end.

(** * Schemes *)

Definition schemeByte (c : byte) : bool :=
  ((97 <=? bval c) && (bval c <=? 122)) || ((48 <=? bval c) && (bval c <=? 57)) ||
  bool_decide (c = x2e) || bool_decide (c = x2b) || bool_decide (c = x2d).

(** The loop over the bytes after the first: the first byte that is not allowed. *)
Fixpoint badByte (s : bytes) : option byte :=
  match s with
  | [] => None
  | c :: s' => if schemeByte c then badByte s' else Some c
  end.

Definition normalizeScheme (s : bytes) : outcome (bytes * error) :=
  let s := ToLower s in
  match s with
  | [] => Panic (str "index out of range")
  | first :: rest =>
      if (bval first <? 97) || (122 <? bval first) then
        Ret ([], Some (New_error (str "must start with a letter")))
      else
        match badByte rest with
        | Some c => Ret ([], Some (New_error (str "may not contain " ++ QuoteRune (bval c))))
        | None => Ret (s, None)
        end
  end.

(** * The registry *)

Definition RegisterSink (sr : sinkRegistry) (scheme : bytes) (factory : URL -> opening)
    : outcome (error * sinkRegistry) :=
  if decide (scheme = []) then
    Ret (Some (New_error (str "can't register a sink factory for empty string")), sr)
  else
    let! (normalized, err) := normalizeScheme scheme in
    match err with
    | Some e =>
        Ret (Some (New_error (Quote scheme ++ str " is not a valid scheme: " ++ Error_text e)), sr)
    | None =>
        match lookupKey (factories sr) normalized with
        | Some _ =>
            Ret (Some (New_error (str "sink factory already registered for scheme " ++ Quote normalized)), sr)
        | None => Ret (None, mkRegistry (factories sr ++ [(normalized, factory)]) (openFile sr))
        end
    end.

Definition newFileSinkFromPath (sr : sinkRegistry) (path : bytes) : opening := fun w =>
  if decide (path = str "stdout") then (inl (nopCloserSink stdout), w)
  else if decide (path = str "stderr") then (inl (nopCloserSink stderr), w)
  else openFile sr path w.

Definition newFileSinkFromURL (sr : sinkRegistry) (u : URL) : opening := fun w =>
  let refuse (msg : bytes) := (inr (New_error (msg ++ str ": got " ++ URL_String u)), w) in
  if hasUser u then refuse (str "user and password not allowed with file URLs")
  else if decide (Fragment u <> []) then refuse (str "fragments not allowed with file URLs")
  else if decide (RawQuery u <> []) then refuse (str "query parameters not allowed with file URLs")
  else if decide (Port u <> []) then refuse (str "ports not allowed with file URLs")
  else if decide (Hostname u <> [] /\ Hostname u <> str "localhost") then
    refuse (str "file URLs must leave host empty or use localhost")
  else newFileSinkFromPath sr (Path u) w.

(** [newSinkRegistry]: the factory of files belongs to the registry it is in, whose
    [openFile] does not change. *)
Definition newSinkRegistry (open : bytes -> opening) : outcome sinkRegistry :=
  let sr := mkRegistry [] open in
  let! (_, sr) := RegisterSink sr schemeFile (newFileSinkFromURL sr) in
  Ret sr.

Definition errSinkNotFound (scheme : bytes) : err :=
  New_error (str "no sink found for scheme " ++ Quote scheme).

(** [filepath.IsAbs] on Unix. *)
Definition IsAbs (path : bytes) : bool :=
  match path with
  | c :: _ => bool_decide (c = x2f)
  | [] => false
  end.

Definition newSink (sr : sinkRegistry) (rawURL : bytes) : opening := fun w =>
  if IsAbs rawURL then newFileSinkFromPath sr rawURL w
  else
    match Parse rawURL with
    | inr e => (inr (New_error (str "can't parse " ++ Quote rawURL ++ str " as a URL: " ++ Error_text e)), w)
    | inl u =>
        let u := if decide (Scheme u = []) then setScheme u schemeFile else u in
        match lookupKey (factories sr) (Scheme u) with
        | None => (inr (errSinkNotFound (Scheme u)), w)
        | Some factory => factory u w
        end
    end.

(** * Opening *)

(** [closeAll] over the closers. *)
Fixpoint closeAll (closers : list Sink) (w : W) : W :=
  match closers with
  | [] => w
  | c :: closers' => let '(_, w) := Close c w in closeAll closers' w
  end.

Definition openSinkError (path : bytes) (e : err) : err :=
  New_error (str "open sink " ++ Quote path ++ str ": " ++ Error_text e).

(** The loop of [open]: the sinks opened and the errors appended. *)
Fixpoint openLoop (sr : sinkRegistry) (paths : list bytes) (sinks : list Sink) (openErr : error) (w : W)
    : list Sink * error * W :=
  match paths with
  | [] => (sinks, openErr, w)
  | path :: paths' =>
      let '(r, w) := newSink sr path w in
      match r with
      | inr e => openLoop sr paths' sinks (multierr_Append openErr (Some (openSinkError path e))) w
      | inl sink => openLoop sr paths' (sinks ++ [sink]) openErr w
      end
  end.

(** The writers and the function that closes them, or the error. *)
Definition open (sr : sinkRegistry) (paths : list bytes) (w : W)
    : ((list (@WriteSyncer W) * (W -> W)) + err) * W :=
  let '(sinks, openErr, w) := openLoop sr paths [] None w in
  match openErr with
  | Some e => (inr e, closeAll sinks w)
  | None => (inl (map syncer sinks, closeAll sinks), w)
  end.

Definition Open (sr : sinkRegistry) (paths : list bytes) (w : W)
    : ((@WriteSyncer W * (W -> W)) + err) * W :=
  let '(r, w) := open sr paths w in
  match r with
  | inr e => (inr e, w)
  | inl (writers, close) => (inl (CombineWriteSyncers writers, close), w)
  end.

(** * Encoders by name *)

Context (reflected : EncoderConfig.ReflectedEncoder).

Definition constructor : Type := EncoderConfig.EncoderConfig -> Core.Encoder + err.

Definition errNoEncoderNameSpecified : err := New_error (str "no encoder name specified").

Definition _encoderNameToConstructor : list (bytes * constructor) :=
  [(str "console", fun cfg => inl (Core.consoleEncoder (ConsoleEncoder.NewConsoleEncoder reflected cfg)));
   (str "json", fun cfg => inl (Core.jsonEncoder (JsonEncoder.NewJSONEncoder reflected cfg)))].

Definition RegisterEncoder (encoders : list (bytes * constructor)) (name : bytes) (c : constructor)
    : error * list (bytes * constructor) :=
  if decide (name = []) then (Some errNoEncoderNameSpecified, encoders)
  else
    match lookupKey encoders name with
    | Some _ => (Some (New_error (str "encoder already registered for name " ++ Quote name)), encoders)
    | None => (None, encoders ++ [(name, c)])
    end.

(** The rest of [newEncoder]. *)
Definition newNamed (encoders : list (bytes * constructor)) (name : bytes)
    (encoderConfig : EncoderConfig.EncoderConfig) : Core.Encoder + err :=
  if decide (name = []) then inr errNoEncoderNameSpecified
  else
    match lookupKey encoders name with
    | None => inr (New_error (str "no encoder registered for name " ++ Quote name))
    | Some c => c encoderConfig
    end.

Definition newEncoder (encoders : list (bytes * constructor)) (name : bytes)
    (encoderConfig : EncoderConfig.EncoderConfig) : Core.Encoder + err :=
  if decide (EncoderConfig.TimeKey encoderConfig <> []) then
    match EncoderConfig.EncodeTime encoderConfig with
    | None => inr (New_error (str "missing EncodeTime in EncoderConfig"))
    | Some _ => newNamed encoders name encoderConfig
    end
  else newNamed encoders name encoderConfig.

(** * Specification *)

(** Every path opened, in order, whatever the others gave. *)
Fixpoint openEach (sr : sinkRegistry) (paths : list bytes) (w : W) : list (bytes * (Sink + err)) * W :=
  match paths with
  | [] => ([], w)
  | path :: paths' =>
      let '(r, w) := newSink sr path w in
      let '(rs, w) := openEach sr paths' w in
      ((path, r) :: rs, w)
  end.

Definition opened (rs : list (bytes * (Sink + err))) : list Sink :=
  omap (fun '(_, r) => match r with inl s => Some s | inr _ => None end) rs.

Definition failures (rs : list (bytes * (Sink + err))) : list err :=
  omap (fun '(path, r) => match r with inl _ => None | inr e => Some (openSinkError path e) end) rs.

Lemma openLoop_spec sr paths sinks openErr w :
  openLoop sr paths sinks openErr w =
  let '(rs, w') := openEach sr paths w in
  (sinks ++ opened rs, foldl (fun acc e => multierr_Append acc (Some e)) openErr (failures rs), w').
Proof.
  revert sinks openErr w. induction paths as [|path paths IH]; intros sinks openErr w.
  { simpl. by rewrite app_nil_r. }
  cbn [openLoop openEach]. destruct (newSink sr path w) as [[s|e] w1]; rewrite IH;
    destruct (openEach sr paths w1) as [rs w2]; [|done].
  by rewrite <- app_assoc.
Qed.

(** Every sink closed, in order, whatever its [Close] returns. *)
Definition closeEach (sinks : list Sink) (w : W) : W := foldl (fun w s => (Close s w).2) w sinks.

Lemma closeAll_spec sinks w : closeAll sinks w = closeEach sinks w.
Proof.
  unfold closeEach. revert w. induction sinks as [|s sinks IH]; intros w; [done|]. cbn [closeAll foldl].
  destruct (Close s w) as [e w1]. apply IH.
Qed.

Context {MS : MultierrSpec ME}.

Lemma Errors_openErrors es acc :
  multierr_Errors (foldl (fun acc e => multierr_Append acc (Some e)) acc es) =
  multierr_Errors acc ++ concat (map (fun e => multierr_Errors (Some e)) es).
Proof.
  revert acc. induction es as [|e es IH]; intros acc; simpl; [by rewrite app_nil_r|].
  by rewrite IH, Errors_Append, <- app_assoc.
Qed.

Lemma foldl_None es :
  foldl (fun acc e => multierr_Append acc (Some e)) None es = None <-> es = [].
Proof.
  split; [|by intros ->]. intros H. pose proof (Errors_openErrors es None) as E. rewrite H, Errors_nil in E.
  destruct es as [|e es]; [done|]. simpl in E. symmetry in E. apply app_eq_nil in E as [E _].
  by apply Errors_some in E.
Qed.

(** C36: [Open] is all or nothing: every path is tried, in order; when one of them fails, the
    error has exactly the errors of the paths that failed, in order, and every sink that
    was opened is closed again, once, also after one that does not close; otherwise
    nothing is closed, the writer combines all the sinks in order and the function that
    is returned closes each of them once, again whatever the others return. *)
Theorem open_all_or_nothing sr paths w :
  let '(rs, w1) := openEach sr paths w in
  match Open sr paths w with
  | (inr e, w2) =>
      failures rs <> [] /\ w2 = closeEach (opened rs) w1 /\
      multierr_Errors (Some e) = concat (map (fun e => multierr_Errors (Some e)) (failures rs))
  | (inl (ws, close), w2) =>
      failures rs = [] /\ w2 = w1 /\ length (opened rs) = length paths /\
      ws = CombineWriteSyncers (map syncer (opened rs)) /\ forall w3, close w3 = closeEach (opened rs) w3
  end.
Proof.
  assert (let '(rs, _) := openEach sr paths w in map fst rs = paths) as Hpaths.
  { revert w. induction paths as [|path paths IH]; intros w; [done|]. simpl.
    destruct (newSink sr path w) as [r w1]. specialize (IH w1). destruct (openEach sr paths w1) as [rs w2].
    simpl. by rewrite IH. }
  unfold Open, open. rewrite openLoop_spec. destruct (openEach sr paths w) as [rs w1].
  destruct (foldl _ None (failures rs)) as [e|] eqn:E.
  - split; [|split; [apply closeAll_spec|]].
    + intros H. by rewrite H in E.
    + by rewrite <- E, Errors_openErrors, Errors_nil.
  - apply foldl_None in E. split; [done|]. split; [done|]. split; [|split; [done|apply closeAll_spec]].
    rewrite <- Hpaths, length_map. clear Hpaths. revert E. unfold failures, opened.
    induction rs as [|[path [s|e]] rs IH]; simpl; [done| |done]. intros E. f_equal. by apply IH.
Qed.

(** A scheme of RFC 3986, in lower case. *)
Definition validScheme (s : bytes) : bool :=
  match s with
  | c :: rest => (97 <=? bval c) && (bval c <=? 122) && forallb schemeByte rest
  | [] => false
  end.

(** The URL that [newSink] dispatches on. *)
Definition withDefaultScheme (u : URL) : URL := if decide (Scheme u = []) then setScheme u schemeFile else u.

Lemma badByte_None s : badByte s = None <-> forallb schemeByte s = true.
Proof. induction s as [|c s IH]; simpl; [done|]. by destruct (schemeByte c). Qed.

Lemma normalizeScheme_spec s :
  ToLower s <> [] ->
  exists n e, normalizeScheme s = Ret (n, e) /\
    match e with
    | None => n = ToLower s /\ validScheme (ToLower s) = true
    | Some _ => validScheme (ToLower s) = false
    end.
Proof.
  unfold normalizeScheme. cbv zeta. destruct (ToLower s) as [|c rest]; [done|]. intros _. unfold validScheme.
  rewrite (Z.ltb_antisym 97), (Z.ltb_antisym (bval c) 122), <- negb_andb.
  destruct ((97 <=? bval c) && (bval c <=? 122)); simpl.
  2:{ by eexists _, _. }
  destruct (badByte rest) as [x|] eqn:E.
  - eexists _, _. split; [done|]. simpl. apply not_true_is_false. rewrite <- badByte_None. congruence.
  - eexists _, _. split; [done|]. simpl. split; [done|]. by apply badByte_None.
Qed.

Lemma lookupKey_snoc {A} (m : list (bytes * A)) k v k' :
  lookupKey m k = None ->
  lookupKey (m ++ [(k, v)]) k' = if decide (k' = k) then Some v else lookupKey m k'.
Proof.
  induction m as [|[k0 v0] m IH]; simpl; intros H.
  - destruct (decide (k = k')) as [->|Hk]; [by rewrite decide_True|by rewrite decide_False by congruence].
  - destruct (decide (k0 = k)) as [|Hk]; [done|]. rewrite (IH H).
    destruct (decide (k0 = k')) as [->|]; [by rewrite decide_False|done].
Qed.

(** Registering a sink for a scheme: [RegisterSink] never panics; it accepts exactly the
    schemes that are valid in lower case and not taken, and otherwise returns an error
    and leaves the registry alone; after it has accepted one, [newSink] opens the URLs
    of that scheme with the new factory and everything else as before, so a factory,
    that of files included, is never replaced. *)
Theorem register_sink_adds sr scheme (f : URL -> opening)
    (lower_nonempty : forall s, s <> [] -> lowerUnicode s <> []) :
  exists e sr', RegisterSink sr scheme f = Ret (e, sr') /\
    match e with
    | Some _ =>
        sr' = sr /\
        (scheme = [] \/ validScheme (ToLower scheme) = false \/ is_Some (lookupKey (factories sr) (ToLower scheme)))
    | None =>
        validScheme (ToLower scheme) = true /\ lookupKey (factories sr) (ToLower scheme) = None /\
        forall rawURL w,
          newSink sr' rawURL w =
          match Parse rawURL with
          | inl u =>
              if negb (IsAbs rawURL) && bool_decide (Scheme (withDefaultScheme u) = ToLower scheme)
              then f (withDefaultScheme u) w else newSink sr rawURL w
          | inr _ => newSink sr rawURL w
          end
    end.
Proof.
  unfold RegisterSink. destruct (decide (scheme = [])) as [->|Hne]; [eexists _, _; split; [done|]; simpl; auto|].
  assert (ToLower scheme <> []) as Hl.
  { unfold ToLower. destruct (isASCII scheme); [by destruct scheme|auto]. }
  destruct (normalizeScheme_spec scheme Hl) as (n & e & -> & Hn). cbn [obind].
  destruct e as [e|]; [eexists _, _; split; [done|]; simpl; auto|]. destruct Hn as [-> Hv].
  destruct (lookupKey (factories sr) (ToLower scheme)) as [g|] eqn:El; [eexists _, _; split; [done|]; simpl; eauto|].
  eexists _, _. split; [done|]. simpl. split; [done|]. split; [done|]. intros rawURL w. unfold newSink, withDefaultScheme.
  destruct (IsAbs rawURL); simpl; [by destruct (Parse rawURL)|].
  destruct (Parse rawURL) as [u|]; [|done]. rewrite (lookupKey_snoc _ _ _ _ El).
  destruct (decide (Scheme _ = ToLower scheme)) as [E|E]; [by rewrite bool_decide_true|by rewrite bool_decide_false].
Qed.
End sinks.

(** * A registry *)

Section demo.
#[local] Existing Instances Level.asciiStd flat_multierr flat_multierr_spec.

(** The world counts the sinks that are open.  They fail when they are closed. *)
Definition counting : @opening Z := fun n =>
  (inl (mkSink (writerWrapper (fun p w => ((lenZ p, None), w))) (fun w => (Some (New_error (str "busy")), w - 1))), n + 1).

Definition demoParse (raw : bytes) : URL + err :=
  if decide (raw = str "bad") then inr (New_error (str "bad")) else inl (mkURL (str "mem") false [] [] [] [] [] (fun _ => raw)).

Definition demoStream : @WriteSyncer Z := writerWrapper (fun p w => ((lenZ p, None), w)).

Definition demoRegistry : sinkRegistry := mkRegistry [(str "mem", fun _ => counting)] (fun _ => counting).

Lemma open_all_or_nothing_witness :
  exists e, Open demoParse demoStream demoStream demoRegistry [str "a"; str "bad"; str "b"] 0 = (inr e, 0) /\
    multierr_Errors (Some e) =
      [openSinkError (str "bad") (New_error (str "can't parse " ++ Quote (str "bad") ++ str " as a URL: bad"))].
Proof.
  pose proof (open_all_or_nothing demoParse demoStream demoStream demoRegistry [str "a"; str "bad"; str "b"] 0) as H.
  vm_compute in H. destruct H as (_ & _ & H). eexists. split; [vm_compute; reflexivity|]. vm_compute. exact H.
Defined.

Lemma register_sink_adds_witness :
  exists sr', RegisterSink (mkRegistry [] (fun _ => counting)) (str "Mem") (fun _ => counting) = Ret (None, sr') /\
    newSink demoParse demoStream demoStream sr' (str "mem:x") 4 = counting 4.
Proof.
  destruct (register_sink_adds demoParse demoStream demoStream (mkRegistry [] (fun _ => counting)) (str "Mem")
    (fun _ => counting)) as (e & sr' & E & H).
  { intros [|b s] Hs; [done|discriminate]. }
  exists sr'. vm_compute in E. injection E as <- <-. split; [reflexivity|].
  destruct H as (_ & _ & H). rewrite H. reflexivity.
Defined.
End demo.
End Sink.
