(* ===== verification/Config.v ===== *)
(** Building a logger from a configuration, config.go, and the constructors of logger.go
    that do so.

    [InitialFields] is a Go map, so a list of pairs in whatever order its iteration
    gives. *)

From Stdlib Require Import ZArith Lia.
From S2P Require Import Prelude GoStd Level AtomicLevel WriteSyncer Sampler Encode Field Entry EncoderConfig JsonEncoder ConsoleEncoder Core CoreSpec Stacktrace Logger Sink.
From stdpp Require Import base list sorting.

Local Open Scope Z_scope.
Local Open Scope zap_scope.

Module Config.
Import Encode Core.

(** [sort.Strings] orders strings by their bytes. *)
Fixpoint lebBytes (a b : bytes) : bool :=
  match a, b with
  | [], _ => true
  | _ :: _, [] => false
  | x :: a', y :: b' => if bval x =? bval y then lebBytes a' b' else bval x <? bval y
  end.

Definition leBytes (a b : bytes) : Prop := lebBytes a b = true.

#[global] Instance leBytes_decision a b : Decision (leBytes a b).
Proof. unfold leBytes. apply _. Defined.

Definition sortStrings (keys : list bytes) : list bytes := merge_sort leBytes keys.

#[global] Instance leBytes_trans : Transitive leBytes.
Proof.
  unfold leBytes. intros a. induction a as [|x a IH]; intros [|y b] [|z c]; simpl; try done.
  destruct (Z.eqb_spec (bval x) (bval y)) as [E1|E1], (Z.eqb_spec (bval y) (bval z)) as [E2|E2];
    rewrite ?Z.ltb_lt; intros H1 H2.
  - rewrite (proj2 (Z.eqb_eq _ _)) by lia. by eapply IH.
  - rewrite (proj2 (Z.eqb_neq _ _)) by lia. apply Z.ltb_lt. lia.
  - rewrite (proj2 (Z.eqb_neq _ _)) by lia. apply Z.ltb_lt. lia.
  - rewrite (proj2 (Z.eqb_neq _ _)) by lia. apply Z.ltb_lt. lia.
Qed.

#[global] Instance leBytes_total : Total leBytes.
Proof.
  unfold leBytes. intros a. induction a as [|x a IH]; intros [|y b]; simpl; auto.
  rewrite (Z.eqb_sym (bval y)). destruct (Z.eqb_spec (bval x) (bval y)) as [E|E]; [apply IH|].
  rewrite !Z.ltb_lt. lia.
Qed.

#[global] Instance leBytes_antisymm : AntiSymm (=) leBytes.
Proof.
  unfold leBytes. intros a. induction a as [|x a IH]; intros [|y b]; simpl; try done.
  rewrite (Z.eqb_sym (bval y)). destruct (Z.eqb_spec (bval x) (bval y)) as [E|E]; rewrite ?Z.ltb_lt; intros H1 H2; [|lia].
  rewrite (bval_inj x y E). f_equal. by apply IH.
Qed.

(** Sorting forgets the order it was given. *)
Lemma sortStrings_perm l1 l2 : l1 ≡ₚ l2 -> sortStrings l1 = sortStrings l2.
Proof.
  intros H. unfold sortStrings. eapply (StronglySorted_unique leBytes); try apply (StronglySorted_merge_sort leBytes).
  by rewrite !merge_sort_Permutation.
Qed.

Lemma lookupKey_elem {A} (m : list (bytes * A)) k v :
  NoDup (map fst m) -> Sink.lookupKey m k = Some v <-> (k, v) ∈ m.
Proof.
  induction m as [|[k0 v0] m IH]; simpl; intros Hnd.
  - split; [done|]. intros H. by apply not_elem_of_nil in H.
  - apply NoDup_cons in Hnd as [Hk Hnd]. rewrite elem_of_cons. case_decide as E.
    + subst. split; [intros [= ->]; by left|]. intros [[= ->]|H]; [done|].
      exfalso. apply Hk. apply list_elem_of_fmap. by exists (k, v).
    + rewrite (IH Hnd). split; [by right|]. intros [[= -> ->]|H]; done.
Qed.

Lemma lookupKey_perm {A} (m1 m2 : list (bytes * A)) k :
  NoDup (map fst m1) -> m1 ≡ₚ m2 -> Sink.lookupKey m1 k = Sink.lookupKey m2 k.
Proof.
  intros Hnd Hp. assert (NoDup (map fst m2)) as Hnd2 by (by rewrite <- Hp).
  destruct (Sink.lookupKey m1 k) as [v|] eqn:E1.
  - apply lookupKey_elem in E1; [|done]. rewrite Hp in E1. symmetry. by apply lookupKey_elem.
  - destruct (Sink.lookupKey m2 k) as [v|] eqn:E2; [|done]. apply lookupKey_elem in E2; [|done].
    rewrite <- Hp in E2. apply lookupKey_elem in E2; [congruence|done].
Qed.

Section config.
Context {W : Type} {std : GoStd} {ME : Multierr}.
Context (reflected : EncoderConfig.ReflectedEncoder) (sprintEntry : Entry.Entry -> bytes).
Context (Parse : bytes -> Sink.URL + err).
Context (stdout stderr : @WriteSyncer.WriteSyncer W) (DefaultClock : W -> Time * W).

Record SamplingConfig := mkSampling {
  Initial : Z;
  Thereafter : Z;
  Hook : option (Entry.Entry -> Sampler.SamplingDecision -> W -> W)
}.

Record Config := mkConfig {
  Level_ : AtomicLevel.AtomicLevel;
  Development : bool;
  DisableCaller : bool;
  DisableStacktrace : bool;
  Sampling : option SamplingConfig;
  Encoding : bytes;
  EncoderConfig_ : EncoderConfig.EncoderConfig;
  OutputPaths : list bytes;
  ErrorOutputPaths : list bytes;
  InitialFields : list (bytes * any)
}.

Definition NewProductionEncoderConfig : EncoderConfig.EncoderConfig :=
  EncoderConfig.mkConfig (str "msg") (str "level") (str "ts") (str "logger") (str "caller")
    EncoderConfig.OmitKey (str "stacktrace") false EncoderConfig.DefaultLineEnding
    (Some EncoderConfig.LowercaseLevelEncoder) (Some EncoderConfig.EpochTimeEncoder)
    (Some EncoderConfig.SecondsDurationEncoder) (Some EncoderConfig.ShortCallerEncoder) None None [].

Definition NewDevelopmentEncoderConfig : EncoderConfig.EncoderConfig :=
  EncoderConfig.mkConfig (str "M") (str "L") (str "T") (str "N") (str "C")
    EncoderConfig.OmitKey (str "S") false EncoderConfig.DefaultLineEnding
    (Some EncoderConfig.CapitalLevelEncoder) (Some EncoderConfig.ISO8601TimeEncoder)
    (Some EncoderConfig.StringDurationEncoder) (Some EncoderConfig.ShortCallerEncoder) None None [].

(** [NewAtomicLevelAt] in the store. *)
Definition newAtomicLevelAt (l : Level.Level) : M W AtomicLevel.AtomicLevel := fun st =>
  let! (a, h) := AtomicLevel.NewAtomicLevelAt l (atomics st) in Ret (a, setAtomics st h).

Definition NewProductionConfig : M W Config :=
  level ← newAtomicLevelAt Level.InfoLevel;
  mret (mkConfig level false false false (Some (mkSampling 100 100 None)) (str "json")
          NewProductionEncoderConfig [str "stderr"] [str "stderr"] []).

Definition NewDevelopmentConfig : M W Config :=
  level ← newAtomicLevelAt Level.DebugLevel;
  mret (mkConfig level true false false None (str "console")
          NewDevelopmentEncoderConfig [str "stderr"] [str "stderr"] []).

(** The fields of [InitialFields], by sorted key. *)
Definition initialFields (m : list (bytes * any)) : list Field :=
  map (fun k => Field.Any k (default VNil (Sink.lookupKey m k))) (sortStrings (map fst m)).

Definition buildOptions (cfg : Config) (errSink : option (@WriteSyncer.WriteSyncer W)) : list (Logger.Option_ W) :=
  [Logger.ErrorOutput_ errSink] ++
  (if Development cfg then [Logger.Development] else []) ++
  (if negb (DisableCaller cfg) then [Logger.AddCaller] else []) ++
  (let stackLevel := if Development cfg then Level.WarnLevel else Level.ErrorLevel in
   if negb (DisableStacktrace cfg) then [Logger.AddStacktrace (enablerLevel stackLevel)] else []) ++
  (match Sampling cfg with
   | Some scfg =>
       [Logger.WrapCore (fun core =>
          NewSamplerWithOptions core Second (Initial scfg) (Thereafter scfg) (Hook scfg))]
   | None => []
   end) ++
  (if 0 <? lenZ (InitialFields cfg) then [Logger.Fields reflected (initialFields (InitialFields cfg))] else []).

Definition buildEncoder (encoders : list (bytes * Sink.constructor)) (cfg : Config) : Encoder + err :=
  Sink.newEncoder encoders (Encoding cfg) (EncoderConfig_ cfg).

(** The output and the error output, or the error. *)
Definition openSinks (sr : Sink.sinkRegistry) (cfg : Config) (w : W)
    : ((@WriteSyncer.WriteSyncer W * @WriteSyncer.WriteSyncer W) + err) * W :=
  let '(r, w) := Sink.Open Parse stdout stderr sr (OutputPaths cfg) w in
  match r with
  | inr e => (inr e, w)
  | inl (sink, closeOut) =>
      let '(r, w) := Sink.Open Parse stdout stderr sr (ErrorOutputPaths cfg) w in
      match r with
      | inr e => (inr e, closeOut w)
      | inl (errSink, _) => (inl (sink, errSink), w)
      end
  end.

Definition Build (encoders : list (bytes * Sink.constructor)) (sr : Sink.sinkRegistry) (cfg : Config)
    (opts : list (Logger.Option_ W)) : M W (Logger.Logger W + err) :=
  match buildEncoder encoders cfg with
  | inr e => mret (inr e)
  | inl enc =>
      match Level_ cfg with
      | None => mret (inr (New_error (str "missing Level")))
      | Some _ =>
          sinks ← inWorld (openSinks sr cfg);
          match sinks with
          | inr e => mret (inr e)
          | inl (sink, errSink) =>
              log ← Logger.New stderr DefaultClock (Some (NewCore enc sink (enablerAtomic (Level_ cfg))))
                      (buildOptions cfg (Some errSink));
              log ← (if 0 <? lenZ opts then Logger.WithOptions log opts else mret log);
              mret (inl log)
          end
      end
  end.

Definition NewProduction (encoders : list (bytes * Sink.constructor)) (sr : Sink.sinkRegistry)
    (options : list (Logger.Option_ W)) : M W (Logger.Logger W + err) :=
  cfg ← NewProductionConfig; Build encoders sr cfg options.

Definition NewDevelopment (encoders : list (bytes * Sink.constructor)) (sr : Sink.sinkRegistry)
    (options : list (Logger.Option_ W)) : M W (Logger.Logger W + err) :=
  cfg ← NewDevelopmentConfig; Build encoders sr cfg options.

(** The iteration order of the map does not show: the initial fields of a configuration
    are the same, in the same order, in every run. *)
Lemma initialFields_deterministic (m1 m2 : list (bytes * any)) :
  NoDup (map fst m1) -> m1 ≡ₚ m2 -> initialFields m1 = initialFields m2.
Proof.
  intros Hnd Hp. unfold initialFields. rewrite (sortStrings_perm (map fst m1) (map fst m2)) by (by rewrite Hp).
  apply map_ext. intros k. by rewrite (lookupKey_perm m1 m2).
Qed.

(** * What a configuration says

    These read the configuration without the functions that [Build] uses for it. *)

(** The encoder: that of the name, if there is one and the time can be encoded. *)
Inductive encoderOf (encoders : list (bytes * Sink.constructor)) (cfg : Config) : Encoder + err -> Prop :=
| encoder_named c :
    (EncoderConfig.TimeKey (EncoderConfig_ cfg) = [] \/ EncoderConfig.EncodeTime (EncoderConfig_ cfg) <> None) ->
    Encoding cfg <> [] -> Sink.lookupKey encoders (Encoding cfg) = Some c ->
    encoderOf encoders cfg (c (EncoderConfig_ cfg))
| encoder_timeless :
    EncoderConfig.TimeKey (EncoderConfig_ cfg) <> [] -> EncoderConfig.EncodeTime (EncoderConfig_ cfg) = None ->
    encoderOf encoders cfg (inr (New_error (str "missing EncodeTime in EncoderConfig")))
| encoder_nameless :
    (EncoderConfig.TimeKey (EncoderConfig_ cfg) = [] \/ EncoderConfig.EncodeTime (EncoderConfig_ cfg) <> None) ->
    Encoding cfg = [] -> encoderOf encoders cfg (inr (New_error (str "no encoder name specified")))
| encoder_unknown :
    (EncoderConfig.TimeKey (EncoderConfig_ cfg) = [] \/ EncoderConfig.EncodeTime (EncoderConfig_ cfg) <> None) ->
    Encoding cfg <> [] -> Sink.lookupKey encoders (Encoding cfg) = None ->
    encoderOf encoders cfg (inr (New_error (str "no encoder registered for name " ++ Quote (Encoding cfg)))).

(** The outputs and then the error outputs are opened; when that fails for the second,
    the first are closed. *)
Inductive outputsOf (sr : Sink.sinkRegistry) (cfg : Config) (w : W)
    : (@WriteSyncer.WriteSyncer W * @WriteSyncer.WriteSyncer W) + err -> W -> Prop :=
| outputs_open sink closeOut w1 errSink closeErr w2 :
    Sink.Open Parse stdout stderr sr (OutputPaths cfg) w = (inl (sink, closeOut), w1) ->
    Sink.Open Parse stdout stderr sr (ErrorOutputPaths cfg) w1 = (inl (errSink, closeErr), w2) ->
    outputsOf sr cfg w (inl (sink, errSink)) w2
| outputs_fail e w1 :
    Sink.Open Parse stdout stderr sr (OutputPaths cfg) w = (inr e, w1) -> outputsOf sr cfg w (inr e) w1
| errorOutputs_fail sink closeOut w1 e w2 :
    Sink.Open Parse stdout stderr sr (OutputPaths cfg) w = (inl (sink, closeOut), w1) ->
    Sink.Open Parse stdout stderr sr (ErrorOutputPaths cfg) w1 = (inr e, w2) ->
    outputsOf sr cfg w (inr e) (closeOut w2).

(** All the entries of a map, by increasing key. *)
Definition sortedEntries (m kvs : list (bytes * any)) : Prop :=
  map fst kvs ≡ₚ map fst m /\ StronglySorted leBytes (map fst kvs) /\
  Forall (fun '(k, v) => Sink.lookupKey m k = Some v) kvs.

(** Adding the initial fields to the context of an encoder. *)
Definition withInitial (cfg : Config) (enc : Encoder) (r : outcome Encoder) : Prop :=
  match InitialFields cfg with
  | [] => r = Ret enc
  | m => exists kvs, sortedEntries m kvs /\
      addFields reflected (Clone enc) (map (fun '(k, v) => Field.Any k v) kvs) = r
  end.

(** * Lemmas *)

Lemma buildEncoder_spec encoders cfg : encoderOf encoders cfg (buildEncoder encoders cfg).
Proof.
  unfold buildEncoder, Sink.newEncoder, Sink.newNamed.
  destruct (decide (EncoderConfig.TimeKey _ <> [])) as [Ht|Ht%dec_stable];
    [destruct (EncoderConfig.EncodeTime _) eqn:E; [|by apply encoder_timeless]|];
    (destruct (decide (Encoding cfg = [])); [apply encoder_nameless; auto; right; congruence|];
     destruct (Sink.lookupKey _ _) eqn:El; [eapply encoder_named|eapply encoder_unknown]; eauto; right; congruence).
Qed.

Lemma openSinks_spec sr cfg w : outputsOf sr cfg w (openSinks sr cfg w).1 (openSinks sr cfg w).2.
Proof.
  unfold openSinks. destruct (Sink.Open _ _ _ _ _ w) as [[[sink closeOut]|e] w1] eqn:E1; [|by apply outputs_fail].
  destruct (Sink.Open _ _ _ _ _ w1) as [[[errSink closeErr]|e] w2] eqn:E2; cbn;
    [by eapply outputs_open|by eapply errorOutputs_fail].
Qed.

Lemma lookupKey_in {A} (m : list (bytes * A)) k : k ∈ map fst m -> is_Some (Sink.lookupKey m k).
Proof.
  induction m as [|[k0 v0] m IH]; simpl; [by intros ?%not_elem_of_nil|]. rewrite elem_of_cons.
  case_decide; [eauto|]. intros [->|Hin]; [done|auto].
Qed.

Lemma initialFields_sorted m :
  exists kvs, sortedEntries m kvs /\ initialFields m = map (fun '(k, v) => Field.Any k v) kvs.
Proof.
  exists (map (fun k => (k, default VNil (Sink.lookupKey m k))) (sortStrings (map fst m))).
  assert (sortStrings (map fst m) ≡ₚ map fst m) as Hp by apply merge_sort_Permutation.
  unfold sortedEntries, initialFields. rewrite !map_map, map_id. split_and!; [done|apply StronglySorted_merge_sort; apply _| |done].
  apply Forall_map, Forall_forall. intros k Hk. rewrite Hp in Hk. by destruct (lookupKey_in m k Hk) as [v ->].
Qed.

(** What a configuration says of a logger; the [stack] level is off the scale when
    stack traces are disabled. *)
Definition obeys (cfg : Config) (errSink : @WriteSyncer.WriteSyncer W) (log : Logger.Logger W) : Prop :=
  Logger.development log = Development cfg /\
  Logger.addCaller log = negb (DisableCaller cfg) /\
  Logger.addStack log = enablerLevel (if DisableStacktrace cfg then Level.FatalLevel + 1
                                      else if Development cfg then Level.WarnLevel else Level.ErrorLevel) /\
  Logger.errorOutput log = Some errSink /\ Logger.name log = [] /\ Logger.clock log = DefaultClock /\
  Logger.onPanic log = None /\ Logger.onFatal log = None /\ Logger.callerSkip log = 0.

Lemma obeys_setCore cfg errSink log c : obeys cfg errSink log -> obeys cfg errSink (Logger.setCore log c).
Proof. done. Qed.

(** The core that a configuration describes: it follows the configured level, writes to
    [sink] and is behind a sampler, with new counters, exactly when the configuration has
    one. *)
Definition describedCore (cfg : Config) (enc : Encoder) (sink : @WriteSyncer.WriteSyncer W) (st : Store W) (c : Core W)
    : Prop :=
  let io := ioCore (enablerAtomic (Level_ cfg)) enc sink in
  match Sampling cfg with
  | None => c = io
  | Some s => exists counts, c = sampler io counts (Sampler.newParams Second (Initial s) (Thereafter s))
                                   (default nopSamplingHook (Hook s)) /\
                        counters st !! counts = Some Sampler.newCounters
  end.

Lemma describedCore_Enabled cfg enc sink c l st st0 :
  describedCore cfg enc sink st0 c -> Enabled c l st = enabler_Enabled (enablerAtomic (Level_ cfg)) l st.
Proof. unfold describedCore. destruct (Sampling cfg) as [s|]; [intros (counts & -> & _)|intros ->]; done. Qed.

(** [With] of a described core adds the fields to its encoder, or panics in a marshaler. *)
Lemma describedCore_With cfg enc sink c fields st :
  describedCore cfg enc sink st c ->
  match Core.With reflected 1 c fields st with
  | Ret (c', st') => st' = st /\
      exists enc', addFields reflected (Clone enc) fields = Ret enc' /\ describedCore cfg enc' sink st c'
  | Panic v => addFields reflected (Clone enc) fields = Panic v
  | Diverge => False
  end.
Proof.
  unfold describedCore. pose proof (CoreSpec.addFields_total reflected (Clone enc) fields) as Ht.
  destruct (Sampling cfg) as [s|]; [intros (counts & -> & Hn)|intros ->]; cbn [Core.With];
    unfold sampler_With, ioCore_With, ioCore_clone, lift, mbind, M_bind; cbn [obind];
    (destruct (addFields reflected (Clone enc) fields) as [enc'|v|]; cbn; [split; [done|]; exists enc'|done|done]); eauto.
Qed.

Lemma forEach_app {A B} (f : A -> B -> M W B) l1 l2 acc st :
  forEach f (l1 ++ l2) acc st = (acc ← forEach f l1 acc; forEach f l2 acc) st.
Proof.
  revert acc st. induction l1 as [|x l1 IH]; intros acc st; [done|]. cbn [forEach app]. unfold mbind, M_bind.
  destruct (f x acc st) as [[b st1]| |]; cbn [obind]; [|done..]. rewrite IH. unfold mbind, M_bind. done.
Qed.

(** What options leave: a logger as described, or a panic in a marshaler of an initial
    field. *)
Definition builds (cfg : Config) (enc : Encoder) (sink errSink : @WriteSyncer.WriteSyncer W) (st : Store W)
    (r : outcome (Logger.Logger W * Store W)) : Prop :=
  match r with
  | Ret (log, st') => obeys cfg errSink log /\ world st' = world st /\ atomics st' = atomics st /\
      exists enc', withInitial cfg enc (Ret enc') /\ describedCore cfg enc' sink st' (Logger.core log)
  | Panic v => withInitial cfg enc (Panic v)
  | Diverge => False
  end.

Lemma builds_from cfg enc sink errSink st1 st r :
  world st1 = world st -> atomics st1 = atomics st -> builds cfg enc sink errSink st1 r -> builds cfg enc sink errSink st r.
Proof. intros Hw Ha. unfold builds. destruct r as [[log st']| |]; [by rewrite Hw, Ha|done..]. Qed.

Lemma runFields_builds cfg enc sink errSink log st :
  describedCore cfg enc sink st (Logger.core log) -> obeys cfg errSink log ->
  builds cfg enc sink errSink st (forEach (fun opt c => opt c)
    (if 0 <? lenZ (InitialFields cfg) then [Logger.Fields reflected (initialFields (InitialFields cfg))] else [])
    log st).
Proof.
  intros Hc Ho. unfold builds, withInitial. destruct (InitialFields cfg) as [|kv m] eqn:E; [cbn; split_and!; by eauto|].
  assert ((0 <? lenZ (kv :: m)) = true) as -> by (apply Z.ltb_lt; unfold lenZ; simpl; lia). rewrite <- E.
  destruct (initialFields_sorted (InitialFields cfg)) as (kvs & Hkvs & ->).
  cbn [forEach]. unfold Logger.Fields, mbind, M_bind.
  pose proof (describedCore_With cfg enc sink _ (map (fun '(k, v) => Field.Any k v) kvs) st Hc) as H.
  destruct (Core.With _ _ _ _ _) as [[c st1]|v|]; cbn; [|eauto|done].
  destruct H as (-> & enc' & Ha & Hd). split_and!; eauto.
Qed.

Lemma runOptions_builds cfg enc sink errSink log st :
  Logger.core log = ioCore (enablerAtomic (Level_ cfg)) enc sink -> obeys cfg errSink log ->
  builds cfg enc sink errSink st (forEach (fun opt c => opt c)
    (match Sampling cfg with
     | Some scfg =>
         [Logger.WrapCore (fun core =>
            NewSamplerWithOptions core Second (Initial scfg) (Thereafter scfg) (Hook scfg))]
     | None => []
     end ++
     (if 0 <? lenZ (InitialFields cfg) then [Logger.Fields reflected (initialFields (InitialFields cfg))] else []))
    log st).
Proof.
  intros Hc Ho. rewrite forEach_app. destruct (Sampling cfg) as [scfg|] eqn:Es.
  - cbn [forEach]. unfold Logger.WrapCore, mbind, M_bind. cbn [obind NewSamplerWithOptions mret M_ret].
    eapply (builds_from _ _ _ _ (setCounters st (counters st ++ [Sampler.newCounters]))); [done|done|].
    apply runFields_builds; [|done]. unfold describedCore. rewrite Es, Hc. eexists. split; [done|].
    apply list_lookup_middle. done.
  - cbn [forEach]. unfold mbind, M_bind. cbn [obind mret M_ret].
    apply runFields_builds; [|done]. unfold describedCore. by rewrite Es.
Qed.

Lemma New_builds cfg enc sink errSink st :
  builds cfg enc sink errSink st
    (Logger.New stderr DefaultClock (Some (NewCore enc sink (enablerAtomic (Level_ cfg))))
       (buildOptions cfg (Some errSink)) st).
Proof.
  unfold Logger.New, Logger.WithOptions, Logger.clone, buildOptions, NewCore.
  pose proof (runOptions_builds cfg enc sink errSink) as H. unfold obeys in H.
  set (rest := match Sampling cfg with Some _ => _ | None => _ end ++ _) in *.
  destruct (Development cfg), (DisableCaller cfg), (DisableStacktrace cfg);
    cbn [app negb forEach]; unfold mbind, M_bind; cbn [obind mret M_ret]; apply H; by repeat split.
Qed.

(** What [Build] without options gives. *)
Definition buildResult (encoders : list (bytes * Sink.constructor)) (sr : Sink.sinkRegistry) (cfg : Config) (st : Store W)
    (r : outcome ((Logger.Logger W + err) * Store W)) : Prop :=
  match r with
  | Ret (inl log, st') =>
      exists enc enc' sink errSink,
        encoderOf encoders cfg (inl enc) /\ outputsOf sr cfg (world st) (inl (sink, errSink)) (world st') /\
        obeys cfg errSink log /\ atomics st' = atomics st /\
        withInitial cfg enc (Ret enc') /\ describedCore cfg enc' sink st' (Logger.core log)
  | Ret (inr e, st') =>
      (encoderOf encoders cfg (inr e) /\ st' = st) \/
      exists enc, encoderOf encoders cfg (inl enc) /\
        (Level_ cfg = None /\ e = New_error (str "missing Level") /\ st' = st \/
         Level_ cfg <> None /\ exists w, outputsOf sr cfg (world st) (inr e) w /\ st' = setWorld st w)
  | Panic v => exists enc, encoderOf encoders cfg (inl enc) /\ withInitial cfg enc (Panic v)
  | Diverge => False
  end.

Lemma Build_builds encoders sr cfg st : buildResult encoders sr cfg st (Build encoders sr cfg [] st).
Proof.
  unfold Build. pose proof (buildEncoder_spec encoders cfg) as He.
  destruct (buildEncoder encoders cfg) as [enc|e]; [|by left].
  destruct (Level_ cfg) as [lvl|] eqn:El; [|right; exists enc; eauto]. rewrite <- El.
  pose proof (openSinks_spec sr cfg (world st)) as Hs. unfold inWorld, mbind, M_bind.
  destruct (openSinks sr cfg (world st)) as [[[sink errSink]|e] w]; cbn [obind];
    [|right; exists enc; split; [done|right]; split; [congruence|]; eauto].
  pose proof (New_builds cfg enc sink errSink (setWorld st w)) as H.
  destruct (Logger.New _ _ _ _ _) as [[log st1]|v|]; cbn; [|by exists enc|done].
  destruct H as (Ho & Hw & Ha & enc' & Hi & Hc). exists enc, enc', sink, errSink. by rewrite Hw.
Qed.

(** The options are applied to the logger of the configuration, in order. *)
Lemma Build_options encoders sr cfg opts st :
  Build encoders sr cfg opts st =
  let! (r, st') := Build encoders sr cfg [] st in
  match r with
  | inr e => Ret (inr e, st')
  | inl log => let! (log', st2) := forEach (fun opt log => opt log) opts log st' in Ret (inl log', st2)
  end.
Proof.
  unfold Build. destruct (buildEncoder encoders cfg) as [enc|e]; [|done]. destruct (Level_ cfg); [|done].
  unfold inWorld, mbind, M_bind. destruct (openSinks sr cfg (world st)) as [[[sink errSink]|e] w]; cbn [obind]; [|done].
  destruct (Logger.New _ _ _ _ _) as [[log st1]|v|]; cbn [obind]; [|done..].
  destruct opts as [|opt opts]; [done|].
  assert ((0 <? lenZ (opt :: opts)) = true) as -> by (apply Z.ltb_lt; unfold lenZ; simpl; lia). done.
Qed.

(** C20: [Build] ends, and the logger that it gives is the one that the configuration
    describes, with the given options applied to it in order.  The encoder is the one
    registered for the encoding.  The outputs are opened before the error outputs, and
    closed again when those fail.  The flags, the stack level and the error output are
    those of the configuration; the core writes to the configured outputs, is sampled as
    configured, has all the initial fields in its context, by increasing key, and is
    enabled exactly where the configured [AtomicLevel] is, at any later time.  It fails
    exactly with the error of the encoder, of the missing level or of the outputs, in
    this order, and panics only in a marshaler of an initial field or in an option. *)
Theorem build_obeys_config encoders sr cfg opts st :
  let described := Build encoders sr cfg [] st in
  buildResult encoders sr cfg st described /\
  (forall log st', described = Ret (inl log, st') ->
     forall l st2, Enabled (Logger.core log) l st2 = enabler_Enabled (enablerAtomic (Level_ cfg)) l st2) /\
  Build encoders sr cfg opts st =
    let! (r, st') := described in
    match r with
    | inr e => Ret (inr e, st')
    | inl log => let! (log', st2) := forEach (fun opt log => opt log) opts log st' in Ret (inl log', st2)
    end.
Proof.
  pose proof (Build_builds encoders sr cfg st) as H. split; [done|]. split; [|apply Build_options].
  intros log st' E. rewrite E in H. destruct H as (enc & enc' & sink & errSink & _ & _ & _ & _ & _ & Hc).
  intros l st2. by eapply describedCore_Enabled.
Qed.
End config.
Arguments Config W : clear implicits.
Arguments SamplingConfig W : clear implicits.

(** * The production configuration *)

Section demo.
#[local] Existing Instances Level.asciiStd flat_multierr.

Definition sinkhole : @WriteSyncer.WriteSyncer unit := WriteSyncer.AddSync WriteSyncer.Discard.

Definition noFiles : @Sink.sinkRegistry unit :=
  let open : bytes -> Sink.opening := fun _ w => (inr (New_error (str "no files")), w) in
  match Sink.newSinkRegistry sinkhole sinkhole open with
  | Ret sr => sr
  | _ => Sink.mkRegistry [] open
  end.

(** [url.Parse] of a path without a scheme. *)
Definition parsePath (raw : bytes) : Sink.URL + err := inl (Sink.mkURL [] false [] [] [] [] raw (fun scheme => scheme ++ str "://" ++ raw)).

Definition emptyStore : Store unit := mkStore tt [] [] [] [].

Definition nullReflection : EncoderConfig.ReflectedEncoder := fun _ => (str "null", None).

Definition production : Config unit :=
  mkConfig (Some 0%nat) false false false (Some (mkSampling 100 100 None)) (str "json")
    NewProductionEncoderConfig [str "stderr"] [str "stderr"] [].

Definition built : outcome ((Logger.Logger unit + err) * Store unit) :=
  Build nullReflection parsePath sinkhole sinkhole (fun w => (zeroTime, w))
    (Sink._encoderNameToConstructor nullReflection) noFiles production [] (setAtomics emptyStore [Level.InfoLevel]).

(** The production configuration builds a logger. *)
Lemma production_builds :
  NewProductionConfig emptyStore = Ret (production, setAtomics emptyStore [Level.InfoLevel]) /\
  match built with Ret (inl _, _) => true | _ => false end = true.
Proof. split; [reflexivity|vm_compute; reflexivity]. Qed.
End demo.
End Config.
