(* ===== verification/LogConfig.v ===== *)
(** From a configuration to the lines in the outputs: a logger that [Config.Build] gives,
    and what it does.

    [configuredSpec] reads off a configuration (config.go) what logging with it does: the
    level that may change, the sampling, the caller and stack annotations, the endings of
    calls, the lines and the error reports.  The theorem is that the logger built by
    config.go out of the encoders, sinks, cores and options does this. *)

From Stdlib Require Import ZArith Lia.
From S2P Require Import Prelude Strconv GoStd Level AtomicLevel WriteSyncer Sampler Encode Field Entry EncoderConfig JsonEncoder Core CoreSpec CoreDelivery Stacktrace Logger LoggerSpec LogCall LogSample Sink Config.
From stdpp Require Import base list.

Local Open Scope Z_scope.
Local Open Scope zap_scope.

Module LogConfig.
Import Encode Core CoreDelivery Stacktrace LogCall LogSample.

Section configured.
Context {W : Type} {std : GoStd} {ME : Multierr} {MES : MultierrSpec ME}.
Context (reflected : EncoderConfig.ReflectedEncoder) (sprintEntry : Entry.Entry -> bytes) (storage : nat).
Context (Parse : bytes -> Sink.URL + err).
Context (stdout stderr : @WriteSyncer.WriteSyncer W) (DefaultClock : W -> Time * W).

(** * The specification *)

(** What a program does with its logger and the level of its configuration: log at a
    level from a function [f], and set the level. *)
Inductive deed :=
| Says (lvl : Level.Level) (msg : bytes) (fields : list Field) (f : Frame) (rest : list Frame)
| SetsLevel (l : Level.Level).

(** [lvl] ends the call like this, whatever becomes of the entry. *)
Definition endingOf (cfg : Config.Config W) (lvl : Level.Level) (msg : bytes) : ending :=
  if lvl =? Level.PanicLevel then PanicsWith msg
  else if lvl =? Level.FatalLevel then Exits 1
  else if (lvl =? Level.DPanicLevel) && Config.Development cfg then PanicsWith msg
  else Returns.

(** The stack level; with stack traces disabled, it is above all seven levels. *)
Definition stackLevel (cfg : Config.Config W) : Level.Level :=
  if Config.DisableStacktrace cfg then Level.FatalLevel + 1
  else if Config.Development cfg then Level.WarnLevel else Level.ErrorLevel.

(** Whether the sampler lets an entry pass; without one all enabled entries do. *)
Definition passes (cfg : Config.Config W) (ent : Entry.Entry) (enabled : bool) (ps : past) (w : W) : bool * past * W :=
  match Config.Sampling cfg with
  | Some s =>
      if enabled && counted (Entry.Level ent) then
        let hook := default nopSamplingHook (Config.Hook s) in
        let ij := slot (Entry.Level ent) (Entry.Message ent) in
        let ps := ps ++ [(ij, UnixNano (Entry.Time ent))] in
        match Sampler.windowDecision (Sampler.newParams Second (Config.Initial s) (Config.Thereafter s)) (timesOf ij ps) with
        | Some Sampler.LogDropped => (false, ps, hook ent Sampler.LogDropped w)
        | _ => (true, ps, hook ent Sampler.LogSampled w)
        end
      else (enabled, ps, w)
  | None => (enabled, ps, w)
  end.

(** One call.  [enc] has the initial fields; [st] has the value of the level. *)
Definition saySpec (cfg : Config.Config W) (enc : Encoder) (sink errSink : @WriteSyncer.WriteSyncer W)
    (lvl : Level.Level) (msg : bytes) (fields : list Field) (f : Frame) (rest : list Frame)
    (st : Store W) (ps : past) (w : W) : outcome (ending * past * W) :=
  let enabled := on st (enablerAtomic (Config.Level_ cfg)) lvl in
  if (lvl <? Level.DPanicLevel) && negb enabled then Ret (Returns, ps, w)
  else
    let '(now, w) := DefaultClock w in
    let '(pass, ps, w) := passes cfg (Entry.mkEntry lvl now [] msg Entry.noCaller []) enabled ps w in
    if pass then
      let caller := if Config.DisableCaller cfg then Entry.noCaller else Logger.callerOf f in
      let stack := if stackLevel cfg <=? lvl then traceOf f rest else [] in
      let! (err, w) := writeOne reflected (Entry.mkEntry lvl now [] msg caller stack) fields (enc, sink) w in
      Ret (endingOf cfg lvl msg, ps, reported (Some errSink) now err w)
    else Ret (endingOf cfg lvl msg, ps, w).

Fixpoint configuredSpec (cfg : Config.Config W) (enc : Encoder) (sink errSink : @WriteSyncer.WriteSyncer W) (a : nat)
    (deeds : list deed) (st : Store W) (ps : past) (w : W) : outcome (ending * W) :=
  match deeds with
  | [] => Ret (Returns, w)
  | Says lvl msg fields f rest :: deeds' =>
      let! (e, ps, w) := saySpec cfg enc sink errSink lvl msg fields f rest st ps w in
      match e with
      | Returns => configuredSpec cfg enc sink errSink a deeds' st ps w
      | _ => Ret (e, w)
      end
  | SetsLevel l :: deeds' =>
      configuredSpec cfg enc sink errSink a deeds' (setAtomics st (<[a := int32 l]> (atomics st))) ps w
  end.

(** The program. *)
Definition actionOf (a : nat) (log : Logger.Logger W) (dd : deed) : action :=
  match dd with
  | Says lvl msg fields f rest => Logs (mkCall log lvl msg fields [] f rest)
  | SetsLevel l => Sets a l
  end.

(** * Lemmas *)

Lemma endCall_configured cfg errSink log lvl ent fields (w : W) :
  Config.obeys DefaultClock cfg errSink log ->
  endCall (LoggerSpec.terminal log lvl) ent fields w = (endingOf cfg lvl (Entry.Message ent), w).
Proof.
  intros (Hd & _ & _ & _ & _ & _ & Hp & Hf & _). unfold LoggerSpec.terminal, endingOf. rewrite Hd, Hp, Hf.
  destruct (_ =? Level.PanicLevel); [done|]. destruct (_ =? Level.FatalLevel); [done|]. by destruct (_ && _).
Qed.

(** The entry, once it is known whether it passes. *)
Lemma afterCheck_configured cfg enc sink errSink log (pass : bool) lvl now msg fields f rest (st : Store W) (ps : past) w :
  Config.obeys DefaultClock cfg errSink log ->
  (let! (e, w) := afterCheck reflected log (if pass then [(enc, sink)] else []) lvl now msg fields
                    (siteCaller log f) (siteStack log lvl st f rest) w in
   Ret (e, ps, w)) =
  if pass then
    let! (err, w) := writeOne reflected
      (Entry.mkEntry lvl now [] msg (if Config.DisableCaller cfg then Entry.noCaller else Logger.callerOf f)
         (if stackLevel cfg <=? lvl then traceOf f rest else [])) fields (enc, sink) w in
    Ret (endingOf cfg lvl msg, ps, reported (Some errSink) now err w)
  else Ret (endingOf cfg lvl msg, ps, w).
Proof.
  intros Ho. pose proof Ho as (_ & Hc & Hs & He & Hn & _).
  unfold afterCheck. destruct pass; [|by rewrite (endCall_configured cfg errSink)].
  cbn [writeAll]. unfold siteCaller, siteStack. rewrite Hc, Hs, He, Hn. unfold on. cbn.
  fold (stackLevel cfg). destruct (Config.DisableCaller cfg); cbn [negb].
  all: change (Level.Level_Enabled (stackLevel cfg) lvl) with (stackLevel cfg <=? lvl).
  all: destruct (writeOne _ _ _ _ _) as [[err w']| |]; cbn [obind]; [|done..].
  all: by rewrite Append_nil_l, (endCall_configured cfg errSink).
Qed.

(** The parameters of the sampler, if there is one. *)
Definition samplerParams (cfg : Config.Config W) : Sampler.params :=
  match Config.Sampling cfg with
  | Some s => Sampler.newParams Second (Config.Initial s) (Config.Thereafter s)
  | None => Sampler.newParams Second 0 0
  end.

(** The call specification of LogSample.v, at a logger that obeys the configuration. *)
Lemma sampledSpec_configured cfg enc sink errSink log lvl msg fields f rest (st0 st : Store W) ps w :
  Config.obeys DefaultClock cfg errSink log -> Config.describedCore cfg enc sink st0 (Logger.core log) ->
  sampledSpec reflected (samplerParams cfg) (mkCall log lvl msg fields [] f rest) st ps w =
  saySpec cfg enc sink errSink lvl msg fields f rest st ps w.
Proof.
  intros Ho Hc. pose proof Ho as (_ & _ & _ & _ & Hn & Hk & _).
  pose proof (fun pass now => afterCheck_configured cfg enc sink errSink log pass lvl now msg fields f rest st) as Hfinish.
  unfold sampledSpec, saySpec, passes, samplerParams. cbn [logger level message LogSample.fields site outer].
  unfold Config.describedCore in Hc. cbv zeta in *. destruct (Config.Sampling cfg) as [s|].
  - destruct Hc as (counts & -> & _). cbn [willing]. rewrite Hk, Hn.
    set (enabled := on st (enablerAtomic (Config.Level_ cfg)) lvl). destruct (_ && _); [done|].
    destruct (DefaultClock w) as [now w1]. unfold letThrough, outputs. cbn [Entry.Level Entry.Message Entry.Time willing outlets].
    fold enabled. destruct enabled; cbn [negb andb]; [|apply (Hfinish false _ _ _ Ho)].
    destruct (counted lvl); [|apply (Hfinish true _ _ _ Ho)].
    match goal with |- context [Sampler.windowDecision ?x ?y] => destruct (Sampler.windowDecision x y) as [[]|] end;
      [apply (Hfinish false _ _ _ Ho)|apply (Hfinish true _ _ _ Ho)..].
  - rewrite Hc. unfold callSpec, outputs. rewrite Hc, Hk. cbn [willing outlets world setWorld].
    rewrite (on_atomics st (setWorld st w) eq_refl).
    destruct (on st (enablerAtomic (Config.Level_ cfg)) lvl), (lvl <? Level.DPanicLevel); cbn [negb andb obind]; try done.
    all: destruct (DefaultClock w) as [now w1]; first [apply (Hfinish true _ _ _ Ho)|apply (Hfinish false _ _ _ Ho)].
Qed.

(** The counters that a described core uses are new. *)
Lemma described_counts cfg enc sink (st : Store W) c :
  Config.describedCore cfg enc sink st c ->
  exists counts, (forall cs, counters st !! counts = Some cs -> cs = Sampler.newCounters) /\
    (forall inner n p hook, c = sampler inner n p hook -> n = counts).
Proof.
  unfold Config.describedCore. cbv zeta. destruct (Config.Sampling cfg) as [s|].
  - intros (counts & -> & Hnew). exists counts. split; [congruence|]. by intros inner n p hook [= _ ->].
  - intros ->. exists (length (counters st)). split; [|done]. intros cs H%lookup_lt_Some. lia.
Qed.

Lemma described_ready cfg enc sink errSink log lvl msg fields f rest (st : Store W) counts :
  Config.obeys DefaultClock cfg errSink log -> Config.describedCore cfg enc sink st (Logger.core log) ->
  (forall w, Sampler.representable Second (UnixNano (DefaultClock w).1)) ->
  allocated st (enablerAtomic (Config.Level_ cfg)) ->
  (forall inner n p hook, Logger.core log = sampler inner n p hook -> n = counts) ->
  ready counts (samplerParams cfg) st (mkCall log lvl msg fields [] f rest).
Proof.
  intros (_ & _ & Hs & _ & _ & Hk & _ & _ & Hskip) Hc Ht Ha Hn. constructor; cbn [logger wrappers]; [done|done|by rewrite Hs|].
  unfold Config.describedCore, samplerParams in *. cbv zeta in Hc. destruct (Config.Sampling cfg) as [s|].
  - destruct Hc as (n & Hc & Hnew). right. assert (n = counts) as -> by by eapply Hn. eexists _, _.
    split; [exact Hc|]. split; [by split|]. split; [by eapply lookup_lt_Some|]. by rewrite Hk.
  - left. by rewrite Hc.
Qed.

Lemma programSpec_configured cfg enc sink errSink log a deeds (st0 st : Store W) ps w :
  Config.obeys DefaultClock cfg errSink log -> Config.describedCore cfg enc sink st0 (Logger.core log) ->
  programSpec reflected (samplerParams cfg) (map (actionOf a log) deeds) st ps w =
  configuredSpec cfg enc sink errSink a deeds st ps w.
Proof.
  intros Ho Hc. revert st ps w. induction deeds as [|[lvl msg fields f rest|l] deeds IH]; intros st ps w; [done| |apply IH].
  cbn [map actionOf programSpec configuredSpec].
  rewrite (sampledSpec_configured cfg enc sink errSink log lvl msg fields f rest st0 st ps w Ho Hc).
  destruct (saySpec _ _ _ _ _ _ _ _ _ _ _ _) as [[[e ps'] w']| |]; cbn [obind]; [|done..]. by destruct e.
Qed.

(** C2: a configuration means what it says. When [Build] returns a logger (without
    further options, and with a clock whose times, and those a second later, are 64-bit
    nanoseconds, which is what [Time.UnixNano] needs), any program that logs with it, at
    any levels, with any messages, fields and call sites, and sets the configured
    [AtomicLevel] at any time, does exactly what [configuredSpec] reads off the
    configuration: entries below the level of the moment do nothing (below DPanic); of
    the others, those that the configured sampling lets through, all of them without it,
    are written as one line of the configured encoding, with the initial fields by
    increasing key, the caller unless that is disabled, and the stack from the level on
    that the configuration means, to the combined sinks of the output paths, and flushed
    above the error level; a failure is reported to the configured error outputs; the
    call ends as its level says, in development also at DPanic with a panic. *)
Theorem configured_logging encoders sr cfg a log deeds (st st' : Store W) :
  (1 <= storage)%nat -> Config.Level_ cfg = Some a -> (a < length (atomics st))%nat ->
  (forall w, Sampler.representable Second (UnixNano (DefaultClock w).1)) -> lenZ deeds < 2 ^ 64 ->
  Config.Build reflected Parse stdout stderr DefaultClock encoders sr cfg [] st = Ret (inl log, st') ->
  exists enc enc' sink errSink,
    Config.encoderOf encoders cfg (inl enc) /\ Config.withInitial reflected cfg enc (Ret enc') /\
    Config.outputsOf Parse stdout stderr sr cfg (world st) (inl (sink, errSink)) (world st') /\
    (let! (e, st2) := program reflected sprintEntry storage (map (actionOf a log) deeds) st' in Ret (e, world st2)) =
    configuredSpec cfg enc' sink errSink a deeds st' [] (world st').
Proof.
  intros Hs Hl Ha Ht Hlen Hb. pose proof (Config.Build_builds reflected Parse stdout stderr DefaultClock encoders sr cfg st) as H.
  rewrite Hb in H. destruct H as (enc & enc' & sink & errSink & He & Hopen & Ho & Hat & Hi & Hc).
  exists enc, enc', sink, errSink. split_and!; try done.
  rewrite <- (programSpec_configured cfg enc' sink errSink log a deeds st' st' [] (world st') Ho Hc).
  destruct (described_counts _ _ _ _ _ Hc) as (counts & Hnew & Hcounts).
  apply (program_run reflected sprintEntry storage counts); try done.
  - unfold samplerParams, Sampler.newParams. destruct (Config.Sampling cfg) as [s|]; [|done]. apply wrapU_range. done.
  - intros cs ->%Hnew. by repeat split.
  - apply Forall_map, Forall_true. intros [lvl msg fields f rest|l]; [|simpl; by rewrite Hat].
    eapply described_ready; try done. rewrite Hl. simpl. rewrite Hat. by apply lookup_lt_is_Some.
  - simpl. unfold lenZ in *. by rewrite length_map.
Qed.
End configured.

(** * A configuration with sampling *)

Section demo.
#[local] Existing Instances Level.asciiStd flat_multierr flat_multierr_spec.

Definition noFiles : @Sink.sinkRegistry (list (bytes * bytes)) :=
  let open : bytes -> Sink.opening := fun _ w => (inr (New_error (str "no files")), w) in
  match Sink.newSinkRegistry journal console open with
  | Ret sr => sr
  | _ => Sink.mkRegistry [] open
  end.

(** The first entry of a second, and none after it. *)
Definition demoConfig : Config.Config (list (bytes * bytes)) :=
  Config.mkConfig (Some 0%nat) false false true (Some (Config.mkSampling 1 0 None)) (str "json")
    Config.NewProductionEncoderConfig [str "stdout"] [str "stderr"] [(str "k", VNil)].

Definition demoClock (w : list (bytes * bytes)) : Time * list (bytes * bytes) := (mkTime 5 UTC, w).

Definition demoStore : Store (list (bytes * bytes)) := mkStore [] [] [] [] [Level.InfoLevel].

Definition demoBuild : outcome ((Logger.Logger (list (bytes * bytes)) + err) * Store (list (bytes * bytes))) :=
  Config.Build LoggerSpec.noReflection Config.parsePath journal console demoClock
    (Sink._encoderNameToConstructor LoggerSpec.noReflection) noFiles demoConfig [] demoStore.

Definition demoDeeds : list deed :=
  [Says Level.DebugLevel (str "low") [] LoggerSpec.site []; Says Level.InfoLevel (str "hot") [] LoggerSpec.site [];
   Says Level.InfoLevel (str "hot") [] LoggerSpec.site []; SetsLevel Level.DebugLevel;
   Says Level.DebugLevel (str "low") [] LoggerSpec.site []; Says Level.FatalLevel (str "end") [] LoggerSpec.site [];
   Says Level.InfoLevel (str "never") [] LoggerSpec.site []].

Definition demoRun (log : Logger.Logger (list (bytes * bytes))) (st : Store (list (bytes * bytes)))
    : outcome (ending * list (bytes * bytes)) :=
  let! (e, st2) := program LoggerSpec.noReflection (fun _ => []) 64 (map (actionOf 0 log) demoDeeds) st in
  Ret (e, world st2).

(** Three lines, and the process exits. *)
Lemma configured_logging_witness :
  (match demoBuild with
   | Ret (inl log, st') =>
       exists enc sink errSink,
         demoRun log st' = configuredSpec LoggerSpec.noReflection demoClock demoConfig enc sink errSink 0 demoDeeds st' [] (world st')
   | _ => False
   end : Prop) /\
  (let! (r, st') := demoBuild in
   match r with
   | inl log => let! (e, w) := demoRun log st' in Ret (e, map fst w)
   | inr _ => Diverge
   end) = Ret (Exits 1, [str "errors"; str "errors"; str "errors"]).
Proof.
  split; [|vm_compute; reflexivity].
  assert (match demoBuild with Ret (inl _, _) => true | _ => false end = true) as Hr by (vm_compute; reflexivity).
  destruct demoBuild as [[[log|e] st']| |] eqn:E; try discriminate Hr.
  destruct (configured_logging LoggerSpec.noReflection (fun _ => []) 64 Config.parsePath journal console demoClock
    (Sink._encoderNameToConstructor LoggerSpec.noReflection) noFiles demoConfig 0 log demoDeeds demoStore st'
    ltac:(lia) eq_refl ltac:(simpl; lia) ltac:(done) ltac:(reflexivity) E) as (_ & enc & sink & errSink & _ & _ & _ & H).
  exists enc, sink, errSink. exact H.
Defined.
End demo.
End LogConfig.
