(* ===== verification/Zaptest.v ===== *)
(** Loggers for tests, zaptest/logger.go and zaptest/testingt.go: a logger that writes
    to the log of a test, and fails the test when zap itself has an error to report.

    The test is a value of the interface [TestingT]; what its methods change is part
    of the world behind the write syncers. *)

From Stdlib Require Import ZArith Lia.
From S2P Require Import Prelude GoStd Level AtomicLevel WriteSyncer ZTest Encode Field Entry EncoderConfig JsonEncoder JsonTree ConsoleEncoder Core CoreSpec CoreDelivery Stacktrace Logger LoggerSpec LogCall Config.
From stdpp Require Import base list.

Local Open Scope Z_scope.
Local Open Scope zap_scope.

Module Zaptest.
Import Encode Core CoreSpec CoreDelivery Stacktrace LogCall.

Section zaptest.
Context {W : Type}.

Record TestingT := mkTestingT {
  Logf : bytes -> list any -> W -> W;
  Errorf : bytes -> list any -> W -> W;
  Fail : W -> W;
  Failed : W -> bool;
  Name : W -> bytes;
  FailNow : W -> ending * W
}.

(** * The writer *)

Record TestingWriter := mkTestingWriter { t : TestingT; markFailed : bool }.

Definition NewTestingWriter (t : TestingT) : TestingWriter := mkTestingWriter t false.

Definition WithMarkFailed (w : TestingWriter) (v : bool) : TestingWriter := mkTestingWriter (t w) v.

Definition Write (w : TestingWriter) (p : bytes) (world : W) : (Z * error) * W :=
  let n := lenZ p in
  let p := ZTest.TrimRight p in
  let world := Logf (t w) (str "%s") [VBytes p] world in
  let world := if markFailed w then Fail (t w) world else world in
  ((n, None), world).

Definition Sync (w : TestingWriter) (world : W) : error * W := (None, world).

(** As a value of the interface [WriteSyncer]. *)
Definition syncer (w : TestingWriter) : @WriteSyncer.WriteSyncer W :=
  WriteSyncer.foreignSyncer (Write w) (Sync w).

(** * Options *)

Record loggerOptions := mkLoggerOptions {
  enab_ : enabler;
  zapOptions : list (Logger.Option_ W)
}.

Definition LoggerOption : Type := loggerOptions -> loggerOptions.

Definition applyLoggerOption (f : LoggerOption) (opts : loggerOptions) : loggerOptions := f opts.

Definition Level_ (enab : enabler) : LoggerOption := fun opts => mkLoggerOptions enab (zapOptions opts).

Definition WrapOptions (zapOpts : list (Logger.Option_ W)) : LoggerOption := fun opts =>
  mkLoggerOptions (enab_ opts) zapOpts.

(** What a list of options comes to. *)
Definition applied (opts : list LoggerOption) : loggerOptions :=
  foldl (fun cfg o => applyLoggerOption o cfg) (mkLoggerOptions (enablerLevel Level.DebugLevel) []) opts.

(** * The logger *)

Context {std : GoStd} {ME : Multierr} {MS : MultierrSpec ME}.
Context (reflected : EncoderConfig.ReflectedEncoder) (sprintEntry : Entry.Entry -> bytes) (storage : nat).
Context (stderr : @WriteSyncer.WriteSyncer W) (DefaultClock : W -> Time * W).

Definition console : ConsoleEncoder.consoleEncoder :=
  ConsoleEncoder.NewConsoleEncoder reflected Config.NewDevelopmentEncoderConfig.

Definition NewLogger (t : TestingT) (opts : list LoggerOption) : M W (Logger.Logger W) :=
  let cfg := applied opts in
  let writer := NewTestingWriter t in
  let options := [Logger.ErrorOutput_ (Some (syncer (WithMarkFailed writer true)))] in
  let options := options ++ zapOptions cfg in
  Logger.New stderr DefaultClock (Some (NewCore (consoleEncoder console) (syncer writer) (enab_ cfg))) options.

(** * Lemmas *)

(** The logger that [NewLogger] makes when no zap options are given. *)
Definition plainLogger (t : TestingT) (enab : enabler) : Logger.Logger W :=
  Logger.mkLogger (ioCore enab (consoleEncoder console) (syncer (NewTestingWriter t))) false false None None []
    (Some (syncer (WithMarkFailed (NewTestingWriter t) true))) (enablerLevel (Level.FatalLevel + 1)) 0 DefaultClock.

Lemma NewLogger_plain t opts st :
  zapOptions (applied opts) = [] -> NewLogger t opts st = Ret (plainLogger t (enab_ (applied opts)), st).
Proof. intros H. unfold NewLogger. rewrite H. done. Qed.

(** How a call at the level ends. *)
Definition endingAt (lvl : Level.Level) (msg : bytes) : ending :=
  if lvl =? Level.PanicLevel then PanicsWith msg else if lvl =? Level.FatalLevel then Exits 1 else Returns.

Definition entryOf (lvl : Level.Level) (now : Time) (msg : bytes) : Entry.Entry :=
  Entry.mkEntry lvl now [] msg Entry.noCaller [].

Lemma console_no_error ent fields :
  match ConsoleEncoder.EncodeEntry reflected console ent fields with
  | Ret (_, e) => e = None
  | Panic _ => True
  | Diverge => False
  end.
Proof.
  pose proof (EncodeEntry_total reflected (consoleEncoder console) ent fields) as H. simpl in H.
  destruct (ConsoleEncoder.EncodeEntry _ _ _ _) as [[line e]| |] eqn:E; [|done..].
  unfold ConsoleEncoder.EncodeEntry in E. cbv zeta in E.
  destruct (ConsoleEncoder.writeContext _ _ _ _) as [l| |]; [|done..]. by injection E as _ <-.
Qed.

(** How the call of the specification goes on this logger. *)
Lemma callSpec_plain t enab lvl msg fields (st : Store W) :
  callSpec reflected (plainLogger t enab) lvl msg fields Entry.noCaller [] st =
  let '(now, w) := DefaultClock (world st) in
  if on st enab lvl then
    let! (line, _) := ConsoleEncoder.EncodeEntry reflected console (entryOf lvl now msg) fields in
    Ret (endingAt lvl msg, Logf t (str "%s") [VBytes (ZTest.TrimRight line)] w)
  else Ret (endingAt lvl msg, if lvl <? Level.DPanicLevel then world st else w).
Proof.
  assert (forall ent w, Entry.Message ent = msg ->
    endCall (LoggerSpec.terminal (plainLogger t enab) lvl) ent fields w = (endingAt lvl msg, w)) as He.
  { intros ent w <-. unfold LoggerSpec.terminal, endingAt. destruct (_ =? Level.PanicLevel); [done|].
    destruct (_ =? Level.FatalLevel); [done|]. by rewrite andb_false_r. }
  unfold callSpec, afterCheck, outputs. cbn [plainLogger Logger.core Logger.clock Logger.name Logger.errorOutput willing outlets].
  destruct (DefaultClock (world st)) as [now w]. destruct (on st enab lvl).
  - rewrite andb_false_r. cbn [omap list_omap outputOf writeAll]. unfold writeOne. cbn [fst snd Core.EncodeEntry].
    change (Entry.mkEntry lvl now [] msg Entry.noCaller []) with (entryOf lvl now msg).
    pose proof (console_no_error (entryOf lvl now msg) fields) as Hn.
    destruct (ConsoleEncoder.EncodeEntry _ _ _ _) as [[line e]| |]; cbn [obind]; [subst e|done..].
    cbn [WriteSyncer.Write syncer Write NewTestingWriter markFailed obind].
    rewrite Append_nil_l. cbn [reported]. rewrite He by done. by destruct (_ <? _).
  - rewrite andb_true_r. cbn [omap list_omap]. destruct (lvl <? Level.DPanicLevel) eqn:El.
    + apply Z.ltb_lt in El. unfold endingAt, Level.DPanicLevel in *.
      by rewrite !(proj2 (Z.eqb_neq _ _)) by (unfold Level.PanicLevel, Level.FatalLevel; lia).
    + by rewrite He.
Qed.

(** C34: the logger of a test.  A call at an enabled level makes exactly one entry in the
    test's log, the console line without its trailing newlines, which never fails the
    test; a call at a disabled level makes none; the call returns, panics with the
    message or exits as its level says, and panics otherwise only with a marshaler; and
    what zap has to report itself goes to the same log and fails the test.  The last
    [Level] among the options decides, and without one it is the debug level. *)
Theorem zaptest_logs_line t opts lvl msg fields stk (st : Store W) :
  zapOptions (applied opts) = [] -> allocated st (enab_ (applied opts)) -> lvl <= Level.FatalLevel ->
  exists log errorOutput,
    NewLogger t opts st = Ret (log, st) /\
    (let '(now, w) := DefaultClock (world st) in
     let call := Logger.Log reflected sprintEntry storage log lvl msg fields stk st in
     if on st (enab_ (applied opts)) lvl then
       match ConsoleEncoder.EncodeEntry reflected console (entryOf lvl now msg) fields with
       | Ret (line, _) =>
           call = Ret (endingAt lvl msg, setWorld st (Logf t (str "%s") [VBytes (ZTest.TrimRight line)] w))
       | Panic v => call = Panic v
       | Diverge => False
       end
     else call = Ret (endingAt lvl msg, if lvl <? Level.DPanicLevel then st else setWorld st w)) /\
    Logger.errorOutput log = Some errorOutput /\
    forall p w, WriteSyncer.Write errorOutput p w =
      ((lenZ p, None), Fail t (Logf t (str "%s") [VBytes (ZTest.TrimRight p)] w)).
Proof.
  intros Hz Ha Hl. do 2 eexists. split; [by apply NewLogger_plain|]. split; [|by split].
  set (enab := enab_ (applied opts)) in *. unfold Logger.Log.
  pose proof (logAt_run reflected sprintEntry storage (plainLogger t enab) lvl msg fields
    (frameOf (str "zap.(*Logger).Log") :: stk) Entry.noCaller [] st (conj Ha I)) as Hrun.
  rewrite callSpec_plain in Hrun. pose proof (console_no_error (entryOf lvl (DefaultClock (world st)).1 msg) fields) as Hn.
  destruct (DefaultClock (world st)) as [now w]. cbv zeta. rewrite Hrun; clear Hrun.
  - destruct (on st enab lvl).
    + by destruct (ConsoleEncoder.EncodeEntry _ _ _ _) as [[line e]| |].
    + destruct (lvl <? Level.DPanicLevel); [by cbn; rewrite setWorld_same|done].
  - apply annotates_nothing; [done..|]. unfold on. cbn. unfold Level.Level_Enabled.
    by rewrite (proj2 (Z.leb_gt _ _)) by (simpl; lia).
Qed.
End zaptest.
Arguments TestingT W : clear implicits.

(** * A test *)

Section demo.
#[local] Existing Instances Level.asciiStd flat_multierr flat_multierr_spec.

(** The log of a test and whether it has failed. *)
Definition spy : TestingT (list bytes * bool) :=
  let logf := fun (format : bytes) args w =>
    ((w.1 ++ concat (map (fun a => match a with VBytes s => [s] | _ => [] end) args), w.2) : list bytes * bool) in
  let fail := fun w => (w.1, true) in
  mkTestingT logf (fun format args w => fail (logf format args w)) fail snd (fun _ => str "Test")
    (fun w => (Goexit, fail w)).

Definition fresh : Store (list bytes * bool) := mkStore ([], false) [] [] [] [].

Definition discard : @WriteSyncer.WriteSyncer (list bytes * bool) := WriteSyncer.AddSync WriteSyncer.Discard.

Definition demoOptions : list (@LoggerOption (list bytes * bool)) :=
  [Level_ (enablerLevel Level.DebugLevel); WrapOptions []; Level_ (enablerLevel Level.WarnLevel)].

(** A warning is in the log, and what is below is not. *)
Lemma zaptest_logs_line_witness :
  exists log,
    NewLogger nullReflected discard (fun w => (mkTime 5 UTC, w)) spy demoOptions fresh = Ret (log, fresh) /\
    Logger.Log nullReflected (fun _ => []) 64 log Level.WarnLevel (str "hot") [Field.Bool (str "ok") true] [] fresh =
      Ret (Returns, setWorld fresh
        ([str "5" ++ [x09] ++ str "WARN" ++ [x09] ++ str "hot" ++ [x09; x7b] ++
          JsonTree.quoted (str "ok") ++ str ": true" ++ [x7d]], false)) /\
    Logger.Log nullReflected (fun _ => []) 64 log Level.InfoLevel (str "warm") [] [] fresh = Ret (Returns, fresh).
Proof.
  destruct (zaptest_logs_line nullReflected (fun _ => []) 64 discard (fun w => (mkTime 5 UTC, w)) spy demoOptions
    Level.WarnLevel (str "hot") [Field.Bool (str "ok") true] [] fresh eq_refl I ltac:(discriminate)) as (log & out & E & H & _).
  destruct (zaptest_logs_line nullReflected (fun _ => []) 64 discard (fun w => (mkTime 5 UTC, w)) spy demoOptions
    Level.InfoLevel (str "warm") [] [] fresh eq_refl I ltac:(discriminate)) as (log2 & out2 & E2 & H2 & _).
  exists log. split; [exact E|]. rewrite E in E2. injection E2 as <-. split; [exact H|exact H2].
Defined.
End demo.
End Zaptest.
