(* ===== verification/Global.v ===== *)
(** global.go: the global loggers and the redirection of the standard library's logger.

    The package's variables and those of the package log that it sets are the state;
    a call under the mutex is one step.  A function value that the code returns is the
    data it closes over, with the definition that runs it. *)

From Stdlib Require Import ZArith Lia.
From S2P Require Import Prelude GoStd Level AtomicLevel WriteSyncer Encode Field Entry EncoderConfig Core CoreSpec Stacktrace Logger LoggerSpec Sugar.
From stdpp Require Import base list.

Local Open Scope Z_scope.
Local Open Scope zap_scope.

Module Global.
Import Encode Core Stacktrace.

Section global.
Context {W : Type} {std : GoStd} {ME : Multierr}.
Context (reflected : EncoderConfig.ReflectedEncoder) (sprintEntry : Entry.Entry -> bytes) (storage : nat).
Context (DefaultClock : W -> Time * W).

(** A [loggerWriter]: the method value of a logger that it calls. *)
Record loggerWriter := mkLoggerWriter { target : Logger.Logger W; level : Level.Level }.

(** Where the standard logger writes: [os.Stderr], something else, or a logger. *)
Inductive stdOutput := toStderr | toOther (id : Z) | toLogger (w : loggerWriter).

Record Globals := mkGlobals {
  _globalL : Logger.Logger W;
  _globalS : Sugar.SugaredLogger W;
  stdFlags : Z;
  stdPrefix : bytes;
  stdOut : stdOutput
}.

Definition setLoggers (g : Globals) (l : Logger.Logger W) (s : Sugar.SugaredLogger W) : Globals :=
  mkGlobals l s (stdFlags g) (stdPrefix g) (stdOut g).
Definition setStd (g : Globals) (flags : Z) (prefix : bytes) (out : stdOutput) : Globals :=
  mkGlobals (_globalL g) (_globalS g) flags prefix out.

(** The state when the program starts; the standard logger writes to [os.Stderr]. *)
Definition initGlobals (flags : Z) : Globals :=
  mkGlobals (Logger.NewNop DefaultClock) (Sugar.Sugar (Logger.NewNop DefaultClock)) flags [] toStderr.

Definition L (g : Globals) : Logger.Logger W := _globalL g.
Definition S_ (g : Globals) : Sugar.SugaredLogger W := _globalS g.

(** [ReplaceGlobals]: the function that it returns replaces them by [prev]. *)
Definition ReplaceGlobals (logger : Logger.Logger W) (g : Globals) : Logger.Logger W * Globals :=
  let prev := _globalL g in
  (prev, setLoggers g logger (Sugar.Sugar logger)).

Definition _stdLogDefaultDepth : Z := 1.
Definition _loggerWriterDepth : Z := 2.

Definition levelToFunc (logger : Logger.Logger W) (lvl : Level.Level) : loggerWriter + err :=
  if bool_decide (lvl ∈ [Level.DebugLevel; Level.InfoLevel; Level.WarnLevel; Level.ErrorLevel;
                         Level.DPanicLevel; Level.PanicLevel; Level.FatalLevel])
  then inl (mkLoggerWriter logger lvl)
  else inr (New_error (str "unrecognized level: " ++ Quote (Level.String lvl))).

(** The logger with the frames of the package log and of [loggerWriter] skipped. *)
Definition skipping (l : Logger.Logger W) : M W (Logger.Logger W) :=
  Logger.WithOptions l [Logger.AddCallerSkip (_stdLogDefaultDepth + _loggerWriterDepth)].

Definition NewStdLog (l : Logger.Logger W) : M W loggerWriter :=
  logger ← skipping l; mret (mkLoggerWriter logger Level.InfoLevel).

Definition NewStdLogAt (l : Logger.Logger W) (lvl : Level.Level) : M W (loggerWriter + err) :=
  logger ← skipping l; mret (levelToFunc logger lvl).

(** What the function that [redirectStdLogAt] returns closes over, and its body. *)
Record restorer := mkRestorer { oldFlags : Z; oldPrefix : bytes }.

Definition restore (r : restorer) (g : Globals) : Globals := setStd g (oldFlags r) (oldPrefix r) toStderr.

Definition redirectStdLogAt (l : Logger.Logger W) (lvl : Level.Level) (g : Globals)
    : M W ((restorer + err) * Globals) :=
  let flags := stdFlags g in
  let prefix := stdPrefix g in
  let g := setStd g 0 [] (stdOut g) in
  logger ← skipping l;
  match levelToFunc logger lvl with
  | inr e => mret (inr e, g)
  | inl f => mret (inl (mkRestorer flags prefix), setStd g (stdFlags g) (stdPrefix g) (toLogger f))
  end.

Definition RedirectStdLogAt (l : Logger.Logger W) (lvl : Level.Level) (g : Globals)
    : M W ((restorer + err) * Globals) := redirectStdLogAt l lvl g.

Definition _programmerErrorTemplate : bytes :=
  str "You've found a bug in zap! Please file a bug at https://github.com/uber-go/zap/issues/new and reference this error: ".

Definition RedirectStdLog (l : Logger.Logger W) (g : Globals) : M W (restorer * Globals) :=
  '(r, g) ← redirectStdLogAt l Level.InfoLevel g;
  match r with
  | inl r => mret (r, g)
  | inr e => panic (_programmerErrorTemplate ++ Error_text e)
  end.

(** [loggerWriter.Write]; the method value it calls pushes its own frame. *)
Definition Write (trimUnicode : bytes -> bytes) (l : loggerWriter) (p : bytes) (stk : list Frame)
    : M W (ending * (Z * error)) :=
  let p := Strings.TrimSpace trimUnicode p in
  e ← Logger.logAt reflected sprintEntry storage (target l) (level l) p []
        (frameOf (str "zap.(*Logger)") :: frameOf (str "zap.(*loggerWriter).Write") :: stk);
  mret (e, (lenZ p, None)).
End global.
Arguments Globals W : clear implicits.
Arguments loggerWriter W : clear implicits.
Arguments stdOutput W : clear implicits.

Section theorems.
Context {W : Type} {std : GoStd}.

(** The two global loggers are one: the sugared one is the sugared form of the other. *)
Definition paired (g : Globals W) : Prop := _globalS g = Sugar.Sugar (_globalL g).

(** Replacing the global loggers keeps them paired, and the function that is returned
    puts both of them back. *)
Lemma replace_restores (g : Globals W) logger :
  paired g ->
  paired (ReplaceGlobals logger g).2 /\ L (ReplaceGlobals logger g).2 = logger /\
  (ReplaceGlobals (ReplaceGlobals logger g).1 (ReplaceGlobals logger g).2).2 = g.
Proof. intros H. destruct g as [l s f p o]. unfold paired in H. simpl in *. by subst. Qed.

(** A redirection at one of the seven levels is undone by the function it returns: flags
    and prefix are those from before and the output is [os.Stderr]; and the standard
    logger's output goes to the logger at that level, with three more frames skipped. *)
Lemma redirect_restores (l : Logger.Logger W) lvl (g : Globals W) st r g' st' :
  redirectStdLogAt l lvl g st = Ret (inl r, g', st') ->
  st' = st /\ restore r g' = setStd g (stdFlags g) (stdPrefix g) toStderr /\
  stdFlags g' = 0 /\ stdPrefix g' = [] /\
  exists log, stdOut g' = toLogger (mkLoggerWriter log lvl) /\
    Logger.callerSkip log = int64 (Logger.callerSkip l + 3) /\ Logger.core log = Logger.core l.
Proof.
  unfold redirectStdLogAt, skipping, levelToFunc. unfold mbind, M_bind. simpl.
  case_bool_decide; [|done]. intros [= <- <- <-]. repeat split; try done. eexists. split; [done|]. done.
Qed.

(** At any other level the redirection fails, and the flags and the prefix of the
    standard logger stay cleared with nothing to restore them. *)
Lemma redirect_error_clears (l : Logger.Logger W) lvl (g : Globals W) st :
  lvl ∉ [Level.DebugLevel; Level.InfoLevel; Level.WarnLevel; Level.ErrorLevel;
         Level.DPanicLevel; Level.PanicLevel; Level.FatalLevel] ->
  exists e, redirectStdLogAt l lvl g st = Ret (inr e, setStd g 0 [] (stdOut g), st).
Proof.
  intros H. unfold redirectStdLogAt, skipping, levelToFunc. unfold mbind, M_bind. simpl.
  rewrite bool_decide_false by done. by eexists.
Qed.
End theorems.
End Global.
