(* ===== verification/Zapslog.v ===== *)
(** exp/zapslog: a handler of log/slog that writes to a core (handler.go, options.go).

    A [slog.Value] is its kind and payload; a [LogValuer] is the value that its [Resolve]
    gives, which is of another kind. *)

From Stdlib Require Import ZArith Lia.
From S2P Require Import Prelude GoStd Level AtomicLevel WriteSyncer Encode Field Entry EncoderConfig Core CoreSpec CoreDelivery Stacktrace Logger.
From stdpp Require Import base list.

Local Open Scope Z_scope.
Local Open Scope zap_scope.

Module Zapslog.
Import Encode Core CoreSpec.

(** * Values and attributes *)

Inductive Value :=
| KindBool (b : bool)
| KindDuration (d : Z)
| KindFloat64 (f : Z)
| KindInt64 (z : Z)
| KindString (s : bytes)
| KindTime (t : Time)
| KindUint64 (z : Z)
| KindGroup (attrs : list (bytes * Value))
| KindLogValuer (resolved : Value)
| KindAny (v : any).

(** A [slog.Attr] is its key and value. *)
Abbreviation Attr := (bytes * Value)%type.

(** [attr.Equal(slog.Attr{})]: no key and a nil value. *)
Definition emptyAttr (key : bytes) (v : Value) : bool :=
  match key, v with
  | [], KindAny VNil => true
  | _, _ => false
  end.

(** The marshaler of a [groupObject], given the fields of its attributes. *)
Fixpoint groupObject (fs : list Field) : ObjProg :=
  match fs with
  | [] => ODone None
  | f :: fs' => oseq (Field.AddTo f) (fun _ => groupObject fs')
  end.

Fixpoint convertAttrToField (key : bytes) (v : Value) : Field :=
  if emptyAttr key v then Field.Skip
  else
    match v with
    | KindBool b => Field.Bool key b
    | KindDuration d => Field.Duration key d
    | KindFloat64 f => Field.Float64 key f
    | KindInt64 z => Field.Int64 key z
    | KindString s => Field.String key s
    | KindTime t => Field.Time key t
    | KindUint64 z => Field.Uint64 key z
    | KindGroup attrs =>
        let group := groupObject (map (fun '(k, v) => convertAttrToField k v) attrs) in
        if decide (key = []) then Field.Inline (Some group) else Field.Object key (Some group)
    | KindLogValuer resolved => convertAttrToField key resolved
    | KindAny v => Field.Any key v
    end.

Definition LevelDebug : Z := -4.
Definition LevelInfo : Z := 0.
Definition LevelWarn : Z := 4.
Definition LevelError : Z := 8.

Definition convertSlogLevel (l : Z) : Level.Level :=
  if LevelError <=? l then Level.ErrorLevel
  else if LevelWarn <=? l then Level.WarnLevel
  else if LevelInfo <=? l then Level.InfoLevel
  else Level.DebugLevel.

Section handler.
Context {W : Type} {std : GoStd} {ME : Multierr}.
Context (reflected : EncoderConfig.ReflectedEncoder) (sprintEntry : Entry.Entry -> bytes) (storage : nat).

Record Handler := mkHandler {
  core : Core W;
  name : bytes;
  addCaller : bool;
  addStackAt : Z;
  callerSkip : Z;
  groups : list bytes
}.

(** A record: [pcFrame] is the frame of its program counter, if it has one. *)
Record Record_ := mkRecord {
  recTime : Time;
  recMessage : bytes;
  recLevel : Z;
  pcFrame : option Stacktrace.Frame;
  attrs : list Attr
}.

(** * Options *)

Definition WithName (n : bytes) (h : Handler) : Handler :=
  mkHandler (core h) n (addCaller h) (addStackAt h) (callerSkip h) (groups h).
Definition WithCaller (enabled : bool) (h : Handler) : Handler :=
  mkHandler (core h) (name h) enabled (addStackAt h) (callerSkip h) (groups h).
Definition WithCallerSkip (skip : Z) (h : Handler) : Handler :=
  mkHandler (core h) (name h) (addCaller h) (addStackAt h) (int64 (callerSkip h + skip)) (groups h).
Definition AddStacktraceAt (lvl : Z) (h : Handler) : Handler :=
  mkHandler (core h) (name h) (addCaller h) lvl (callerSkip h) (groups h).

Definition NewHandler (c : Core W) (opts : list (Handler -> Handler)) : Handler :=
  foldl (fun h opt => opt h) (mkHandler c [] false LevelError 0 []) opts.

(** * The handler *)

Definition Enabled_ (h : Handler) (level : Z) : M W bool := Enabled (core h) (convertSlogLevel level).

(** [f == zap.Skip()]. *)
Definition isSkip (f : Field) : bool :=
  match f with
  | mkField [] SkipType 0 [] VNil => true
  | _ => false
  end.

Definition appendGroups (h : Handler) (fields : list Field) : list Field :=
  fields ++ map Field.Namespace (groups h).

(** The loop over attributes that [Handle] and [WithAttrs] share. *)
Fixpoint appendAttrs (h : Handler) (attrs : list Attr) (fields : list Field) (addedNamespace : bool)
    : list Field * bool :=
  match attrs with
  | [] => (fields, addedNamespace)
  | (k, v) :: attrs' =>
      let f := convertAttrToField k v in
      if negb addedNamespace && (0 <? lenZ (groups h)) && negb (isSkip f) then
        appendAttrs h attrs' (appendGroups h fields ++ [f]) true
      else appendAttrs h attrs' (fields ++ [f]) addedNamespace
  end.

(** The caller of the checked entry, from the record's program counter. *)
Definition annotateCaller (h : Handler) (r : Record_) (ce : CheckedEntry W) : CheckedEntry W :=
  match pcFrame r with
  | Some frame =>
      if addCaller h && negb (Stacktrace.PC frame =? 0) then
        Logger.withEntry ce (Logger.withCaller (entry ce)
          (Entry.mkCaller true (Stacktrace.PC frame) (Stacktrace.File frame) (Stacktrace.Line frame)
             (Stacktrace.Function frame)))
      else ce
  | None => ce
  end.

(** [Handle], called by the function on top of [stk]. *)
Definition Handle (h : Handler) (r : Record_) (stk : list Stacktrace.Frame) : M W (ending * error) :=
  let ent := Entry.mkEntry (convertSlogLevel (recLevel r)) (recTime r) (name h) (recMessage r) Entry.noCaller [] in
  ce ← Check reflected 1 (core h) ent None;
  match ce with
  | None => mret (Returns, None)
  | Some ce =>
      let ce := annotateCaller h r ce in
      ce ← (if addStackAt h <=? recLevel r then
              s ← lift (Stacktrace.Take storage (Stacktrace.frameOf (str "zapslog.(*Handler).Handle") :: stk)
                          (int64 (3 + callerSkip h)));
              mret (Logger.withEntry ce (Logger.withStack (entry ce) s))
            else mret ce);
      let '(fields, _) := appendAttrs h (attrs r) [] false in
      '(e, _) ← checked_Write reflected sprintEntry (Some ce) fields;
      mret (e, None)
  end.

Definition WithAttrs (h : Handler) (attrs : list Attr) : M W Handler :=
  let '(fields, addedNamespace) := appendAttrs h attrs [] false in
  c ← With reflected 1 (core h) fields;
  mret (mkHandler c (name h) (addCaller h) (addStackAt h) (callerSkip h)
          (if addedNamespace then [] else groups h)).

Definition WithGroup (h : Handler) (group : bytes) : Handler :=
  if decide (group = []) then h
  else mkHandler (core h) (name h) (addCaller h) (addStackAt h) (callerSkip h) (groups h ++ [group]).

(** * Deriving handlers *)

Inductive derivation :=
| ByGroup (group : bytes)
| ByAttrs (attrs : list Attr).

Fixpoint derive (ds : list derivation) (h : Handler) : M W Handler :=
  match ds with
  | [] => mret h
  | ByGroup g :: ds' => derive ds' (WithGroup h g)
  | ByAttrs l :: ds' => h' ← WithAttrs h l; derive ds' h'
  end.

(** * Specification *)

(** What a chain of calls asks for, in order: a group opens, or a field is added. *)
Inductive item :=
| Opens (group : bytes)
| Adds (f : Field).

Definition itemField (i : item) : Field :=
  match i with
  | Opens g => Field.Namespace g
  | Adds f => f
  end.

Definition real (f : Field) : bool := negb (isSkip f).

Definition attrItems (l : list Attr) : list item :=
  map Adds (filter real (map (fun '(k, v) => convertAttrToField k v) l)).

Definition asked (d : derivation) : list item :=
  match d with
  | ByGroup g => if decide (g = []) then [] else [Opens g]
  | ByAttrs l => attrItems l
  end.

(** The groups that no field follows are not opened. *)
Fixpoint settle (l : list item) : list item :=
  match l with
  | [] => []
  | Opens g :: l' => match settle l' with [] => [] | l'' => Opens g :: l'' end
  | Adds f :: l' => Adds f :: settle l'
  end.

Lemma settle_idem l : settle (settle l) = settle l.
Proof.
  induction l as [|[g|f] l IH]; simpl; [done| |by rewrite IH].
  destruct (settle l) as [|i l'] eqn:E; [done|]. cbn [settle] in *. by rewrite IH.
Qed.

Lemma settle_Opens gs : settle (map Opens gs) = [].
Proof. induction gs as [|g gs IH]; simpl; [done|by rewrite IH]. Qed.

Lemma settle_map_Adds fs : settle (map Adds fs) = map Adds fs.
Proof. induction fs as [|f fs IH]; simpl; [done|by rewrite IH]. Qed.

Lemma map_itemField_Adds fs : map itemField (map Adds fs) = fs.
Proof. rewrite map_map. apply map_id. Qed.

Lemma map_itemField_Opens gs : map itemField (map Opens gs) = map Field.Namespace gs.
Proof. apply map_map. Qed.

(** A list that [settle] leaves alone, before groups or fields that come after it. *)
Lemma settle_app l l' : settle l = l -> settle (l ++ l') = l ++ settle l'.
Proof.
  induction l as [|[g|f] l IH]; simpl; [done| |].
  - intros E. destruct (settle l) as [|x l''] eqn:El; [done|]. injection E as E.
    rewrite IH by done. destruct l; [done|]. done.
  - intros E. injection E as E. by rewrite IH.
Qed.

Lemma settle_Opens_Adds gs fs :
  fs <> [] -> settle (map Opens gs ++ map Adds fs) = map Opens gs ++ map Adds fs.
Proof.
  intros Hfs. induction gs as [|g gs IH]; simpl; [apply settle_map_Adds|]. rewrite IH.
  by destruct gs, fs.
Qed.

(** * The loop over attributes *)

Lemma skip_unreal f : isSkip f = true -> ~ real f.
Proof. unfold real. intros ->. simpl. tauto. Qed.

Lemma unskip_real f : isSkip f = false -> real f.
Proof. unfold real. by intros ->. Qed.

Lemma filter_Namespace gs : filter real (map Field.Namespace gs) = map Field.Namespace gs.
Proof.
  induction gs as [|g gs IH]; [done|]. rewrite map_cons, filter_cons_True, IH; [done|].
  by destruct g.
Qed.

Lemma appendAttrs_added h l fields :
  appendAttrs h l fields true = (fields ++ map (fun '(k, v) => convertAttrToField k v) l, true).
Proof.
  revert fields. induction l as [|[k v] l IH]; intros fields; simpl; [by rewrite app_nil_r|].
  by rewrite IH, <- app_assoc.
Qed.

(** The fields that the loop adds, without the skipped ones: the pending groups come
    first when there is a field, and nothing when there is none. *)
Lemma appendAttrs_spec h l fields :
  let '(fs, added) := appendAttrs h l fields false in
  let new := filter real (map (fun '(k, v) => convertAttrToField k v) l) in
  filter real fs = filter real fields ++
    (match new with [] => [] | _ => map Field.Namespace (groups h) ++ new end) /\
  added = negb (bool_decide (groups h = [])) && negb (bool_decide (new = [])).
Proof.
  revert fields. induction l as [|[k v] l IH]; intros fields.
  { simpl. rewrite app_nil_r. split; [done|by rewrite andb_false_r]. }
  cbn [appendAttrs map negb andb]. set (f := convertAttrToField k v).
  destruct (isSkip f) eqn:Ef.
  - rewrite andb_false_r, filter_cons_False by (by apply skip_unreal).
    specialize (IH (fields ++ [f])). destruct (appendAttrs _ _ _ _) as [fs added].
    rewrite filter_app, (filter_cons_False _ f) in IH by (by apply skip_unreal).
    by rewrite app_nil_r in IH.
  - rewrite andb_true_r. rewrite filter_cons_True by (by apply unskip_real).
    destruct (groups h) as [|g gs] eqn:Eg.
    + change (0 <? lenZ (@nil bytes)) with false. specialize (IH (fields ++ [f])).
      destruct (appendAttrs _ _ _ _) as [fs added]. destruct IH as [-> ->].
      rewrite filter_app, filter_cons_True by (by apply unskip_real). cbn.
      rewrite <- app_assoc. split; [|done]. do 2 f_equal. by destruct (filter _ (map _ l)).
    + replace (0 <? lenZ (g :: gs)) with true by (symmetry; apply Z.ltb_lt; unfold lenZ; simpl; lia).
      rewrite appendAttrs_added. unfold appendGroups. rewrite Eg.
      rewrite !filter_app, filter_Namespace, filter_cons_True by (by apply unskip_real).
      split; [|done]. by rewrite <- !app_assoc.
Qed.

(** One loop over attributes settles what was asked for so far: [C] with the fields of
    [fs], and the pending groups. *)
Lemma appendAttrs_settles h l fs base C :
  settle C = C -> filter real fs = base ++ map itemField C ->
  let '(new, added) := appendAttrs h l [] false in
  let all := C ++ map Opens (groups h) ++ attrItems l in
  filter real (fs ++ new) = base ++ map itemField (settle all) /\
  all = settle all ++ map Opens (if added then [] else groups h).
Proof.
  intros HC Hfs. pose proof (appendAttrs_spec h l []) as H.
  destruct (appendAttrs h l [] false) as [new added]. destruct H as [Hn ->].
  unfold attrItems. rewrite filter_app, Hfs, Hn, filter_nil, (settle_app C) by done. cbn [app].
  set (fresh := filter _ (map _ l)). destruct (decide (fresh = [])) as [->|Hne].
  - rewrite (bool_decide_true ([] = [])), andb_false_r by done. cbn [map].
    rewrite !app_nil_r, settle_Opens, !app_nil_r. done.
  - rewrite settle_Opens_Adds, !map_app, map_itemField_Adds, map_itemField_Opens, <- !app_assoc by done.
    rewrite (bool_decide_false (fresh = [])), andb_true_r by done. destruct fresh as [|f fresh]; [done|].
    split; [done|]. destruct (groups h); simpl; by rewrite ?app_nil_r.
Qed.

(** * Handlers over an observer *)

Section observer.
Context (enab : enabler) (ref : nat) (base : list Field).

(** The handler has settled part of what [l] asks for and holds the rest as groups. *)
Definition holds (h : Handler) (l : list item) : Prop :=
  exists fs, core h = contextObserver enab ref fs /\
    filter real fs = base ++ map itemField (settle l) /\ l = settle l ++ map Opens (groups h).

(** What the options set and no derivation changes. *)
Definition settings (h : Handler) : bytes * bool * Z * Z :=
  (name h, addCaller h, addStackAt h, callerSkip h).

Lemma holds_WithGroup h l g : holds h l -> holds (WithGroup h g) (l ++ asked (ByGroup g)).
Proof.
  intros (fs & Hc & Hf & Hl). unfold WithGroup. simpl. case_decide; [rewrite app_nil_r; by exists fs|].
  assert (settle (l ++ [Opens g]) = settle l) as Es.
  { rewrite Hl at 1. rewrite <- app_assoc, settle_app by apply settle_idem.
    change [Opens g] with (map Opens [g]). by rewrite <- map_app, settle_Opens, app_nil_r. }
  exists fs. rewrite Es. simpl. split; [done|]. split; [done|].
  by rewrite map_app, app_assoc, <- Hl.
Qed.

Lemma holds_WithAttrs h l attrs st :
  holds h l -> exists h', WithAttrs h attrs st = Ret (h', st) /\ holds h' (l ++ asked (ByAttrs attrs)) /\
    settings h' = settings h.
Proof.
  intros (fs & Hc & Hf & Hl).
  pose proof (appendAttrs_settles h attrs fs base (settle l) (settle_idem l) Hf) as H.
  unfold WithAttrs. rewrite Hc. destruct (appendAttrs _ _ _ _) as [new added].
  rewrite app_assoc, <- Hl in H. eexists. split; [reflexivity|]. split; [|done].
  exists (fs ++ new). by destruct H.
Qed.

Lemma holds_derive ds h l st :
  holds h l -> exists h', derive ds h st = Ret (h', st) /\ holds h' (l ++ concat (map asked ds)) /\
    settings h' = settings h.
Proof.
  revert h l. induction ds as [|[g|attrs] ds IH]; intros h l Hh; simpl.
  - exists h. by rewrite app_nil_r.
  - destruct (IH _ _ (holds_WithGroup h l g Hh)) as (h' & E & H & Hn). exists h'.
    rewrite app_assoc. split; [done|]. split; [done|]. rewrite Hn. unfold WithGroup. by case_decide.
  - destruct (holds_WithAttrs h l attrs st Hh) as (h1 & E1 & H1 & Hn1).
    destruct (IH _ _ H1) as (h' & E & H & Hn). exists h'. rewrite app_assoc, (run_bind _ _ _ _ _ E1).
    split; [done|]. split; [done|congruence].
Qed.

(** The caller of a record: the frame of its program counter. *)
Definition recordCaller (h : Handler) (r : Record_) : Entry.EntryCaller :=
  match pcFrame r with
  | Some f =>
      if addCaller h && negb (Stacktrace.PC f =? 0) then
        Entry.mkCaller true (Stacktrace.PC f) (Stacktrace.File f) (Stacktrace.Line f) (Stacktrace.Function f)
      else Entry.noCaller
  | None => Entry.noCaller
  end.

(** The entry of a record handled by [h]. *)
Definition recordEntry (h : Handler) (r : Record_) (stk : list Stacktrace.Frame) (ent : Entry.Entry) : Prop :=
  exists s, ent = Entry.mkEntry (convertSlogLevel (recLevel r)) (recTime r) (name h) (recMessage r)
                    (recordCaller h r) s /\
    if addStackAt h <=? recLevel r then
      Stacktrace.Take storage (Stacktrace.frameOf (str "zapslog.(*Handler).Handle") :: stk)
        (int64 (3 + callerSkip h)) = Ret s
    else s = [].

Lemma recordEntry_settings h h' r stk ent :
  settings h' = settings h -> recordEntry h' r stk ent -> recordEntry h r stk ent.
Proof. unfold recordEntry, recordCaller, settings. by intros [= -> -> -> ->]. Qed.

Lemma Take_total stk skip :
  (1 <= storage)%nat -> exists s, Stacktrace.Take storage stk skip = Ret s.
Proof.
  intros Hs. unfold Stacktrace.Take. 
  destruct (Stacktrace.Capture_total storage (Stacktrace.frameOf (str "stacktrace.Take") :: stk)
              (int64 (skip + 1)) Stacktrace.Full Hs) as (storage' & -> & _).
  eexists. reflexivity.
Qed.

Lemma observed_check ent fs (st : Store W) :
  enabler_Enabled enab (Entry.Level ent) st = Ret (true, st) ->
  Check reflected 1 (contextObserver enab ref fs) ent None st =
    Ret (Some (mkChecked ent None false None [contextObserver enab ref fs] []), st).
Proof. intros Hon. cbn [Check]. unfold contextObserver_Check. by rewrite (run_bind _ _ _ _ _ Hon). Qed.

(** The checked entry of one observer, written. *)
Lemma observed_write ent fs fields l (st : Store W) :
  logs st !! ref = Some l ->
  exists ce, checked_Write reflected sprintEntry
      (Some (mkChecked ent None false None [contextObserver enab ref fs] [])) fields st =
    Ret ((Returns, ce), setLogs st (<[ref := l ++ [mkLogged ent (fs ++ fields)]]> (logs st))).
Proof.
  intros Hl. eexists. cbn -[mbind]. unfold appendErrors, forEach, contextObserver_Write, addLog.
  unfold mbind, M_bind. cbn. rewrite Hl. cbn. by case_match.
Qed.

Lemma annotateCaller_entry h r lvl t n msg out d a cs bs :
  annotateCaller h r (mkChecked (Entry.mkEntry lvl t n msg Entry.noCaller []) out d a cs bs) =
  mkChecked (Entry.mkEntry lvl t n msg (recordCaller h r) []) out d a cs bs.
Proof. unfold annotateCaller, recordCaller. by repeat case_match. Qed.

Lemma Handle_observed h r stk fs l (st : Store W) :
  (1 <= storage)%nat -> core h = contextObserver enab ref fs -> logs st !! ref = Some l ->
  enabler_Enabled enab (convertSlogLevel (recLevel r)) st = Ret (true, st) ->
  exists ent, recordEntry h r stk ent /\
    Handle h r stk st =
      Ret ((Returns, None),
           setLogs st (<[ref := l ++ [mkLogged ent (fs ++ (appendAttrs h (attrs r) [] false).1)]]> (logs st))).
Proof.
  intros Hs Hc Hl Hon. unfold Handle, recordEntry. rewrite Hc.
  destruct (Take_total (Stacktrace.frameOf (str "zapslog.(*Handler).Handle") :: stk) (int64 (3 + callerSkip h)) Hs)
    as [s Es].
  destruct (appendAttrs h (attrs r) [] false) as [new added].
  rewrite (run_bind _ _ _ _ _ (observed_check (Entry.mkEntry (convertSlogLevel (recLevel r)) (recTime r)
    (name h) (recMessage r) Entry.noCaller []) fs st Hon)).
  cbv zeta. rewrite annotateCaller_entry.
  destruct (addStackAt h <=? recLevel r); eexists; (split; [eexists; split; [reflexivity|done]|]).
  - erewrite run_bind by (unfold lift; erewrite run_bind by (rewrite Es; reflexivity); reflexivity).
    destruct (observed_write (Entry.mkEntry (convertSlogLevel (recLevel r)) (recTime r) (name h)
      (recMessage r) (recordCaller h r) s) fs new l st Hl) as [ce E]. by erewrite run_bind by exact E.
  - erewrite run_bind by reflexivity.
    destruct (observed_write (Entry.mkEntry (convertSlogLevel (recLevel r)) (recTime r) (name h)
      (recMessage r) (recordCaller h r) []) fs new l st Hl) as [ce E]. by erewrite run_bind by exact E.
Qed.
End observer.

(** C22: groups of a slog handler nest as they were opened, and no group is opened for
    nothing.  However [WithGroup] and [WithAttrs] were mixed to derive the handler, one
    record that the core accepts becomes one entry with the record's level, time,
    message and caller; its fields (without those to skip) are the attributes in order,
    each after the namespaces of exactly the groups opened before it, every namespace
    opened once, and the groups that no attribute follows are left out. *)
Theorem slog_groups_nest enab ref ctx ds (h : Handler) r stk l (st : Store W) :
  (1 <= storage)%nat -> core h = contextObserver enab ref ctx -> groups h = [] ->
  logs st !! ref = Some l ->
  enabler_Enabled enab (convertSlogLevel (recLevel r)) st = Ret (true, st) ->
  exists h' ent fs,
    derive ds h st = Ret (h', st) /\ recordEntry h r stk ent /\
    Handle h' r stk st =
      Ret ((Returns, None), setLogs st (<[ref := l ++ [mkLogged ent fs]]> (logs st))) /\
    filter real fs =
      filter real ctx ++ map itemField (settle (concat (map asked ds) ++ attrItems (attrs r))).
Proof.
  intros Hs Hc Hg Hl Hon.
  destruct (holds_derive enab ref (filter real ctx) ds h [] st) as (h' & E & (fs & Hc' & Hf & Hi) & Hset).
  { exists ctx. rewrite Hg. by rewrite app_nil_r. }
  destruct (Handle_observed enab ref h' r stk fs l st Hs Hc' Hl Hon) as (ent & Hent & Eh).
  pose proof (appendAttrs_settles h' (attrs r) fs _ _ (settle_idem _) Hf) as H.
  destruct (appendAttrs h' (attrs r) [] false) as [new added]. rewrite app_assoc, <- Hi in H.
  exists h', ent, (fs ++ new). split; [done|]. split; [by eapply recordEntry_settings|]. by destruct H.
Qed.

(** An inlined group with no attributes counts as a field, so the pending groups are
    opened although nothing is put in them. *)
Lemma empty_inline_opens h g :
  groups h = [g] ->
  appendAttrs h [([], KindGroup [])] [] false =
    ([Field.Namespace g; Field.Inline (Some (ODone None))], true).
Proof. intros Hg. cbn [appendAttrs]. unfold appendGroups. by rewrite Hg. Qed.
End handler.
Arguments Handler W : clear implicits.

Section demo.
#[local] Existing Instances Level.asciiStd flat_multierr.

Definition demoHandler : Handler unit := NewHandler (contextObserver (enablerLevel Level.InfoLevel) 0 []) [].

Definition demoRecord : Record_ :=
  mkRecord (mkTime 0 UTC) (str "m") LevelInfo None [([], KindAny VNil); (str "b", KindBool true)].

(** Groups [g] and [h] with an attribute between them, and an empty attribute. *)
Lemma slog_groups_nest_witness :
  exists h' ent fs,
    Handle CoreDelivery.nullReflected (fun _ => []) 64 h' demoRecord [] CoreDelivery.demoStore =
      Ret ((Returns, None), setLogs CoreDelivery.demoStore [[mkLogged ent fs]; []]) /\
    Entry.Message ent = str "m" /\
    filter real fs = [Field.Namespace (str "g"); Field.Int64 (str "a") 1; Field.Namespace (str "h");
                      Field.Bool (str "b") true].
Proof.
  destruct (slog_groups_nest CoreDelivery.nullReflected (fun _ => []) 64 (enablerLevel Level.InfoLevel) 0 []
    [ByGroup (str "g"); ByAttrs [(str "a", KindInt64 1)]; ByGroup (str "h")] demoHandler demoRecord [] []
    CoreDelivery.demoStore) as (h' & ent & fs & _ & (s & -> & _) & E & F); [lia|reflexivity..|].
  eexists h', _, fs. split; [exact E|]. split; [reflexivity|exact F].
Defined.
End demo.
End Zapslog.
