(* ===== verification/Readme.v ===== *)
(** The generator of the README, internal/readme/readme.go: it runs the benchmarks, reads
    a row for each library from their output and writes the tables.

    The iteration order of the map of libraries, the sorting of [sort.Sort], which is not
    stable, and the runs of the benchmarks are arguments.  Durations are nanoseconds. *)

From Stdlib Require Import ZArith Lia.
From S2P Require Import Prelude Strconv GoStd Level.
From stdpp Require Import base list sorting.

Local Open Scope Z_scope.
Local Open Scope zap_scope.

Module Readme.
Import Strconv.

(** What the generator uses of the standard library beyond [GoStd]. *)
Class ReadmeStd := {
  (** [time.ParseDuration]. *)
  ParseDuration : bytes -> Z + err;
  (** [float64] subtraction, and the format [%+0.f%%] of one. *)
  float64Sub : Z -> Z -> Z;
  sprintPct : Z -> bytes;
  (** [strings.TrimSpace] on text that is not ASCII. *)
  trimUnicode : bytes -> bytes
}.

Definition libraryNameToMarkdownName : list (bytes * bytes) :=
  [(str "Zap", str ":zap: zap");
   (str "Zap.Sugar", str ":zap: zap (sugared)");
   (str "stdlib.Println", str "standard library");
   (str "sirupsen/logrus", str "logrus");
   (str "go-kit/kit/log", str "go-kit");
   (str "inconshreveable/log15", str "log15");
   (str "apex/log", str "apex/log");
   (str "rs/zerolog", str "zerolog");
   (str "slog", str "slog");
   (str "slog.LogAttrs", str "slog (LogAttrs)")].

(** [m[k]] on a map of strings. *)
Definition markdownName (libraryName : bytes) : bytes :=
  default [] (snd <$> find (fun e => bool_decide (e.1 = libraryName)) libraryNameToMarkdownName).

Record benchmarkRow := mkRow {
  Name : bytes;
  Time : Z;
  AllocatedBytes : Z;
  AllocatedObjects : Z;
  ZapTime : Z;
  ZapAllocatedBytes : Z;
  ZapAllocatedObjects : Z
}.

(** [strconv.Atoi]: a sign and decimal digits, in the range of [int]. *)
Definition Atoi {std : GoStd} (s : bytes) : Z + err :=
  let failed why := inr (New_error (str "strconv.Atoi: parsing " ++ Quote s ++ str ": " ++ why)) in
  let unsigned := match s with x2b :: s' | x2d :: s' => s' | _ => s end in
  match unsigned, parse_digits unsigned 0 with
  | [], _ | _, None => failed (str "invalid syntax")
  | _, Some n =>
      let v := match s with x2d :: _ => - n | _ => n end in
      if (- 2 ^ 63 <=? v) && (v <? 2 ^ 63) then inl v else failed (str "value out of range")
  end.

(** The loop of [findUniqueSubstring], from the line found so far. *)
Fixpoint findUnique (output : bytes) (input : list bytes) (substring : bytes) : bytes + err :=
  match input with
  | [] => inl output
  | line :: input' =>
      if Strings.Contains line substring then
        if decide (output = []) then findUnique line input' substring
        else inr (New_error (str "input has duplicate substring " ++ substring))
      else findUnique output input' substring
  end.

Definition findUniqueSubstring (input : list bytes) (substring : bytes) : bytes + err :=
  findUnique [] input substring.

Definition isZap (r : benchmarkRow) : bool := Strings.Contains (Name r) (str "zap").

Definition Less (left right : benchmarkRow) : bool :=
  if Bool.eqb (isZap left) (isZap right) then Time left <? Time right else isZap left.

Notation "'let?' x := m 'in' k" :=
  (match m with inl x => k | inr e => inr e end)
  (at level 200, x pattern, m at level 100, k at level 200).

Section readme.
Context {std : GoStd} {rstd : ReadmeStd}.

(** [go test -bench=...] in the directory of the benchmarks: its output and error. *)
Context (CombinedOutput : bytes -> bytes * error).

(** [sort.Sort(benchmarkRowsByTime(rows))]. *)
Context (Sort : list benchmarkRow -> list benchmarkRow).

(** The order in which [range libraryNameToMarkdownName] gives the keys. *)
Context (order : list bytes).

Definition pct (val baseline : Z) : bytes :=
  sprintPct (float64Sub (float64Mul (float64Div (intToFloat64 val) (intToFloat64 baseline)) (intToFloat64 100))
               (intToFloat64 100)).

Definition String_ (b : benchmarkRow) : bytes :=
  let t := Time b in
  let tp := pct t (ZapTime b) in
  str "| " ++ Name b ++ str " | " ++ itoa t ++ str " ns/op | " ++ tp ++ str " | " ++
  itoa (AllocatedObjects b) ++ str " allocs/op".

Definition getBenchmarkOutput (benchmarkName : bytes) : list bytes + err :=
  match CombinedOutput benchmarkName with
  | (output, Some e) =>
      inr (New_error (str "error running 'go test -bench=" ++ Quote benchmarkName ++ str "': " ++
                      Error_text e ++ [x0a] ++ output))
  | (output, None) => inl (Strings.Split x0a output)
  end.

(** A column without the blanks around it and the unit. *)
Definition column (split : list bytes) (i : nat) (unit : bytes) : bytes :=
  Strings.TrimSuffix (Strings.TrimSpace trimUnicode (default [] (split !! i))) unit.

Definition getBenchmarkRow (input : list bytes) (benchmarkName libraryName : bytes) (baseline : option benchmarkRow)
    : option benchmarkRow + err :=
  let? line := findUniqueSubstring input (benchmarkName ++ str "/" ++ libraryName ++ str "-") in
  if decide (line = []) then inl None
  else
    let split := Strings.Split x09 line in
    if (length split <? 5)%nat then inr (New_error (str "unknown benchmark line: " ++ line))
    else
      let? duration := ParseDuration (filter (fun b => b <> x20) (column split 2 (str "/op"))) in
      let? allocatedBytes := Atoi (column split 3 (str " B/op")) in
      let? allocatedObjects := Atoi (column split 4 (str " allocs/op")) in
      let r := mkRow (markdownName libraryName) duration allocatedBytes allocatedObjects in
      inl (Some (match baseline with
                 | Some b => r (Time b) (AllocatedBytes b) (AllocatedObjects b)
                 | None => r 0 0 0
                 end)).

(** The loop over the libraries. *)
Fixpoint collect (row : bytes -> option benchmarkRow + err) (libraries : list bytes) : list benchmarkRow + err :=
  match libraries with
  | [] => inl []
  | libraryName :: libraries' =>
      let? r := row libraryName in
      let? rows := collect row libraries' in
      inl (match r with Some r => r :: rows | None => rows end)
  end.

Definition header : list bytes :=
  [str "| Package | Time | Time % to zap | Objects Allocated |";
   str "| :------ | :--: | :-----------: | :---------------: |"].

Definition getBenchmarkRows (benchmarkName : bytes) : bytes + err :=
  let? benchmarkOutput := getBenchmarkOutput benchmarkName in
  let? baseline := getBenchmarkRow benchmarkOutput benchmarkName (str "Zap") None in
  let? benchmarkRows := collect (fun libraryName => getBenchmarkRow benchmarkOutput benchmarkName libraryName baseline)
                          order in
  inl (Strings.Join (header ++ map String_ (Sort benchmarkRows)) [x0a]).

Record tmplData := mkTmplData {
  BenchmarkAddingFields : bytes;
  BenchmarkAccumulatedContext : bytes;
  BenchmarkWithoutFields : bytes
}.

Definition getTmplData : tmplData + err :=
  let? adding := getBenchmarkRows (str "BenchmarkAddingFields") in
  let? accumulated := getBenchmarkRows (str "BenchmarkAccumulatedContext") in
  let? without := getBenchmarkRows (str "BenchmarkWithoutFields") in
  inl (mkTmplData adding accumulated without).

(** [do], with what reading the standard input gives and with the template that
    text/template makes of it, a function that writes to the world. *)
Definition do {W : Type} (ReadAll : bytes + err) (Parse : bytes -> (tmplData -> W -> error * W) + err) (w : W)
    : error * W :=
  match getTmplData with
  | inr e => (Some e, w)
  | inl tmplData =>
      match ReadAll with
      | inr e => (Some e, w)
      | inl data =>
          match Parse data with
          | inr e => (Some e, w)
          | inl Execute => Execute tmplData w
          end
      end
  end.
End readme.

(** * Lemmas *)

Lemma Contains_empty sub : sub <> [] -> Strings.Contains [] sub = false.
Proof. intros H. simpl. rewrite bool_decide_false; [done|]. by destruct sub. Qed.

Lemma findUnique_found l input sub :
  l <> [] -> findUnique l input sub =
  if decide (filter (fun x => Strings.Contains x sub = true) input = []) then inl l
  else inr (New_error (str "input has duplicate substring " ++ sub)).
Proof.
  intros Hl. induction input as [|x input IH]; [done|]. cbn [findUnique]. rewrite filter_cons.
  destruct (Strings.Contains x sub); [|done]. by rewrite decide_False.
Qed.

(** The one line that contains the text, none, or an error. *)
Lemma findUniqueSubstring_spec input sub :
  sub <> [] -> findUniqueSubstring input sub =
  match filter (fun x => Strings.Contains x sub = true) input with
  | [] => inl []
  | [line] => inl line
  | _ => inr (New_error (str "input has duplicate substring " ++ sub))
  end.
Proof.
  intros Hs. unfold findUniqueSubstring. induction input as [|x input IH]; [done|]. cbn [findUnique].
  rewrite filter_cons. destruct (Strings.Contains x sub) eqn:E; [|done].
  rewrite findUnique_found; [by destruct (filter _ input)|]. intros ->. by rewrite Contains_empty in E.
Qed.

(** [Less] is a strict weak order; [notAfter] is the order of a sorted slice. *)
Definition notAfter (a b : benchmarkRow) : Prop := Less b a = false.

#[global] Instance notAfter_decision a b : Decision (notAfter a b).
Proof. unfold notAfter. apply _. Defined.

#[global] Instance notAfter_trans : Transitive notAfter.
Proof.
  intros a b c. unfold notAfter, Less. destruct (isZap a), (isZap b), (isZap c); simpl; rewrite ?Z.ltb_ge; (done || lia).
Qed.

#[global] Instance notAfter_total : Total notAfter.
Proof.
  intros a b. unfold notAfter, Less. destruct (isZap a), (isZap b); simpl; rewrite ?Z.ltb_ge; (by auto) || lia.
Qed.

(** What decides between two rows. *)
Definition key (r : benchmarkRow) : bool * Z := (isZap r, Time r).

Lemma notAfter_key a b : notAfter a b -> notAfter b a -> key a = key b.
Proof.
  unfold notAfter, Less, key. destruct (isZap a), (isZap b); simpl; rewrite ?Z.ltb_ge; try done; intros; f_equal; lia.
Qed.

Lemma notAfter_strict a b : notAfter a b -> key a <> key b -> Less a b = true.
Proof.
  intros H Hk. destruct (Less a b) eqn:E; [done|]. by destruct Hk; apply notAfter_key.
Qed.

(** What [sort.Sort] documents. *)
Definition sorts (Sort : list benchmarkRow -> list benchmarkRow) : Prop :=
  forall rows, Sort rows ≡ₚ rows /\ Sorted notAfter (Sort rows).

Lemma key_inj rows a b : NoDup (map key rows) -> a ∈ rows -> b ∈ rows -> key a = key b -> a = b.
Proof.
  intros Hn [i Ha]%list_elem_of_lookup [j Hb]%list_elem_of_lookup E.
  assert (i = j) as <-; [|congruence]. eapply (NoDup_lookup _ _ _ (key a) Hn); rewrite list_lookup_fmap.
  - by rewrite Ha.
  - by rewrite Hb, E.
Qed.

(** Rows with different keys can be sorted in one way only. *)
Lemma sorts_unique Sort1 Sort2 rows1 rows2 :
  sorts Sort1 -> sorts Sort2 -> rows1 ≡ₚ rows2 -> NoDup (map key rows1) -> Sort1 rows1 = Sort2 rows2.
Proof.
  intros H1 H2 Hp Hn. destruct (H1 rows1) as [P1 S1], (H2 rows2) as [P2 S2].
  apply (StronglySorted_unique_strong notAfter); [|by apply Sorted_StronglySorted; [apply _|]..|by rewrite P1, P2].
  intros a b Ha Hb Hab Hba. apply (key_inj rows1); [done|..|by apply notAfter_key].
  - by rewrite <- P1.
  - by rewrite Hp, <- P2.
Qed.

Lemma sorts_strict Sort rows : sorts Sort -> NoDup (map key rows) -> StronglySorted (fun a b => Less a b = true) (Sort rows).
Proof.
  intros H Hn. destruct (H rows) as [P S1]. apply Sorted_StronglySorted in S1; [|apply _].
  assert (NoDup (map key (Sort rows))) as Hn2 by (by rewrite P). clear P Hn.
  induction S1 as [|r rs _ IH Hr]; constructor; apply NoDup_cons in Hn2 as [Hk Hn2]; [by apply IH|].
  apply Forall_forall. intros x Hx. rewrite Forall_forall in Hr. apply notAfter_strict; [by apply Hr|].
  intros E. apply Hk. rewrite E. by apply list_elem_of_fmap_2.
Qed.

Lemma collect_perm row order1 order2 rows1 :
  order1 ≡ₚ order2 -> collect row order1 = inl rows1 -> exists rows2, collect row order2 = inl rows2 /\ rows1 ≡ₚ rows2.
Proof.
  intros Hp. revert rows1. induction Hp as [|n l1 l2 _ IH|n m l|l1 l2 l3 _ IH1 _ IH2]; intros rows1; cbn [collect].
  - intros [= <-]. by exists [].
  - destruct (row n) as [r|e]; [|done]. destruct (collect row l1) as [rows|e]; [|done]. intros [= <-].
    destruct (IH rows eq_refl) as (rows2 & -> & Hr). eexists. split; [done|]. destruct r; by rewrite Hr.
  - destruct (row m) as [rm|e], (row n) as [rn|e'], (collect row l) as [rows|]; try done. intros [= <-].
    eexists. split; [done|]. destruct rm, rn; try done. apply Permutation_swap.
  - intros H. destruct (IH1 _ H) as (rows2 & H2 & P2). destruct (IH2 _ H2) as (rows3 & H3 & P3).
    exists rows3. split; [done|]. by rewrite P2.
Qed.

(** The table does not depend on chance.  When no two rows have the same time (a row of
    zap and one of another library may), the table of a benchmark is the same for every
    iteration order of the map of libraries and every correct sort, stable or not; it has
    the header and then every row, those of zap first, each group from the fastest on. *)
Theorem readme_table_deterministic {std : GoStd} {rstd : ReadmeStd} CombinedOutput Sort1 Sort2 order1 order2 name
    output baseline rows :
  sorts Sort1 -> sorts Sort2 -> order1 ≡ₚ order2 ->
  getBenchmarkOutput CombinedOutput name = inl output ->
  getBenchmarkRow output name (str "Zap") None = inl baseline ->
  collect (fun libraryName => getBenchmarkRow output name libraryName baseline) order1 = inl rows ->
  NoDup (map key rows) ->
  exists sorted, sorted ≡ₚ rows /\ StronglySorted (fun a b => Less a b = true) sorted /\
    getBenchmarkRows CombinedOutput Sort1 order1 name = inl (Strings.Join (header ++ map String_ sorted) [x0a]) /\
    getBenchmarkRows CombinedOutput Sort2 order2 name = inl (Strings.Join (header ++ map String_ sorted) [x0a]).
Proof.
  intros H1 H2 Hp Ho Hb Hc Hn. destruct (collect_perm _ _ order2 _ Hp Hc) as (rows2 & Hc2 & Hr).
  exists (Sort1 rows). split; [apply H1|]. split; [by apply sorts_strict|]. unfold getBenchmarkRows.
  rewrite Ho, Hb, Hc, Hc2. by rewrite (sorts_unique Sort1 Sort2 rows rows2 H1 H2 Hr Hn).
Qed.

(** * A run *)

Section demo.
#[local] Existing Instance Level.asciiStd.

#[local] Instance demoStd : ReadmeStd := {|
  ParseDuration s := Atoi (Strings.TrimSuffix s (str "ns"));
  float64Sub := Z.sub;
  sprintPct z := itoa z ++ str "%";
  trimUnicode s := s
|}.

Definition demoLine (library ns : bytes) : bytes :=
  str "BenchmarkAddingFields/" ++ library ++ str "-8" ++ [x09] ++ str " 100" ++ [x09] ++ str "  " ++ ns ++ str " ns/op" ++
  [x09] ++ str " 16 B/op" ++ [x09] ++ str " 5 allocs/op".

Definition demoOutput (name : bytes) : bytes * error :=
  (Strings.Join [str "goos: linux"; demoLine (str "rs/zerolog") (str "300"); demoLine (str "Zap") (str "656");
                 demoLine (str "slog") (str "250"); str "PASS"] [x0a], None).

Definition demoOrder : list bytes := map fst libraryNameToMarkdownName.

Definition demoBaseline : benchmarkRow := mkRow (str ":zap: zap") 656 16 5 0 0 0.

Definition demoRow (name : bytes) (ns : Z) : benchmarkRow := mkRow name ns 16 5 656 16 5.

Definition mergeSort (rows : list benchmarkRow) : list benchmarkRow := merge_sort notAfter rows.

Lemma mergeSort_sorts : sorts mergeSort.
Proof. intros rows. split; [apply merge_sort_Permutation|apply (Sorted_merge_sort notAfter)]. Qed.

Lemma mergeSort_rev_sorts : sorts (fun rows => mergeSort (rev rows)).
Proof.
  intros rows. split; [|apply mergeSort_sorts]. transitivity (rev rows); [apply mergeSort_sorts|].
  symmetry. apply Permutation_rev.
Qed.

(** Zap is first although it is the slowest. *)
Lemma readme_table_deterministic_witness :
  exists table,
    getBenchmarkRows demoOutput mergeSort demoOrder (str "BenchmarkAddingFields") = inl table /\
    getBenchmarkRows demoOutput (fun rows => mergeSort (rev rows)) (rev demoOrder) (str "BenchmarkAddingFields") = inl table /\
    table = Strings.Join (header ++ map String_
      [demoRow (str ":zap: zap") 656; demoRow (str "slog") 250; demoRow (str "zerolog") 300]) [x0a].
Proof.
  destruct (readme_table_deterministic demoOutput mergeSort (fun rows => mergeSort (rev rows)) demoOrder (rev demoOrder)
    (str "BenchmarkAddingFields") (Strings.Split x0a (demoOutput []).1) (Some demoBaseline)
    [demoRow (str ":zap: zap") 656; demoRow (str "zerolog") 300; demoRow (str "slog") 250]
    mergeSort_sorts mergeSort_rev_sorts (Permutation_rev demoOrder)) as (sorted & _ & _ & E1 & E2).
  - vm_compute. reflexivity.
  - vm_compute. reflexivity.
  - vm_compute. reflexivity.
  - apply (bool_decide_unpack _). vm_compute. exact I.
  - eexists. split; [exact E1|]. split; [exact E2|].
    assert (getBenchmarkRows demoOutput mergeSort demoOrder (str "BenchmarkAddingFields") = inl (Strings.Join
      (header ++ map String_ [demoRow (str ":zap: zap") 656; demoRow (str "slog") 250; demoRow (str "zerolog") 300]) [x0a]))
      as E by (vm_compute; reflexivity).
    congruence.
Defined.
End demo.
End Readme.
